(** * sqlplorer: the data engine of [src/App.jsx], embedded in Rocq

    The development follows the engine leaf-first, as the program does:
    strings and numbers of the host language, plain objects, the lexical
    value decoder and the SQL dump extractor ([parseSQLFile]), the column
    type classifier ([detectColumnType], [processTableData]), the
    relational joiner inside [processContent], the query pipeline
    ([switchTable], the sort comparators, [categoryBreakdown]) and the
    CSV export ([exportCSV]).

    Modelling conventions.
    - A JavaScript string is a [list ascii].  For ASCII text this is the
      sequence of its code units; the three non-ASCII currency signs the
      engine strips are matched as their UTF-8 byte sequences.  Case
      mapping and the character classes are those of ASCII, so a
      statement on the characters of a text is a statement on ASCII
      text ([asciiOnly] where a theorem depends on it).
    - A JavaScript number is an exact decimal [m * 10^e] (kept in normal
      form), or [NaN], or an infinity.  Sums and products of cells are
      taken exactly; they are the binary64 results where no rounding
      occurs, and the theorems on totals say so of their inputs
      ([exactSum]: whole numbers whose absolute values add up to at most
      [2^53]).  The two threshold tests of the classifier, whose outcome
      depends on rounding, are evaluated with correctly rounded binary64
      arithmetic (module [B64]).
    - A plain object is an insertion-ordered association list with the
      key order of [Object.keys].  The objects the engine keys by data
      ([tableSchemas], [extractedTables], [cardsMap], [programsMap],
      [breakdown], [byCard], [byProgram]) are read through their
      prototype, as the code reads them: module [Host] lists what every
      object inherits in a realm nobody has extended, an assignment to
      [__proto__] changes the prototype instead of making a property,
      and a call on an inherited member that is not what the code
      expects throws (the functions that can throw return an [option]).
    - [Array.prototype.sort] is [hostSort], a stable insertion sort: the
      standard fixes the result of a sort for a consistent comparator
      only, and the theorems on sorted lists use that it permutes.
    - [Date.parse] is implementation-defined and is a parameter of the
      classifier.  The diagnostic log is not part of the model. *)

From Stdlib Require Import Ascii String List ZArith Lia Bool Permutation.
Import ListNotations.

Set Implicit Arguments.

(* ===================================================================== *)
(** ** Strings *)
(* ===================================================================== *)

Abbreviation jstr := (list ascii).

Definition str (s : string) : jstr := list_ascii_of_string s.

Module Str.

Definition code (c : ascii) : nat := nat_of_ascii c.

Definition isDigit (c : ascii) : bool := (48 <=? code c) && (code c <=? 57).
Definition isUpper (c : ascii) : bool := (65 <=? code c) && (code c <=? 90).
Definition isLower (c : ascii) : bool := (97 <=? code c) && (code c <=? 122).

(** [\w] *)
Definition isWord (c : ascii) : bool :=
  isDigit c || isUpper c || isLower c || (code c =? 95).

(** [\s], and the characters [trim] removes (ASCII range). *)
Definition isSpace (c : ascii) : bool :=
  match code c with
  | 9 | 10 | 11 | 12 | 13 | 32 => true
  | _ => false
  end.

(** Line terminators: [.] does not match them, [$] with the [m] flag
    matches before them. *)
Definition isNewline (c : ascii) : bool :=
  match code c with
  | 10 | 13 => true
  | _ => false
  end.

Definition toLowerChar (c : ascii) : ascii :=
  if isUpper c then ascii_of_nat (code c + 32) else c.
Definition toUpperChar (c : ascii) : ascii :=
  if isLower c then ascii_of_nat (code c - 32) else c.

Definition toLowerCase (s : jstr) : jstr := map toLowerChar s.
Definition toUpperCase (s : jstr) : jstr := map toUpperChar s.

Definition eqc (a b : ascii) : bool := Ascii.eqb a b.

Fixpoint eqb (a b : jstr) : bool :=
  match a, b with
  | [], [] => true
  | x :: a', y :: b' => eqc x y && eqb a' b'
  | _, _ => false
  end.

Fixpoint startsWith (p s : jstr) : bool :=
  match p, s with
  | [], _ => true
  | x :: p', y :: s' => eqc x y && startsWith p' s'
  | _ :: _, [] => false
  end.

Definition endsWith (p s : jstr) : bool := startsWith (rev p) (rev s).

Fixpoint includes (p s : jstr) : bool :=
  startsWith p s ||
  match s with
  | [] => false
  | _ :: s' => includes p s'
  end.

Fixpoint trimStart (s : jstr) : jstr :=
  match s with
  | c :: s' => if isSpace c then trimStart s' else s
  | [] => []
  end.
Definition trimEnd (s : jstr) : jstr := rev (trimStart (rev s)).
Definition trim (s : jstr) : jstr := trimEnd (trimStart s).

(** [s.slice(1, -1)] *)
Definition slice_1_m1 (s : jstr) : jstr := removelast (tl s).

(** [s.slice(0, n)] *)
Definition slice0 (n : nat) (s : jstr) : jstr := firstn n s.

(** [s.replace(/pat/g, rep)] for a literal, non-empty pattern: matches
    are found left to right and do not overlap.  [skip] counts the
    characters of the current match still to be dropped. *)
Fixpoint replaceAll_go (pat rep : jstr) (skip : nat) (s : jstr) : jstr :=
  match s with
  | [] => []
  | c :: s' =>
      match skip with
      | S k => replaceAll_go pat rep k s'
      | O =>
          if startsWith pat s
          then rep ++ replaceAll_go pat rep (length pat - 1) s'
          else c :: replaceAll_go pat rep 0 s'
      end
  end.
Definition replaceAll (pat rep s : jstr) : jstr := replaceAll_go pat rep 0 s.

(** [s.replace(/[...]/g, '')] for a class given as the list of its
    members (each a non-empty byte sequence). *)
Definition matchAny (pats : list jstr) (s : jstr) : option nat :=
  match find (fun p => startsWith p s) pats with
  | Some p => Some (length p)
  | None => None
  end.
Fixpoint stripAll_go (pats : list jstr) (skip : nat) (s : jstr) : jstr :=
  match s with
  | [] => []
  | c :: s' =>
      match skip with
      | S k => stripAll_go pats k s'
      | O =>
          match matchAny pats s with
          | Some n => stripAll_go pats (n - 1) s'
          | None => c :: stripAll_go pats 0 s'
          end
      end
  end.
Definition stripAll (pats : list jstr) (s : jstr) : jstr := stripAll_go pats 0 s.

(** [s.split(',')] *)
Fixpoint split_go (sep : ascii) (cur : jstr) (s : jstr) : list jstr :=
  match s with
  | [] => [rev cur]
  | c :: s' =>
      if eqc c sep then rev cur :: split_go sep [] s'
      else split_go sep (c :: cur) s'
  end.
Definition split (sep : ascii) (s : jstr) : list jstr := split_go sep [] s.

(** [parts.join(sep)] *)
Fixpoint join (sep : jstr) (parts : list jstr) : jstr :=
  match parts with
  | [] => []
  | [p] => p
  | p :: rest => p ++ sep ++ join sep rest
  end.

End Str.

(* ===================================================================== *)
(** ** Numbers *)
(* ===================================================================== *)

Module Num.

Local Open Scope Z_scope.

(** A finite number [mant * 10^expo].  Normal form: [mant] is not a
    multiple of ten, and zero is [(0, 0)]; negative zero is not
    distinguished from zero, which no operation of the engine does. *)
Record dec : Set := Dec { mant : Z; expo : Z }.

Fixpoint strip10 (fuel : nat) (m e : Z) : dec :=
  match fuel with
  | O => Dec m e
  | S f => if m mod 10 =? 0 then strip10 f (m / 10) (e + 1) else Dec m e
  end.

Definition normalize (m e : Z) : dec :=
  if m =? 0 then Dec 0 0
  else strip10 (Z.to_nat (Z.log2 (Z.abs m))) m e.

Inductive number : Set :=
| NaN
| Inf (negative : bool)
| Fin (d : dec).

Definition ofZ (z : Z) : number := Fin (normalize z 0).
Definition zero : number := Fin (Dec 0 0).

Definition isNaN (n : number) : bool :=
  match n with NaN => true | _ => false end.
Definition isFiniteNum (n : number) : bool :=
  match n with Fin _ => true | _ => false end.

(** Sign of a number as a comparison with zero. *)
Definition sgn (d : dec) : Z := Z.sgn (mant d).

(** Both mantissas brought to the smaller exponent. *)
Definition align (a b : dec) : Z * Z :=
  let e := Z.min (expo a) (expo b) in
  (mant a * 10 ^ (expo a - e), mant b * 10 ^ (expo b - e)).

Definition dadd (a b : dec) : dec :=
  let '(x, y) := align a b in normalize (x + y) (Z.min (expo a) (expo b)).
Definition dmul (a b : dec) : dec :=
  normalize (mant a * mant b) (expo a + expo b).
Definition dcompare (a b : dec) : comparison :=
  let '(x, y) := align a b in x ?= y.

(** [a + b] *)
Definition add (a b : number) : number :=
  match a, b with
  | NaN, _ | _, NaN => NaN
  | Inf s, Inf t => if Bool.eqb s t then Inf s else NaN
  | Inf s, Fin _ | Fin _, Inf s => Inf s
  | Fin x, Fin y => Fin (dadd x y)
  end.

(** [a * b] *)
Definition mul (a b : number) : number :=
  match a, b with
  | NaN, _ | _, NaN => NaN
  | Inf s, Inf t => Inf (xorb s t)
  | Inf s, Fin d | Fin d, Inf s =>
      if mant d =? 0 then NaN else Inf (xorb s (mant d <? 0))
  | Fin x, Fin y => Fin (dmul x y)
  end.

Definition neg (a : number) : number :=
  match a with
  | NaN => NaN
  | Inf s => Inf (negb s)
  | Fin d => Fin (Dec (- mant d) (expo d))
  end.

(** [a - b] *)
Definition sub (a b : number) : number := add a (neg b).

(** [a < b]; false as soon as one side is [NaN]. *)
Definition ltb (a b : number) : bool :=
  match a, b with
  | NaN, _ | _, NaN => false
  | Inf s, Inf t => s && negb t
  | Inf s, Fin _ => s
  | Fin _, Inf t => negb t
  | Fin x, Fin y => match dcompare x y with Lt => true | _ => false end
  end.

(** Truthiness of a number: neither zero nor [NaN]. *)
Definition truthy (n : number) : bool :=
  match n with
  | NaN => false
  | Inf _ => true
  | Fin d => negb (mant d =? 0)
  end.

(** *** Number to string ([Number::toString], radix 10) *)

Definition digitChar (d : Z) : ascii := ascii_of_nat (48 + Z.to_nat d).

Fixpoint digits_go (fuel : nat) (n : Z) (acc : jstr) : jstr :=
  match fuel with
  | O => acc
  | S f =>
      let acc' := digitChar (n mod 10) :: acc in
      if n <? 10 then acc' else digits_go f (n / 10) acc'
  end.

(** Decimal digits of a non-negative integer. *)
Definition digitsOf (n : Z) : jstr :=
  digits_go (S (Z.to_nat (Z.log2 n))) n [].

Definition zeros (n : Z) : jstr := repeat "0"%char (Z.to_nat n).

Definition decToString (d : dec) : jstr :=
  if mant d =? 0 then str "0"
  else
    let s := digitsOf (Z.abs (mant d)) in
    let k := Z.of_nat (length s) in
    let n := k + expo d in
    let body :=
      if (k <=? n) && (n <=? 21) then s ++ zeros (n - k)
      else if (0 <? n) && (n <=? 21) then
        firstn (Z.to_nat n) s ++ str "." ++ skipn (Z.to_nat n) s
      else if (-6 <? n) && (n <=? 0) then
        str "0." ++ zeros (- n) ++ s
      else
        let ex := n - 1 in
        let sign := if ex <? 0 then str "-" else str "+" in
        let frac := match tl s with [] => [] | t => str "." ++ t end in
        firstn 1 s ++ frac ++ str "e" ++ sign ++ digitsOf (Z.abs ex)
    in (if mant d <? 0 then str "-" else []) ++ body.

Definition toString (n : number) : jstr :=
  match n with
  | NaN => str "NaN"
  | Inf false => str "Infinity"
  | Inf true => str "-Infinity"
  | Fin d => decToString d
  end.

(** *** String to number *)

Definition digitVal (c : ascii) : Z := Z.of_nat (Str.code c - 48).

Definition digitsToZ (ds : jstr) : Z :=
  fold_left (fun acc c => 10 * acc + digitVal c) ds 0.

Fixpoint span (p : ascii -> bool) (s : jstr) : jstr * jstr :=
  match s with
  | c :: s' =>
      if p c then let '(a, b) := span p s' in (c :: a, b) else ([], s)
  | [] => ([], [])
  end.

(** An optional sign: is it negative, and what follows it. *)
Definition takeSign (s : jstr) : bool * jstr :=
  match s with
  | "-"%char :: s' => (true, s')
  | "+"%char :: s' => (false, s')
  | _ => (false, s)
  end.

(** The exponent part [e[+-]digits], when one is there. *)
Definition takeExponent (s : jstr) : Z * jstr :=
  match s with
  | c :: s' =>
      if Str.eqc c "e" || Str.eqc c "E" then
        let '(sg, s1) := takeSign s' in
        let '(ds, s2) := span Str.isDigit s1 in
        match ds with
        | [] => (0, s)
        | _ => ((if sg then - digitsToZ ds else digitsToZ ds), s2)
        end
      else (0, s)
  | [] => (0, s)
  end.

(** The longest prefix of [s] that is a [StrDecimalLiteral], with the
    text left over; [None] when no prefix is one. *)
Definition decimalPrefix (s : jstr) : option (number * jstr) :=
  let '(sg, s0) := takeSign s in
  if Str.startsWith (str "Infinity") s0 then
    Some (Inf sg, skipn 8 s0)
  else
    let '(ip, s1) := span Str.isDigit s0 in
    let '(fp, s2) :=
      match s1 with
      | "."%char :: s1' =>
          let '(fp, s2) := span Str.isDigit s1' in
          match ip, fp with
          | [], [] => ([], s1)
          | _, _ => (fp, s2)
          end
      | _ => ([], s1)
      end in
    match ip ++ fp with
    | [] => None
    | ds =>
        let '(ex, s3) := takeExponent s2 in
        let m := digitsToZ ds in
        Some (Fin (normalize (if sg then - m else m)
                             (ex - Z.of_nat (length fp))), s3)
    end.

(** [parseFloat(s)] for a string argument. *)
Definition parseFloat (s : jstr) : number :=
  match decimalPrefix (Str.trimStart s) with
  | Some (n, _) => n
  | None => NaN
  end.

Definition isHexDigit (c : ascii) : bool :=
  Str.isDigit c ||
  ((65 <=? Str.code c) && (Str.code c <=? 70))%nat ||
  ((97 <=? Str.code c) && (Str.code c <=? 102))%nat.
Definition hexVal (c : ascii) : Z :=
  if Str.isDigit c then digitVal c
  else if Str.isUpper c then Z.of_nat (Str.code c - 55)
  else Z.of_nat (Str.code c - 87).
Definition isOctDigit (c : ascii) : bool :=
  ((48 <=? Str.code c) && (Str.code c <=? 55))%nat.
Definition isBinDigit (c : ascii) : bool :=
  ((48 <=? Str.code c) && (Str.code c <=? 49))%nat.

Definition radixLiteral (base : Z) (ok : ascii -> bool) (ds : jstr) : number :=
  match ds with
  | [] => NaN
  | _ =>
      if forallb ok ds
      then ofZ (fold_left (fun acc c => base * acc + hexVal c) ds 0)
      else NaN
  end.

(** [Number(s)] for a string argument ([StringToNumber]): the whole
    trimmed text must be a numeric literal; the empty text is zero. *)
Definition toNumber (s : jstr) : number :=
  match Str.trim s with
  | [] => zero
  | "0"%char :: c :: ds =>
      if Str.eqc c "x" || Str.eqc c "X" then radixLiteral 16 isHexDigit ds
      else if Str.eqc c "o" || Str.eqc c "O" then radixLiteral 8 isOctDigit ds
      else if Str.eqc c "b" || Str.eqc c "B" then radixLiteral 2 isBinDigit ds
      else match decimalPrefix ("0"%char :: c :: ds) with
           | Some (n, []) => n
           | _ => NaN
           end
  | t =>
      match decimalPrefix t with
      | Some (n, []) => n
      | _ => NaN
      end
  end.

(** [isFinite(s)] for a string argument. *)
Definition isFiniteStr (s : jstr) : bool := isFiniteNum (toNumber s).

End Num.

(** Binary64 values of the few constant expressions whose rounding
    decides a branch: a positive double is [sig * 2^ex]. *)
Module B64.

Local Open Scope Z_scope.

Record t : Set := Mk { sig : Z; ex : Z }.

(** The positive rational [p / q] rounded to the nearest double, ties
    to even (53-bit significand; the values met here are far from the
    subnormal and overflow ranges). *)
Definition rne (p q : Z) : t :=
  let scaled (e : Z) : Z * Z :=
    if 0 <=? e then (p, q * 2 ^ e) else (p * 2 ^ (- e), q) in
  let e0 := Z.log2 p - Z.log2 q - 52 in
  let e := let '(n, d) := scaled e0 in if n / d <? 2 ^ 52 then e0 - 1 else e0 in
  let '(n, d) := scaled e in
  let f := n / d in
  let r := n mod d in
  let m :=
    if 2 * r <? d then f
    else if d <? 2 * r then f + 1
    else if Z.even f then f else f + 1 in
  Mk m e.

Definition ofNat (n : nat) : t := Mk (Z.of_nat n) 0.

(** The literals [0.7] and [0.3]. *)
Definition c0_7 : t := rne 7 10.
Definition c0_3 : t := rne 3 10.

(** [a * b], for [a] a small positive integer. *)
Definition mul (a b : t) : t :=
  let m := sig a * sig b in
  let e := ex a + ex b in
  if m =? 0 then Mk 0 0
  else if 0 <=? e then rne (m * 2 ^ e) 1 else rne m (2 ^ (- e)).

(** [a / b] for positive integers. *)
Definition divNat (a b : nat) : t :=
  if (a =? 0)%nat then Mk 0 0 else rne (Z.of_nat a) (Z.of_nat b).

Definition ltb (a b : t) : bool :=
  let e := Z.min (ex a) (ex b) in
  sig a * 2 ^ (ex a - e) <? sig b * 2 ^ (ex b - e).

End B64.

(* ===================================================================== *)
(** ** Values and plain objects *)
(* ===================================================================== *)

(** The values a cell, a key or a summary field can hold. *)
Inductive value : Set :=
| VUndef
| VNull
| VNum (n : Num.number)
| VStr (s : jstr).

(** [String(v)], also the property key a value is converted to. *)
Definition toStr (v : value) : jstr :=
  match v with
  | VUndef => str "undefined"
  | VNull => str "null"
  | VNum n => Num.toString n
  | VStr s => s
  end.

(** Truthiness: [!v] is [negb (truthy v)]. *)
Definition truthy (v : value) : bool :=
  match v with
  | VUndef | VNull => false
  | VNum n => Num.truthy n
  | VStr s => match s with [] => false | _ => true end
  end.

Definition isNullish (v : value) : bool :=
  match v with
  | VUndef | VNull => true
  | _ => false
  end.

Definition isNumber (v : value) : bool :=
  match v with
  | VNum _ => true
  | _ => false
  end.

(** [a || b] *)
Definition orElse (a b : value) : value := if truthy a then a else b.

(** [parseFloat(v)]: the argument is converted to a string first. *)
Definition parseFloatV (v : value) : Num.number := Num.parseFloat (toStr v).

(** [parseFloat(v) || 0] *)
Definition parseFloatOr0 (v : value) : Num.number :=
  let n := parseFloatV v in if Num.truthy n then n else Num.zero.

Definition num_eq_dec (a b : Num.number) : {a = b} + {a <> b}.
Proof. repeat decide equality. Defined.

Definition value_eq_dec (a b : value) : {a = b} + {a <> b}.
Proof. repeat decide equality. Defined.

(** [a === b]; it differs from structural equality on [NaN] only. *)
Definition strictEq (a b : value) : bool :=
  match a, b with
  | VNum Num.NaN, _ | _, VNum Num.NaN => false
  | _, _ => if value_eq_dec a b then true else false
  end.

Module Obj.

(** An object with fields of type [A], in insertion order; a key occurs
    at most once. *)
Definition t (A : Type) : Type := list (jstr * A).

Section WithField.
Variable A : Type.

Definition empty : t A := [].

(** [o[k]]; [None] stands for an absent property. *)
Fixpoint get (o : t A) (k : jstr) : option A :=
  match o with
  | [] => None
  | (k', v) :: o' => if Str.eqb k' k then Some v else get o' k
  end.

(** [o[k] = v]: an existing property keeps its place. *)
Fixpoint set (k : jstr) (v : A) (o : t A) : t A :=
  match o with
  | [] => [(k, v)]
  | (k', v') :: o' =>
      if Str.eqb k' k then (k, v) :: o' else (k', v') :: set k v o'
  end.

Definition has (o : t A) (k : jstr) : bool :=
  match get o k with Some _ => true | None => false end.

(** Array indices: canonical decimal strings below [2^32 - 1]. *)
Definition indexOf (k : jstr) : option Z :=
  match k with
  | [] => None
  | c :: rest =>
      if forallb Str.isDigit k
         && (negb (Str.eqc c "0") || match rest with [] => true | _ => false end)
         && (Num.digitsToZ k <? 2 ^ 32 - 1)%Z
      then Some (Num.digitsToZ k) else None
  end.

Fixpoint insertIdx (e : Z * (jstr * A)) (l : list (Z * (jstr * A)))
  : list (Z * (jstr * A)) :=
  match l with
  | [] => [e]
  | x :: l' => if (fst e <? fst x)%Z then e :: l else x :: insertIdx e l'
  end.

(** The own properties in the order [Object.keys] lists them: array
    indices ascending, then the other keys in insertion order. *)
Definition entries (o : t A) : list (jstr * A) :=
  let idx := fold_left (fun acc kv =>
               match indexOf (fst kv) with
               | Some i => insertIdx (i, kv) acc
               | None => acc
               end) o [] in
  map snd idx ++
  filter (fun kv => match indexOf (fst kv) with Some _ => false | None => true end) o.

Definition keys (o : t A) : list jstr := map fst (entries o).
Definition values (o : t A) : list A := map snd (entries o).

(** [{...o}] *)
Definition spread (o : t A) : t A := entries o.

End WithField.

End Obj.

(** A row: an object whose fields are cell values. *)
Abbreviation row := (Obj.t value).

(** [r[k]] read as a value: an absent property reads [undefined]. *)
Definition field (r : row) (k : jstr) : value :=
  match Obj.get r k with
  | Some v => v
  | None => VUndef
  end.

Definition ofNat (n : nat) : value := VNum (Num.ofZ (Z.of_nat n)).

(** *** What a plain object inherits *)

(** An object made by [{}] has [Object.prototype] as its prototype, and
    a lookup [o[k]] that finds no own property under [k] goes on there:
    it finds a function under the name of a method, and the prototype
    itself under [__proto__], whose setter replaces the prototype when an
    object is assigned and does nothing for another value.  The maps
    the engine keys by data ([tableSchemas], [extractedTables],
    [cardsMap], [programsMap], [breakdown], [byCard], [byProgram]) are
    read this way.  The prototypes are those of a fresh realm: the
    standard members, nothing added. *)
Module Host.

Definition protoKey : jstr := str "__proto__".

(** The methods of [Object.prototype], each with the [length] of the
    function. *)
Definition objectMethods : list (jstr * nat) :=
  map (fun e => (str (fst e), snd e))
      [ ("constructor", 1); ("__defineGetter__", 2); ("__defineSetter__", 2);
        ("hasOwnProperty", 1); ("__lookupGetter__", 1); ("__lookupSetter__", 1);
        ("isPrototypeOf", 1); ("propertyIsEnumerable", 1); ("toString", 0);
        ("valueOf", 0); ("toLocaleString", 0) ]%string.

(** The methods of [Array.prototype]; [constructor], [toString] and
    [toLocaleString] hide those of [Object.prototype]. *)
Definition arrayMethods : list (jstr * nat) :=
  map (fun e => (str (fst e), snd e))
      [ ("constructor", 1); ("at", 1); ("concat", 1); ("copyWithin", 2);
        ("entries", 0); ("every", 1); ("fill", 1); ("filter", 1); ("find", 1);
        ("findIndex", 1); ("findLast", 1); ("findLastIndex", 1); ("flat", 0);
        ("flatMap", 1); ("forEach", 1); ("includes", 1); ("indexOf", 1);
        ("join", 1); ("keys", 0); ("lastIndexOf", 1); ("map", 1); ("pop", 0);
        ("push", 1); ("reduce", 1); ("reduceRight", 1); ("reverse", 0);
        ("shift", 0); ("slice", 2); ("some", 1); ("sort", 1); ("splice", 2);
        ("toLocaleString", 0); ("toReversed", 0); ("toSorted", 1);
        ("toSpliced", 2); ("toString", 0); ("unshift", 1); ("values", 0);
        ("with", 2) ]%string.

(** The [length] of the method of that name, if there is one. *)
Definition methodOf (methods : list (jstr * nat)) (k : jstr) : option nat :=
  option_map snd (find (fun e => Str.eqb (fst e) k) methods).

Definition isMethod (k : jstr) : bool :=
  match methodOf objectMethods k with Some _ => true | None => false end.

(** Does [({})[k]] find an inherited member. *)
Definition inherited (k : jstr) : bool := Str.eqb k protoKey || isMethod k.

(** The [name] of the method found under [k]. *)
Definition methodName (k : jstr) : jstr :=
  if Str.eqb k (str "constructor") then str "Object" else k.

End Host.

(* ===================================================================== *)
(** ** Regular expressions *)
(* ===================================================================== *)

(** The backtracking matcher of the host language, for the constructs the
    engine's patterns use.  Every quantified sub-pattern of the source is
    a single character class or an optional group, so the repetition
    constructors range over classes. *)
Module Regex.

Inductive re : Type :=
| Eps
| Chr (p : ascii -> bool)        (* one character of a class *)
| Seq (a b : re)
| Alt (a b : re)                 (* a|b : a is tried first *)
| Star (p : ascii -> bool)       (* [class]*  , greedy *)
| LazyStar (p : ascii -> bool)   (* [class]*? , lazy *)
| Grp (i : nat) (r : re)         (* capturing group number i *)
| Ahead (r : re)                 (* (?=r) *)
| Eos                            (* $ *)
| Eol.                           (* $ under the m flag *)

Definition Plus (p : ascii -> bool) : re := Seq (Chr p) (Star p).
Definition Opt (r : re) : re := Alt r Eps.
Fixpoint cat (rs : list re) : re :=
  match rs with
  | [] => Eps
  | [r] => r
  | r :: rs' => Seq r (cat rs')
  end.
Fixpoint alts (rs : list re) : re :=
  match rs with
  | [] => Eps
  | [r] => r
  | r :: rs' => Alt r (alts rs')
  end.

(** A literal character, and one under the [i] flag. *)
Definition chr (c : ascii) : ascii -> bool := fun x => Str.eqc x c.
Definition chrI (c : ascii) : ascii -> bool :=
  fun x => Str.eqc (Str.toUpperChar x) (Str.toUpperChar c).
Definition oneOf (cs : jstr) : ascii -> bool :=
  fun x => existsb (Str.eqc x) cs.
Definition any : ascii -> bool := fun _ => true.
Definition notc (p : ascii -> bool) : ascii -> bool := fun x => negb (p x).

Definition Lit (s : jstr) : re := cat (map (fun c => Chr (chr c)) s).
Definition LitI (s : jstr) : re := cat (map (fun c => Chr (chrI c)) s).

(** The text captured by each group that took part in the match. *)
Definition caps : Type := list (nat * jstr).

Fixpoint cap (c : caps) (i : nat) : option jstr :=
  match c with
  | [] => None
  | (j, s) :: c' => if Nat.eqb i j then Some s else cap c' i
  end.

Section Run.
Variable R : Type.

Definition cont : Type := jstr -> caps -> option R.

Fixpoint star (p : ascii -> bool) (k : cont) (s : jstr) (c : caps)
  : option R :=
  match s with
  | x :: s' =>
      if p x then
        match star p k s' c with
        | Some r => Some r
        | None => k s c
        end
      else k s c
  | [] => k s c
  end.

Fixpoint lazy (p : ascii -> bool) (k : cont) (s : jstr) (c : caps)
  : option R :=
  match k s c with
  | Some r => Some r
  | None =>
      match s with
      | x :: s' => if p x then lazy p k s' c else None
      | [] => None
      end
  end.
End Run.

(** [run r k s c]: match [r] at the head of [s]; [k] receives the rest
    of the input and decides whether the whole match succeeds. *)
Fixpoint run (R : Type) (r : re) (k : cont R) (s : jstr) (c : caps)
  : option R :=
  match r with
  | Eps => k s c
  | Chr p =>
      match s with
      | x :: s' => if p x then k s' c else None
      | [] => None
      end
  | Seq a b => run a (run b k) s c
  | Alt a b =>
      match run a k s c with
      | Some x => Some x
      | None => run b k s c
      end
  | Star p => star p k s c
  | LazyStar p => lazy p k s c
  | Grp i r' =>
      run r' (fun s' c' => k s' ((i, firstn (length s - length s') s) :: c')) s c
  | Ahead r' =>
      match run r' (fun _ c' => Some c') s c with
      | Some c' => k s c'
      | None => None
      end
  | Eos =>
      match s with
      | [] => k s c
      | _ :: _ => None
      end
  | Eol =>
      match s with
      | [] => k s c
      | x :: _ => if Str.isNewline x then k s c else None
      end
  end.

(** A match: the text skipped before it, the matched text, the
    captures, and the input after it. *)
Record found : Type := Found {
  skipped : jstr;
  matched : jstr;
  groups : caps;
  rest : jstr
}.

(** The match at the head of [s], if any. *)
Definition matchHere (r : re) (s : jstr) : option (jstr * caps) :=
  run r (fun s' c => Some (s', c)) s [].

(** [/^r/.test(s)] *)
Definition testPrefix (r : re) (s : jstr) : bool :=
  match matchHere r s with Some _ => true | None => false end.

(** The leftmost match in [s]; [before] holds, reversed, what has been
    skipped so far. *)
Fixpoint search (r : re) (before : jstr) (s : jstr) : option found :=
  match matchHere r s with
  | Some (s', c) =>
      Some (Found (rev before) (firstn (length s - length s') s) c s')
  | None =>
      match s with
      | x :: s' => search r (x :: before) s'
      | [] => None
      end
  end.

(** The loop [while ((m = r.exec(s)) !== null)] for a pattern with the
    [g] flag: the successive matches, each searched after the previous
    one.  The patterns of the engine never match the empty text, so a
    fuel of one more than the length of the input is never used up. *)
Fixpoint execLoop (fuel : nat) (r : re) (s : jstr) : list found :=
  match fuel with
  | O => []
  | S f =>
      match search r [] s with
      | None => []
      | Some m => m :: execLoop f r (rest m)
      end
  end.
Definition execAll (r : re) (s : jstr) : list found :=
  execLoop (S (length s)) r s.

(** [s.replace(r, rep)] for a pattern with the [g] flag. *)
Definition replace (r : re) (rep : jstr) (s : jstr) : jstr :=
  let ms := execAll r s in
  concat (map (fun m => skipped m ++ rep) ms)
  ++ match rev ms with
     | [] => s
     | m :: _ => rest m
     end.

End Regex.

(* ===================================================================== *)
(** ** The lexical value decoder and the SQL dump extractor *)
(* ===================================================================== *)

Definition apos : ascii := "'"%char.
Definition dquote : ascii := "034"%char.
Definition backslash : ascii := "092"%char.
Definition backtick : ascii := "096"%char.
Definition comma : ascii := ","%char.

(** The mapper of [cleanedValues] in [parseSQLFile]: one raw field of a
    tuple to a cell value. *)
Definition decodeValue (raw : jstr) : value :=
  let v := Str.trim raw in
  if (Str.startsWith [apos] v && Str.endsWith [apos] v)
     || (Str.startsWith [dquote] v && Str.endsWith [dquote] v)
  then
    VStr (Str.replaceAll [backslash; dquote] [dquote]
            (Str.replaceAll [backslash; apos] [apos] (Str.slice_1_m1 v)))
  else if Str.eqb (Str.toUpperCase v) (str "NULL") then VNull
  else
    let num := Num.parseFloat v in
    if negb (Num.isNaN num) && Num.isFiniteStr v then VNum num else VStr v.

(** The character loop of [parseSQLFile] that cuts the text of one tuple
    into raw fields.  [prev] is [valueStr[i-1]], [stringChar] the quote
    that opened the literal being read. *)
Fixpoint splitTuple_go (s : jstr) (prev : option ascii) (inString : bool)
    (stringChar : option ascii) (current : jstr) (values : list jstr)
  : list jstr :=
  match s with
  | [] => values ++ [Str.trim current]
  | char :: s' =>
      if negb inString && (Str.eqc char apos || Str.eqc char dquote) then
        splitTuple_go s' (Some char) true (Some char) (current ++ [char]) values
      else if inString
              && match stringChar with
                 | Some q => Str.eqc char q
                 | None => false
                 end
              && negb match prev with
                      | Some b => Str.eqc b backslash
                      | None => false
                      end then
        splitTuple_go s' (Some char) false stringChar (current ++ [char]) values
      else if negb inString && Str.eqc char comma then
        splitTuple_go s' (Some char) inString stringChar []
          (values ++ [Str.trim current])
      else
        splitTuple_go s' (Some char) inString stringChar (current ++ [char]) values
  end.

Definition splitTuple (valueStr : jstr) : list jstr :=
  splitTuple_go valueStr None false None [] [].

Module Sql.
Import Regex.

Definition openQuote : ascii -> bool := oneOf [backtick; dquote; apos; "["%char].
Definition closeQuote : ascii -> bool := oneOf [backtick; dquote; apos; "]"%char].
Definition anyQuote : ascii -> bool :=
  oneOf [backtick; dquote; apos; "["%char; "]"%char].

(** [/--.*$/gm] *)
Definition lineComment : re :=
  cat [Lit (str "--"); Star (notc Str.isNewline); Eol].

(** The block-comment pattern: slash star, any text (lazy), star slash. *)
Definition blockComment : re :=
  cat [Lit (str "/*"); LazyStar any; Lit (str "*/")].

Definition cr : ascii := "013"%char.
Definition lf : ascii := "010"%char.

Definition cleanContent (content : jstr) : jstr :=
  Str.replaceAll [cr; lf] [lf]
    (replace blockComment [] (replace lineComment [] content)).

(** [createTableRegex] *)
Definition createTableRegex : re :=
  cat [ LitI (str "CREATE"); Plus Str.isSpace; LitI (str "TABLE"); Plus Str.isSpace;
        Opt (cat [ LitI (str "IF"); Plus Str.isSpace; LitI (str "NOT"); Plus Str.isSpace;
                   LitI (str "EXISTS"); Plus Str.isSpace ]);
        Opt (Chr openQuote); Grp 1 (Plus Str.isWord); Opt (Chr closeQuote);
        Star Str.isSpace; Chr (chr "("); Grp 2 (LazyStar any); Chr (chr ")");
        alts [ Seq (Star Str.isSpace) (LitI (str "ENGINE"));
               Seq (Star Str.isSpace) (Chr (chr ";"));
               Seq (Star Str.isSpace) Eos ] ].

Definition typeKeywords : list jstr :=
  map str [ "INT"; "INTEGER"; "VARCHAR"; "TEXT"; "CHAR"; "DATE"; "DATETIME";
            "TIMESTAMP"; "DECIMAL"; "FLOAT"; "DOUBLE"; "BOOLEAN"; "BOOL";
            "BIGINT"; "SMALLINT"; "TINYINT"; "NUMERIC"; "REAL"; "MONEY";
            "TIME"; "NVARCHAR"; "BIT" ]%string.

(** [colRegex] *)
Definition colRegex : re :=
  cat [ Opt (Chr openQuote); Grp 1 (Plus Str.isWord); Opt (Chr closeQuote);
        Plus Str.isSpace; Grp 2 (alts (map LitI typeKeywords)) ].

(** The body of the lookahead that ends the values block of
    [insertRegex]: the next statement keyword, or an optional semicolon
    and spaces up to the end of the text. *)
Definition statementAhead : re :=
  alts [ cat [ LitI (str "INSERT"); Plus Str.isSpace; LitI (str "INTO") ];
         LitI (str "CREATE"); LitI (str "DROP"); LitI (str "ALTER");
         LitI (str "UPDATE"); LitI (str "DELETE");
         cat [ Opt (Chr (chr ";")); Star Str.isSpace; Eos ] ].

(** [insertRegex] *)
Definition insertRegex : re :=
  cat [ LitI (str "INSERT"); Plus Str.isSpace; LitI (str "INTO"); Plus Str.isSpace;
        Opt (Chr openQuote); Grp 1 (Plus Str.isWord); Opt (Chr closeQuote);
        Star Str.isSpace;
        Opt (cat [ Chr (chr "("); Grp 2 (Plus (notc (chr ")"))); Chr (chr ")") ]);
        Star Str.isSpace; LitI (str "VALUES"); Star Str.isSpace;
        Grp 3 (LazyStar any);
        Ahead statementAhead ].

(** [valueSetRegex] *)
Definition valueSetRegex : re :=
  cat [ Chr (chr "("); Grp 1 (Plus (notc (chr ")"))); Chr (chr ")") ].

(** [m[i]] of a match whose group [i] took part. *)
Definition group (m : found) (i : nat) : jstr :=
  match cap (groups m) i with
  | Some s => s
  | None => []
  end.

(** The inner loop over [colRegex]: the declared identifiers. *)
Definition columnDefsOf (columnsBlock : jstr) : list jstr :=
  map (fun m => group m 1) (execAll colRegex columnsBlock).

(** [tableSchemas]: its own properties and, once a table named
    [__proto__] has been declared, the array of columns that the
    assignment made its prototype. *)
Record schemas : Type := Schemas {
  declared : Obj.t (list jstr);
  arrayProto : option (list jstr)
}.

(** [tableSchemas[tableName] = columnDefs] *)
Definition declare (tableName : jstr) (columnDefs : list jstr) (s : schemas) : schemas :=
  if Str.eqb tableName Host.protoKey then Schemas (declared s) (Some columnDefs)
  else Schemas (Obj.set tableName columnDefs (declared s)) (arrayProto s).

(** The first loop of [parseSQLFile]: [tableSchemas]. *)
Definition tableSchemasOf (cleanContent : jstr) : schemas :=
  fold_left
    (fun schemas m =>
       let tableName := group m 1 in
       match columnDefsOf (group m 2) with
       | [] => schemas
       | columnDefs => declare (Str.toLowerCase tableName) columnDefs schemas
       end)
    (execAll createTableRegex cleanContent) (Schemas (Obj.empty _) None).

(** What [tableSchemas[tableName]] holds, as the INSERT loop uses it: an
    array of column names; or another truthy value, of which only
    whether its [length] is [0] matters; or nothing. *)
Inductive declaration : Type :=
| Columns (cols : list jstr)
| NotArray (lengthIsZero : bool)
| Undeclared.

Definition memberOf (methods : list (jstr * nat)) (k : jstr) : declaration :=
  match Host.methodOf methods k with
  | Some n => NotArray (Nat.eqb n 0)
  | None => Undeclared
  end.

(** A lookup that has found no own property and goes up the prototype
    chain: [Object.prototype], or first the array that has replaced it
    (its elements, its [length], the methods of [Array.prototype]). *)
Definition inheritedSchema (s : schemas) (tableName : jstr) : declaration :=
  match arrayProto s with
  | None =>
      if Str.eqb tableName Host.protoKey then NotArray false
      else memberOf Host.objectMethods tableName
  | Some cols =>
      if Str.eqb tableName Host.protoKey then Columns cols
      else
        match Obj.indexOf tableName with
        | Some i =>
            match nth_error cols (Z.to_nat i) with
            | Some [] | None => Undeclared
            | Some (_ :: _) => NotArray false
            end
        | None =>
            if Str.eqb tableName (str "length") then
              match cols with [] => Undeclared | _ :: _ => NotArray false end
            else
              match memberOf Host.arrayMethods tableName with
              | Undeclared => memberOf Host.objectMethods tableName
              | d => d
              end
        end
  end.

(** [tableSchemas[tableName]] *)
Definition schemaOf (s : schemas) (tableName : jstr) : declaration :=
  match Obj.get (declared s) tableName with
  | Some cols => Columns cols
  | None => inheritedSchema s tableName
  end.

(** [column_1, column_2, ...] *)
Definition synthColumns (n : nat) : list jstr :=
  map (fun i => str "column_" ++ toStr (ofNat (i + 1))) (seq 0 n).

(** [cleanedValues[i] !== undefined ? cleanedValues[i] : null] *)
Definition cellAt (cleanedValues : list value) (i : nat) : value :=
  match nth_error cleanedValues i with
  | Some VUndef | None => VNull
  | Some v => v
  end.

(** [const row = { _id }; cols.forEach((col, i) => row[col] = ...)].
    Under [__proto__] the assignment of a cell makes no property. *)
Definition buildRow (cols : list jstr) (cleanedValues : list value) (id : nat)
  : row :=
  fold_left
    (fun r ic =>
       if Str.eqb (snd ic) Host.protoKey then r
       else Obj.set (snd ic) (cellAt cleanedValues (fst ic)) r)
    (combine (seq 0 (length cols)) cols)
    [(str "_id", ofNat id)].

(** The loop over [valueSetRegex] for one INSERT block: the column list
    (synthesized at the first tuple when none is known) and the rows. *)
Definition parseTuples (cols0 : list jstr) (valuesBlock : jstr)
  : list jstr * list row :=
  fold_left
    (fun st m =>
       let '(cols, rows) := st in
       let cleanedValues := map decodeValue (splitTuple (group m 1)) in
       let cols' :=
         match cols with
         | [] => synthColumns (length cleanedValues)
         | _ => cols
         end in
       (cols', rows ++ [buildRow cols' cleanedValues (length rows)]))
    (execAll valueSetRegex valuesBlock) (cols0, []).

Record tableAcc : Type := TableAcc { columns : list jstr; rows : list row }.

(** [explicitColumns.split(',')], each piece trimmed and freed of
    quotes, backticks and square brackets. *)
Definition explicitColumnsOf (explicitColumns : jstr) : list jstr :=
  map (fun c => filter (notc anyQuote) (Str.trim c))
      (Str.split comma explicitColumns).

(** [let cols] of one INSERT block when its tuples are read: the
    explicit list, else the declared one, else the empty list.  [None]
    stands for a value found in [tableSchemas] that is no array and whose
    [length] is not [0]: the first tuple throws at [cols.forEach]. *)
Definition columnsFor (tableSchemas : schemas) (tableName : jstr)
    (explicitColumns : option jstr) : option (list jstr) :=
  match explicitColumns with
  | Some explicit => Some (explicitColumnsOf explicit)
  | None =>
      match schemaOf tableSchemas tableName with
      | Columns cols => Some cols
      | NotArray true | Undeclared => Some []
      | NotArray false => None
      end
  end.

(** The body of the second loop of [parseSQLFile], for one INSERT block;
    [None] when it throws.  A table name that [extractedTables] inherits
    is found there, no table is made, and the rows are pushed on the
    [rows] of a value that has none. *)
Definition addInsert (tableSchemas : schemas)
    (extractedTables : Obj.t tableAcc) (m : found) : option (Obj.t tableAcc) :=
  let tableName := Str.toLowerCase (group m 1) in
  match columnsFor tableSchemas tableName (cap (groups m) 2) with
  | None =>
      match execAll valueSetRegex (group m 3) with
      | [] => Some extractedTables
      | _ :: _ => None
      end
  | Some cols0 =>
      let '(cols, newRows) := parseTuples cols0 (group m 3) in
      match newRows with
      | [] => Some extractedTables
      | _ :: _ =>
          match Obj.get extractedTables tableName with
          | Some t =>
              Some (Obj.set tableName (TableAcc (columns t) (rows t ++ newRows))
                            extractedTables)
          | None =>
              if Host.inherited tableName then None
              else Some (Obj.set tableName (TableAcc cols newRows) extractedTables)
          end
      end
  end.

(** [rows.map((row, idx) => ({ ...row, _id: idx }))] *)
Definition renumber (rs : list row) : list row :=
  map (fun ir => Obj.set (str "_id") (ofNat (fst ir)) (Obj.spread (snd ir)))
      (combine (seq 0 (length rs)) rs).

(** The second loop of [parseSQLFile]: [extractedTables], unless an
    INSERT block throws. *)
Definition extractedOf (tableSchemas : schemas) (cleanContent : jstr)
  : option (Obj.t tableAcc) :=
  fold_left
    (fun acc m =>
       match acc with
       | Some extractedTables => addInsert tableSchemas extractedTables m
       | None => None
       end)
    (execAll insertRegex cleanContent) (Some (Obj.empty _)).

(** [parseSQLFile(content)]: the tables and the declared schemas, or
    [None] when the call throws. *)
Definition parseSQLFile (content : jstr) : option (Obj.t (list row) * schemas) :=
  let clean := cleanContent content in
  let tableSchemas := tableSchemasOf clean in
  match extractedOf tableSchemas clean with
  | Some extractedTables =>
      Some (fold_left (fun res e => Obj.set (fst e) (renumber (rows (snd e))) res)
                      (Obj.entries extractedTables) (Obj.empty _),
            tableSchemas)
  | None => None
  end.

(** The tables [processContent] has after the call: none when it threw. *)
Definition tablesOf (content : jstr) : Obj.t (list row) :=
  match parseSQLFile content with
  | Some (tables, _) => tables
  | None => Obj.empty _
  end.

End Sql.

(* ===================================================================== *)
(** ** Column types: [detectColumnType] and [processTableData] *)
(* ===================================================================== *)

Inductive colType : Set := TNumber | TDate | TCategory | TText.

Definition colType_eqb (a b : colType) : bool :=
  match a, b with
  | TNumber, TNumber | TDate, TDate | TCategory, TCategory | TText, TText => true
  | _, _ => false
  end.

(** The members of the class of currency signs and separators that are
    stripped before a numeric parse: dollar, comma, euro, pound, yen (the
    last three as UTF-8). *)
Definition currencySigns : list jstr :=
  [ ["$"%char]; [comma];
    ["226"%char; "130"%char; "172"%char];
    ["194"%char; "163"%char];
    ["194"%char; "165"%char] ].

(** [String(v).replace(currency class, '').trim()] *)
Definition cleanedText (v : value) : jstr :=
  Str.trim (Str.stripAll currencySigns (toStr v)).

Definition isEmptyStr (v : value) : bool :=
  match v with
  | VStr [] => true
  | _ => false
  end.

(** The filter of [sample]: [v !== null && v !== '' && v !== undefined]. *)
Definition isPresent (v : value) : bool :=
  negb (isNullish v) && negb (isEmptyStr v).

Module DatePat.
Import Regex.
Definition d : re := Chr Str.isDigit.
(** A year-month-day prefix: four digits, dash, two digits, dash, two
    digits. *)
Definition iso : re := cat [d; d; d; d; Chr (chr "-"); d; d; Chr (chr "-"); d; d].
(** A slash date prefix: one or two digits, slash, one or two digits,
    slash, two to four digits. *)
Definition slash : re :=
  cat [ d; Opt d; Chr (chr "/"); d; Opt d; Chr (chr "/");
        d; d; Opt (Seq d (Opt d)) ].
End DatePat.

Section Classifier.

(** [!isNaN(Date.parse(s))]: the date parser of the host. *)
Variable dateParses : jstr -> bool.

Definition isNumericValue (v : value) : bool :=
  let cleaned := cleanedText v in
  negb (Num.isNaN (Num.parseFloat cleaned)) && Num.isFiniteStr cleaned.

Definition isDateValue (v : value) : bool :=
  match v with
  | VStr s =>
      dateParses s
      || Regex.testPrefix DatePat.iso s
      || Regex.testPrefix DatePat.slash s
  | _ => false
  end.

(** [count > sample.length * 0.7] *)
Definition overSeventyPercent (count len : nat) : bool :=
  B64.ltb (B64.mul (B64.ofNat len) B64.c0_7) (B64.ofNat count).

Definition detectColumnType (values : list value) : colType :=
  let sample := firstn 100 (filter isPresent values) in
  match sample with
  | [] => TText
  | _ :: _ =>
      let numericCount := length (filter isNumericValue sample) in
      let dateCount := length (filter isDateValue sample) in
      if overSeventyPercent numericCount (length sample) then TNumber
      else if overSeventyPercent dateCount (length sample) then TDate
      else
        let uniqueRatio :=
          B64.divNat (length (nodup value_eq_dec sample)) (length sample) in
        if B64.ltb uniqueRatio B64.c0_3 && (5 <? length sample)
        then TCategory
        else TText
  end.

(** [tableData.map(row => row[col])] *)
Definition columnValues (tableData : list row) (col : jstr) : list value :=
  map (fun r => field r col) tableData.

(** The [types] object built by the first loop of [processTableData]
    (and, with the same code, by [switchTable]). *)
Definition typesOf (tableData : list row) (cols : list jstr) : Obj.t colType :=
  fold_left
    (fun types col => Obj.set col (detectColumnType (columnValues tableData col)) types)
    cols (Obj.empty _).

Definition isNumberCol (types : Obj.t colType) (col : jstr) : bool :=
  match Obj.get types col with
  | Some TNumber => true
  | _ => false
  end.

(** The assignment to [newRow[col]]. *)
Definition coerceCell (types : Obj.t colType) (col : jstr) (v : value) : value :=
  if isNumberCol types col && negb (isNullish v)
  then VNum (parseFloatOr0 (VStr (cleanedText v)))
  else v.

Definition processRow (types : Obj.t colType) (cols : list jstr)
    (r : row) (idx : nat) : row :=
  fold_left (fun newRow col => Obj.set col (coerceCell types col (field r col)) newRow)
            cols [(str "_id", ofNat idx)].

Definition processTableData (tableData : list row) (cols : list jstr)
  : list row * Obj.t colType :=
  let types := typesOf tableData cols in
  (map (fun ir => processRow types cols (snd ir) (fst ir))
       (combine (seq 0 (length tableData)) tableData),
   types).

(** [Object.keys(tableData[0] || {}).filter(k => k !== '_id')] *)
Definition columnsOfTable (tableData : list row) : list jstr :=
  filter (fun k => negb (Str.eqb k (str "_id")))
         (Obj.keys (hd (Obj.empty _) tableData)).

End Classifier.

(* ===================================================================== *)
(** ** The relational joiner of [processContent] *)
(* ===================================================================== *)

(** A [Set] of values: insertion-ordered, without repetition (values are
    compared by SameValueZero, which is equality of the model). *)
Definition setAdd (v : value) (s : list value) : list value :=
  if in_dec value_eq_dec v s then s else s ++ [v].

Module Join.

(** [cardsMap] and [programsMap]: the rows filed as own properties and,
    once a row whose [id] is [__proto__] has been filed, the row that
    this assignment made the prototype of the map. *)
Record idMap : Type := IdMap { own : Obj.t row; rowProto : option row }.

(** [m[k] = r] *)
Definition file (k : jstr) (r : row) (m : idMap) : idMap :=
  if Str.eqb k Host.protoKey then IdMap (own m) (Some r)
  else IdMap (Obj.set k r (own m)) (rowProto m).

(** Every row of the table filed under its [id], once under the value
    and once under its string form (the two property keys coincide). *)
Definition byId (table : list row) : idMap :=
  fold_left
    (fun m r =>
       file (toStr (VStr (toStr (field r (str "id"))))) r
            (file (toStr (field r (str "id"))) r m))
    table (IdMap (Obj.empty _) None).

(** What a lookup in such a map can find: a row of the table; a cell
    of the row that is the prototype, under the name of its column; a
    method of [Object.prototype]; [Object.prototype] itself. *)
Inductive entry : Type :=
| ARow (r : row)
| ACell (v : value)
| AMethod (name : jstr)
| APrototype.

Definition truthyEntry (e : entry) : bool :=
  match e with
  | ACell v => truthy v
  | ARow _ | AMethod _ | APrototype => true
  end.

(** [m[k]]; [None] stands for [undefined]. *)
Definition get (m : idMap) (k : jstr) : option entry :=
  match Obj.get (own m) k with
  | Some r => Some (ARow r)
  | None =>
      if Str.eqb k Host.protoKey then
        Some match rowProto m with
             | Some r => ARow r
             | None => APrototype
             end
      else
        match match rowProto m with
              | Some r => Obj.get r k
              | None => None
              end with
        | Some v => Some (ACell v)
        | None => if Host.isMethod k then Some (AMethod k) else None
        end
  end.

(** The value of [a || b] when it is truthy. *)
Definition orEntry (a b : option entry) : option entry :=
  match a with
  | Some e => if truthyEntry e then a else b
  | None => b
  end.

Definition truthyOnly (a : option entry) : option entry := orEntry a None.

(** [m[k] || m[String(k)]], when it is truthy. *)
Definition lookup (m : idMap) (k : value) : option entry :=
  truthyOnly (orEntry (get m (toStr k)) (get m (toStr (VStr (toStr k))))).

(** The card of a transaction: [cardsMap[..] || cardsMap[..] || {}]. *)
Definition cardOf (cardsMap : idMap) (txn : row) : entry :=
  match lookup cardsMap (field txn (str "card_id")) with
  | Some card => card
  | None => ARow (Obj.empty _)
  end.

(** [card.card_program_id]: a string, a number, a function and
    [Object.prototype] have no such member. *)
Definition programIdOf (card : entry) : value :=
  match card with
  | ARow r => field r (str "card_program_id")
  | ACell _ | AMethod _ | APrototype => VUndef
  end.

(** [programId ? (programsMap[..] || programsMap[..]) : null], when it
    is truthy. *)
Definition programOf (programsMap : idMap) (programId : value) : option entry :=
  if truthy programId then lookup programsMap programId else None.

(** [Object.keys(card).length > 0]: the keys of a string are its
    indices; a number, a function and [Object.prototype] have none. *)
Definition cardMatched (card : entry) : bool :=
  match card with
  | ARow r => match Obj.keys r with [] => false | _ :: _ => true end
  | ACell (VStr (_ :: _)) => true
  | ACell _ | AMethod _ | APrototype => false
  end.

(** [program && (program.display_name || program.name)] for a program
    that is a row of the table. *)
Definition nameOfProgram (program : option row) : value :=
  match program with
  | Some p => orElse (field p (str "display_name")) (field p (str "name"))
  | None => VNull
  end.

(** The same for whatever the lookup has found: a function has a
    [name], a string or a number has neither member. *)
Definition nameOfEntry (program : option entry) : value :=
  match program with
  | Some (ARow p) => nameOfProgram (Some p)
  | Some (AMethod k) => VStr (Host.methodName k)
  | Some (ACell _) | Some APrototype => VUndef
  | None => VNull
  end.

Definition programNameOf (program : option entry) (programId : value) : value :=
  if truthy (nameOfEntry program) then nameOfEntry program
  else if negb (isNullish programId)
  then VStr (str "Program #" ++ toStr programId)
  else VStr (str "Unknown Program").

(** [{ _id: idx, ...txn, card_program_id, card_program_name }] *)
Definition joinedRow (txn : row) (idx : nat) (programId programName : value) : row :=
  Obj.set (str "card_program_name") programName
    (Obj.set (str "card_program_id") programId
       (fold_left (fun o kv => Obj.set (fst kv) (snd kv) o)
                  (Obj.entries txn) [(str "_id", ofNat idx)])).

Record result : Type := Result {
  joinedData : list row;
  matchedCards : nat;
  matchedPrograms : nat;
  unmatchedCardIds : list value
}.

(** One step of [parsedTables['transactions'].map((txn, idx) => ...)],
    with the counters and the set it updates. *)
Definition step (cardsMap programsMap : idMap) (acc : result) (txn : row)
  : result :=
  let idx := length (joinedData acc) in
  let card := cardOf cardsMap txn in
  let programId := programIdOf card in
  let program := programOf programsMap programId in
  let matched := cardMatched card in
  Result
    (joinedData acc ++ [joinedRow txn idx programId (programNameOf program programId)])
    (if matched then S (matchedCards acc) else matchedCards acc)
    (match program with Some _ => S (matchedPrograms acc) | None => matchedPrograms acc end)
    (if matched then unmatchedCardIds acc
     else setAdd (field txn (str "card_id")) (unmatchedCardIds acc)).

Definition join (transactions cards programs : list row) : result :=
  fold_left (step (byId cards) (byId programs)) transactions (Result [] 0 0 []).

End Join.

Section ProcessContent.

Variable dateParses : jstr -> bool.

(** The SQL branch of [processContent] up to the state update: every
    parsed table type-processed, and the join added under
    [transactions_joined] when the three tables are there. *)
Definition processTables (parsedTables : Obj.t (list row)) : Obj.t (list row) :=
  fold_left
    (fun tabs tableName =>
       match Obj.get tabs tableName with
       | Some tableData =>
           Obj.set tableName
             (fst (processTableData dateParses tableData (columnsOfTable tableData)))
             tabs
       | None => tabs
       end)
    (Obj.keys parsedTables) parsedTables.

Definition joinOf (tabs : Obj.t (list row)) : option Join.result :=
  match Obj.get tabs (str "transactions"),
        Obj.get tabs (str "cards"),
        Obj.get tabs (str "card_programs") with
  | Some transactions, Some cards, Some programs =>
      Some (Join.join transactions cards programs)
  | _, _, _ => None
  end.

Definition processSQL (content : jstr) : Obj.t (list row) * option Join.result :=
  let tabs := processTables (Sql.tablesOf content) in
  match joinOf tabs with
  | Some j => (Obj.set (str "transactions_joined") (Join.joinedData j) tabs, Some j)
  | None => (tabs, None)
  end.

End ProcessContent.

(* ===================================================================== *)
(** ** Query state and [switchTable] *)
(* ===================================================================== *)

Inductive direction : Set := Asc | Desc.
Inductive aggregation : Set := AggSum | AggCount.
Inductive level : Set := Overview | CardLevel | ProgramLevel.

Record sortConfigT : Set := SortConfig {
  sortKey : option jstr;            (* [None] is [null] *)
  sortDirection : direction
}.

(** A calculated column.  Its [calculate] closure multiplies the two
    columns it captured when it was created. *)
Record calcColumn : Set := CalcColumn {
  calcName : jstr;
  calcLabel : jstr;
  calcFormula : jstr;
  calcQtyCol : jstr;
  calcPriceCol : jstr
}.

Record drilldownT : Set := Drilldown {
  drillLevel : level;
  drillCardId : value;
  drillProgramId : value;
  drillProgramName : value
}.

(** The state hooks of [App] the engine reads and writes. *)
Record appState : Type := AppState {
  tables : Obj.t (list row);
  activeTable : jstr;
  columns : list jstr;
  columnTypes : Obj.t colType;
  filters : Obj.t jstr;
  selectedCategory : jstr;
  sortConfig : sortConfigT;
  calculatedColumns : list calcColumn;
  selectedMonth : jstr;
  groupByColumn : jstr;
  aggregationType : aggregation;
  topN : Z;
  drilldown : drilldownT
}.

(** The initial values of the hooks. *)
Definition defaultFilters : Obj.t jstr := Obj.empty _.
Definition defaultCategory : jstr := str "all".
Definition defaultSortConfig : sortConfigT := SortConfig None Asc.
Definition defaultCalculatedColumns : list calcColumn := [].
Definition defaultMonth : jstr := str "all".
Definition defaultGroupByColumn : jstr := [].
Definition defaultAggregationType : aggregation := AggSum.
Definition defaultTopN : Z := 10%Z.
Definition defaultDrilldown : drilldownT := Drilldown Overview VNull VNull VNull.

Section SwitchTable.

Variable dateParses : jstr -> bool.

Definition switchTable (st : appState) (tableName : jstr) : appState :=
  match Obj.get (tables st) tableName with
  | None | Some [] => st
  | Some tableData =>
      let cols := columnsOfTable tableData in
      let types := typesOf dateParses tableData cols in
      AppState (tables st) tableName cols types
               (Obj.empty _) (str "all") (SortConfig None Asc) []
               (selectedMonth st) (groupByColumn st) (aggregationType st)
               (topN st) (drilldown st)
  end.

End SwitchTable.

(* ===================================================================== *)
(** ** Sort comparators *)
(* ===================================================================== *)

(** [ToNumber] of a value, as the relational operators apply it. *)
Definition toNum (v : value) : Num.number :=
  match v with
  | VUndef => Num.NaN
  | VNull => Num.zero
  | VNum n => n
  | VStr s => Num.toNumber s
  end.

(** Strings compare by their code units. *)
Fixpoint strLtb (a b : jstr) : bool :=
  match a, b with
  | _, [] => false
  | [], _ :: _ => true
  | x :: a', y :: b' =>
      if (Str.code x <? Str.code y)%nat then true
      else if (Str.code y <? Str.code x)%nat then false
      else strLtb a' b'
  end.

(** [a < b] *)
Definition lessThan (a b : value) : bool :=
  match a, b with
  | VStr x, VStr y => strLtb x y
  | _, _ => Num.ltb (toNum a) (toNum b)
  end.

(** [calcCol.calculate(row)] *)
Definition calculateNum (c : calcColumn) (r : row) : Num.number :=
  Num.mul (parseFloatOr0 (field r (calcQtyCol c)))
          (parseFloatOr0 (field r (calcPriceCol c))).
Definition calculate (c : calcColumn) (r : row) : value := VNum (calculateNum c r).

Definition findCalc (cs : list calcColumn) (name : jstr) : option calcColumn :=
  find (fun c => Str.eqb (calcName c) name) cs.

(** The value of column [col] of a row, through the calculated column of
    that name when there is one. *)
Definition cellOrCalc (cs : list calcColumn) (col : jstr) (r : row) : value :=
  match findCalc cs col with
  | Some c => calculate c r
  | None => field r col
  end.

(** The comparator of the sort in [filteredData]. *)
Definition pipelineCompare (cs : list calcColumn) (key : jstr) (dir : direction)
    (a b : row) : Z :=
  let aVal := cellOrCalc cs key a in
  let bVal := cellOrCalc cs key b in
  if isNullish aVal then 1%Z
  else if isNullish bVal then (-1)%Z
  else if lessThan aVal bVal then match dir with Asc => (-1)%Z | Desc => 1%Z end
  else if lessThan bVal aVal then match dir with Asc => 1%Z | Desc => (-1)%Z end
  else 0%Z.

(** [if (typeof v === 'string') v = v.toLowerCase()] *)
Definition lowerIfString (v : value) : value :=
  match v with
  | VStr s => VStr (Str.toLowerCase s)
  | _ => v
  end.

(** The comparator of [cardSummaries] and of [programSummaries] (the two
    are the same text). *)
Definition summaryCompare (key : jstr) (dir : direction) (a b : row) : Z :=
  let aVal := lowerIfString (field a key) in
  let bVal := lowerIfString (field b key) in
  if lessThan aVal bVal then match dir with Asc => (-1)%Z | Desc => 1%Z end
  else if lessThan bVal aVal then match dir with Asc => 1%Z | Desc => (-1)%Z end
  else 0%Z.

(** [Array.prototype.sort]: the host sorts stably; the model inserts each
    element after the elements it does not precede. *)
Section HostSort.
Variable A : Type.
Variable cmp : A -> A -> Z.

Fixpoint insertSorted (x : A) (l : list A) : list A :=
  match l with
  | [] => [x]
  | y :: l' => if (cmp x y <? 0)%Z then x :: l else y :: insertSorted x l'
  end.

Definition hostSort (l : list A) : list A :=
  fold_left (fun acc x => insertSorted x acc) l [].
End HostSort.

(* ===================================================================== *)
(** ** Grouping: [categoryBreakdown] *)
(* ===================================================================== *)

Record group : Set := Group {
  gName : jstr;
  gValue : Num.number;
  gQty : Num.number;
  gCount : nat;
  gFullName : jstr
}.

(** A column name used as a condition: the empty name and the absent
    role both count as false, so an unassigned role is the empty name. *)
Definition given (col : jstr) : bool :=
  match col with
  | [] => false
  | _ :: _ => true
  end.

(** [a || b] on column names. *)
Definition orCol (a b : jstr) : jstr := if given a then a else b.

(** Sign of a number used as a comparator result ([NaN] orders nothing). *)
Definition signOf (n : Num.number) : Z :=
  match n with
  | Num.NaN => 0%Z
  | Num.Inf s => if s then (-1)%Z else 1%Z
  | Num.Fin d => Z.sgn (Num.mant d)
  end.

Section Breakdown.

(** The inputs of the memo: the detected role columns, the query state,
    and the calculated columns. *)
Variable groupByCol categoryCol accountCol amountCol qtyCol : jstr.
Variable calcs : list calcColumn.
Variable aggType : aggregation.
Variable limit : Z.

Definition catCol : jstr := orCol groupByCol (orCol categoryCol accountCol).

Definition extTotal : option calcColumn := findCalc calcs (str "ext_total").

Definition hasExtTotal : bool :=
  match extTotal with Some _ => true | None => false end.

(** [breakdown[cat].value] after the row has been counted. *)
Definition addValue (value : Num.number) (r : row) : Num.number :=
  if given amountCol && given qtyCol && hasExtTotal then
    match extTotal with
    | Some calc => Num.add value (calculateNum calc r)
    | None => value
    end
  else if given amountCol then Num.add value (parseFloatOr0 (field r amountCol))
  else value.

(** [breakdown[cat].qty] after the row has been counted. *)
Definition addQty (qty : Num.number) (r : row) : Num.number :=
  if given qtyCol then Num.add qty (parseFloatOr0 (field r qtyCol)) else qty.

(** The body of [filteredData.forEach(row => ...)].  Under a name that
    [breakdown] inherits, [breakdown[cat]] is a member of
    [Object.prototype]: no group is made, and what the row is added to
    are members of that value, not a group. *)
Definition addRow (breakdown : Obj.t group) (r : row) : Obj.t group :=
  let cat := field r catCol in
  if negb (truthy cat) then breakdown
  else if negb (Obj.has breakdown (toStr cat)) && Host.inherited (toStr cat)
  then breakdown
  else
    let g :=
      match Obj.get breakdown (toStr cat) with
      | Some g => g
      | None => Group (Str.slice0 25 (toStr cat)) Num.zero Num.zero 0 (toStr cat)
      end in
    Obj.set (toStr cat)
      (Group (gName g) (addValue (gValue g) r) (addQty (gQty g) r)
             (S (gCount g)) (gFullName g))
      breakdown.

Definition breakdownOf (filteredData : list row) : Obj.t group :=
  fold_left addRow filteredData (Obj.empty _).

(** [(a, b) => b[sortKey] - a[sortKey]] *)
Definition groupCompare (a b : group) : Z :=
  match aggType with
  | AggCount => Z.sgn (Z.of_nat (gCount b) - Z.of_nat (gCount a))
  | AggSum => signOf (Num.sub (gValue b) (gValue a))
  end.

Definition categoryBreakdown (filteredData : list row) : list group :=
  if negb (given catCol) then []
  else
    let sorted := hostSort groupCompare (Obj.values (breakdownOf filteredData)) in
    if (0 <? limit)%Z then firstn (Z.to_nat limit) sorted else sorted.

End Breakdown.

(* ===================================================================== *)
(** ** Export: [exportCSV] *)
(* ===================================================================== *)

(** One field of an exported line, as [values.join(',')] prints it. *)
Definition exportField (val : value) : jstr :=
  match val with
  | VUndef | VNull => []
  | VStr s =>
      if Str.includes [comma] s || Str.includes [dquote] s
      then [dquote] ++ Str.replaceAll [dquote] [dquote; dquote] s ++ [dquote]
      else s
  | VNum n => Num.toString n
  end.

Definition exportColumns (cols : list jstr) (calcs : list calcColumn) : list jstr :=
  cols ++ map calcName calcs.

Definition exportLine (cols : list jstr) (calcs : list calcColumn) (r : row) : jstr :=
  Str.join [comma]
    (map (fun col => exportField (cellOrCalc calcs col r)) (exportColumns cols calcs)).

(** The text handed to the download. *)
Definition exportCSV (cols : list jstr) (calcs : list calcColumn)
    (filteredData : list row) : jstr :=
  Str.join [Sql.lf]
    (Str.join [comma] (exportColumns cols calcs)
     :: map (exportLine cols calcs) filteredData).

(* ===================================================================== *)
(** ** Statements about the engine, as predicates *)
(* ===================================================================== *)

(** Every cell of every column classified [number] holds a number after
    type-processing. *)
Definition numberColumnsHoldNumbers (dateParses : jstr -> bool)
    (tableData : list row) (cols : list jstr) : Prop :=
  forall col r,
    In col cols ->
    isNumberCol (snd (processTableData dateParses tableData cols)) col = true ->
    In r (fst (processTableData dateParses tableData cols)) ->
    isNumber (field r col) = true.

(** Every component of the query state has its initial value. *)
Definition queryStateIsDefault (st : appState) : Prop :=
  filters st = defaultFilters /\
  selectedCategory st = defaultCategory /\
  selectedMonth st = defaultMonth /\
  sortConfig st = defaultSortConfig /\
  groupByColumn st = defaultGroupByColumn /\
  aggregationType st = defaultAggregationType /\
  topN st = defaultTopN /\
  drilldown st = defaultDrilldown /\
  calculatedColumns st = defaultCalculatedColumns.

(** A value whose string form is the key [k]: how the joiner matches an
    identifier against the [id] of a row. *)
Definition idMatches (r : row) (k : value) : Prop :=
  toStr (field r (str "id")) = toStr k.

(** The extractor produces table [t] with [k] rows and columns [cols]. *)
Definition extracts (content : jstr) (t : jstr) (cols : list jstr) (k : nat) : Prop :=
  exists rs,
    Obj.get (Sql.tablesOf content) t = Some rs
    /\ length rs = k
    /\ columnsOfTable rs = cols.

(** The row the joiner makes of a transaction at position [idx]. *)
Definition joinedRowOf (cardsMap programsMap : Join.idMap) (txn : row) (idx : nat) : row :=
  let programId := Join.programIdOf (Join.cardOf cardsMap txn) in
  Join.joinedRow txn idx programId
    (Join.programNameOf (Join.programOf programsMap programId) programId).

Definition idKey (r : row) : jstr := toStr (field r (str "id")).

Definition unknownProgram : value := VStr (str "Unknown Program").

(** Join completeness, as stated: when every transaction has its card and
    every card its program, all transactions are counted as matched and
    no joined row is named [Unknown Program]. *)
Definition joinComplete (transactions cards programs : list row) : Prop :=
  (forall txn, In txn transactions ->
     exists card, In card cards /\ idMatches card (field txn (str "card_id"))) ->
  (forall card, In card cards ->
     exists prog, In prog programs /\ idMatches prog (field card (str "card_program_id"))) ->
  Join.matchedCards (Join.join transactions cards programs) = length transactions
  /\ forall r, In r (Join.joinedData (Join.join transactions cards programs)) ->
       field r (str "card_program_name") <> unknownProgram.

(** Normal form of a decimal. *)
Definition isNorm (d : Num.dec) : Prop :=
  (Num.mant d = 0 /\ Num.expo d = 0)%Z \/ (Num.mant d mod 10 <> 0)%Z.

(** The value of a decimal in units of [10^E], for [E] below its
    exponent. *)
Definition valZ (E : Z) (d : Num.dec) : Z := (Num.mant d * 10 ^ (Num.expo d - E))%Z.

(** [values.reduce((a, b) => a + b, 0)] *)
Definition sumNum (l : list Num.number) : Num.number := fold_left Num.add l Num.zero.

(** Is the key of a property an array index. *)
Definition isIndexKey (A : Type) (kv : jstr * A) : bool :=
  match Obj.indexOf (fst kv) with Some _ => true | None => false end.

(** The same sum, associated to the right. *)
Definition sumR (l : list Num.number) : Num.number := fold_right Num.add Num.zero l.

(** The counts and the values of the groups of a breakdown object, in
    insertion order. *)
Definition countsOf (b : Obj.t group) : list nat := map (fun kv => gCount (snd kv)) b.
Definition valuesOf (b : Obj.t group) : list Num.number := map (fun kv => gValue (snd kv)) b.

(** Does the row have a group: is its category value truthy. *)
Definition hasCat (col : jstr) (r : row) : bool := truthy (field r col).

(** The grouping value of the row, when it has one, is not a name that
    every object inherits: the row is added to a group of its own
    making. *)
Definition plainCat (col : jstr) (r : row) : Prop :=
  hasCat col r = true -> Host.inherited (toStr (field r col)) = false.

(** What a counted row adds to the value of its group when an amount
    role is assigned: the extended total when that calculated column is
    active and a quantity role is assigned, else the amount. *)
Definition rowValue (amountCol qtyCol : jstr) (calcs : list calcColumn) (r : row)
  : Num.number :=
  if given amountCol && given qtyCol && hasExtTotal calcs then
    match extTotal calcs with
    | Some calc => calculateNum calc r
    | None => Num.zero
    end
  else parseFloatOr0 (field r amountCol).

(** Whole numbers that binary64 adds without rounding, in whatever
    order: their absolute values add up to at most [2^53].  On such
    numbers the exact sums of the model are the sums of the engine. *)
Definition exactSum (l : list Num.number) : Prop :=
  exists zs : list Z,
    l = map Num.ofZ zs /\ (fold_right Z.add 0 (map Z.abs zs) <= 2 ^ 53)%Z.

(** A cell that reads as a whole number of at most [2^53] in absolute
    value. *)
Definition wholeCell (v : value) : Prop :=
  exists z : Z, parseFloatOr0 v = Num.ofZ z /\ (Z.abs z <= 2 ^ 53)%Z.

(** Where the group step adds the extended total of a row, its two
    factors are whole: their product is then exact in binary64 as soon
    as it is at most [2^53]. *)
Definition exactFactors (amountCol qtyCol : jstr) (calcs : list calcColumn) (r : row)
  : Prop :=
  given amountCol && given qtyCol && hasExtTotal calcs = true ->
  forall calc, extTotal calcs = Some calc ->
    wholeCell (field r (calcQtyCol calc)) /\ wholeCell (field r (calcPriceCol calc)).

(** The grouping total invariant, as stated, for a given configuration
    of the group step. *)
Definition groupTotals (groupByCol categoryCol accountCol amountCol qtyCol : jstr)
    (calcs : list calcColumn) (aggType : aggregation) (limit : Z)
    (filteredData : list row) : Prop :=
  let groups :=
    categoryBreakdown groupByCol categoryCol accountCol amountCol qtyCol
                      calcs aggType limit filteredData in
  list_sum (map gCount groups) = length filteredData
  /\ (aggType = AggSum ->
      sumNum (map gValue groups)
      = sumNum (map (fun r => parseFloatOr0 (field r amountCol)) filteredData)).

(** The round trip of one exported cell, as stated: a number comes back
    as the same number, any other cell as itself. *)
Definition roundTrips (v : value) : Prop := decodeValue (exportField v) = v.

(** The text is one the decoder takes for a bare string: it is trimmed,
    not wrapped in single quotes, not NULL, and not a number. *)
Definition bareText (s : jstr) : bool :=
  Str.eqb (Str.trim s) s
  && negb (Str.startsWith [apos] s && Str.endsWith [apos] s)
  && negb (Str.eqb (Str.toUpperCase s) (str "NULL"))
  && negb (negb (Num.isNaN (Num.parseFloat s)) && Num.isFiniteStr s).

Definition noChar (c : ascii) (s : jstr) : bool := forallb (fun x => negb (Str.eqc x c)) s.

(** *** Scripts of one CREATE TABLE and one INSERT *)

(** The text is at its end, or its next character is not in the class. *)
Definition stops (p : ascii -> bool) (s : jstr) : bool :=
  match s with [] => true | x :: _ => negb (p x) end.

(** The word is a prefix of the text, letter case aside. *)
Fixpoint startsWithI (w s : jstr) : bool :=
  match w, s with
  | [], _ => true
  | x :: w', y :: s' => Regex.chrI x y && startsWithI w' s'
  | _ :: _, [] => false
  end.

(** The word occurs somewhere in the text, letter case aside. *)
Fixpoint mentions (w s : jstr) : bool :=
  startsWithI w s || match s with [] => false | _ :: s' => mentions w s' end.

(** The word occurs in [pre ++ post] with its first letter in [pre]. *)
Fixpoint mentionsWithin (w pre post : jstr) : bool :=
  match pre with
  | [] => false
  | _ :: pre' => startsWithI w (pre ++ post) || mentionsWithin w pre' post
  end.

(** The keywords the lookahead of [insertRegex] stops at. *)
Definition stopKeywords : list jstr :=
  map str ["INSERT"; "CREATE"; "DROP"; "ALTER"; "UPDATE"; "DELETE"]%string.

(** A value tuple written out, and a block of them. *)
Definition tupleText (b : jstr) : jstr := str "(" ++ b ++ str ")".

Definition tuplesBlock (bodies : list jstr) : jstr :=
  Str.join (str ", ") (map tupleText bodies).

(** The inside of a tuple: not empty, no closing parenthesis. *)
Definition isBody (b : jstr) : bool :=
  match b with [] => false | _ :: _ => noChar ")"%char b end.

(** A column definition [name TYPE] written out, and a block of them. *)
Definition colText (cT : jstr * jstr) : jstr := fst cT ++ " "%char :: snd cT.

Definition colsBlock (cols : list (jstr * jstr)) : jstr :=
  Str.join (str ", ") (map colText cols).

(** A bare identifier: word characters, at least one. *)
Definition isIdent (s : jstr) : bool :=
  match s with [] => false | _ :: _ => forallb Str.isWord s end.

(** A column whose name is a bare identifier and whose type is one of
    the keywords of [colRegex], spelled as listed there. *)
Definition okCol (cT : jstr * jstr) : Prop :=
  isIdent (fst cT) = true /\ In (snd cT) Sql.typeKeywords.

(** What may follow a word without continuing a column definition. *)
Definition colGap (tail : jstr) : bool :=
  match tail with
  | [] => true
  | x :: _ =>
      negb (Str.isWord x) && negb (Str.isSpace x)
      && negb (Sql.closeQuote x) && negb (Sql.openQuote x)
  end.

(** What follows a type keyword in a block of column definitions: the end
    of the block or a comma. *)
Definition tailOK (rest : jstr) : bool :=
  match rest with
  | [] => true
  | x :: _ => Str.eqc x ","
  end.

(** The keyword the type alternation of [colRegex] picks at the head of a
    text: the first of the list that is a prefix of it, letter case
    aside. *)
Definition pickType (s : jstr) : option jstr :=
  find (fun w => startsWithI w s) Sql.typeKeywords.

(** What the alternation leaves of a type keyword. *)
Definition typeRem (T : jstr) : jstr :=
  match pickType T with
  | Some w => skipn (length w) T
  | None => []
  end.

(** The text after the keyword picked in the first column of a block. *)
Definition afterType (rem : jstr) (cols : list (jstr * jstr)) : jstr :=
  rem ++ match cols with
         | [] => []
         | _ :: _ => ","%char :: " "%char :: colsBlock cols
         end.

(** [CREATE TABLE t (c1 T1, ..., cn Tn);] *)
Definition createStmt (t : jstr) (cols : list (jstr * jstr)) : jstr :=
  str "CREATE TABLE " ++ t ++ " "%char :: "("%char :: colsBlock cols ++ [")"%char; ";"%char].

(** [INSERT INTO t VALUES (b1), ..., (bk);] *)
Definition insertStmt (t : jstr) (bodies : list jstr) : jstr :=
  str "INSERT INTO " ++ t ++ str " VALUES " ++ tuplesBlock bodies ++ [";"%char].

(** The declaration, a space, the rows. *)
Definition script (t : jstr) (cols : list (jstr * jstr)) (bodies : list jstr) : jstr :=
  createStmt t cols ++ " "%char :: insertStmt t bodies.

(** A script the extractor reads as written: bare names, listed types,
    distinct column names that are neither [_id] nor array indices,
    tuples without a closing parenthesis inside, no comment opener and no
    CR LF, and no statement keyword outside the two statement heads. *)
Record plainScript (t : jstr) (cols : list (jstr * jstr)) (bodies : list jstr) : Prop := {
  ps_table : isIdent t = true;
  ps_cols : cols <> [];
  ps_okCols : Forall okCol cols;
  ps_distinct : NoDup (map fst cols);
  ps_noId : ~ In (str "_id") (map fst cols);
  ps_noIndex : forall c, In c (map fst cols) -> Obj.indexOf c = None;
  ps_noProto : ~ In Host.protoKey (map fst cols);
  ps_own : Host.inherited (Str.toLowerCase t) = false;
  ps_bodies : bodies <> [];
  ps_okBodies : Forall (fun b => isBody b = true) bodies;
  ps_noLineComment : Str.includes (str "--") (script t cols bodies) = false;
  ps_noBlockComment : Str.includes (str "/*") (script t cols bodies) = false;
  ps_noCRLF : Str.includes [Sql.cr; Sql.lf] (script t cols bodies) = false;
  ps_noInsert :
    mentionsWithin (str "INSERT") (createStmt t cols ++ [" "%char]) (insertStmt t bodies) = false;
  ps_noCreate : mentions (str "CREATE") (" "%char :: insertStmt t bodies) = false;
  ps_noKeyword :
    forall kw, In kw stopKeywords -> mentions kw (tuplesBlock bodies ++ [";"%char]) = false
}.

(** A text of ASCII characters: its code units are the elements of the
    list, and lower-casing maps letter to letter. *)
Definition asciiOnly (s : jstr) : bool := forallb (fun c => (Str.code c <? 128)%nat) s.

(** *** Dumps: statements one after the other *)

(** White space, as [\s] reads ASCII text. *)
Definition blank (w : jstr) : bool := forallb Str.isSpace w.

Definition nonEmpty (A : Type) (l : list A) : bool :=
  match l with [] => false | _ :: _ => true end.

(** A keyword as spelled, in any letter case. *)
Definition spells (kw u : jstr) : bool := Str.eqb (Str.toUpperCase u) kw.

(** The text is empty or ends with a character that is no word
    character. *)
Definition cleanEnd (s : jstr) : bool :=
  match rev s with [] => true | x :: _ => negb (Str.isWord x) end.

(** A table or column name as written: a bare identifier, or one between
    two of the quote characters the patterns allow. *)
Record written : Set := Written {
  w_quotes : option (ascii * ascii);
  w_bare : jstr
}.

Definition writtenText (n : written) : jstr :=
  match w_quotes n with
  | Some (o, c) => o :: w_bare n ++ [c]
  | None => w_bare n
  end.

Definition okWritten (n : written) : bool :=
  isIdent (w_bare n)
  && match w_quotes n with
     | Some (o, c) => Sql.openQuote o && Sql.closeQuote c
     | None => true
     end.

(** The name under which the extractor files the table. *)
Definition tableKey (n : written) : jstr := Str.toLowerCase (w_bare n).

(** One column definition of a CREATE TABLE: white space, the name,
    white space, and the type with all that follows it up to the comma
    (a size, constraints, a default). *)
Record columnDef : Set := ColumnDef {
  cd_lead : jstr;
  cd_name : written;
  cd_gap : jstr;
  cd_type : jstr
}.

Definition columnName (d : columnDef) : jstr := w_bare (cd_name d).

Definition columnText (d : columnDef) : jstr :=
  cd_lead d ++ writtenText (cd_name d) ++ cd_gap d ++ cd_type d.

Definition blockText (ds : list columnDef) : jstr :=
  Str.join [","%char] (map columnText ds).

(** No match of [colRegex] begins in the text. *)
Definition quiet (s : jstr) : bool :=
  match Regex.search Sql.colRegex [] s with
  | None => true
  | Some _ => false
  end.

(** The text begins with a type keyword of [colRegex], and what the
    keyword leaves of it is not read as a further column. *)
Definition typed (s : jstr) : bool :=
  match pickType s with
  | Some w => quiet (skipn (length w) s)
  | None => false
  end.

Definition okColumn (d : columnDef) : bool :=
  blank (cd_lead d) && okWritten (cd_name d)
  && blank (cd_gap d) && nonEmpty (cd_gap d)
  && typed (cd_type d) && asciiOnly (cd_type d).

(** What [createTableRegex] accepts after the closing parenthesis of the
    column block: white space, then [ENGINE], a semicolon or the end of
    the text. *)
Definition closes (s : jstr) : bool :=
  match Str.trimStart s with
  | [] => true
  | x :: s' => Str.eqc x ";" || startsWithI (str "ENGINE") (x :: s')
  end.

(** No closing parenthesis inside the column block is followed by what
    ends a block. *)
Fixpoint noEarlyClose (block : jstr) : bool :=
  match block with
  | [] => true
  | x :: s => negb (Str.eqc x ")" && closes (s ++ [")"%char])) && noEarlyClose s
  end.

(** [CREATE TABLE name (columns) tail; after]: the keywords as spelled,
    the white space between them, what stands between the closing
    parenthesis and the semicolon (white space, or the table options
    from [ENGINE] on), and what follows the statement. *)
Record createStatement : Set := CreateStatement {
  c_create : jstr;
  c_sp1 : jstr;
  c_table : jstr;
  c_sp2 : jstr;
  c_name : written;
  c_sp3 : jstr;
  c_columns : list columnDef;
  c_tail : jstr;
  c_after : jstr
}.

Definition createText (c : createStatement) : jstr :=
  c_create c ++ c_sp1 c ++ c_table c ++ c_sp2 c ++ writtenText (c_name c) ++ c_sp3 c
  ++ "("%char :: blockText (c_columns c) ++ ")"%char :: c_tail c ++ ";"%char :: c_after c.

Definition okCreate (c : createStatement) : bool :=
  spells (str "CREATE") (c_create c) && blank (c_sp1 c) && nonEmpty (c_sp1 c)
  && spells (str "TABLE") (c_table c) && blank (c_sp2 c) && nonEmpty (c_sp2 c)
  && okWritten (c_name c) && negb (Host.inherited (tableKey (c_name c)))
  && blank (c_sp3 c)
  && nonEmpty (c_columns c) && forallb okColumn (c_columns c)
  && noEarlyClose (blockText (c_columns c))
  && closes (c_tail c ++ [";"%char])
  && negb (mentions (str "CREATE") (c_tail c ++ ";"%char :: c_after c))
  && negb (mentions (str "INSERT") (createText c))
  && cleanEnd (c_after c).

(** The value tuples of an INSERT, each with the text between its
    closing parenthesis and the next tuple (or the semicolon). *)
Definition tuplesText (tuples : list (jstr * jstr)) : jstr :=
  concat (map (fun bs => "("%char :: fst bs ++ ")"%char :: snd bs) tuples).

Definition okTuple (bs : jstr * jstr) : bool :=
  isBody (fst bs) && noChar "("%char (snd bs).

(** [INSERT INTO name VALUES (b1) s1 (b2) s2 ... ; after] *)
Record insertStatement : Set := InsertStatement {
  i_insert : jstr;
  i_sp1 : jstr;
  i_into : jstr;
  i_sp2 : jstr;
  i_name : written;
  i_sp3 : jstr;
  i_values : jstr;
  i_sp4 : jstr;
  i_tuples : list (jstr * jstr);
  i_after : jstr
}.

Definition insertText (i : insertStatement) : jstr :=
  i_insert i ++ i_sp1 i ++ i_into i ++ i_sp2 i ++ writtenText (i_name i) ++ i_sp3 i
  ++ i_values i ++ i_sp4 i ++ tuplesText (i_tuples i) ++ ";"%char :: i_after i.

Definition okInsert (i : insertStatement) : bool :=
  spells (str "INSERT") (i_insert i) && blank (i_sp1 i) && nonEmpty (i_sp1 i)
  && spells (str "INTO") (i_into i) && blank (i_sp2 i) && nonEmpty (i_sp2 i)
  && okWritten (i_name i) && negb (Host.inherited (tableKey (i_name i)))
  && blank (i_sp3 i)
  && (match w_quotes (i_name i) with Some _ => true | None => nonEmpty (i_sp3 i) end)
  && spells (str "VALUES") (i_values i) && blank (i_sp4 i)
  && nonEmpty (i_tuples i) && forallb okTuple (i_tuples i)
  && forallb (fun kw => negb (mentions kw (tuplesText (i_tuples i)))) stopKeywords
  && negb (mentions (str "CREATE") (insertText i))
  && noChar "("%char (i_after i)
  && negb (mentions (str "INSERT") (i_after i))
  && cleanEnd (i_after i).

Inductive statement : Set :=
| CreateTable (c : createStatement)
| InsertInto (i : insertStatement).

Definition statementText (s : statement) : jstr :=
  match s with
  | CreateTable c => createText c
  | InsertInto i => insertText i
  end.

Definition okStatement (s : statement) : bool :=
  match s with
  | CreateTable c => okCreate c
  | InsertInto i => okInsert i
  end.

Definition statementsText (ss : list statement) : jstr :=
  concat (map statementText ss).

(** A dump: some text that holds neither statement, then CREATE TABLE
    and INSERT statements. *)
Record dump : Set := Dump {
  preamble : jstr;
  statements : list statement
}.

Definition dumpText (d : dump) : jstr := preamble d ++ statementsText (statements d).

(** A dump the extractor reads as written. *)
Definition okDump (d : dump) : bool :=
  negb (mentions (str "CREATE") (preamble d))
  && negb (mentions (str "INSERT") (preamble d))
  && cleanEnd (preamble d)
  && forallb okStatement (statements d)
  && negb (Str.includes (str "--") (dumpText d))
  && negb (Str.includes (str "/*") (dumpText d))
  && negb (Str.includes [Sql.cr; Sql.lf] (dumpText d)).

(** The columns of the table as the dump declares them: those of its
    last CREATE TABLE for that table. *)
Definition declaredIn (ss : list statement) (t : jstr) : option (list jstr) :=
  fold_left
    (fun acc s =>
       match s with
       | CreateTable c =>
           if Str.eqb (tableKey (c_name c)) t then Some (map columnName (c_columns c))
           else acc
       | InsertInto _ => acc
       end)
    ss None.

(** The number of value tuples the dump inserts into the table. *)
Definition tuplesInto (ss : list statement) (t : jstr) : nat :=
  list_sum
    (map (fun s =>
            match s with
            | InsertInto i =>
                if Str.eqb (tableKey (i_name i)) t then length (i_tuples i) else 0
            | CreateTable _ => 0
            end)
         ss).

(** The names and column blocks of the CREATE TABLE statements, and the
    INSERT statements, in the order of the dump. *)
Definition createsOf (ss : list statement) : list (jstr * jstr) :=
  flat_map (fun s =>
              match s with
              | CreateTable c => [(w_bare (c_name c), blockText (c_columns c))]
              | InsertInto _ => []
              end) ss.

Definition insertsOf (ss : list statement) : list insertStatement :=
  flat_map (fun s =>
              match s with
              | InsertInto i => [i]
              | CreateTable _ => []
              end) ss.

(** No match of the pattern begins in the text, whatever follows it. *)
Definition inert (r : Regex.re) (p : jstr) : Prop :=
  forall p1 p2 s, p = p1 ++ p2 -> p2 <> [] -> Regex.matchHere r (p2 ++ s) = None.

(** The class of every character the pattern can read excludes [x], and
    the pattern has no assertion. *)
Fixpoint rejects (x : ascii) (r : Regex.re) : bool :=
  match r with
  | Regex.Eps => true
  | Regex.Chr p | Regex.Star p | Regex.LazyStar p => negb (p x)
  | Regex.Seq a b | Regex.Alt a b => rejects x a && rejects x b
  | Regex.Grp _ r' => rejects x r'
  | Regex.Ahead _ | Regex.Eos | Regex.Eol => false
  end.

(** What an INSERT statement makes the match of [insertRegex] hold: the
    table name, no explicit column list, and the tuples followed by text
    without an opening parenthesis. *)
Definition readsInsert (m : Regex.found) (i : insertStatement) : Prop :=
  Sql.group m 1 = w_bare (i_name i)
  /\ Regex.cap (Regex.groups m) 2 = None
  /\ exists junk,
       noChar "("%char junk = true
       /\ Sql.group m 3 = tuplesText (i_tuples i) ++ junk.

(** The pattern has no capturing group. *)
Fixpoint groupless (r : Regex.re) : bool :=
  match r with
  | Regex.Seq a b | Regex.Alt a b => groupless a && groupless b
  | Regex.Grp _ _ => false
  | Regex.Ahead r' => groupless r'
  | _ => true
  end.

(** The accumulator of the INSERT loop holds [n] rows for the table [t]
    (no table when [n] is [0]), the first of them built over the columns
    [cols]. *)
Definition holdsRows (t : jstr) (cols : list jstr) (e : Obj.t Sql.tableAcc) (n : nat)
  : Prop :=
  NoDup (map fst e)
  /\ match Obj.get e t with
     | None => n = 0
     | Some acc =>
         length (Sql.rows acc) = n
         /\ exists cl id rs, Sql.rows acc = Sql.buildRow cols cl id :: rs
     end.

(** Evaluate a closed boolean in place. *)
Ltac ev_bool b := let v := eval vm_compute in b in change b with v.

Definition jstr_eq_dec (a b : jstr) : {a = b} + {a <> b} :=
  list_eq_dec ascii_dec a b.

(* ===================================================================== *)
(** ** Roles, query pipeline and summaries of [App] *)
(* ===================================================================== *)

(** *** [handleSort] *)

(** [prev.key === key] *)
Definition keyIs (k : option jstr) (key : jstr) : bool :=
  match k with
  | Some k' => Str.eqb k' key
  | None => false
  end.

Definition isAsc (d : direction) : bool :=
  match d with Asc => true | Desc => false end.

(** The updater [handleSort(key)] hands to [setSortConfig]. *)
Definition handleSort (key : jstr) (prev : sortConfigT) : sortConfigT :=
  SortConfig (Some key)
    (if keyIs (sortKey prev) key && isAsc (sortDirection prev) then Desc else Asc).

(** *** [detectSpecialColumns] *)

Inductive role : Set := Account | Amount | Quantity | DateRole | Category | PartNumber.

(** The [patterns] object. *)
Definition keywordsOf (r : role) : list jstr :=
  map str
    match r with
    | Account =>
        ["account"; "customer"; "client"; "user"; "name"; "buyer"; "company";
         "org"; "vendor"; "member"; "supplier"]
    | Amount =>
        ["amount"; "total"; "price"; "cost"; "spend"; "revenue"; "value"; "sum";
         "payment"; "balance"; "unit_cost"; "unit_price"; "ext_cost"; "extended"]
    | Quantity => ["qty"; "quantity"; "count"; "units"; "num"; "number"]
    | DateRole =>
        ["date"; "time"; "day"; "created"; "updated"; "timestamp"; "ordered";
         "purchased"]
    | Category =>
        ["category"; "type"; "group"; "class"; "department"; "section"; "family"]
    | PartNumber =>
        ["part"; "sku"; "item"; "product"; "pn"; "part_number"; "partnumber";
         "item_number"; "itemnumber"; "material"]
    end%string.

(** [s.replace(/[_-]/g, '')] *)
Definition dropSeparators (s : jstr) : jstr :=
  filter (fun c => negb (Str.eqc c "_" || Str.eqc c "-")) s.

(** [keywords.some(k => colLower.includes(k.replace(/[_-]/g, '')))] *)
Definition nameMatches (keywords : list jstr) (col : jstr) : bool :=
  let colLower := dropSeparators (Str.toLowerCase col) in
  existsb (fun k => Str.includes (dropSeparators k) colLower) keywords.

(** [types[col] === t] *)
Definition typeIs (types : Obj.t colType) (col : jstr) (t : colType) : bool :=
  match Obj.get types col with
  | Some t' => colType_eqb t' t
  | None => false
  end.

(** The roles that want a column of type number. *)
Definition needsNumber (r : role) : bool :=
  match r with
  | Amount | Quantity => true
  | _ => false
  end.

(** The loop [for (const col of cols)] for one role: the first column
    at which it breaks. *)
Definition firstFor (cols : list jstr) (types : Obj.t colType) (r : role)
  : option jstr :=
  find (fun col =>
          nameMatches (keywordsOf r) col
          && (if needsNumber r then typeIs types col TNumber else true))
       cols.

(** The [detected] object; [None] is an absent or undefined property. *)
Record detectedT : Set := Detected {
  dAccount : option jstr;
  dAmount : option jstr;
  dQuantity : option jstr;
  dDate : option jstr;
  dCategory : option jstr;
  dPartNumber : option jstr
}.

(** A role used as a condition: false when unassigned or the empty name. *)
Definition assigned (c : option jstr) : bool :=
  match c with
  | Some c' => given c'
  | None => false
  end.

(** [a || b] on roles. *)
Definition orRole (a b : option jstr) : option jstr := if assigned a then a else b.

Definition detectSpecialColumns (cols : list jstr) (types : Obj.t colType)
  : detectedT :=
  let account := firstFor cols types Account in
  let amount := firstFor cols types Amount in
  let quantity := firstFor cols types Quantity in
  let date := firstFor cols types DateRole in
  let category := firstFor cols types Category in
  let partNumber := firstFor cols types PartNumber in
  let amount' :=
    if negb (assigned amount)
    then find (fun c => typeIs types c TNumber) cols
    else amount in
  let account' :=
    if negb (assigned account) && negb (assigned category)
    then find (fun c => typeIs types c TCategory || typeIs types c TText) cols
    else account in
  Detected account' amount' quantity date category partNumber.

(** A role as a column name, the empty name when unassigned. *)
Definition roleName (c : option jstr) : jstr :=
  match c with
  | Some c' => c'
  | None => []
  end.

(** [tables[activeTable] || []] *)
Definition dataOf (st : appState) : list row :=
  match Obj.get (tables st) (activeTable st) with
  | Some d => d
  | None => []
  end.

(** *** [uniqueCategories] *)

(** [[...new Set(l)]] *)
Definition distinct (l : list value) : list value :=
  fold_left (fun s v => setAdd v s) l [].

(** The comparison of [sort()] without a comparator: [undefined] last,
    the rest by their string forms. *)
Definition defaultCompare (a b : value) : Z :=
  match a, b with
  | VUndef, VUndef => 0%Z
  | VUndef, _ => 1%Z
  | _, VUndef => (-1)%Z
  | _, _ =>
      if strLtb (toStr a) (toStr b) then (-1)%Z
      else if strLtb (toStr b) (toStr a) then 1%Z
      else 0%Z
  end.

Definition uniqueCategories (d : detectedT) (data : list row) : list value :=
  let catCol := orRole (dCategory d) (dAccount d) in
  if negb (assigned catCol) then []
  else
    hostSort defaultCompare
      (filter truthy (distinct (map (fun r => field r (roleName catCol)) data))).

(** *** [addCalculatedColumn] *)

(** The multiplication sign of the formula text (UTF-8). *)
Definition timesSign : jstr := ["195"%char; "151"%char].

Definition addCalculatedColumn (d : detectedT) (calculatedColumns : list calcColumn)
  : list calcColumn :=
  if assigned (dQuantity d) && assigned (dAmount d) then
    let qtyCol := roleName (dQuantity d) in
    let priceCol := roleName (dAmount d) in
    let newCalcCol :=
      CalcColumn (str "ext_total") (str "Extended Total")
                 (qtyCol ++ str " " ++ timesSign ++ str " " ++ priceCol)
                 qtyCol priceCol in
    match findCalc calculatedColumns (str "ext_total") with
    | None => calculatedColumns ++ [newCalcCol]
    | Some _ => calculatedColumns
    end
  else calculatedColumns.

(** *** [filteredData] *)

(** The first text in [s] of the form of a year-month-day date. *)
Definition isoMatch (s : jstr) : option jstr :=
  match Regex.search DatePat.iso [] s with
  | Some m => Some (Regex.matched m)
  | None => None
  end.

Section FilteredData.

(** The host's [Date]: the month key (year, dash, two-digit month, in
    local time) of [new Date(text)], or [None] when the date is invalid. *)
Variable monthOf : jstr -> option jstr.

(** The month key the month filter computes for a row. *)
Definition monthKeyOfRow (dateCol : jstr) (r : row) : option jstr :=
  let dateVal := field r dateCol in
  if negb (truthy dateVal) then None
  else
    match dateVal with
    | VStr s =>
        match isoMatch s with
        | Some iso => monthOf iso
        | None => monthOf s
        end
    | _ => None
    end.

Definition inCategory (catCol selectedCategory : jstr) (r : row) : bool :=
  strictEq (field r catCol) (VStr selectedCategory).

Definition inMonth (dateCol selectedMonth : jstr) (r : row) : bool :=
  match monthKeyOfRow dateCol r with
  | Some monthKey => Str.eqb monthKey selectedMonth
  | None => false
  end.

(** [String(row[col] || '').toLowerCase().includes(value.toLowerCase())] *)
Definition cellContains (col value : jstr) (r : row) : bool :=
  Str.includes (Str.toLowerCase value)
               (Str.toLowerCase (toStr (orElse (field r col) (VStr [])))).

(** One entry of [filters]. *)
Definition textFilter (result : list row) (cv : jstr * jstr) : list row :=
  if given (snd cv) then filter (cellContains (fst cv) (snd cv)) result else result.

Definition filteredData (st : appState) (d : detectedT) (data : list row)
  : list row :=
  let catCol := orRole (dCategory d) (dAccount d) in
  let r1 :=
    if negb (Str.eqb (selectedCategory st) (str "all")) && assigned catCol
    then filter (inCategory (roleName catCol) (selectedCategory st)) data
    else data in
  let r2 :=
    if negb (Str.eqb (selectedMonth st) (str "all")) && assigned (dDate d)
    then filter (inMonth (roleName (dDate d)) (selectedMonth st)) r1
    else r1 in
  let r3 := fold_left textFilter (Obj.entries (filters st)) r2 in
  match sortKey (sortConfig st) with
  | Some key =>
      if given key
      then hostSort (pipelineCompare (calculatedColumns st) key
                                     (sortDirection (sortConfig st))) r3
      else r3
  | None => r3
  end.

End FilteredData.

(** *** [amountColumn], [cardSummariesRaw], [programSummariesRaw] *)

Definition amountPatterns : list jstr :=
  map str ["amount"; "total"; "price"; "cost"; "spend"; "value"]%string.

(** The rows under [transactions_joined]. *)
Definition joinedOf (tabs : Obj.t (list row)) : option (list row) :=
  Obj.get tabs (str "transactions_joined").

Definition amountColumn (tabs : Obj.t (list row)) : option jstr :=
  match joinedOf tabs with
  | None | Some [] => None
  | Some ((first :: _) as joined) =>
      find (fun col =>
              existsb (fun p => Str.includes p (Str.toLowerCase col)) amountPatterns
              && existsb (fun v => negb (Num.isNaN (parseFloatV v)))
                         (map (fun r => field r col) (firstn 10 joined)))
           (Obj.keys first)
  end.

(** [amountColumn ? parseFloat(txn[amountColumn]) || 0 : 0] *)
Definition amountOf (amountCol : option jstr) (txn : row) : Num.number :=
  if assigned amountCol then parseFloatOr0 (field txn (roleName amountCol))
  else Num.zero.

Record cardSummary : Set := CardSummary {
  cs_card_id : value;
  cs_card_program_id : value;
  cs_card_program_name : value;
  cs_transaction_count : nat;
  cs_total_spend : Num.number
}.

(** The body of [joined.forEach] in [cardSummariesRaw].  Under a name
    that [byCard] inherits, [byCard[cardId]] is a member of
    [Object.prototype]: no summary is made, and the transaction is
    counted on that value. *)
Definition addToCard (amountCol : option jstr) (byCard : Obj.t cardSummary)
    (txn : row) : Obj.t cardSummary :=
  let cardId := field txn (str "card_id") in
  if negb (Obj.has byCard (toStr cardId)) && Host.inherited (toStr cardId)
  then byCard
  else
  let cur :=
    match Obj.get byCard (toStr cardId) with
    | Some s => s
    | None =>
        CardSummary cardId (field txn (str "card_program_id"))
                    (field txn (str "card_program_name")) 0 Num.zero
    end in
  Obj.set (toStr cardId)
    (CardSummary (cs_card_id cur) (cs_card_program_id cur) (cs_card_program_name cur)
                 (S (cs_transaction_count cur))
                 (Num.add (cs_total_spend cur) (amountOf amountCol txn)))
    byCard.

Definition cardSummariesRaw (tabs : Obj.t (list row)) : list cardSummary :=
  match joinedOf tabs with
  | None => []
  | Some joined =>
      Obj.values (fold_left (addToCard (amountColumn tabs)) joined (Obj.empty _))
  end.

Record programSummary : Set := ProgramSummary {
  ps_card_program_id : value;
  ps_card_program_name : value;
  ps_transaction_count : nat;
  ps_total_spend : Num.number;
  ps_card_count : nat
}.

(** [progId || 'unknown'], as a property key. *)
Definition programKey (txn : row) : jstr :=
  toStr (orElse (field txn (str "card_program_id")) (VStr (str "unknown"))).

(** The body of [joined.forEach] in [programSummariesRaw]: the
    summaries and, under the same keys, the sets of card ids; [None]
    when the step throws.  Under a key that [byProgram] inherits,
    [byProgram[key]] is a member of [Object.prototype]: neither a
    summary nor a set is made, and [cardsByProgram[key]] has no
    [add]. *)
Definition addToProgram (amountCol : option jstr)
    (acc : Obj.t programSummary * Obj.t (list value)) (txn : row)
  : option (Obj.t programSummary * Obj.t (list value)) :=
  let '(byProgram, cardsByProgram) := acc in
  let key := programKey txn in
  if negb (Obj.has byProgram key) && Host.inherited key then None
  else
    let cur :=
      match Obj.get byProgram key with
      | Some s => s
      | None =>
          ProgramSummary (field txn (str "card_program_id"))
                         (field txn (str "card_program_name")) 0 Num.zero 0
      end in
    let cards :=
      match Obj.get byProgram key with
      | Some _ => Obj.get cardsByProgram key
      | None => Some []
      end in
    match cards with
    | Some cards =>
        Some (Obj.set key
                (ProgramSummary (ps_card_program_id cur) (ps_card_program_name cur)
                                (S (ps_transaction_count cur))
                                (Num.add (ps_total_spend cur) (amountOf amountCol txn))
                                (ps_card_count cur))
                byProgram,
              Obj.set key (setAdd (field txn (str "card_id")) cards) cardsByProgram)
    | None => None
    end.

(** [joined.forEach(...)], as long as no step throws. *)
Definition programTotals (amountCol : option jstr) (joined : list row)
    (acc : option (Obj.t programSummary * Obj.t (list value)))
  : option (Obj.t programSummary * Obj.t (list value)) :=
  fold_left
    (fun acc txn =>
       match acc with
       | Some a => addToProgram amountCol a txn
       | None => None
       end)
    joined acc.

(** [byProgram[key].card_count = cardsByProgram[key].size], for each key. *)
Definition setCardCount (cardsByProgram : Obj.t (list value))
    (byProgram : Obj.t programSummary) (key : jstr) : Obj.t programSummary :=
  match Obj.get byProgram key with
  | Some s =>
      Obj.set key
        (ProgramSummary (ps_card_program_id s) (ps_card_program_name s)
                        (ps_transaction_count s) (ps_total_spend s)
                        (match Obj.get cardsByProgram key with
                         | Some cards => length cards
                         | None => 0
                         end))
        byProgram
  | None => byProgram
  end.

(** [programSummariesRaw]; [None] when the memo throws. *)
Definition programSummariesRaw (tabs : Obj.t (list row))
  : option (list programSummary) :=
  match joinedOf tabs with
  | None => Some []
  | Some joined =>
      match programTotals (amountColumn tabs) joined
                          (Some (Obj.empty _, Obj.empty _)) with
      | Some (byProgram, cardsByProgram) =>
          Some (Obj.values
                  (fold_left (setCardCount cardsByProgram) (Obj.keys byProgram)
                             byProgram))
      | None => None
      end
  end.

(** *** [drilldownDataRaw] *)

Definition drilldownDataRaw (tabs : Obj.t (list row)) (dd : drilldownT) : list row :=
  match joinedOf tabs with
  | None => []
  | Some joined =>
      match drillLevel dd with
      | CardLevel =>
          if negb (strictEq (drillCardId dd) VNull)
          then filter (fun txn => strictEq (field txn (str "card_id")) (drillCardId dd))
                      joined
          else []
      | ProgramLevel =>
          if negb (strictEq (drillProgramId dd) VNull)
          then filter (fun txn => strictEq (field txn (str "card_program_id"))
                                           (drillProgramId dd))
                      joined
          else []
      | Overview => []
      end
  end.

(** *** [processCSVResults] *)

(** [/\.[^/.]+$/] *)
Definition extensionRegex : Regex.re :=
  Regex.cat [ Regex.Chr (Regex.chr "."); Regex.Plus (Regex.notc (Regex.oneOf (str "/.")));
              Regex.Eos ].

(** [name.replace(/\.[^/.]+$/, '')]: the first match is dropped. *)
Definition dropExtension (name : jstr) : jstr :=
  match Regex.search extensionRegex [] name with
  | Some m => Regex.skipped m ++ Regex.rest m
  | None => name
  end.

(** [s.replace(/[^a-z0-9]/g, '_')] *)
Definition underscoreOthers (s : jstr) : jstr :=
  map (fun c => if Str.isLower c || Str.isDigit c then c else "_"%char) s.

Definition csvTableName (name : jstr) : jstr :=
  underscoreOthers (Str.toLowerCase (dropExtension name)).

Section CsvResults.

Variable dateParses : jstr -> bool.

(** The state after a CSV file has been read: [parsedData] and [fields]
    are what the CSV reader hands over. *)
Definition processCSVResults (st : appState) (parsedData : list row)
    (fields : list jstr) (name : jstr) : appState :=
  let '(processedData, types) := processTableData dateParses parsedData fields in
  let tableName := csvTableName name in
  AppState [(tableName, processedData)] tableName fields types
           (Obj.empty _) (str "all") (sortConfig st) (calculatedColumns st)
           (selectedMonth st) (groupByColumn st) (aggregationType st)
           (topN st) (drilldown st).

End CsvResults.

(** *** Printed numbers *)

(** The characters of a printed finite number. *)
Definition numChar (c : ascii) : bool :=
  Str.isDigit c || Str.eqc c "-" || Str.eqc c "+" || Str.eqc c "." || Str.eqc c "e".

(** *** Tuple texts *)

(** A piece of a field of a tuple: text outside quotes, or a quoted
    literal with its quote character and its content. *)
Inductive segment : Set :=
| Plain (p : jstr)
| Quoted (q : ascii) (body : jstr).

Definition segText (g : segment) : jstr :=
  match g with
  | Plain p => p
  | Quoted q body => q :: body ++ [q]
  end.

Definition fieldText (f : list segment) : jstr := concat (map segText f).

(** Text outside quotes holds no comma and no quote; a literal is closed
    by the quote that opened it, and holds neither that quote nor a
    backslash. *)
Definition okSegment (g : segment) : Prop :=
  match g with
  | Plain p => noChar comma p = true /\ noChar apos p = true /\ noChar dquote p = true
  | Quoted q body =>
      (q = apos \/ q = dquote) /\ noChar q body = true /\ noChar backslash body = true
  end.

(** The character before the scanner after it has read [p]. *)
Definition lastOr (prev : option ascii) (p : jstr) : option ascii :=
  match rev p with
  | [] => prev
  | c :: _ => Some c
  end.

(** What holds of a group of the breakdown filed under key [k], for
    rows taken from [seen] and grouped by column [col]. *)
Definition groupOk (seen : row -> Prop) (col : jstr) (k : jstr) (g : group) : Prop :=
  k = gFullName g
  /\ gName g = Str.slice0 25 (gFullName g)
  /\ 1 <= gCount g
  /\ exists r, seen r /\ truthy (field r col) = true /\ gFullName g = toStr (field r col).

(** Is this the calculated column of the extended total. *)
Definition isExtTotal (c : calcColumn) : bool := Str.eqb (calcName c) (str "ext_total").

(** The characters of a table name made from a file name. *)
Definition nameChar (c : ascii) : bool :=
  Str.isLower c || Str.isDigit c || Str.eqc c "_".

(** The class [[^/.]] of [extensionRegex]. *)
Definition extChar : ascii -> bool := Regex.notc (Regex.oneOf (str "/.")).

(** What holds of a card summary filed under key [k], for transactions
    taken from [seen]. *)
Definition cardOk (seen : row -> Prop) (k : jstr) (s : cardSummary) : Prop :=
  k = toStr (cs_card_id s)
  /\ 1 <= cs_transaction_count s
  /\ exists txn, seen txn /\ cs_card_id s = field txn (str "card_id").

(** The card id of the transaction is not a name that every object
    inherits: the transaction is counted in a summary. *)
Definition plainCard (txn : row) : Prop :=
  Host.inherited (toStr (field txn (str "card_id"))) = false.

(** The number of card ids noted under a program key. *)
Definition cardsUnder (cardsByProgram : Obj.t (list value)) (k : jstr) : nat :=
  match Obj.get cardsByProgram k with
  | Some cards => length cards
  | None => 0
  end.

(** What holds of a program summary filed under key [k] while the
    transactions are read: it counts at least one transaction, and at
    least one and at most as many card ids are noted under [k]. *)
Definition programOk (cardsByProgram : Obj.t (list value)) (k : jstr)
    (s : programSummary) : Prop :=
  1 <= cardsUnder cardsByProgram k <= ps_transaction_count s.

(** The program key of the transaction is not a name that every object
    inherits. *)
Definition plainProgram (txn : row) : Prop := Host.inherited (programKey txn) = false.

(** What holds while the transactions are read: the keys are distinct,
    none is inherited, and each summary has its set of cards. *)
Definition programsOk (acc : Obj.t programSummary * Obj.t (list value)) : Prop :=
  NoDup (map fst (fst acc))
  /\ (forall k, Obj.has (fst acc) k = true -> Host.inherited k = false)
  /\ forall k s, In (k, s) (fst acc) -> programOk (snd acc) k s.

(** A cell whose exported field the tuple scanner reads back as one
    field: a string holds no backslash, and no apostrophe when it is
    exported without quotes. *)
Definition scannable (v : value) : Prop :=
  match v with
  | VStr s =>
      noChar backslash s = true
      /\ (Str.includes [comma] s || Str.includes [dquote] s = false ->
          noChar apos s = true)
  | _ => True
  end.

(** The cells the extractor reads in the text of one tuple. *)
Definition cellsOf (body : jstr) : list value := map decodeValue (splitTuple body).

(** An INSERT statement the extractor reads as written, with no CREATE
    TABLE before it: a bare table name, tuples without a closing
    parenthesis inside, no comment opener and no CR LF, and no statement
    keyword other than its own INSERT. *)
Record plainInsert (t : jstr) (bodies : list jstr) : Prop := {
  pi_table : isIdent t = true;
  pi_own : Host.inherited (Str.toLowerCase t) = false;
  pi_bodies : bodies <> [];
  pi_okBodies : Forall (fun b => isBody b = true) bodies;
  pi_noLineComment : Str.includes (str "--") (insertStmt t bodies) = false;
  pi_noBlockComment : Str.includes (str "/*") (insertStmt t bodies) = false;
  pi_noCRLF : Str.includes [Sql.cr; Sql.lf] (insertStmt t bodies) = false;
  pi_noCreate : mentions (str "CREATE") (insertStmt t bodies) = false;
  pi_noKeyword :
    forall kw, In kw stopKeywords -> mentions kw (tuplesBlock bodies ++ [";"%char]) = false
}.

(** One name of an explicit column list, in backticks or bare. *)
Definition columnItem (it : bool * jstr) : jstr :=
  if fst it then backtick :: snd it ++ [backtick] else snd it.

(** A cell without a line feed. *)
Definition oneLine (v : value) : Prop :=
  match v with
  | VStr s => noChar Sql.lf s = true
  | _ => True
  end.

(** A list in descending order of a key: wherever it is cut, no
    element after the cut has a greater key than one before it. *)
Definition descending (A : Type) (key : A -> nat) (l : list A) : Prop :=
  forall l1 l2, l = l1 ++ l2 -> forall a b, In a l1 -> In b l2 -> key b <= key a.

(** A table after type-processing, as [processContent] makes it. *)
Definition processedRows (dateParses : jstr -> bool) (tableData : list row) : list row :=
  fst (processTableData dateParses tableData (columnsOfTable tableData)).

(* ===================================================================== *)
(** ** Sample inputs *)
(* ===================================================================== *)

Definition num (z : Z) : value := VNum (Num.ofZ z).
Definition txt (s : string) : value := VStr (str s).
Definition mkRow (fields : list (string * value)) : row :=
  map (fun kv => (str (fst kv), snd kv)) fields.

Module Samples.

(** A column of two numbers and a NULL, as the extractor delivers it. *)
Definition withNull : list row :=
  [ mkRow [("_id", num 0); ("a", num 1)];
    mkRow [("_id", num 1); ("a", num 2)];
    mkRow [("_id", num 2); ("a", VNull)] ]%string.

Definition quoted : jstr := str "INSERT INTO t VALUES ('a,b', 2, NULL)".
Definition quotedDeclared : jstr :=
  str "CREATE TABLE t (col1 TEXT, col2 INT, col3 TEXT); INSERT INTO t VALUES ('a,b', 2, NULL)".

(** A text literal that contains a statement keyword. *)
Definition keywordInLiteral : jstr :=
  str "CREATE TABLE t (a INT, b TEXT); INSERT INTO t VALUES (1, 'Account created'), (2, 'x');".

(** A query state in which nothing has its initial value. *)
Definition busy : appState :=
  AppState
    [ (str "t", [mkRow [("_id", num 0); ("a", txt "x")]]);
      (str "u", [mkRow [("_id", num 0); ("b", num 7)]]) ]%string
    (str "t") [str "a"] [(str "a", TText)]
    [(str "a", str "x")] (str "x")
    (SortConfig (Some (str "a")) Desc)
    [CalcColumn (str "ext_total") (str "Extended Total") (str "q x p") (str "q") (str "p")]
    (str "2024-01") (str "a") AggCount 5%Z
    (Drilldown CardLevel (num 1) VNull VNull).

Definition banana : row := mkRow [("name", txt "Banana"); ("card_id", VNull)]%string.
Definition apple : row := mkRow [("name", txt "apple"); ("card_id", num 5)]%string.

(** Three tables in which every key resolves; the program is itself
    named like the placeholder. *)
Definition txns1 : list row :=
  [ mkRow [("_id", num 0); ("id", num 1); ("card_id", num 1); ("amount", num 50)] ]%string.
Definition cards1 : list row :=
  [ mkRow [("_id", num 0); ("id", num 1); ("card_program_id", num 10)] ]%string.
Definition programs1 : list row :=
  [ mkRow [("_id", num 0); ("id", num 10); ("name", txt "Unknown Program")] ]%string.

(** The tables of the scenario of the specification: the second
    transaction names a card that does not exist; a third repeats it. *)
Definition txns2 : list row :=
  [ mkRow [("_id", num 0); ("id", num 1); ("card_id", num 1); ("amount", num 50)];
    mkRow [("_id", num 1); ("id", num 2); ("card_id", num 2); ("amount", num 25)];
    mkRow [("_id", num 2); ("id", num 3); ("card_id", num 2); ("amount", num 5)] ]%string.
Definition programs2 : list row :=
  [ mkRow [("_id", num 0); ("id", num 10); ("name", txt "Travel")] ]%string.

(** A cards table whose only row has [__proto__] as its [id], and a
    transaction whose [card_id] is the name of a column of that row. *)
Definition cardsProto : list row :=
  [ mkRow [("_id", num 0); ("id", txt "__proto__"); ("name", txt "Gold")] ]%string.
Definition txnsNamed : list row :=
  [ mkRow [("_id", num 0); ("id", num 1); ("card_id", txt "name"); ("amount", num 50)] ]%string.

(** A dump that holds these tables. *)
Definition protoDump : jstr :=
  str "CREATE TABLE cards (id TEXT, name TEXT); INSERT INTO cards VALUES ('__proto__', 'Gold'); CREATE TABLE card_programs (id INT, name TEXT); INSERT INTO card_programs VALUES (10, 'Travel'); CREATE TABLE transactions (id INT, card_id TEXT, amount INT); INSERT INTO transactions VALUES (1, 'name', 50);".

(** Two rows to group by [category]; the second has none. *)
Definition sales : list row :=
  [ mkRow [("_id", num 0); ("category", txt "A"); ("amount", num 1)];
    mkRow [("_id", num 1); ("category", VNull); ("amount", num 2)] ]%string.

(** Four rows to group by [category]: two groups, and a row without
    a category. *)
Definition orders : list row :=
  [ mkRow [("_id", num 0); ("category", txt "A"); ("amount", num 10)];
    mkRow [("_id", num 1); ("category", txt "B"); ("amount", num 5)];
    mkRow [("_id", num 2); ("category", VNull); ("amount", num 2)];
    mkRow [("_id", num 3); ("category", txt "A"); ("amount", num 7)] ]%string.

(** A dump in the manner of [mysqldump]: a statement the extractor does
    not read, a table declared with quoted names, sizes, constraints
    and table options, and two INSERT statements for it. *)
Definition cardsDump : dump :=
  Dump (str "DROP TABLE IF EXISTS `cards`;" ++ [Sql.lf])
    [ CreateTable
        (CreateStatement (str "CREATE") (str " ") (str "TABLE") (str " ")
           (Written (Some (backtick, backtick)) (str "Cards")) (str " ")
           [ ColumnDef (Sql.lf :: str "  ") (Written (Some (backtick, backtick)) (str "id"))
                       (str " ") (str "int(11) NOT NULL");
             ColumnDef (Sql.lf :: str "  ") (Written None (str "name"))
                       (str " ")
                       (str "varchar(50) DEFAULT NULL," ++ Sql.lf :: str "  PRIMARY KEY (`id`)"
                        ++ [Sql.lf]) ]
           (str " ENGINE=InnoDB DEFAULT CHARSET=utf8") [Sql.lf]);
      InsertInto
        (InsertStatement (str "insert") (str " ") (str "into") (str " ")
           (Written None (str "cards")) (str " ") (str "values") [Sql.lf]
           [ (str "1,'Gold'", str ","); (str "2,'Blue'", []) ] [Sql.lf]);
      InsertInto
        (InsertStatement (str "INSERT") (str " ") (str "INTO") (str " ")
           (Written (Some (backtick, backtick)) (str "cards")) (str " ") (str "VALUES") (str " ")
           [ (str "3, 'x'", []) ] []) ].

(** A text with a double quote in it. *)
Definition quote : jstr := str "say " ++ [dquote] ++ str "hi" ++ [dquote].

End Samples.

(* ===================================================================== *)
(** * Properties *)
(* ===================================================================== *)

Unset Implicit Arguments.

(** ** Strings and objects *)

Lemma eqc_true (a b : ascii) : Str.eqc a b = true <-> a = b.
Proof. unfold Str.eqc. apply Ascii.eqb_eq. Qed.

Lemma eqc_refl (a : ascii) : Str.eqc a a = true.
Proof. apply eqc_true. reflexivity. Qed.

Lemma str_eqb_true (a b : jstr) : Str.eqb a b = true <-> a = b.
Proof.
  revert b. induction a as [|x a IH]; intros [|y b]; simpl; split; intro H;
    try reflexivity; try discriminate.
  - apply andb_true_iff in H as [Hc Hr]. apply eqc_true in Hc.
    apply IH in Hr. congruence.
  - inversion H; subst. rewrite eqc_refl. simpl. apply IH. reflexivity.
Qed.

Lemma str_eqb_refl (a : jstr) : Str.eqb a a = true.
Proof. apply str_eqb_true. reflexivity. Qed.

Lemma str_eqb_false (a b : jstr) : Str.eqb a b = false <-> a <> b.
Proof.
  split.
  - intros H E. apply str_eqb_true in E. congruence.
  - intros H. destruct (Str.eqb a b) eqn:E; [|reflexivity].
    apply str_eqb_true in E. contradiction.
Qed.

Section ObjFacts.
Variable A : Type.
Implicit Types (o : Obj.t A) (k : jstr) (v : A).

Lemma get_set_same o k v : Obj.get (Obj.set k v o) k = Some v.
Proof.
  induction o as [|[k' v'] o IH]; simpl.
  - now rewrite str_eqb_refl.
  - destruct (Str.eqb k' k) eqn:E; simpl.
    + now rewrite str_eqb_refl.
    + now rewrite E.
Qed.

Lemma get_set_other o k k' v : k <> k' -> Obj.get (Obj.set k v o) k' = Obj.get o k'.
Proof.
  intros Hne. induction o as [|[k0 v0] o IH]; simpl.
  - apply str_eqb_false in Hne. now rewrite Hne.
  - destruct (Str.eqb k0 k) eqn:E; simpl.
    + apply str_eqb_true in E. subst k0.
      apply str_eqb_false in Hne. now rewrite Hne.
    + destruct (Str.eqb k0 k'); [reflexivity | exact IH].
Qed.

Lemma get_set o k k' v :
  Obj.get (Obj.set k v o) k' = if Str.eqb k k' then Some v else Obj.get o k'.
Proof.
  destruct (Str.eqb k k') eqn:E.
  - apply str_eqb_true in E. subst. apply get_set_same.
  - apply str_eqb_false in E. now apply get_set_other.
Qed.

Lemma set_not_nil o k v : Obj.set k v o <> [].
Proof. destruct o as [|[k' v'] o]; simpl; [|destruct (Str.eqb k' k)]; discriminate. Qed.

Lemma insertIdx_not_nil (e : Z * (jstr * A)) l : Obj.insertIdx e l <> [].
Proof. destruct l; simpl; [|destruct (fst e <? fst p)%Z]; discriminate. Qed.

Lemma idx_fold_not_nil (l : list (jstr * A)) acc :
  acc <> [] ->
  fold_left (fun acc kv =>
               match Obj.indexOf (fst kv) with
               | Some i => Obj.insertIdx (i, kv) acc
               | None => acc
               end) l acc <> [].
Proof.
  revert acc. induction l as [|kv l IH]; intros acc H; simpl; [exact H|].
  apply IH. destruct (Obj.indexOf (fst kv)); [apply insertIdx_not_nil | exact H].
Qed.

(** An object with a property has a key. *)
Lemma keys_not_nil o : o <> [] -> Obj.keys o <> [].
Proof.
  destruct o as [|kv o]; [congruence|]. intros _.
  unfold Obj.keys, Obj.entries. simpl.
  destruct (Obj.indexOf (fst kv)) eqn:E.
  - intros H. apply map_eq_nil in H. apply app_eq_nil in H as [H _].
    apply map_eq_nil in H. revert H. apply idx_fold_not_nil.
    discriminate.
  - intros H. apply map_eq_nil in H. apply app_eq_nil in H as [_ H].
    discriminate.
Qed.

End ObjFacts.

Lemma get_fold_set (A : Type) (f : jstr -> A) (cols : list jstr) (init : Obj.t A) (k : jstr) :
  Obj.get (fold_left (fun o c => Obj.set c (f c) o) cols init) k
  = if in_dec jstr_eq_dec k cols then Some (f k) else Obj.get init k.
Proof.
  revert init. induction cols as [|c cs IH]; intros init; simpl; [reflexivity|].
  rewrite IH. destruct (in_dec jstr_eq_dec k cs) as [Hin|Hout].
  - destruct (jstr_eq_dec c k); reflexivity.
  - destruct (jstr_eq_dec c k) as [->|Hne].
    + apply get_set_same.
    + now apply get_set_other.
Qed.

(** ** The classifier *)

Lemma filter_isPresent_blank (values : list value) :
  Forall (fun v => v = VNull \/ v = VUndef \/ v = VStr []) values ->
  filter isPresent values = [].
Proof.
  induction 1 as [|v vs Hv _ IH]; simpl; [reflexivity|].
  destruct Hv as [-> | [-> | ->]]; simpl; exact IH.
Qed.

(** C10. A column whose entries are all null, undefined or the empty
    string has an empty sample, and the classifier answers [text] for it:
    the function is total, and the answer is none of [number], [date],
    [category]. *)
Theorem detectColumnType_blank (dateParses : jstr -> bool) (values : list value) :
  Forall (fun v => v = VNull \/ v = VUndef \/ v = VStr []) values ->
  firstn 100 (filter isPresent values) = []
  /\ detectColumnType dateParses values = TText
  /\ detectColumnType dateParses values <> TNumber
  /\ detectColumnType dateParses values <> TDate
  /\ detectColumnType dateParses values <> TCategory.
Proof.
  intros H. unfold detectColumnType.
  rewrite (filter_isPresent_blank _ H). simpl.
  repeat split; try reflexivity; discriminate.
Qed.

Lemma detectColumnType_blank_witness :
  firstn 100 (filter isPresent [VNull; VStr []; VUndef; VNull]) = []
  /\ detectColumnType (fun _ => true) [VNull; VStr []; VUndef; VNull] = TText
  /\ detectColumnType (fun _ => true) [VNull; VStr []; VUndef; VNull] <> TNumber
  /\ detectColumnType (fun _ => true) [VNull; VStr []; VUndef; VNull] <> TDate
  /\ detectColumnType (fun _ => true) [VNull; VStr []; VUndef; VNull] <> TCategory.
Proof.
  apply detectColumnType_blank.
  repeat (apply Forall_cons; [auto|]). apply Forall_nil.
Defined.

(** ** Type-processing *)

Lemma field_processRow (types : Obj.t colType) (cols : list jstr) (r : row)
    (idx : nat) (col : jstr) :
  In col cols ->
  field (processRow types cols r idx) col = coerceCell types col (field r col).
Proof.
  intros Hin. unfold field at 1, processRow.
  rewrite (get_fold_set _ (fun c => coerceCell types c (field r c))).
  destruct (in_dec jstr_eq_dec col cols); [reflexivity | contradiction].
Qed.

Lemma parseFloatOr0_not_NaN (v : value) : Num.isNaN (parseFloatOr0 v) = false.
Proof.
  unfold parseFloatOr0. destruct (parseFloatV v) as [|s|d]; simpl; try reflexivity.
  destruct (negb (Num.mant d =? 0)%Z); reflexivity.
Qed.

Lemma parseFloatOr0_failure (v : value) :
  parseFloatV v = Num.NaN -> parseFloatOr0 v = Num.zero.
Proof. unfold parseFloatOr0. intros ->. reflexivity. Qed.

Lemma In_processed (dateParses : jstr -> bool) (tableData : list row)
    (cols : list jstr) (r' : row) :
  In r' (fst (processTableData dateParses tableData cols)) ->
  exists idx r,
    nth_error tableData idx = Some r
    /\ r' = processRow (typesOf dateParses tableData cols) cols r idx.
Proof.
  unfold processTableData. simpl. intros H.
  apply in_map_iff in H as [[idx r] [Heq Hin]]. simpl in Heq.
  exists idx, r. split; [|now symmetry].
  assert (Hgen : forall (l : list row) (s : nat),
             In (idx, r) (combine (seq s (length l)) l) ->
             nth_error l (idx - s) = Some r /\ s <= idx).
  { clear. induction l as [|x l IH]; intros s H; simpl in H; [contradiction|].
    destruct H as [H|H].
    - inversion H; subst. rewrite Nat.sub_diag. split; [reflexivity | lia].
    - apply IH in H as [H1 H2]. split; [|lia].
      replace (idx - s) with (S (idx - S s)) by lia. exact H1. }
  apply Hgen in Hin as [Hin _]. now rewrite Nat.sub_0_r in Hin.
Qed.

(** C7 (as amended). In a column classified [number], every cell that is
    neither null nor undefined holds, after type-processing, the number
    parsed from its cleaned text, or 0 when that text does not parse; it
    is never [NaN], and never the original text.  A null or undefined
    cell of such a column is kept as it is. *)
Theorem number_column_cells (dateParses : jstr -> bool) (tableData : list row)
    (cols : list jstr) (col : jstr) (r' : row) :
  In col cols ->
  isNumberCol (snd (processTableData dateParses tableData cols)) col = true ->
  In r' (fst (processTableData dateParses tableData cols)) ->
  exists idx r,
    nth_error tableData idx = Some r /\
    ((isNullish (field r col) = true /\ field r' col = field r col)
     \/
     (isNullish (field r col) = false /\
      exists n,
        field r' col = VNum n
        /\ Num.isNaN n = false
        /\ n = parseFloatOr0 (VStr (cleanedText (field r col)))
        /\ (Num.parseFloat (cleanedText (field r col)) = Num.NaN -> n = Num.zero))).
Proof.
  intros Hcol Hnum Hin.
  destruct (In_processed _ _ _ _ Hin) as (idx & r & Hnth & ->).
  exists idx, r. split; [exact Hnth|].
  rewrite (field_processRow _ _ _ _ _ Hcol).
  unfold coerceCell. simpl in Hnum. rewrite Hnum. simpl.
  destruct (isNullish (field r col)) eqn:E; simpl.
  - left. split; reflexivity.
  - right. split; [reflexivity|]. eexists. split; [reflexivity|].
    split; [apply parseFloatOr0_not_NaN|]. split; [reflexivity|].
    intros Hnan. now apply parseFloatOr0_failure.
Qed.

(** C7 (as stated) fails on a column of two numbers and a NULL: the
    column is classified [number] and its third cell is still null. *)
Lemma number_column_keeps_null :
  ~ numberColumnsHoldNumbers (fun _ => false) Samples.withNull [str "a"].
Proof.
  intros H.
  specialize (H (str "a")
                (mkRow [("_id", num 2); ("a", VNull)]%string)).
  assert (E : isNumber (field (mkRow [("_id", num 2); ("a", VNull)]%string) (str "a")) = false)
    by reflexivity.
  rewrite H in E; [discriminate | | |].
  - simpl. auto.
  - vm_compute. reflexivity.
  - vm_compute. auto.
Qed.

Lemma number_column_cells_witness :
  exists idx r,
    nth_error Samples.withNull idx = Some r /\
    ((isNullish (field r (str "a")) = true
      /\ field (mkRow [("_id", num 0); ("a", num 1)]%string) (str "a") = field r (str "a"))
     \/
     (isNullish (field r (str "a")) = false /\
      exists n,
        field (mkRow [("_id", num 0); ("a", num 1)]%string) (str "a") = VNum n
        /\ Num.isNaN n = false
        /\ n = parseFloatOr0 (VStr (cleanedText (field r (str "a"))))
        /\ (Num.parseFloat (cleanedText (field r (str "a"))) = Num.NaN -> n = Num.zero))).
Proof.
  apply (number_column_cells (fun _ => false) Samples.withNull [str "a"]).
  - simpl. auto.
  - vm_compute. reflexivity.
  - vm_compute. auto.
Defined.

(** ** Switching the active table *)

(** C9 (as stated) fails: after a switch the top-N limit and the
    aggregation mode are what they were, not their initial values. *)
Lemma switchTable_keeps_chart_settings :
  ~ queryStateIsDefault (switchTable (fun _ => false) Samples.busy (str "u")).
Proof.
  intros (_ & _ & _ & _ & _ & _ & H & _). vm_compute in H. discriminate.
Qed.

(** C9 (as amended). A switch to a table that exists and has rows makes
    it the active table, recomputes the column list and types from it,
    and resets the per-column filters, the selected category, the sort
    key and direction and the calculated columns to their initial values;
    it leaves the tables, the aggregation mode, the top-N limit and the
    drill-down cursor as they were.  A switch to a table that is absent
    or empty changes nothing. *)
Theorem switchTable_resets (dateParses : jstr -> bool) (st : appState)
    (tableName : jstr) :
  (forall tableData,
      Obj.get (tables st) tableName = Some tableData ->
      tableData <> [] ->
      let st' := switchTable dateParses st tableName in
      activeTable st' = tableName
      /\ columns st' = columnsOfTable tableData
      /\ columnTypes st' = typesOf dateParses tableData (columnsOfTable tableData)
      /\ filters st' = defaultFilters
      /\ selectedCategory st' = defaultCategory
      /\ sortConfig st' = defaultSortConfig
      /\ calculatedColumns st' = defaultCalculatedColumns
      /\ tables st' = tables st
      /\ aggregationType st' = aggregationType st
      /\ topN st' = topN st
      /\ drilldown st' = drilldown st)
  /\ (Obj.get (tables st) tableName = None \/ Obj.get (tables st) tableName = Some [] ->
      switchTable dateParses st tableName = st).
Proof.
  split.
  - intros tableData Hget Hne. unfold switchTable. rewrite Hget.
    destruct tableData as [|r rs]; [congruence|]. simpl.
    repeat split; reflexivity.
  - intros [H|H]; unfold switchTable; rewrite H; reflexivity.
Qed.

(** ** Sort comparators *)

(** C6. The two comparators are not one rule.  Ascending, the pipeline
    comparator puts "Banana" before "apple" (it compares the strings as
    they are), where the summary comparator puts it after; and the
    summary comparator puts a null [card_id] before 5 (it has no null
    case), where the pipeline comparator puts it after. *)
Theorem sort_rules_differ :
  pipelineCompare [] (str "name") Asc Samples.banana Samples.apple = (-1)%Z
  /\ summaryCompare (str "name") Asc Samples.banana Samples.apple = 1%Z
  /\ summaryCompare (str "card_id") Asc Samples.banana Samples.apple = (-1)%Z
  /\ pipelineCompare [] (str "card_id") Asc Samples.banana Samples.apple = 1%Z
  /\ pipelineCompare [] (str "card_id") Desc Samples.banana Samples.apple = 1%Z.
Proof. repeat split; vm_compute; reflexivity. Qed.

(** ** The extractor on the quoted tuple *)

(** C2. The tuple of the example is cut into three raw fields, the comma
    inside the quotes staying in the first; the fields decode to the
    string [a,b], the number 2 and null; and the extractor yields exactly
    one row for it, under the synthesized column names when the table is
    not declared and under the declared names when it is. *)
Theorem quoted_tuple_row :
  splitTuple (str "'a,b', 2, NULL") = [str "'a,b'"; str "2"; str "NULL"]
  /\ map decodeValue (splitTuple (str "'a,b', 2, NULL")) = [txt "a,b"; num 2; VNull]
  /\ decodeValue (str "NULL") <> txt "NULL"
  /\ Sql.tablesOf Samples.quoted
     = [ (str "t",
          [ mkRow [("_id", num 0); ("column_1", txt "a,b");
                   ("column_2", num 2); ("column_3", VNull)] ]) ]%string
  /\ Sql.tablesOf Samples.quotedDeclared
     = [ (str "t",
          [ mkRow [("_id", num 0); ("col1", txt "a,b");
                   ("col2", num 2); ("col3", VNull)] ]) ]%string.
Proof.
  repeat split; try (vm_compute; reflexivity).
  vm_compute. discriminate.
Qed.


(** ** The joiner *)

Lemma find_app (A : Type) (p : A -> bool) (l1 l2 : list A) :
  find p (l1 ++ l2) = match find p l1 with Some x => Some x | None => find p l2 end.
Proof. induction l1 as [|x l1 IH]; simpl; [reflexivity|]. destruct (p x); auto. Qed.

(** Filing a row twice under the same key is filing it once. *)
Lemma file_own (k key : jstr) (r : row) (m : Join.idMap) :
  Obj.get (Join.own (Join.file k r (Join.file k r m))) key
  = if Str.eqb k Host.protoKey then Obj.get (Join.own m) key
    else if Str.eqb k key then Some r else Obj.get (Join.own m) key.
Proof.
  unfold Join.file. destruct (Str.eqb k Host.protoKey); cbn [Join.own]; [reflexivity|].
  rewrite !get_set. destruct (Str.eqb k key); reflexivity.
Qed.

Lemma file_proto (k : jstr) (r : row) (m : Join.idMap) :
  Join.rowProto (Join.file k r (Join.file k r m))
  = if Str.eqb k Host.protoKey then Some r else Join.rowProto m.
Proof. unfold Join.file. destruct (Str.eqb k Host.protoKey); reflexivity. Qed.

(** The map built from a table holds, under each key but [__proto__],
    the last row of the table with that [id]; the last row whose [id] is
    [__proto__] is its prototype. *)
Lemma byId_fold (table : list row) (init : Join.idMap) (key : jstr) :
  let m := fold_left
             (fun m r =>
                Join.file (toStr (VStr (toStr (field r (str "id"))))) r
                          (Join.file (toStr (field r (str "id"))) r m))
             table init in
  Obj.get (Join.own m) key
  = (if Str.eqb key Host.protoKey then Obj.get (Join.own init) key
     else match find (fun r => Str.eqb (idKey r) key) (rev table) with
          | Some r => Some r
          | None => Obj.get (Join.own init) key
          end)
  /\ Join.rowProto m
     = match find (fun r => Str.eqb (idKey r) Host.protoKey) (rev table) with
       | Some r => Some r
       | None => Join.rowProto init
       end.
Proof.
  revert init. induction table as [|r table IH]; intros init; cbn zeta.
  - cbn [fold_left rev find]. split; [|reflexivity]. now destruct (Str.eqb key Host.protoKey).
  - cbn [fold_left rev]. rewrite !find_app.
    change (toStr (VStr (toStr (field r (str "id"))))) with (toStr (field r (str "id"))).
    destruct (IH (Join.file (toStr (field r (str "id"))) r
                            (Join.file (toStr (field r (str "id"))) r init))) as [H1 H2].
    cbn zeta in H1, H2. rewrite H1, H2, file_own, file_proto. clear H1 H2 IH.
    fold (idKey r). cbn [find]. split.
    + destruct (Str.eqb key Host.protoKey) eqn:Ek.
      * apply str_eqb_true in Ek. subst key.
        destruct (Str.eqb (idKey r) Host.protoKey) eqn:E; reflexivity.
      * destruct (find _ (rev table)); [reflexivity|].
        destruct (Str.eqb (idKey r) key) eqn:E; [|now destruct (Str.eqb (idKey r) Host.protoKey)].
        apply str_eqb_true in E. rewrite E, Ek. reflexivity.
    + destruct (find _ (rev table)); [reflexivity|].
      now destruct (Str.eqb (idKey r) Host.protoKey).
Qed.

Lemma own_byId (table : list row) (key : jstr) :
  Obj.get (Join.own (Join.byId table)) key
  = if Str.eqb key Host.protoKey then None
    else find (fun r => Str.eqb (idKey r) key) (rev table).
Proof.
  unfold Join.byId. destruct (byId_fold table (Join.IdMap (Obj.empty _) None) key) as [H _].
  cbn zeta in H. rewrite H. cbn [Join.own Obj.get Obj.empty].
  destruct (Str.eqb key Host.protoKey); [reflexivity|]. now destruct (find _ _).
Qed.

Lemma proto_byId (table : list row) :
  Join.rowProto (Join.byId table)
  = find (fun r => Str.eqb (idKey r) Host.protoKey) (rev table).
Proof.
  unfold Join.byId. destruct (byId_fold table (Join.IdMap (Obj.empty _) None) []) as [_ H].
  cbn zeta in H. rewrite H. now destruct (find _ _).
Qed.

(** The two lookups of [m[k] || m[String(k)]] use one property key. *)
Lemma lookup_get (m : Join.idMap) (k : value) :
  Join.lookup m k = Join.truthyOnly (Join.get m (toStr k)).
Proof.
  unfold Join.lookup. change (toStr (VStr (toStr k))) with (toStr k).
  unfold Join.truthyOnly, Join.orEntry.
  destruct (Join.get m (toStr k)) as [e|]; [|reflexivity].
  destruct (Join.truthyEntry e) eqn:E; rewrite ?E; reflexivity.
Qed.

(** A key that is the [id] of a row finds the last such row. *)
Lemma get_byId_row (table : list row) (key : jstr) (r : row) :
  find (fun r => Str.eqb (idKey r) key) (rev table) = Some r ->
  Join.get (Join.byId table) key = Some (Join.ARow r).
Proof.
  intros H. unfold Join.get. rewrite own_byId, proto_byId.
  destruct (Str.eqb key Host.protoKey) eqn:Ek.
  - apply str_eqb_true in Ek. subst key. now rewrite H.
  - now rewrite H.
Qed.

(** A key that is no [id], in a table without the [id] [__proto__],
    finds what every plain object inherits. *)
Lemma get_byId_none (table : list row) (key : jstr) :
  (forall r, In r table -> idKey r <> Host.protoKey) ->
  (forall r, In r table -> idKey r <> key) ->
  Join.get (Join.byId table) key
  = if Str.eqb key Host.protoKey then Some Join.APrototype
    else if Host.isMethod key then Some (Join.AMethod key) else None.
Proof.
  intros Hp Hk.
  assert (Hnone : forall key', (forall r, In r table -> idKey r <> key') ->
                    find (fun r => Str.eqb (idKey r) key') (rev table) = None).
  { intros key' H. destruct (find _ (rev table)) as [r|] eqn:E; [|reflexivity].
    apply find_some in E as [Hin He]. apply in_rev in Hin.
    apply str_eqb_true in He. now destruct (H r Hin). }
  unfold Join.get. rewrite own_byId, proto_byId, (Hnone _ Hp), (Hnone _ Hk).
  now destruct (Str.eqb key Host.protoKey).
Qed.

Lemma lookup_byId_Some (table : list row) (k : value) :
  (exists r, In r table /\ idMatches r k) ->
  exists r, Join.lookup (Join.byId table) k = Some (Join.ARow r)
            /\ In r table /\ idMatches r k.
Proof.
  intros (r0 & Hin0 & Hm0). rewrite lookup_get.
  destruct (find (fun r => Str.eqb (idKey r) (toStr k)) (rev table)) as [r|] eqn:E.
  - rewrite (get_byId_row _ _ _ E).
    apply find_some in E as [Hin He]. apply in_rev in Hin.
    apply str_eqb_true in He. exists r. auto.
  - exfalso. apply in_rev in Hin0.
    pose proof (find_none _ _ E r0 Hin0) as Hf. simpl in Hf.
    apply str_eqb_false in Hf. apply Hf. exact Hm0.
Qed.

(** The joined rows are the transactions, one for one and in order. *)
Lemma joinedData_fold (cm pm : Join.idMap) (txns : list row) (acc : Join.result) :
  Join.joinedData (fold_left (Join.step cm pm) txns acc)
  = Join.joinedData acc
    ++ map (fun it => joinedRowOf cm pm (snd it) (fst it))
           (combine (seq (length (Join.joinedData acc)) (length txns)) txns).
Proof.
  revert acc. induction txns as [|t txns IH]; intros acc; simpl.
  - now rewrite app_nil_r.
  - rewrite IH. simpl. rewrite <- app_assoc. simpl.
    rewrite length_app. simpl. rewrite Nat.add_1_r. reflexivity.
Qed.

Lemma joinedData_join (txns cards programs : list row) :
  Join.joinedData (Join.join txns cards programs)
  = map (fun it => joinedRowOf (Join.byId cards) (Join.byId programs) (snd it) (fst it))
        (combine (seq 0 (length txns)) txns).
Proof. unfold Join.join. now rewrite joinedData_fold. Qed.

Lemma nth_error_indexed (A B : Type) (f : nat * A -> B) (l : list A) (s i : nat) (x : A) :
  nth_error l i = Some x ->
  nth_error (map f (combine (seq s (length l)) l)) i = Some (f (s + i, x)).
Proof.
  revert s i. induction l as [|y l IH]; intros s [|i] H; simpl in *; try discriminate.
  - inversion H. now rewrite Nat.add_0_r.
  - rewrite (IH (S s) i H). do 3 f_equal. lia.
Qed.

Lemma length_indexed (A B : Type) (f : nat * A -> B) (l : list A) (s : nat) :
  length (map f (combine (seq s (length l)) l)) = length l.
Proof. rewrite length_map, length_combine, length_seq. apply Nat.min_id. Qed.

Lemma In_indexed (A B : Type) (f : nat * A -> B) (l : list A) (s : nat) (y : B) :
  In y (map f (combine (seq s (length l)) l)) ->
  exists i x, In x l /\ y = f (i, x).
Proof.
  intros H. apply in_map_iff in H as [[i x] [E Hin]].
  apply in_combine_r in Hin. exists i, x. auto.
Qed.

Lemma setAdd_In (v w : value) (s : list value) :
  In w (setAdd v s) <-> w = v \/ In w s.
Proof.
  unfold setAdd. destruct (in_dec value_eq_dec v s) as [Hin|Hout].
  - split; [auto | intros [->|H]; auto].
  - rewrite in_app_iff. simpl. split; intros H; firstorder.
Qed.

Lemma setAdd_NoDup (v : value) (s : list value) : NoDup s -> NoDup (setAdd v s).
Proof.
  intros H. unfold setAdd. destruct (in_dec value_eq_dec v s) as [Hin|Hout]; [exact H|].
  apply (Permutation_NoDup (Permutation_cons_append s v)).
  now constructor.
Qed.

Lemma unmatched_fold_NoDup (cm pm : Join.idMap) (txns : list row) (acc : Join.result) :
  NoDup (Join.unmatchedCardIds acc) ->
  NoDup (Join.unmatchedCardIds (fold_left (Join.step cm pm) txns acc)).
Proof.
  revert acc. induction txns as [|t txns IH]; intros acc H; simpl; [exact H|].
  apply IH. simpl. destruct (Join.cardMatched _); [exact H | now apply setAdd_NoDup].
Qed.

Lemma unmatched_fold_keeps (cm pm : Join.idMap) (txns : list row) (acc : Join.result) (v : value) :
  In v (Join.unmatchedCardIds acc) ->
  In v (Join.unmatchedCardIds (fold_left (Join.step cm pm) txns acc)).
Proof.
  revert acc. induction txns as [|t txns IH]; intros acc H; simpl; [exact H|].
  apply IH. simpl. destruct (Join.cardMatched _); [exact H|].
  apply setAdd_In. now right.
Qed.

Lemma unmatched_fold_adds (cm pm : Join.idMap) (txns : list row) (acc : Join.result) (txn : row) :
  In txn txns ->
  Join.cardMatched (Join.cardOf cm txn) = false ->
  In (field txn (str "card_id"))
     (Join.unmatchedCardIds (fold_left (Join.step cm pm) txns acc)).
Proof.
  revert acc. induction txns as [|t txns IH]; intros acc Hin Hun; simpl; [contradiction|].
  destruct Hin as [->|Hin].
  - apply unmatched_fold_keeps. simpl. rewrite Hun. apply setAdd_In. now left.
  - now apply IH.
Qed.

Lemma matched_fold_all (cm pm : Join.idMap) (txns : list row) (acc : Join.result) :
  (forall txn, In txn txns -> Join.cardMatched (Join.cardOf cm txn) = true) ->
  Join.matchedCards (fold_left (Join.step cm pm) txns acc)
  = Join.matchedCards acc + length txns.
Proof.
  revert acc. induction txns as [|t txns IH]; intros acc H; simpl; [lia|].
  rewrite IH by (intros; apply H; now right). simpl.
  rewrite (H t) by now left. lia.
Qed.

(** With no card of that [id], and no card whose [id] is [__proto__],
    the card of a transaction is the empty object, a method of
    [Object.prototype] or [Object.prototype]: it has no key and no
    program. *)
Lemma cardOf_unmatched (cards : list row) (txn : row) :
  (forall card, In card cards -> idKey card <> Host.protoKey) ->
  (forall card, In card cards -> ~ idMatches card (field txn (str "card_id"))) ->
  Join.cardMatched (Join.cardOf (Join.byId cards) txn) = false
  /\ Join.programIdOf (Join.cardOf (Join.byId cards) txn) = VUndef.
Proof.
  intros Hp H. unfold Join.cardOf. rewrite lookup_get, (get_byId_none _ _ Hp H).
  destruct (Str.eqb _ Host.protoKey); [now split|].
  destruct (Host.isMethod _); now split.
Qed.

Lemma field_joinedRow_name (txn : row) (idx : nat) (pid name : value) :
  field (Join.joinedRow txn idx pid name) (str "card_program_name") = name.
Proof. unfold field, Join.joinedRow. now rewrite get_set_same. Qed.

Lemma field_joinedRow_id (txn : row) (idx : nat) (pid name : value) :
  field (Join.joinedRow txn idx pid name) (str "card_program_id") = pid.
Proof.
  unfold field, Join.joinedRow.
  rewrite get_set_other by (intro E; apply str_eqb_true in E; discriminate).
  now rewrite get_set_same.
Qed.

(** C4. The claim fails on a cards table one of whose rows has
    [__proto__] as its [id]: that row becomes the prototype of
    [cardsMap], and a transaction whose [card_id] is the name of one of
    its columns finds the cell of that column.  No card has the [id]
    [name], yet the card found is the text [Gold], whose keys are its
    four indices: the transaction is counted as matched and its
    [card_id] is not added to the set of unmatched identifiers.  The
    three tables are those the extractor reads from the dump
    [Samples.protoDump]. *)
Theorem inherited_card_counts_as_matched :
  let j := Join.join Samples.txnsNamed Samples.cardsProto Samples.programs2 in
  Sql.tablesOf Samples.protoDump
  = [ (str "cards", Samples.cardsProto);
      (str "card_programs", Samples.programs2);
      (str "transactions", Samples.txnsNamed) ]
  /\ (forall card, In card Samples.cardsProto ->
       forall txn, In txn Samples.txnsNamed ->
         ~ idMatches card (field txn (str "card_id")))
  /\ Join.matchedCards j = 1
  /\ Join.unmatchedCardIds j = [].
Proof.
  cbn zeta. split; [|split; [|split]].
  - vm_compute. reflexivity.
  - intros card [<-|[]] txn [<-|[]] E. vm_compute in E. discriminate.
  - vm_compute. reflexivity.
  - vm_compute. reflexivity.
Qed.

Lemma programName_not_unknown (program : option row) (pid : value) :
  isNullish pid = false ->
  (forall prog, program = Some prog -> Join.nameOfProgram (Some prog) <> unknownProgram) ->
  Join.programNameOf (option_map Join.ARow program) pid <> unknownProgram.
Proof.
  intros Hpid Hname. unfold Join.programNameOf.
  destruct program as [prog|]; cbn [option_map Join.nameOfEntry].
  - destruct (truthy (Join.nameOfProgram (Some prog))); [now apply Hname|].
    rewrite Hpid. simpl. discriminate.
  - cbn [Join.nameOfProgram truthy]. rewrite Hpid. simpl. discriminate.
Qed.

(** C3 (as amended). When every transaction has a card with its
    [card_id] and every row of the cards table has at least one field (it
    has [_id]), all transactions are counted as matched.  When moreover
    no card has a null or undefined [card_program_id] and no program row
    has the placeholder itself as its display name or name, no joined row
    is named [Unknown Program]. *)
Theorem complete_join (transactions cards programs : list row) :
  (forall txn, In txn transactions ->
     exists card, In card cards /\ idMatches card (field txn (str "card_id"))) ->
  (forall card, In card cards -> Obj.has card (str "_id") = true) ->
  Join.matchedCards (Join.join transactions cards programs) = length transactions
  /\ ((forall card, In card cards ->
         isNullish (field card (str "card_program_id")) = false
         /\ exists prog, In prog programs
                         /\ idMatches prog (field card (str "card_program_id"))) ->
      (forall prog, In prog programs -> Join.nameOfProgram (Some prog) <> unknownProgram) ->
      forall r, In r (Join.joinedData (Join.join transactions cards programs)) ->
        field r (str "card_program_name") <> unknownProgram).
Proof.
  intros Hcards Hrows.
  assert (Hfound : forall txn, In txn transactions ->
            exists card, Join.cardOf (Join.byId cards) txn = Join.ARow card /\ In card cards).
  { intros txn Hin. destruct (lookup_byId_Some cards _ (Hcards txn Hin)) as (c & Hl & Hc & _).
    exists c. unfold Join.cardOf. rewrite Hl. auto. }
  split.
  - unfold Join.join. rewrite matched_fold_all; [reflexivity|].
    intros txn Hin. destruct (Hfound txn Hin) as (c & -> & Hc).
    unfold Join.cardMatched. specialize (Hrows c Hc).
    destruct (Obj.keys c) eqn:Ek; [|reflexivity].
    exfalso. revert Ek. apply keys_not_nil. intros ->. discriminate.
  - intros Hpid Hnames r Hin. rewrite joinedData_join in Hin.
    apply In_indexed in Hin as (i & txn & Htxn & ->). simpl.
    unfold joinedRowOf. rewrite field_joinedRow_name.
    destruct (Hfound txn Htxn) as (c & -> & Hc). cbn [Join.programIdOf].
    destruct (Hpid c Hc) as [Hnn Hprog].
    destruct (lookup_byId_Some programs _ Hprog) as (p & Hl & Hin & _).
    assert (E : Join.programOf (Join.byId programs) (field c (str "card_program_id"))
                = option_map Join.ARow
                    (if truthy (field c (str "card_program_id")) then Some p else None)).
    { unfold Join.programOf. rewrite Hl.
      now destruct (truthy (field c (str "card_program_id"))). }
    rewrite E. apply programName_not_unknown; [exact Hnn|].
    intros prog Hp. apply Hnames.
    destruct (truthy (field c (str "card_program_id"))); [|discriminate Hp].
    inversion Hp; subst. exact Hin.
Qed.

Lemma complete_join_witness :
  Join.matchedCards (Join.join Samples.txns1 Samples.cards1 Samples.programs2) = 1
  /\ ((forall card, In card Samples.cards1 ->
         isNullish (field card (str "card_program_id")) = false
         /\ exists prog, In prog Samples.programs2
                         /\ idMatches prog (field card (str "card_program_id"))) ->
      (forall prog, In prog Samples.programs2 ->
         Join.nameOfProgram (Some prog) <> unknownProgram) ->
      forall r, In r (Join.joinedData (Join.join Samples.txns1 Samples.cards1 Samples.programs2)) ->
        field r (str "card_program_name") <> unknownProgram).
Proof.
  apply (complete_join Samples.txns1 Samples.cards1 Samples.programs2).
  - intros txn [<-|[]]. eexists. split; [left; reflexivity | reflexivity].
  - intros card [<-|[]]. reflexivity.
Defined.

(** C3 (as stated) fails when the program a card resolves to is itself
    named like the placeholder. *)
Lemma join_unknown_named_program :
  ~ joinComplete Samples.txns1 Samples.cards1 Samples.programs1.
Proof.
  intros H. destruct H as [_ H].
  - intros txn [<-|[]]. eexists. split; [left; reflexivity | reflexivity].
  - intros card [<-|[]]. eexists. split; [left; reflexivity | reflexivity].
  - apply (H (Join.joinedRow
                (mkRow [("_id", num 0); ("id", num 1); ("card_id", num 1); ("amount", num 50)]%string)
                0 (num 10) unknownProgram)).
    + vm_compute. auto.
    + vm_compute. reflexivity.
Qed.

(** ** Exact decimal arithmetic *)

Local Open Scope Z_scope.

Lemma strip10_val (fuel : nat) (m e E : Z) :
  E <= e ->
  valZ E (Num.strip10 fuel m e) = m * 10 ^ (e - E)
  /\ e <= Num.expo (Num.strip10 fuel m e).
Proof.
  revert m e. induction fuel as [|f IH]; intros m e HE; simpl.
  - unfold valZ. simpl. split; [reflexivity | lia].
  - destruct (m mod 10 =? 0) eqn:Hm.
    + apply Z.eqb_eq in Hm.
      destruct (IH (m / 10) (e + 1)) as [Hv He]; [lia|].
      split; [|lia]. rewrite Hv.
      replace (e + 1 - E) with (Z.succ (e - E)) by lia.
      rewrite Z.pow_succ_r by lia.
      rewrite (Z.div_mod m 10) at 2 by lia. rewrite Hm. ring.
    + unfold valZ. simpl. split; [reflexivity | lia].
Qed.

Lemma strip10_norm (fuel : nat) (m e : Z) :
  m <> 0 -> Z.abs m < 10 * 2 ^ Z.of_nat fuel ->
  Num.mant (Num.strip10 fuel m e) mod 10 <> 0.
Proof.
  revert m e. induction fuel as [|f IH]; intros m e Hm Hb; simpl.
  - simpl in Hb. intros H.
    assert (Hd : m = 10 * (m / 10)) by (rewrite (Z.div_mod m 10) at 1 by lia; lia).
    destruct (Z.eq_dec (m / 10) 0); lia.
  - destruct (m mod 10 =? 0) eqn:Hmod.
    + apply Z.eqb_eq in Hmod.
      assert (Hd : m = 10 * (m / 10)) by (rewrite (Z.div_mod m 10) at 1 by lia; lia).
      apply IH.
      * intros H0. rewrite H0 in Hd. lia.
      * rewrite Nat2Z.inj_succ, Z.pow_succ_r in Hb by lia. lia.
    + simpl. now apply Z.eqb_neq.
Qed.

Lemma normalize_norm (m e : Z) : isNorm (Num.normalize m e).
Proof.
  unfold Num.normalize. destruct (m =? 0) eqn:Hm.
  - left. split; reflexivity.
  - apply Z.eqb_neq in Hm. right. apply strip10_norm; [exact Hm|].
    rewrite Z2Nat.id by apply Z.log2_nonneg.
    assert (H : Z.abs m < 2 ^ Z.succ (Z.log2 (Z.abs m))).
    { apply Z.log2_spec. lia. }
    rewrite Z.pow_succ_r in H by apply Z.log2_nonneg.
    assert (0 < 2 ^ Z.log2 (Z.abs m)) by (apply Z.pow_pos_nonneg; [lia | apply Z.log2_nonneg]).
    lia.
Qed.

Lemma normalize_val (m e E : Z) :
  E <= e -> E <= 0 ->
  valZ E (Num.normalize m e) = m * 10 ^ (e - E)
  /\ E <= Num.expo (Num.normalize m e).
Proof.
  intros HE H0. unfold Num.normalize. destruct (m =? 0) eqn:Hm.
  - apply Z.eqb_eq in Hm. subst. unfold valZ. simpl. split; [reflexivity | lia].
  - destruct (strip10_val (Z.to_nat (Z.log2 (Z.abs m))) m e E HE) as [Hv He].
    split; [exact Hv | lia].
Qed.

(** Two decimals in normal form with the same value are the same. *)
Lemma norm_unique (E : Z) (a b : Num.dec) :
  isNorm a -> isNorm b -> E <= Num.expo a -> E <= Num.expo b ->
  valZ E a = valZ E b -> a = b.
Proof.
  assert (Hle : forall a b, isNorm a -> isNorm b -> E <= Num.expo a ->
                  Num.expo a <= Num.expo b -> valZ E a = valZ E b -> a = b).
  { clear a b. intros [ma ea] [mb eb] Ha Hb HEa Hab Hv.
    unfold valZ, isNorm in *. simpl in *.
    replace (eb - E) with ((eb - ea) + (ea - E)) in Hv by lia.
    rewrite Z.pow_add_r in Hv by lia.
    assert (Hp : 0 < 10 ^ (ea - E)) by (apply Z.pow_pos_nonneg; lia).
    assert (Hm : ma = mb * 10 ^ (eb - ea)) by nia.
    destruct (Z.eq_dec ea eb) as [->|Hne].
    - rewrite Z.sub_diag in Hm. simpl in Hm. f_equal. lia.
    - exfalso.
      replace (eb - ea) with (Z.succ (eb - ea - 1)) in Hm by lia.
      rewrite Z.pow_succ_r in Hm by lia.
      assert (Hmod : ma mod 10 = 0).
      { rewrite Hm. replace (mb * (10 * 10 ^ (eb - ea - 1))) with (mb * 10 ^ (eb - ea - 1) * 10) by ring.
        apply Z.mod_mul. lia. }
      destruct Ha as [[Ha1 Ha2]|Ha]; [|contradiction].
      subst ma ea.
      assert (Hp2 : 0 < 10 ^ (eb - 0 - 1)) by (apply Z.pow_pos_nonneg; lia).
      assert (mb = 0) by nia.
      destruct Hb as [[_ Hb2]|Hb]; [lia|]. subst mb. now rewrite Z.mod_0_l in Hb by lia. }
  intros Ha Hb HEa HEb Hv.
  destruct (Z.le_ge_cases (Num.expo a) (Num.expo b)).
  - now apply Hle.
  - symmetry. apply Hle; auto.
Qed.

Lemma dadd_val (E : Z) (a b : Num.dec) :
  E <= Num.expo a -> E <= Num.expo b -> E <= 0 ->
  valZ E (Num.dadd a b) = valZ E a + valZ E b
  /\ E <= Num.expo (Num.dadd a b).
Proof.
  intros Ha Hb H0. unfold Num.dadd, Num.align.
  set (e := Z.min (Num.expo a) (Num.expo b)).
  destruct (normalize_val (Num.mant a * 10 ^ (Num.expo a - e) + Num.mant b * 10 ^ (Num.expo b - e))
                          e E) as [Hv He]; [lia | lia |].
  split; [|exact He]. rewrite Hv. unfold valZ.
  replace (Num.expo a - E) with ((Num.expo a - e) + (e - E)) by lia.
  replace (Num.expo b - E) with ((Num.expo b - e) + (e - E)) by lia.
  rewrite !Z.pow_add_r by lia. ring.
Qed.

Lemma dadd_norm (a b : Num.dec) : isNorm (Num.dadd a b).
Proof. unfold Num.dadd, Num.align. apply normalize_norm. Qed.

Lemma dadd_comm (a b : Num.dec) : Num.dadd a b = Num.dadd b a.
Proof.
  unfold Num.dadd, Num.align. rewrite (Z.min_comm (Num.expo b)). f_equal. ring.
Qed.

Lemma dadd_assoc (a b c : Num.dec) :
  Num.dadd (Num.dadd a b) c = Num.dadd a (Num.dadd b c).
Proof.
  set (E := Z.min 0 (Z.min (Num.expo a) (Z.min (Num.expo b) (Num.expo c)))).
  destruct (dadd_val E a b) as [Hab Eab]; [lia | lia | lia |].
  destruct (dadd_val E b c) as [Hbc Ebc]; [lia | lia | lia |].
  destruct (dadd_val E (Num.dadd a b) c) as [H1 E1]; [lia | lia | lia |].
  destruct (dadd_val E a (Num.dadd b c)) as [H2 E2]; [lia | lia | lia |].
  apply (norm_unique E); try apply dadd_norm; try assumption. lia.
Qed.

Lemma dadd_zero_norm (a : Num.dec) : isNorm a -> Num.dadd a (Num.Dec 0 0) = a.
Proof.
  intros Ha.
  set (E := Z.min 0 (Num.expo a)).
  destruct (dadd_val E a (Num.Dec 0 0)) as [Hv He]; [lia | simpl; lia | lia |].
  apply (norm_unique E); try apply dadd_norm; try assumption; try lia.
  rewrite Hv. unfold valZ at 2. simpl. ring.
Qed.

Lemma add_comm (a b : Num.number) : Num.add a b = Num.add b a.
Proof.
  destruct a as [|s|x], b as [|t|y]; simpl; try reflexivity.
  - destruct s, t; reflexivity.
  - now rewrite dadd_comm.
Qed.

Lemma add_assoc (a b c : Num.number) :
  Num.add (Num.add a b) c = Num.add a (Num.add b c).
Proof.
  destruct a as [|s|x], b as [|t|y], c as [|u|z]; simpl; try reflexivity;
    try (destruct s, t; reflexivity);
    try (destruct s, u; reflexivity);
    try (destruct t, u; reflexivity).
  - destruct s, t, u; reflexivity.
  - now rewrite dadd_assoc.
Qed.

(** A sum is in normal form: adding zero to it changes nothing. *)
Lemma add_zero_sum (a b : Num.number) :
  Num.add (Num.add a b) Num.zero = Num.add a b.
Proof.
  destruct a as [|s|x], b as [|t|y]; simpl; try reflexivity.
  - destruct (Bool.eqb s t); reflexivity.
  - unfold Num.zero. f_equal. apply dadd_zero_norm, dadd_norm.
Qed.

Local Close Scope Z_scope.

(** ** Grouping *)

Arguments Num.add : simpl never.

Lemma insertIdx_perm (A : Type) (e : Z * (jstr * A)) (l : list (Z * (jstr * A))) :
  Permutation (Obj.insertIdx e l) (e :: l).
Proof.
  induction l as [|x l IH]; simpl; [reflexivity|].
  destruct (fst e <? fst x)%Z; [reflexivity|].
  rewrite IH. apply perm_swap.
Qed.

Lemma idx_fold_perm (A : Type) (l : list (jstr * A)) (acc : list (Z * (jstr * A))) :
  Permutation
    (map snd (fold_left (fun acc kv =>
                           match Obj.indexOf (fst kv) with
                           | Some i => Obj.insertIdx (i, kv) acc
                           | None => acc
                           end) l acc))
    (map snd acc ++ filter (@isIndexKey A) l).
Proof.
  revert acc. induction l as [|kv l IH]; intros acc; simpl.
  - now rewrite app_nil_r.
  - rewrite IH. unfold isIndexKey at 2. destruct (Obj.indexOf (fst kv)) as [i|].
    + rewrite (Permutation_map snd (insertIdx_perm A (i, kv) acc)). simpl.
      apply Permutation_middle.
    + reflexivity.
Qed.

Lemma filter_split_perm (A : Type) (p q : A -> bool) (l : list A) :
  (forall x, q x = negb (p x)) ->
  Permutation (filter p l ++ filter q l) l.
Proof.
  intros Hq. induction l as [|x l IH]; simpl; [reflexivity|].
  rewrite Hq. destruct (p x); simpl.
  - now constructor.
  - rewrite <- Permutation_middle. now constructor.
Qed.

(** [Object.entries] lists every property once. *)
Lemma entries_perm (A : Type) (o : Obj.t A) : Permutation (Obj.entries o) o.
Proof.
  unfold Obj.entries. rewrite idx_fold_perm. simpl.
  apply filter_split_perm. intros x. unfold isIndexKey.
  destruct (Obj.indexOf (fst x)); reflexivity.
Qed.

Lemma insertSorted_perm (A : Type) (cmp : A -> A -> Z) (x : A) (l : list A) :
  Permutation (insertSorted cmp x l) (x :: l).
Proof.
  induction l as [|y l IH]; simpl; [reflexivity|].
  destruct (cmp x y <? 0)%Z; [reflexivity|].
  rewrite IH. apply perm_swap.
Qed.

(** Sorting rearranges. *)
Lemma hostSort_perm (A : Type) (cmp : A -> A -> Z) (l : list A) :
  Permutation (hostSort cmp l) l.
Proof.
  unfold hostSort.
  assert (H : forall acc, Permutation (fold_left (fun acc x => insertSorted cmp x acc) l acc)
                                      (acc ++ l)).
  { induction l as [|x l IH]; intros acc; simpl.
    - now rewrite app_nil_r.
    - rewrite IH, insertSorted_perm. apply Permutation_middle. }
  apply (H []).
Qed.

Lemma list_sum_perm (l l' : list nat) : Permutation l l' -> list_sum l = list_sum l'.
Proof. induction 1; simpl; lia. Qed.

Lemma sumNum_sumR (l : list Num.number) : sumNum l = sumR l.
Proof.
  unfold sumNum, sumR. apply fold_symmetric.
  - intros a b c. symmetry. apply add_assoc.
  - intros b. apply add_comm.
Qed.

Lemma sumR_perm (l l' : list Num.number) : Permutation l l' -> sumR l = sumR l'.
Proof.
  induction 1; simpl; try congruence.
  rewrite <- !add_assoc. f_equal. apply add_comm.
Qed.

Lemma sumNum_perm (l l' : list Num.number) : Permutation l l' -> sumNum l = sumNum l'.
Proof. intros H. rewrite !sumNum_sumR. now apply sumR_perm. Qed.

Lemma counts_set_existing (b : Obj.t group) (k : jstr) (g g' : group) :
  Obj.get b k = Some g -> gCount g' = S (gCount g) ->
  list_sum (countsOf (Obj.set k g' b)) = S (list_sum (countsOf b)).
Proof.
  intros Hget Hc. induction b as [|[k0 g0] b IH]; simpl in *; [discriminate|].
  destruct (Str.eqb k0 k); simpl.
  - inversion Hget; subst. lia.
  - rewrite IH by assumption. lia.
Qed.

Lemma counts_set_new (b : Obj.t group) (k : jstr) (g' : group) :
  Obj.get b k = None ->
  list_sum (countsOf (Obj.set k g' b)) = list_sum (countsOf b) + gCount g'.
Proof.
  intros Hget. induction b as [|[k0 g0] b IH]; simpl in *; [lia|].
  destruct (Str.eqb k0 k); [discriminate|]. simpl. rewrite IH by assumption. lia.
Qed.

Lemma values_set_existing (b : Obj.t group) (k : jstr) (g g' : group) (x : Num.number) :
  Obj.get b k = Some g -> gValue g' = Num.add (gValue g) x ->
  sumR (valuesOf (Obj.set k g' b)) = Num.add (sumR (valuesOf b)) x.
Proof.
  intros Hget Hv. induction b as [|[k0 g0] b IH]; simpl in *; [discriminate|].
  destruct (Str.eqb k0 k); simpl.
  - inversion Hget; subst. rewrite Hv.
    rewrite !add_assoc. f_equal. apply add_comm.
  - rewrite IH by assumption. now rewrite add_assoc.
Qed.

Lemma values_set_new (b : Obj.t group) (k : jstr) (g' : group) (x : Num.number) :
  Obj.get b k = None -> gValue g' = Num.add Num.zero x ->
  sumR (valuesOf (Obj.set k g' b)) = Num.add (sumR (valuesOf b)) x.
Proof.
  intros Hget Hv. induction b as [|[k0 g0] b IH]; simpl in *.
  - rewrite Hv. apply add_zero_sum.
  - destruct (Str.eqb k0 k); [discriminate|]. simpl.
    rewrite IH by assumption. now rewrite add_assoc.
Qed.

Lemma values_set_same (b : Obj.t group) (k : jstr) (g g' : group) :
  Obj.get b k = Some g -> gValue g' = gValue g ->
  sumR (valuesOf (Obj.set k g' b)) = sumR (valuesOf b).
Proof.
  intros Hget Hv. induction b as [|[k0 g0] b IH]; simpl in *; [discriminate|].
  destruct (Str.eqb k0 k); simpl.
  - inversion Hget; subst. now rewrite Hv.
  - now rewrite IH.
Qed.

Section BreakdownFacts.
Variable groupByCol categoryCol accountCol amountCol qtyCol : jstr.
Variable calcs : list calcColumn.

Abbreviation col := (catCol groupByCol categoryCol accountCol).
Abbreviation add1 := (addRow groupByCol categoryCol accountCol amountCol qtyCol calcs).

Lemma addValue_spec (v : Num.number) (r : row) :
  given amountCol = true ->
  addValue amountCol qtyCol calcs v r = Num.add v (rowValue amountCol qtyCol calcs r).
Proof.
  intros Ha. unfold addValue, rowValue. rewrite Ha. simpl.
  unfold hasExtTotal. destruct (given qtyCol); simpl; [|reflexivity].
  destruct (extTotal calcs); reflexivity.
Qed.

Lemma addRow_plain (b : Obj.t group) (r : row) :
  plainCat col r -> hasCat col r = true ->
  add1 b r
  = let g := match Obj.get b (toStr (field r col)) with
             | Some g => g
             | None => Group (Str.slice0 25 (toStr (field r col))) Num.zero Num.zero 0
                             (toStr (field r col))
             end in
    Obj.set (toStr (field r col))
      (Group (gName g) (addValue amountCol qtyCol calcs (gValue g) r)
             (addQty qtyCol (gQty g) r) (S (gCount g)) (gFullName g))
      b.
Proof.
  intros Hp Hc. unfold addRow. fold col. unfold hasCat in Hc. rewrite Hc.
  rewrite (Hp Hc), Bool.andb_false_r. reflexivity.
Qed.

Lemma addRow_skip (b : Obj.t group) (r : row) :
  hasCat col r = false -> add1 b r = b.
Proof. intros Hc. unfold addRow. fold col. unfold hasCat in Hc. now rewrite Hc. Qed.

Lemma counts_addRow (b : Obj.t group) (r : row) :
  plainCat col r ->
  list_sum (countsOf (add1 b r))
  = list_sum (countsOf b) + (if hasCat col r then 1 else 0).
Proof.
  intros Hp. destruct (hasCat col r) eqn:Hc; [|rewrite (addRow_skip _ _ Hc); lia].
  rewrite (addRow_plain _ _ Hp Hc). cbn zeta.
  destruct (Obj.get b (toStr (field r col))) as [g|] eqn:E.
  - rewrite (counts_set_existing _ _ g) by (auto; reflexivity). lia.
  - rewrite counts_set_new by assumption. simpl. lia.
Qed.

Lemma values_addRow (b : Obj.t group) (r : row) :
  given amountCol = true -> plainCat col r ->
  sumR (valuesOf (add1 b r))
  = if hasCat col r
    then Num.add (sumR (valuesOf b)) (rowValue amountCol qtyCol calcs r)
    else sumR (valuesOf b).
Proof.
  intros Ha Hp. destruct (hasCat col r) eqn:Hc; [|now rewrite (addRow_skip _ _ Hc)].
  rewrite (addRow_plain _ _ Hp Hc). cbn zeta.
  destruct (Obj.get b (toStr (field r col))) as [g|] eqn:E.
  - apply (values_set_existing _ _ g); [assumption|]. simpl. now apply addValue_spec.
  - apply values_set_new; [assumption|]. simpl. now apply addValue_spec.
Qed.

Lemma counts_fold (rows : list row) (b : Obj.t group) :
  Forall (plainCat col) rows ->
  list_sum (countsOf (fold_left add1 rows b))
  = list_sum (countsOf b) + length (filter (hasCat col) rows).
Proof.
  intros Hp. revert b. induction Hp as [|r rows Hr Hp IH]; intros b; simpl; [lia|].
  rewrite IH, (counts_addRow _ _ Hr). destruct (hasCat col r); simpl; lia.
Qed.

Lemma values_fold (rows : list row) (b : Obj.t group) :
  given amountCol = true -> Forall (plainCat col) rows ->
  sumR (valuesOf (fold_left add1 rows b))
  = fold_left Num.add (map (rowValue amountCol qtyCol calcs) (filter (hasCat col) rows))
              (sumR (valuesOf b)).
Proof.
  intros Ha Hp. revert b. induction Hp as [|r rows Hr Hp IH]; intros b; simpl; [reflexivity|].
  rewrite IH, (values_addRow _ _ Ha Hr). destruct (hasCat col r); reflexivity.
Qed.

End BreakdownFacts.

Lemma values_perm (A : Type) (o : Obj.t A) : Permutation (Obj.values o) (map snd o).
Proof. unfold Obj.values. apply Permutation_map, entries_perm. Qed.




(** ** Export and decode *)

Lemma noChar_startsWith (c : ascii) (p s : jstr) :
  noChar c s = true -> Str.startsWith (c :: p) s = false.
Proof.
  destruct s as [|x s]; simpl; [reflexivity|]. intros H.
  apply andb_true_iff in H as [H _]. apply negb_true_iff in H.
  unfold Str.eqc in *. rewrite Ascii.eqb_sym, H. reflexivity.
Qed.

Lemma replaceAll_absent (c : ascii) (p rep s : jstr) :
  noChar c s = true -> Str.replaceAll (c :: p) rep s = s.
Proof.
  unfold Str.replaceAll. induction s as [|x s IH]; intros H; [reflexivity|].
  cbn [Str.replaceAll_go]. rewrite (noChar_startsWith c p (x :: s) H).
  simpl in H. apply andb_true_iff in H as [_ H]. now rewrite IH.
Qed.

Lemma includes_noChar (c : ascii) (s : jstr) :
  Str.includes [c] s = false -> noChar c s = true.
Proof.
  induction s as [|x s IH]; simpl; [reflexivity|]. intros H.
  apply orb_false_iff in H as [H1 H2]. rewrite andb_true_r in H1.
  rewrite (IH H2), andb_true_r. unfold Str.eqc in *.
  rewrite Ascii.eqb_sym, H1. reflexivity.
Qed.

Lemma trimStart_head (q : ascii) (s : jstr) :
  Str.isSpace q = false -> Str.trimStart (q :: s) = q :: s.
Proof. intros Hq. simpl. now rewrite Hq. Qed.

Lemma trim_wrapped (q : ascii) (s : jstr) :
  Str.isSpace q = false -> Str.trim (q :: s ++ [q]) = q :: s ++ [q].
Proof.
  intros Hq. unfold Str.trim, Str.trimEnd.
  rewrite (trimStart_head q (s ++ [q]) Hq).
  assert (E : rev (q :: s ++ [q]) = q :: rev s ++ [q]).
  { simpl. rewrite rev_app_distr. reflexivity. }
  rewrite E, (trimStart_head q (rev s ++ [q]) Hq).
  simpl. rewrite rev_app_distr. simpl. now rewrite rev_involutive.
Qed.

Lemma endsWith_wrapped (q : ascii) (s : jstr) : Str.endsWith [q] (q :: s ++ [q]) = true.
Proof.
  unfold Str.endsWith. simpl. rewrite rev_app_distr. simpl.
  now rewrite eqc_refl.
Qed.

Lemma slice_wrapped (q : ascii) (s : jstr) : Str.slice_1_m1 (q :: s ++ [q]) = s.
Proof. unfold Str.slice_1_m1. simpl. apply removelast_last. Qed.

(** C8 (as amended). What the decoder makes of an exported cell:
    a string with a comma and neither a double quote nor a backslash is
    wrapped in quotes and comes back as itself; a string with neither
    comma nor double quote is exported as it is and comes back as itself
    when it is a text the decoder takes for a bare string; a null or
    undefined cell is exported as the empty field and comes back as the
    empty string. *)
Theorem export_decode :
  (forall s, Str.includes [comma] s = true ->
             noChar dquote s = true -> noChar backslash s = true ->
             exportField (VStr s) = [dquote] ++ s ++ [dquote]
             /\ decodeValue (exportField (VStr s)) = VStr s)
  /\ (forall s, Str.includes [comma] s = false -> Str.includes [dquote] s = false ->
                bareText s = true ->
                exportField (VStr s) = s
                /\ decodeValue (exportField (VStr s)) = VStr s)
  /\ (forall v, isNullish v = true ->
                exportField v = [] /\ decodeValue (exportField v) = VStr []).
Proof.
  split; [|split].
  - intros s Hc Hq Hb.
    assert (Hx : exportField (VStr s) = [dquote] ++ s ++ [dquote]).
    { simpl. rewrite Hc. simpl. now rewrite (replaceAll_absent dquote [] _ s Hq). }
    split; [exact Hx|]. rewrite Hx. unfold decodeValue.
    change ([dquote] ++ s ++ [dquote]) with (dquote :: s ++ [dquote]).
    rewrite (trim_wrapped dquote s eq_refl).
    rewrite endsWith_wrapped, slice_wrapped.
    cbn [Str.startsWith]. change (Str.eqc dquote apos) with false.
    rewrite eqc_refl. simpl.
    now rewrite (replaceAll_absent backslash [apos] [apos] s Hb),
                (replaceAll_absent backslash [dquote] [dquote] s Hb).
  - intros s Hc Hq Hbare.
    assert (Hx : exportField (VStr s) = s) by (simpl; now rewrite Hc, Hq).
    split; [exact Hx|]. rewrite Hx. unfold bareText in Hbare.
    apply andb_true_iff in Hbare as [Hbare Hnum].
    apply andb_true_iff in Hbare as [Hbare Hnull].
    apply andb_true_iff in Hbare as [Htrim Hapos].
    apply str_eqb_true in Htrim. apply negb_true_iff in Hapos, Hnull, Hnum.
    unfold decodeValue. rewrite Htrim, Hapos, Hnull, Hnum.
    apply includes_noChar in Hq.
    now rewrite (noChar_startsWith dquote [] s Hq).
  - intros v Hv. destruct v; try discriminate; split; reflexivity.
Qed.

Lemma export_decode_witness :
  (exportField (txt "Smith, John") = [dquote] ++ str "Smith, John" ++ [dquote]
   /\ decodeValue (exportField (txt "Smith, John")) = txt "Smith, John")
  /\ (exportField (txt "Travel") = str "Travel"
      /\ decodeValue (exportField (txt "Travel")) = txt "Travel")
  /\ (exportField VNull = [] /\ decodeValue (exportField VNull) = VStr []).
Proof.
  destruct export_decode as (Ha & Hb & Hc).
  split; [|split].
  - apply Ha; reflexivity.
  - apply Hb; reflexivity.
  - apply Hc; reflexivity.
Defined.

(** C8 (as stated) fails on a text with a double quote, which is
    exported doubled and decoded without being undoubled; on a null
    cell, which comes back as the empty string; and on a text cell that
    reads as a number, which comes back as one. *)
Lemma export_decode_changes_cells :
  ~ roundTrips (VStr Samples.quote)
  /\ decodeValue (exportField (VStr Samples.quote))
     = VStr (str "say " ++ [dquote; dquote] ++ str "hi" ++ [dquote; dquote])
  /\ ~ roundTrips VNull
  /\ ~ roundTrips (txt "12").
Proof.
  split; [|split; [|split]].
  - intros H. vm_compute in H. discriminate.
  - vm_compute. reflexivity.
  - intros H. vm_compute in H. discriminate.
  - intros H. vm_compute in H. discriminate.
Qed.

(** ** The extractor on plain scripts *)

(** *** The engine on the constructors of the patterns *)

Section RegexFacts.
Import Regex.
Variable R : Type.
Implicit Types (k : cont R) (s u rest : jstr) (c : caps) (p : ascii -> bool).

Lemma run_cat_cons (r : re) (rs : list re) k s c :
  run (cat (r :: rs)) k s c = run r (run (cat rs) k) s c.
Proof. destruct rs; reflexivity. Qed.

Lemma run_Opt (r : re) k s c :
  run (Opt r) k s c = match run r k s c with Some x => Some x | None => k s c end.
Proof. reflexivity. Qed.

Lemma run_Plus p k s c :
  run (Plus p) k s c
  = match s with
    | x :: s' => if p x then star p k s' c else None
    | [] => None
    end.
Proof. reflexivity. Qed.

Lemma run_Chr p k s c :
  run (Chr p) k s c
  = match s with
    | x :: s' => if p x then k s' c else None
    | [] => None
    end.
Proof. reflexivity. Qed.

Lemma run_Grp (i : nat) (r : re) k s c :
  run (Grp i r) k s c
  = run r (fun s' c' => k s' ((i, firstn (length s - length s') s) :: c')) s c.
Proof. reflexivity. Qed.

Lemma run_LitI (w : jstr) k s c :
  run (LitI w) k s c = if startsWithI w s then k (skipn (length w) s) c else None.
Proof.
  unfold LitI. revert s. induction w as [|x w IH]; intros s; [reflexivity|].
  cbn [map]. rewrite run_cat_cons. cbn [run].
  destruct s as [|y s]; [reflexivity|]. cbn [startsWithI length skipn].
  destruct (chrI x y); [apply IH | reflexivity].
Qed.

Lemma run_Lit (w : jstr) k s c :
  run (Lit w) k s c = if Str.startsWith w s then k (skipn (length w) s) c else None.
Proof.
  unfold Lit. revert s. induction w as [|x w IH]; intros s; [reflexivity|].
  cbn [map]. rewrite run_cat_cons. cbn [run].
  destruct s as [|y s]; [reflexivity|]. cbn [Str.startsWith length skipn].
  unfold chr, Str.eqc. rewrite (Ascii.eqb_sym y x).
  destruct (Ascii.eqb x y); [apply IH | reflexivity].
Qed.

Lemma star_stop p k rest c : stops p rest = true -> star p k rest c = k rest c.
Proof.
  destruct rest as [|x rest]; simpl; [reflexivity|].
  intros H. apply negb_true_iff in H. now rewrite H.
Qed.

Lemma star_all p k u rest c (r : R) :
  forallb p u = true -> stops p rest = true -> k rest c = Some r ->
  star p k (u ++ rest) c = Some r.
Proof.
  intros Hu Hs Hk. induction u as [|x u IH]; simpl.
  - now rewrite star_stop.
  - simpl in Hu. apply andb_true_iff in Hu as [Hx Hu]. rewrite Hx, (IH Hu). reflexivity.
Qed.

Lemma star_none p k u rest c :
  forallb p u = true -> stops p rest = true ->
  (forall u1 u2, u = u1 ++ u2 -> k (u2 ++ rest) c = None) ->
  star p k (u ++ rest) c = None.
Proof.
  intros Hu Hs Hk. induction u as [|x u IH]; simpl.
  - rewrite star_stop by assumption. apply (Hk [] []). reflexivity.
  - simpl in Hu. apply andb_true_iff in Hu as [Hx Hu]. rewrite Hx, IH.
    + apply (Hk [] (x :: u)). reflexivity.
    + assumption.
    + intros u1 u2 E. apply (Hk (x :: u1) u2). simpl. now rewrite E.
Qed.

Lemma lazy_here p k s c (r : R) : k s c = Some r -> lazy p k s c = Some r.
Proof. intros H. destruct s; simpl; now rewrite H. Qed.

Lemma lazy_skip p k u rest c :
  forallb p u = true ->
  (forall u1 u2, u = u1 ++ u2 -> u2 <> [] -> k (u2 ++ rest) c = None) ->
  lazy p k (u ++ rest) c = lazy p k rest c.
Proof.
  intros Hu Hk. induction u as [|x u IH]; [reflexivity|].
  simpl in Hu. apply andb_true_iff in Hu as [Hx Hu].
  assert (H0 : k (x :: u ++ rest) c = None) by (apply (Hk [] (x :: u) eq_refl); discriminate).
  cbn [app lazy]. rewrite H0, Hx. apply IH; [assumption|].
  intros u1 u2 E Hne. apply (Hk (x :: u1) u2); [simpl; now rewrite E | assumption].
Qed.

End RegexFacts.

Lemma firstn_consumed (u rest : jstr) :
  firstn (length (u ++ rest) - length rest) (u ++ rest) = u.
Proof.
  rewrite length_app, Nat.add_sub. rewrite firstn_app, Nat.sub_diag. simpl.
  rewrite firstn_all. apply app_nil_r.
Qed.

Lemma search_skip (r : Regex.re) (pre before s : jstr) :
  (forall p1 p2, pre = p1 ++ p2 -> p2 <> [] -> Regex.matchHere r (p2 ++ s) = None) ->
  Regex.search r before (pre ++ s) = Regex.search r (rev pre ++ before) s.
Proof.
  revert before. induction pre as [|x pre IH]; intros before H; [reflexivity|].
  assert (H0 : Regex.matchHere r (x :: pre ++ s) = None)
    by (apply (H [] (x :: pre) eq_refl); discriminate).
  cbn [app Regex.search]. rewrite H0, IH.
  - simpl. now rewrite <- app_assoc.
  - intros p1 p2 E Hne. apply (H (x :: p1) p2); [simpl; now rewrite E | assumption].
Qed.

Lemma search_none (r : Regex.re) (before s : jstr) :
  (forall p1 p2, s = p1 ++ p2 -> Regex.matchHere r p2 = None) ->
  Regex.search r before s = None.
Proof.
  revert before. induction s as [|x s IH]; intros before H.
  - simpl. now rewrite (H [] [] eq_refl).
  - cbn [Regex.search]. rewrite (H [] (x :: s) eq_refl). apply IH.
    intros p1 p2 E. apply (H (x :: p1) p2). simpl. now rewrite E.
Qed.

Lemma mentions_suffix (w a b : jstr) : mentions w (a ++ b) = false -> mentions w b = false.
Proof.
  induction a as [|x a IH]; [auto|]. cbn [app mentions]. intros H.
  apply orb_false_iff in H as [_ H]. auto.
Qed.

Lemma mentions_head (w s : jstr) : mentions w s = false -> startsWithI w s = false.
Proof. destruct s; simpl; intros H; apply orb_false_iff in H as [H _]; exact H. Qed.

Lemma search_here (r : Regex.re) (before s s' : jstr) (c : Regex.caps) :
  Regex.matchHere r s = Some (s', c) ->
  Regex.search r before s
  = Some (Regex.Found (rev before) (firstn (length s - length s') s) c s').
Proof. intros H. destruct s; simpl; now rewrite H. Qed.

Lemma valueSet_here (b rest : jstr) :
  isBody b = true ->
  Regex.matchHere Sql.valueSetRegex ("("%char :: b ++ ")"%char :: rest)
  = Some (rest, [(1, b)]).
Proof.
  intros Hb. destruct b as [|x b]; [discriminate|].
  unfold isBody in Hb. cbn [noChar forallb] in Hb.
  apply andb_true_iff in Hb as [Hx Hb].
  unfold Regex.matchHere, Sql.valueSetRegex.
  cbn [Regex.cat Regex.run app]. unfold Regex.Plus. cbn [Regex.run].
  change (Regex.notc (Regex.chr ")") x) with (negb (Str.eqc x ")")).
  rewrite Hx.
  erewrite star_all; [reflexivity | exact Hb | reflexivity |].
  cbn [Regex.run Regex.chr Str.eqc Ascii.eqb Bool.eqb andb].
  change (x :: b ++ ")"%char :: rest) with ((x :: b) ++ (")"%char :: rest)).
  now rewrite firstn_consumed.
Qed.

Lemma tupleText_app (b rest : jstr) :
  tupleText b ++ rest = "("%char :: b ++ ")"%char :: rest.
Proof. unfold tupleText. simpl. now rewrite <- app_assoc. Qed.

Lemma tuplesBlock_cons (b : jstr) (bs : list jstr) :
  tuplesBlock (b :: bs)
  = tupleText b ++ match bs with [] => [] | _ :: _ => str ", " ++ tuplesBlock bs end.
Proof.
  unfold tuplesBlock. cbn [map Str.join]. destruct bs as [|b' bs]; cbn [map].
  - now rewrite app_nil_r.
  - reflexivity.
Qed.

Lemma valueSet_fail (x : ascii) (s : jstr) :
  Str.eqc x "(" = false -> Regex.matchHere Sql.valueSetRegex (x :: s) = None.
Proof.
  intros H. unfold Regex.matchHere, Sql.valueSetRegex.
  cbn [Regex.cat Regex.run]. unfold Regex.chr at 1. now rewrite H.
Qed.

Lemma valueSet_skip (pre before s : jstr) :
  noChar "("%char pre = true ->
  Regex.search Sql.valueSetRegex before (pre ++ s)
  = Regex.search Sql.valueSetRegex (rev pre ++ before) s.
Proof.
  intros H. apply search_skip. intros p1 p2 E Hne. subst pre.
  destruct p2 as [|x p2]; [congruence|]. cbn [app]. apply valueSet_fail.
  unfold noChar in H. rewrite forallb_app in H. apply andb_true_iff in H as [_ H].
  simpl in H. apply andb_true_iff in H as [H _]. now apply negb_true_iff in H.
Qed.

(** One match of the tuple pattern for each tuple. *)
Lemma valueSet_count (bodies : list jstr) (pre : jstr) (fuel : nat) :
  Forall (fun b => isBody b = true) bodies ->
  noChar "("%char pre = true ->
  length (pre ++ tuplesBlock bodies) < fuel ->
  length (Regex.execLoop fuel Sql.valueSetRegex (pre ++ tuplesBlock bodies))
  = length bodies.
Proof.
  intros Hb. revert pre fuel. induction Hb as [|b bs Hb Hbs IH]; intros pre fuel Hpre Hf.
  - destruct fuel; [lia|]. cbn [Regex.execLoop]. unfold tuplesBlock. cbn [map Str.join].
    rewrite valueSet_skip by assumption. reflexivity.
  - destruct fuel as [|fuel]; [lia|].
    rewrite tuplesBlock_cons in *. cbn [Regex.execLoop].
    rewrite valueSet_skip by assumption.
    rewrite tupleText_app in *.
    rewrite (search_here _ _ _ _ _ (valueSet_here b _ Hb)).
    cbn [Regex.rest length]. f_equal.
    destruct bs as [|b' bs'].
    + destruct fuel; reflexivity.
    + apply IH; [reflexivity|].
      rewrite length_app in Hf. cbn [length] in Hf. rewrite length_app in Hf.
      cbn [length] in Hf. lia.
Qed.

Lemma word_facts (x : ascii) :
  Str.isWord x = true ->
  Str.isSpace x = false /\ Sql.openQuote x = false /\ Sql.closeQuote x = false
  /\ Str.eqc x "(" = false /\ Str.eqc x ")" = false /\ Str.eqc x ";" = false.
Proof.
  destruct x as [[] [] [] [] [] [] [] []]; vm_compute; intros H;
    try discriminate H; repeat split.
Qed.

Lemma colGap_facts (z : ascii) (tail : jstr) :
  colGap (z :: tail) = true ->
  Str.isWord z = false /\ Str.isSpace z = false
  /\ Sql.closeQuote z = false /\ Sql.openQuote z = false.
Proof.
  simpl. intros H. repeat (apply andb_true_iff in H as [H ?]).
  repeat split; now apply negb_true_iff.
Qed.

Lemma col_fail_word (u tail : jstr) :
  forallb Str.isWord u = true -> colGap tail = true ->
  Regex.matchHere Sql.colRegex (u ++ tail) = None.
Proof.
  intros Hu Ht. unfold Regex.matchHere, Sql.colRegex.
  rewrite run_cat_cons, run_Opt, run_Chr, run_cat_cons, run_Grp, run_Plus.
  destruct u as [|x u]; cbn [app].
  - destruct tail as [|z tail]; [reflexivity|].
    destruct (colGap_facts z tail Ht) as (Hw & _ & _ & Hq). now rewrite Hq, Hw.
  - simpl in Hu. apply andb_true_iff in Hu as [Hx Hu].
    destruct (word_facts x Hx) as (_ & Hq & _). rewrite Hq, Hx.
    apply star_none; [exact Hu | | ].
    + destruct tail as [|z tail]; [reflexivity|].
      destruct (colGap_facts z tail Ht) as (Hw & _). simpl. now rewrite Hw.
    + intros u1 u2 E.
      rewrite run_cat_cons, run_Opt, run_Chr, run_cat_cons, run_Plus.
      destruct u2 as [|y u2]; cbn [app].
      * destruct tail as [|z tail]; [reflexivity|].
        destruct (colGap_facts z tail Ht) as (_ & Hs & Hc & _). now rewrite Hc, Hs.
      * assert (Hy : Str.isWord y = true).
        { subst u. rewrite forallb_app in Hu. apply andb_true_iff in Hu as [_ Hu].
          simpl in Hu. now apply andb_true_iff in Hu as [Hu _]. }
        destruct (word_facts y Hy) as (Hs & _ & Hc & _). now rewrite Hc, Hs.
Qed.

Lemma col_fail_space (x : ascii) (s : jstr) :
  Str.isSpace x = true -> Regex.matchHere Sql.colRegex (x :: s) = None.
Proof.
  intros Hx. unfold Regex.matchHere, Sql.colRegex.
  assert (Hw : Str.isWord x = false /\ Sql.openQuote x = false).
  { destruct x as [[] [] [] [] [] [] [] []]; vm_compute in Hx; try discriminate Hx;
      split; reflexivity. }
  destruct Hw as [Hw Hq].
  rewrite run_cat_cons, run_Opt, run_Chr, Hq.
  rewrite run_cat_cons, run_Grp, run_Plus, Hw. reflexivity.
Qed.

Lemma tailOK_colGap (rest : jstr) : tailOK rest = true -> colGap rest = true.
Proof.
  destruct rest as [|x rest]; [reflexivity|]. simpl. intros H.
  apply eqc_true in H. subst x. reflexivity.
Qed.

Lemma run_alts_LitI (R : Type) (ws : list jstr) (k : Regex.cont R) (s : jstr) (c : Regex.caps) :
  ws <> [] ->
  (forall s' c', exists r, k s' c' = Some r) ->
  Regex.run (Regex.alts (map Regex.LitI ws)) k s c
  = match find (fun w => startsWithI w s) ws with
    | Some w => k (skipn (length w) s) c
    | None => None
    end.
Proof.
  intros Hne Hk. induction ws as [|w ws IH]; [congruence|].
  destruct ws as [|w' ws].
  - cbn [map Regex.alts find]. rewrite run_LitI. destruct (startsWithI w s); reflexivity.
  - change (Regex.alts (map Regex.LitI (w :: w' :: ws)))
      with (Regex.Alt (Regex.LitI w) (Regex.alts (map Regex.LitI (w' :: ws)))).
    cbn [Regex.run]. rewrite run_LitI. cbn [find].
    destruct (startsWithI w s).
    + destruct (Hk (skipn (length w) s) c) as [r ->]. reflexivity.
    + apply IH. discriminate.
Qed.

Lemma type_pick (T rest : jstr) :
  In T Sql.typeKeywords -> tailOK rest = true ->
  exists w,
    pickType (T ++ rest) = Some w
    /\ skipn (length w) (T ++ rest) = typeRem T ++ rest
    /\ forallb Str.isWord (typeRem T) = true
    /\ stops Str.isSpace (T ++ rest) = true.
Proof.
  intros HT Hrest.
  assert (Hr : rest = [] \/ exists rest', rest = ","%char :: rest').
  { destruct rest as [|x rest']; [now left|]. right. exists rest'.
    simpl in Hrest. apply eqc_true in Hrest. now subst. }
  unfold Sql.typeKeywords in HT. cbn [map In] in HT.
  repeat (destruct HT as [<- | HT]); try contradiction;
    (destruct Hr as [-> | [rest' ->]];
     eexists; (split; [vm_compute; reflexivity|]);
     repeat split; vm_compute; reflexivity).
Qed.

Lemma colText_app (cT : jstr * jstr) (rest : jstr) :
  colText cT ++ rest = fst cT ++ " "%char :: snd cT ++ rest.
Proof. unfold colText. now rewrite <- app_assoc. Qed.

(** A column definition at the head of the text is matched at once: the
    identifier is captured, and the text resumes inside or after the type
    keyword. *)
Lemma col_here (cT : jstr * jstr) (rest : jstr) :
  okCol cT -> tailOK rest = true ->
  exists caps,
    Regex.cap caps 1 = Some (fst cT)
    /\ Regex.matchHere Sql.colRegex (colText cT ++ rest)
       = Some (typeRem (snd cT) ++ rest, caps).
Proof.
  destruct cT as [c T]. intros [Hc HT] Hrest. cbn [fst snd] in *.
  rewrite colText_app. cbn [fst snd].
  destruct (type_pick T rest HT Hrest) as (w & Hpick & Hskip & _ & Hstop).
  destruct c as [|x c]; [discriminate|].
  unfold isIdent in Hc. cbn [forallb] in Hc. apply andb_true_iff in Hc as [Hx Hc].
  destruct (word_facts x Hx) as (_ & Hq & _).
  eexists. split; cycle 1.
  - unfold Regex.matchHere, Sql.colRegex.
    rewrite run_cat_cons, run_Opt, run_Chr. cbn [app]. rewrite Hq.
    rewrite run_cat_cons, run_Grp, run_Plus, Hx.
    erewrite star_all; [reflexivity | exact Hc | reflexivity |].
    rewrite run_cat_cons, run_Opt, run_Chr.
    change (Sql.closeQuote " ") with false. cbv iota.
    rewrite run_cat_cons, run_Plus.
    change (Str.isSpace " ") with true. cbv iota.
    rewrite (star_stop _ _ _ _ _ Hstop).
    cbn [Regex.cat]. rewrite run_Grp.
    rewrite run_alts_LitI; [| discriminate | intros; eexists; reflexivity].
    fold (pickType (T ++ rest)). rewrite Hpick, Hskip. reflexivity.
  - cbn [Regex.cap Nat.eqb].
    change (x :: c ++ " "%char :: T ++ rest) with ((x :: c) ++ (" "%char :: T ++ rest)).
    now rewrite firstn_consumed.
Qed.

Lemma colsBlock_cons (cT : jstr * jstr) (cs : list (jstr * jstr)) :
  colsBlock (cT :: cs)
  = colText cT ++ match cs with
                  | [] => []
                  | _ :: _ => ","%char :: " "%char :: colsBlock cs
                  end.
Proof.
  unfold colsBlock. cbn [map Str.join]. destruct cs as [|c' cs]; cbn [map].
  - now rewrite app_nil_r.
  - reflexivity.
Qed.

Lemma search_step (r : Regex.re) (before : jstr) (x : ascii) (s : jstr) :
  Regex.matchHere r (x :: s) = None ->
  Regex.search r before (x :: s) = Regex.search r (x :: before) s.
Proof. intros H. cbn [Regex.search]. now rewrite H. Qed.

Lemma forallb_suffix (A : Type) (p : A -> bool) (l l1 l2 : list A) :
  forallb p l = true -> l = l1 ++ l2 -> forallb p l2 = true.
Proof. intros H ->. rewrite forallb_app in H. now apply andb_true_iff in H as [_ H]. Qed.

Lemma typeRem_length (T : jstr) : length (typeRem T) <= length T.
Proof.
  unfold typeRem. destruct (pickType T); [|simpl; lia].
  rewrite length_skipn. lia.
Qed.

Lemma tail_cases (cs : list (jstr * jstr)) :
  tailOK match cs with
         | [] => []
         | _ :: _ => ","%char :: " "%char :: colsBlock cs
         end = true.
Proof. destruct cs; reflexivity. Qed.

Lemma col_fail_nil : Regex.matchHere Sql.colRegex [] = None.
Proof. exact (col_fail_word [] [] eq_refl eq_refl). Qed.

Lemma col_fail_gap (x : ascii) (s : jstr) :
  colGap (x :: s) = true -> Regex.matchHere Sql.colRegex (x :: s) = None.
Proof. intros H. exact (col_fail_word [] (x :: s) eq_refl H). Qed.

Lemma col_skip_word (rem before tail : jstr) :
  forallb Str.isWord rem = true -> colGap tail = true ->
  Regex.search Sql.colRegex before (rem ++ tail)
  = Regex.search Sql.colRegex (rev rem ++ before) tail.
Proof.
  intros Hrem Ht. apply search_skip. intros p1 p2 E _.
  apply col_fail_word; [|exact Ht]. exact (forallb_suffix _ _ _ _ _ Hrem E).
Qed.

(** The loop over [colRegex], resumed after a type keyword: the
    identifiers of the remaining definitions, in order. *)
Lemma col_loop (cols : list (jstr * jstr)) :
  Forall okCol cols ->
  forall (rem : jstr) (fuel : nat),
    forallb Str.isWord rem = true ->
    length (afterType rem cols) < fuel ->
    map (fun m => Sql.group m 1) (Regex.execLoop fuel Sql.colRegex (afterType rem cols))
    = map fst cols.
Proof.
  induction 1 as [|cT cs HcT Hcs IH]; intros rem fuel Hrem Hf.
  - destruct fuel as [|fuel]; [lia|]. unfold afterType. cbn [Regex.execLoop].
    rewrite col_skip_word by (auto; reflexivity).
    cbn [Regex.search]. rewrite col_fail_nil. reflexivity.
  - destruct fuel as [|fuel]; [lia|]. unfold afterType in *. cbn [Regex.execLoop].
    rewrite col_skip_word by (auto; reflexivity).
    rewrite search_step by (apply col_fail_gap; reflexivity).
    rewrite search_step by (apply col_fail_space; reflexivity).
    rewrite colsBlock_cons in *.
    destruct (col_here cT _ HcT (tail_cases cs)) as (caps & Hcap & Hm).
    rewrite (search_here _ _ _ _ _ Hm). cbn [map Regex.rest].
    f_equal.
    + unfold Sql.group. cbn [Regex.groups]. now rewrite Hcap.
    + apply (IH (typeRem (snd cT)) fuel).
      * destruct HcT as [_ HT].
        destruct (type_pick (snd cT) [] HT eq_refl) as (_ & _ & _ & Hw & _). exact Hw.
      * unfold colText in Hf. pose proof (typeRem_length (snd cT)).
        repeat (progress (rewrite ?length_app in *; cbn [length] in * )). lia.
Qed.

Lemma columnDefs_block (cols : list (jstr * jstr)) :
  Forall okCol cols ->
  Sql.columnDefsOf (colsBlock cols) = map fst cols.
Proof.
  intros H. unfold Sql.columnDefsOf, Regex.execAll.
  destruct H as [|cT cs HcT Hcs].
  - cbn [colsBlock map Str.join length Regex.execLoop Regex.search].
    rewrite col_fail_nil. reflexivity.
  - rewrite colsBlock_cons. cbn [Regex.execLoop].
    destruct (col_here cT _ HcT (tail_cases cs)) as (caps & Hcap & Hm).
    rewrite (search_here _ _ _ _ _ Hm). cbn [map Regex.rest]. f_equal.
    + unfold Sql.group. cbn [Regex.groups]. now rewrite Hcap.
    + apply (col_loop cs Hcs (typeRem (snd cT))).
      * destruct HcT as [_ HT].
        destruct (type_pick (snd cT) [] HT eq_refl) as (_ & _ & _ & Hw & _). exact Hw.
      * unfold afterType, colText. pose proof (typeRem_length (snd cT)).
        repeat (progress (rewrite ?length_app in *; cbn [length] in * )). lia.
Qed.

Ltac lit :=
  rewrite run_LitI;
  match goal with
  | |- context [startsWithI ?w ?s] => ev_bool (startsWithI w s)
  end;
  cbv iota; cbn [length skipn str list_ascii_of_string].

Lemma ifNotExists_fail (R : Type) (k : Regex.cont R) (t rest : jstr) (c : Regex.caps) :
  forallb Str.isWord t = true ->
  Regex.run
    (Regex.cat [ Regex.LitI (str "IF"); Regex.Plus Str.isSpace; Regex.LitI (str "NOT");
                 Regex.Plus Str.isSpace; Regex.LitI (str "EXISTS"); Regex.Plus Str.isSpace ])
    k (t ++ " "%char :: "("%char :: rest) c = None.
Proof.
  intros Ht. rewrite run_cat_cons, run_LitI.
  destruct (startsWithI (str "IF") (t ++ " "%char :: "("%char :: rest)) eqn:E; [|reflexivity].
  destruct t as [|x [|y t]].
  - vm_compute in E. discriminate.
  - cbn [app str list_ascii_of_string startsWithI] in E.
    apply andb_true_iff in E as [_ E]. vm_compute in E. discriminate.
  - cbn [app length skipn str list_ascii_of_string].
    rewrite run_cat_cons, run_Plus.
    destruct t as [|z t]; cbn [app].
    + ev_bool (Str.isSpace " "). cbv iota.
      rewrite star_stop by reflexivity.
      rewrite run_cat_cons, run_LitI. reflexivity.
    + simpl in Ht. apply andb_true_iff in Ht as [_ Ht]. apply andb_true_iff in Ht as [_ Ht].
      apply andb_true_iff in Ht as [Hz _].
      destruct (word_facts z Hz) as (Hs & _). now rewrite Hs.
Qed.

Lemma create_here (t block rest : jstr) :
  isIdent t = true -> noChar ")"%char block = true ->
  Regex.matchHere Sql.createTableRegex
    (str "CREATE TABLE " ++ t ++ " "%char :: "("%char :: block ++ ")"%char :: ";"%char :: rest)
  = Some (rest, [(2, block); (1, t)]).
Proof.
  intros Ht Hblock. destruct t as [|x t]; [discriminate|].
  assert (Hall : forallb Str.isWord (x :: t) = true) by exact Ht.
  cbn [isIdent forallb] in Ht. apply andb_true_iff in Ht as [Hx Ht].
  destruct (word_facts x Hx) as (Hxs & Hxq & _).
  unfold Regex.matchHere, Sql.createTableRegex.
  cbn [str list_ascii_of_string app].
  rewrite run_cat_cons. lit.
  rewrite run_cat_cons, run_Plus. ev_bool (Str.isSpace " "). cbv iota.
  rewrite star_stop by reflexivity.
  rewrite run_cat_cons. lit.
  rewrite run_cat_cons, run_Plus. ev_bool (Str.isSpace " "). cbv iota.
  rewrite star_stop by (cbn [stops]; now rewrite Hxs).
  rewrite run_cat_cons, run_Opt.
  match goal with
  | |- context [Regex.run (Regex.cat (Regex.LitI _ :: _)) ?k (x :: t ++ ?r) ?c] =>
      let H := fresh in
      pose proof (ifNotExists_fail _ k (x :: t) (block ++ ")"%char :: ";"%char :: rest) c Hall) as H;
      cbn [app str list_ascii_of_string] in H; rewrite H; clear H
  end.
  rewrite run_cat_cons, run_Opt, run_Chr, Hxq.
  rewrite run_cat_cons, run_Grp, run_Plus, Hx.
  erewrite star_all; [reflexivity | exact Ht | reflexivity |].
  rewrite run_cat_cons, run_Opt, run_Chr.
  ev_bool (Sql.closeQuote " "). cbv iota.
  rewrite run_cat_cons. cbn [Regex.run].
  change (" "%char :: "("%char :: block ++ ")"%char :: ";"%char :: rest)
    with ([" "%char] ++ "("%char :: block ++ ")"%char :: ";"%char :: rest).
  erewrite star_all; [reflexivity | reflexivity | reflexivity |].
  rewrite run_cat_cons, run_Chr. ev_bool (Regex.chr "(" "("). cbv iota.
  rewrite run_cat_cons, run_Grp. cbn [Regex.run].
  rewrite lazy_skip.
  - apply lazy_here.
    rewrite run_cat_cons, run_Chr. ev_bool (Regex.chr ")" ")"). cbv iota.
    cbn [Regex.cat Regex.alts Regex.run].
    rewrite star_stop by reflexivity. rewrite run_LitI.
    ev_bool (startsWithI ["E"; "N"; "G"; "I"; "N"; "E"]%char (";"%char :: rest)). cbv iota.
    rewrite star_stop by reflexivity.
    ev_bool (Regex.chr ";" ";"). cbv iota.
    rewrite (firstn_consumed block (")"%char :: ";"%char :: rest)).
    pose proof (firstn_consumed (x :: t)
                  ([" "%char] ++ "("%char :: block ++ ")"%char :: ";"%char :: rest)) as E.
    cbn [app] in E. cbn [app]. now rewrite E.
  - clear. induction block; simpl; auto.
  - intros u1 u2 E Hne. destruct u2 as [|y u2]; [congruence|]. cbn [app].
    rewrite run_cat_cons, run_Chr.
    assert (Hy : Str.eqc y ")" = false).
    { subst block. unfold noChar in Hblock. rewrite forallb_app in Hblock.
      apply andb_true_iff in Hblock as [_ H]. simpl in H.
      apply andb_true_iff in H as [H _]. now apply negb_true_iff in H. }
    unfold Regex.chr. now rewrite Hy.
Qed.

Lemma mentionsWithin_false (w pre post : jstr) :
  mentionsWithin w pre post = false ->
  forall p1 p2, pre = p1 ++ p2 -> p2 <> [] -> startsWithI w (p2 ++ post) = false.
Proof.
  induction pre as [|x pre IH]; intros H p1 p2 E Hne.
  - destruct p1, p2; try discriminate. congruence.
  - cbn [mentionsWithin] in H. apply orb_false_iff in H as [H1 H2].
    destruct p1 as [|y p1].
    + simpl in E. subst p2. exact H1.
    + inversion E; subst. now apply (IH H2 p1).
Qed.

Lemma mentions_false (w s : jstr) :
  mentions w s = false -> forall p1 p2, s = p1 ++ p2 -> startsWithI w p2 = false.
Proof.
  intros H p1 p2 E. subst s. apply mentions_head. exact (mentions_suffix _ _ _ H).
Qed.

Lemma create_none (before s : jstr) :
  mentions (str "CREATE") s = false ->
  Regex.search Sql.createTableRegex before s = None.
Proof.
  intros H. apply search_none. intros p1 p2 E.
  unfold Regex.matchHere, Sql.createTableRegex.
  rewrite run_cat_cons, run_LitI. now rewrite (mentions_false _ _ H p1 p2 E).
Qed.

Lemma insert_fail (s : jstr) :
  startsWithI (str "INSERT") s = false ->
  Regex.matchHere Sql.insertRegex s = None.
Proof.
  intros H. unfold Regex.matchHere, Sql.insertRegex.
  rewrite run_cat_cons, run_LitI. now rewrite H.
Qed.

Lemma star_eos_fail (R : Type) (kk : Regex.cont R) (s : jstr) (c : Regex.caps) :
  (forall x s' c', kk (x :: s') c' = None) ->
  existsb (fun x => negb (Str.isSpace x)) s = true ->
  Regex.star Str.isSpace kk s c = None.
Proof.
  intros Hk. induction s as [|x s IH]; [discriminate|]. intros H. cbn [Regex.star].
  destruct (Str.isSpace x) eqn:Ex.
  - simpl in H. rewrite Ex in H. simpl in H. now rewrite (IH H).
  - apply Hk.
Qed.

(** The last alternative of the lookahead (an optional semicolon, spaces,
    end of the text) fails on a text that holds a closing parenthesis. *)
Lemma trailer_fail (R : Type) (k : Regex.cont R) (s : jstr) (c : Regex.caps) :
  In ")"%char s ->
  Regex.run (Regex.cat [ Regex.Opt (Regex.Chr (Regex.chr ";")); Regex.Star Str.isSpace;
                         Regex.Eos ]) k s c = None.
Proof.
  intros Hin.
  assert (Hex : forall s', In ")"%char s' -> existsb (fun x => negb (Str.isSpace x)) s' = true).
  { intros s' H'. apply existsb_exists. exists ")"%char. split; [exact H' | reflexivity]. }
  assert (Hrest : forall s' c', In ")"%char s' ->
            Regex.run (Regex.cat [Regex.Star Str.isSpace; Regex.Eos]) k s' c' = None).
  { intros s' c' H'. rewrite run_cat_cons. cbn [Regex.cat Regex.run].
    apply star_eos_fail; [reflexivity | now apply Hex]. }
  rewrite run_cat_cons, run_Opt, run_Chr.
  destruct s as [|x s]; [contradiction|].
  destruct (Regex.chr ";" x) eqn:Ex; [|now apply Hrest].
  rewrite Hrest; [now apply Hrest|].
  destruct Hin as [->|Hin]; [vm_compute in Ex; discriminate Ex | exact Hin].
Qed.

Lemma lookahead_fail (R : Type) (k : Regex.cont R) (s : jstr) (c : Regex.caps) :
  (forall kw, In kw stopKeywords -> startsWithI kw s = false) ->
  In ")"%char s ->
  Regex.run Sql.statementAhead k s c = None.
Proof.
  intros Hkw Hin. unfold Sql.statementAhead. cbn [Regex.alts Regex.run].
  rewrite run_cat_cons, !run_LitI.
  rewrite !Hkw by (unfold stopKeywords; simpl; auto 10).
  now rewrite trailer_fail.
Qed.

Lemma lookahead_end (c : Regex.caps) :
  Regex.run Sql.statementAhead (fun _ c' => Some c') [";"%char] c = Some c.
Proof. vm_compute. reflexivity. Qed.

Lemma insert_here (t vb : jstr) :
  isIdent t = true ->
  vb <> [] -> stops Str.isSpace vb = true ->
  (forall u1 u2, vb = u1 ++ u2 -> u2 <> [] ->
     (forall kw, In kw stopKeywords -> startsWithI kw (u2 ++ [";"%char]) = false)
     /\ In ")"%char u2) ->
  Regex.matchHere Sql.insertRegex
    (str "INSERT INTO " ++ t ++ str " VALUES " ++ vb ++ [";"%char])
  = Some ([";"%char], [(3, vb); (1, t)]).
Proof.
  intros Ht Hne Hstop Hsuf. destruct t as [|x t]; [discriminate|].
  cbn [isIdent forallb] in Ht. apply andb_true_iff in Ht as [Hx Ht].
  destruct (word_facts x Hx) as (Hxs & Hxq & _).
  unfold Regex.matchHere, Sql.insertRegex.
  cbn [str list_ascii_of_string app].
  rewrite run_cat_cons. lit.
  rewrite run_cat_cons, run_Plus. ev_bool (Str.isSpace " "). cbv iota.
  rewrite star_stop by reflexivity.
  rewrite run_cat_cons. lit.
  rewrite run_cat_cons, run_Plus. ev_bool (Str.isSpace " "). cbv iota.
  rewrite star_stop by (cbn [stops]; now rewrite Hxs).
  rewrite run_cat_cons, run_Opt, run_Chr, Hxq.
  rewrite run_cat_cons, run_Grp, run_Plus, Hx.
  erewrite star_all; [reflexivity | exact Ht | reflexivity |].
  rewrite run_cat_cons, run_Opt, run_Chr.
  ev_bool (Sql.closeQuote " "). cbv iota.
  match goal with
  | |- context [firstn _ (x :: t ++ ?r)] =>
      let E := fresh in
      pose proof (firstn_consumed (x :: t) r) as E; cbn [app] in E; rewrite E; clear E
  end.
  rewrite run_cat_cons. cbn [Regex.run].
  match goal with
  | |- Regex.star _ _ (" "%char :: ?r) _ = _ =>
      change (" "%char :: r) with ([" "%char] ++ r)
  end.
  erewrite star_all; [reflexivity | reflexivity | reflexivity |].
  rewrite run_cat_cons, run_Opt, run_cat_cons, run_Chr.
  ev_bool (Regex.chr "(" "V"). cbv iota.
  rewrite run_cat_cons. cbn [Regex.run]. rewrite star_stop by reflexivity.
  rewrite run_cat_cons. lit.
  rewrite run_cat_cons. cbn [Regex.run].
  match goal with
  | |- Regex.star _ _ (" "%char :: ?r) _ = _ =>
      change (" "%char :: r) with ([" "%char] ++ r)
  end.
  assert (Hstop' : stops Str.isSpace (vb ++ [";"%char]) = true).
  { destruct vb; [congruence | exact Hstop]. }
  erewrite star_all; [reflexivity | reflexivity | exact Hstop' |].
  rewrite run_cat_cons, run_Grp. cbn [Regex.cat Regex.run].
  rewrite lazy_skip.
  - apply lazy_here. rewrite lookahead_end.
    now rewrite (firstn_consumed vb [";"%char]).
  - clear. induction vb; simpl; auto.
  - intros u1 u2 E Hu2. destruct (Hsuf u1 u2 E Hu2) as [Hkw Hin].
    rewrite lookahead_fail; [reflexivity | exact Hkw |].
    apply in_or_app. now left.
Qed.

(** *** Texts without comments *)

Lemma includes_false (w s : jstr) :
  Str.includes w s = false -> forall p1 p2, s = p1 ++ p2 -> Str.startsWith w p2 = false.
Proof.
  intros H p1. revert s H. induction p1 as [|x p1 IH]; intros s H p2 E; subst s.
  - destruct p2; simpl in H; apply orb_false_iff in H as [H _]; exact H.
  - cbn [app Str.includes] in H. apply orb_false_iff in H as [_ H].
    now apply (IH _ H).
Qed.

Lemma replace_absent (r : Regex.re) (lit s : jstr) :
  (forall p, Str.startsWith lit p = false -> Regex.matchHere r p = None) ->
  Str.includes lit s = false ->
  Regex.replace r [] s = s.
Proof.
  intros Hr Hs. unfold Regex.replace, Regex.execAll. cbn [Regex.execLoop].
  rewrite search_none; [reflexivity|].
  intros p1 p2 E. apply Hr. exact (includes_false _ _ Hs p1 p2 E).
Qed.

Lemma lineComment_fail (p : jstr) :
  Str.startsWith (str "--") p = false -> Regex.matchHere Sql.lineComment p = None.
Proof.
  intros H. unfold Regex.matchHere, Sql.lineComment. rewrite run_cat_cons, run_Lit.
  now rewrite H.
Qed.

Lemma blockComment_fail (p : jstr) :
  Str.startsWith (str "/*") p = false -> Regex.matchHere Sql.blockComment p = None.
Proof.
  intros H. unfold Regex.matchHere, Sql.blockComment. rewrite run_cat_cons, run_Lit.
  now rewrite H.
Qed.

Lemma replaceAll_none (pat rep s : jstr) :
  Str.includes pat s = false -> Str.replaceAll pat rep s = s.
Proof.
  unfold Str.replaceAll. induction s as [|x s IH]; intros H; [reflexivity|].
  cbn [Str.replaceAll_go]. cbn [Str.includes] in H.
  apply orb_false_iff in H as [H1 H2]. rewrite H1. now rewrite IH.
Qed.

(** A text without comment openers and without CR LF is left as it is. *)
Lemma cleanContent_plain (s : jstr) :
  Str.includes (str "--") s = false ->
  Str.includes (str "/*") s = false ->
  Str.includes [Sql.cr; Sql.lf] s = false ->
  Sql.cleanContent s = s.
Proof.
  intros H1 H2 H3. unfold Sql.cleanContent.
  rewrite (replace_absent _ (str "--") s lineComment_fail H1).
  rewrite (replace_absent _ (str "/*") s blockComment_fail H2).
  now apply replaceAll_none.
Qed.

(** *** Rows built from a column list *)

Lemma set_fresh (A : Type) (o : Obj.t A) (k : jstr) (v : A) :
  Obj.get o k = None -> Obj.set k v o = o ++ [(k, v)].
Proof.
  induction o as [|[k' v'] o IH]; simpl; [reflexivity|].
  destruct (Str.eqb k' k); [discriminate|]. intros H. now rewrite IH.
Qed.

Lemma get_app_None (A : Type) (o1 o2 : Obj.t A) (k : jstr) :
  Obj.get o1 k = None -> Obj.get (o1 ++ o2) k = Obj.get o2 k.
Proof.
  induction o1 as [|[k' v'] o1 IH]; simpl; [reflexivity|].
  destruct (Str.eqb k' k); [discriminate | exact IH].
Qed.

Lemma get_None_notin (A : Type) (o : Obj.t A) (k : jstr) :
  ~ In k (map fst o) -> Obj.get o k = None.
Proof.
  induction o as [|[k' v'] o IH]; simpl; [reflexivity|]. intros H.
  destruct (Str.eqb k' k) eqn:E.
  - apply str_eqb_true in E. exfalso. apply H. now left.
  - apply IH. intros Hin. apply H. now right.
Qed.

(** Assigning distinct new keys in turn appends them in that order. *)
Lemma fold_set_fresh (A B : Type) (key : B -> jstr) (val : B -> A)
    (l : list B) (init : Obj.t A) :
  NoDup (map key l) ->
  (forall b, In b l -> ~ In (key b) (map fst init)) ->
  fold_left (fun o b => Obj.set (key b) (val b) o) l init
  = init ++ map (fun b => (key b, val b)) l.
Proof.
  revert init. induction l as [|b l IH]; intros init Hnd Hfresh; simpl.
  - now rewrite app_nil_r.
  - inversion Hnd as [|? ? Hnotin Hnd']; subst.
    rewrite set_fresh by (apply get_None_notin, Hfresh; now left).
    rewrite IH; [now rewrite <- app_assoc | exact Hnd' |].
    intros b' Hb' Hin. rewrite map_app, in_app_iff in Hin. destruct Hin as [Hin|Hin].
    + apply (Hfresh b'); [now right | exact Hin].
    + simpl in Hin. destruct Hin as [Hin|[]]. apply Hnotin. rewrite Hin.
      now apply in_map.
Qed.

Lemma map_snd_combine_seq (A : Type) (l : list A) (s : nat) :
  map snd (combine (seq s (length l)) l) = l.
Proof.
  revert s. induction l as [|x l IH]; intros s; simpl; [reflexivity|]. now rewrite IH.
Qed.

(** Without a column named [__proto__] every cell becomes a property. *)
Lemma buildRow_plain (cols : list jstr) (cleaned : list value) (id : nat) :
  ~ In Host.protoKey cols ->
  Sql.buildRow cols cleaned id
  = fold_left (fun r ic => Obj.set (snd ic) (Sql.cellAt cleaned (fst ic)) r)
              (combine (seq 0 (length cols)) cols) [(str "_id", ofNat id)].
Proof.
  intros Hno. unfold Sql.buildRow.
  generalize (seq 0 (length cols)) as idx.
  generalize [(str "_id", ofNat id)] as init.
  induction cols as [|c cols IH]; intros init [|i idx]; try reflexivity.
  cbn [combine fold_left snd fst].
  destruct (Str.eqb c Host.protoKey) eqn:E.
  - apply str_eqb_true in E. exfalso. apply Hno. now left.
  - apply IH. intros Hin. apply Hno. now right.
Qed.

Lemma buildRow_keys (cols : list jstr) (cleaned : list value) (id : nat) :
  NoDup cols -> ~ In (str "_id") cols -> ~ In Host.protoKey cols ->
  map fst (Sql.buildRow cols cleaned id) = str "_id" :: cols.
Proof.
  intros Hnd Hid Hno. rewrite (buildRow_plain _ _ _ Hno).
  rewrite (fold_set_fresh _ _ snd (fun ic => Sql.cellAt cleaned (fst ic))).
  - simpl. rewrite map_map. simpl. f_equal. apply map_snd_combine_seq.
  - now rewrite map_snd_combine_seq.
  - intros [i c] Hin Hk. cbn [map fst snd In] in Hk. destruct Hk as [H|[]].
    apply Hid. rewrite H. apply in_combine_r in Hin. exact Hin.
Qed.

Lemma entries_plain (A : Type) (o : Obj.t A) :
  (forall k, In k (map fst o) -> Obj.indexOf k = None) ->
  Obj.entries o = o.
Proof.
  intros H. unfold Obj.entries.
  assert (Hf : forall acc,
             fold_left (fun acc kv =>
                          match Obj.indexOf (fst kv) with
                          | Some i => Obj.insertIdx (i, kv) acc
                          | None => acc
                          end) o acc = acc).
  { induction o as [|kv o IH]; intros acc; simpl; [reflexivity|].
    rewrite (H (fst kv)) by now left. apply IH. intros k Hk. apply H. now right. }
  rewrite Hf. simpl. clear Hf.
  induction o as [|kv o IH]; simpl; [reflexivity|].
  rewrite (H (fst kv)) by now left. f_equal. apply IH. intros k Hk. apply H. now right.
Qed.

Lemma set_keys (A : Type) (o : Obj.t A) (k : jstr) (v : A) :
  In k (map fst o) -> map fst (Obj.set k v o) = map fst o.
Proof.
  induction o as [|[k' v'] o IH]; simpl; [contradiction|].
  destruct (Str.eqb k' k) eqn:E; simpl.
  - apply str_eqb_true in E. now subst.
  - intros [H|H]; [apply str_eqb_false in E; congruence|]. now rewrite IH.
Qed.

Lemma filter_notin (k : jstr) (l : list jstr) :
  ~ In k l -> filter (fun x => negb (Str.eqb x k)) l = l.
Proof.
  induction l as [|x l IH]; simpl; [reflexivity|]. intros H.
  destruct (Str.eqb x k) eqn:E.
  - apply str_eqb_true in E. exfalso. apply H. now left.
  - simpl. f_equal. apply IH. intros Hin. apply H. now right.
Qed.

(** The columns read off a renumbered row are the columns it was built
    from. *)
Lemma columns_of_built (cols : list jstr) (cleaned : list value) (id idx : nat) :
  NoDup cols -> ~ In (str "_id") cols -> ~ In Host.protoKey cols ->
  (forall c, In c cols -> Obj.indexOf c = None) ->
  filter (fun k => negb (Str.eqb k (str "_id")))
         (Obj.keys (Obj.set (str "_id") (ofNat idx)
                            (Obj.spread (Sql.buildRow cols cleaned id))))
  = cols.
Proof.
  intros Hnd Hid Hno Hidx.
  assert (Hk := buildRow_keys cols cleaned id Hnd Hid Hno).
  assert (Hplain : forall k, In k (str "_id" :: cols) -> Obj.indexOf k = None).
  { intros k [<-|Hk']; [reflexivity | now apply Hidx]. }
  unfold Obj.spread, Obj.keys.
  rewrite (entries_plain _ (Sql.buildRow cols cleaned id)) by (rewrite Hk; exact Hplain).
  assert (Hs : map fst (Obj.set (str "_id") (ofNat idx) (Sql.buildRow cols cleaned id))
               = str "_id" :: cols).
  { rewrite set_keys; [exact Hk | rewrite Hk; now left]. }
  rewrite entries_plain by (rewrite Hs; exact Hplain).
  rewrite Hs. cbn [filter]. rewrite str_eqb_refl. cbn [negb].
  now apply filter_notin.
Qed.

(** *** The shape of the two blocks *)

Lemma word_noParen (s : jstr) : forallb Str.isWord s = true -> noChar ")"%char s = true.
Proof.
  induction s as [|x s IH]; simpl; [reflexivity|]. intros H.
  apply andb_true_iff in H as [Hx Hs].
  destruct (word_facts x Hx) as (_ & _ & _ & _ & Hp & _). now rewrite Hp, IH.
Qed.

Lemma type_word (T : jstr) : In T Sql.typeKeywords -> forallb Str.isWord T = true.
Proof.
  intros HT. unfold Sql.typeKeywords in HT. cbn [map In] in HT.
  repeat (destruct HT as [<- | HT]); try contradiction; vm_compute; reflexivity.
Qed.

Lemma noChar_app (c : ascii) (a b : jstr) :
  noChar c (a ++ b) = noChar c a && noChar c b.
Proof. apply forallb_app. Qed.

Lemma colsBlock_noParen (cols : list (jstr * jstr)) :
  Forall okCol cols -> noChar ")"%char (colsBlock cols) = true.
Proof.
  induction 1 as [|[c T] cs [Hc HT] Hcs IH]; [reflexivity|].
  rewrite colsBlock_cons. unfold colText. cbn [fst snd] in *.
  rewrite !noChar_app.
  assert (Hcw : forallb Str.isWord c = true) by (destruct c; [discriminate | exact Hc]).
  rewrite (word_noParen c Hcw). cbn [noChar forallb]. fold (noChar ")"%char T).
  rewrite (word_noParen T (type_word T HT)).
  destruct cs; [reflexivity|]. cbn [forallb]. exact IH.
Qed.

Lemma tuplesBlock_last (bodies : list jstr) :
  bodies <> [] -> exists w, tuplesBlock bodies = w ++ [")"%char].
Proof.
  induction bodies as [|b bs IH]; [congruence|]. intros _.
  rewrite tuplesBlock_cons. destruct bs as [|b' bs].
  - exists ("("%char :: b). unfold tupleText. simpl. now rewrite app_nil_r.
  - destruct IH as [w Hw]; [discriminate|]. rewrite Hw.
    exists (tupleText b ++ str ", " ++ w). now rewrite <- !app_assoc.
Qed.

Lemma suffix_has_last (A : Type) (w u1 u2 : list A) (a : A) :
  w ++ [a] = u1 ++ u2 -> u2 <> [] -> In a u2.
Proof.
  intros E Hne. destruct (exists_last Hne) as (u2' & b & ->).
  rewrite app_assoc in E. apply app_inj_tail in E as [_ ->].
  apply in_or_app. right. now left.
Qed.

Lemma tuplesBlock_head (bodies : list jstr) :
  bodies <> [] ->
  tuplesBlock bodies <> [] /\ stops Str.isSpace (tuplesBlock bodies) = true.
Proof.
  destruct bodies as [|b bs]; [congruence|]. intros _.
  rewrite tuplesBlock_cons, tupleText_app. split; [discriminate | reflexivity].
Qed.

(** *** The two statement loops on the script *)

Lemma script_create_form (t : jstr) (cols : list (jstr * jstr)) (rest : jstr) :
  createStmt t cols ++ rest
  = str "CREATE TABLE " ++ t ++ " "%char :: "("%char :: colsBlock cols
      ++ ")"%char :: ";"%char :: rest.
Proof. unfold createStmt. now rewrite <- !app_assoc, <- !app_comm_cons, <- !app_assoc. Qed.

Lemma create_loop (t : jstr) (cols : list (jstr * jstr)) (rest : jstr) :
  isIdent t = true -> Forall okCol cols ->
  mentions (str "CREATE") rest = false ->
  exists m,
    Regex.execAll Sql.createTableRegex (createStmt t cols ++ rest) = [m]
    /\ Sql.group m 1 = t /\ Sql.group m 2 = colsBlock cols.
Proof.
  intros Ht Hcols Hrest. unfold Regex.execAll. cbn [Regex.execLoop].
  rewrite script_create_form.
  rewrite (search_here _ _ _ _ _ (create_here t (colsBlock cols) rest Ht (colsBlock_noParen _ Hcols))).
  cbn [Regex.rest].
  assert (Hend : forall n, Regex.execLoop n Sql.createTableRegex rest = []).
  { intros [|n]; [reflexivity|]. cbn [Regex.execLoop]. now rewrite create_none. }
  rewrite Hend. eexists. split; [reflexivity|]. split; reflexivity.
Qed.

Lemma insert_loop (t : jstr) (bodies : list jstr) (pre : jstr) :
  isIdent t = true -> bodies <> [] ->
  mentionsWithin (str "INSERT") pre (insertStmt t bodies) = false ->
  (forall kw, In kw stopKeywords ->
     mentions kw (tuplesBlock bodies ++ [";"%char]) = false) ->
  exists m,
    Regex.execAll Sql.insertRegex (pre ++ insertStmt t bodies) = [m]
    /\ Sql.group m 1 = t
    /\ Regex.cap (Regex.groups m) 2 = None
    /\ Sql.group m 3 = tuplesBlock bodies.
Proof.
  intros Ht Hb Hpre Hkw. unfold Regex.execAll. cbn [Regex.execLoop].
  rewrite search_skip
    by (intros p1 p2 E Hne; apply insert_fail; exact (mentionsWithin_false _ _ _ Hpre p1 p2 E Hne)).
  destruct (tuplesBlock_head bodies Hb) as [Hne Hstop].
  destruct (tuplesBlock_last bodies Hb) as [w Hw].
  assert (Hm : Regex.matchHere Sql.insertRegex (insertStmt t bodies)
               = Some ([";"%char], [(3, tuplesBlock bodies); (1, t)])).
  { apply insert_here; auto. intros u1 u2 E Hu2. split.
    - intros kw Hin. apply (mentions_false kw _ (Hkw kw Hin) u1).
      rewrite E. now rewrite <- app_assoc.
    - rewrite Hw in E. exact (suffix_has_last _ _ _ _ _ E Hu2). }
  rewrite (search_here _ _ _ _ _ Hm). cbn [Regex.rest].
  assert (Hend : forall n, Regex.execLoop n Sql.insertRegex [";"%char] = []).
  { intros [|n]; reflexivity. }
  rewrite Hend. eexists. split; [reflexivity|]. repeat split; reflexivity.
Qed.

(** *** The rows of one INSERT block *)

Lemma parseTuples_fold (ms : list Regex.found) (cols : list jstr) (rows0 : list row) :
  cols <> [] ->
  exists rows,
    fold_left
      (fun st m =>
         let '(cols, rows) := st in
         let cleanedValues := map decodeValue (splitTuple (Sql.group m 1)) in
         let cols' :=
           match cols with
           | [] => Sql.synthColumns (length cleanedValues)
           | _ => cols
           end in
         (cols', rows ++ [Sql.buildRow cols' cleanedValues (length rows)]))
      ms (cols, rows0)
    = (cols, rows0 ++ rows)
    /\ length rows = length ms
    /\ Forall (fun r => exists cl id, r = Sql.buildRow cols cl id) rows.
Proof.
  intros Hne. revert rows0. induction ms as [|m ms IH]; intros rows0.
  - exists []. rewrite app_nil_r. repeat split. constructor.
  - cbn [fold_left]. destruct cols as [|c cols']; [congruence|].
    destruct (IH (rows0 ++ [Sql.buildRow (c :: cols')
                              (map decodeValue (splitTuple (Sql.group m 1)))
                              (length rows0)])) as (rows & Hf & Hl & Hall).
    exists (Sql.buildRow (c :: cols')
              (map decodeValue (splitTuple (Sql.group m 1))) (length rows0) :: rows).
    split.
    { etransitivity; [exact Hf|]. now rewrite <- app_assoc. }
    split; [simpl; now rewrite Hl|].
    constructor; [eauto | exact Hall].
Qed.

Lemma parseTuples_rows (cols : list jstr) (valuesBlock : jstr) :
  cols <> [] ->
  exists rows,
    Sql.parseTuples cols valuesBlock = (cols, rows)
    /\ length rows = length (Regex.execAll Sql.valueSetRegex valuesBlock)
    /\ Forall (fun r => exists cl id, r = Sql.buildRow cols cl id) rows.
Proof.
  intros Hne. unfold Sql.parseTuples.
  destruct (parseTuples_fold (Regex.execAll Sql.valueSetRegex valuesBlock) cols [] Hne)
    as (rows & Hf & Hl & Hall).
  exists rows. auto.
Qed.

Lemma inherited_not_proto (k : jstr) :
  Host.inherited k = false -> Str.eqb k Host.protoKey = false.
Proof. unfold Host.inherited. now destruct (Str.eqb k Host.protoKey). Qed.

Lemma entries_single (A : Type) (k : jstr) (v : A) :
  Obj.entries [(k, v)] = [(k, v)].
Proof.
  unfold Obj.entries. cbn [fold_left filter fst].
  destruct (Obj.indexOf k); reflexivity.
Qed.

Lemma renumber_length (rs : list row) : length (Sql.renumber rs) = length rs.
Proof.
  unfold Sql.renumber.
  now rewrite length_map, length_combine, length_seq, Nat.min_id.
Qed.

(** *** Assignments keep the keys of an object distinct *)

Lemma set_In (A : Type) (o : Obj.t A) (k : jstr) (v : A) (e : jstr * A) :
  In e (Obj.set k v o) -> e = (k, v) \/ In e o.
Proof.
  induction o as [|[k0 v0] o IH]; cbn [Obj.set].
  - intros [<-|[]]. now left.
  - destruct (Str.eqb k0 k).
    + intros [<-|H]; [now left | right; now right].
    + intros [<-|H]; [right; now left|].
      destruct (IH H) as [E|E]; [now left | right; now right].
Qed.

Lemma set_NoDup (A : Type) (o : Obj.t A) (k : jstr) (v : A) :
  NoDup (map fst o) -> NoDup (map fst (Obj.set k v o)).
Proof.
  induction o as [|[k0 v0] o IH]; cbn [Obj.set map fst]; intros Hnd.
  - constructor; [intros [] | constructor].
  - inversion Hnd as [|? ? Hnot Hnd']; subst.
    destruct (Str.eqb k0 k) eqn:E.
    + apply str_eqb_true in E. subst. cbn [map fst]. now constructor.
    + cbn [map fst]. constructor; [|now apply IH].
      intros Hin. apply in_map_iff in Hin as ([k1 v1] & Hk & Hin). cbn [fst] in Hk. subst k1.
      apply set_In in Hin as [Heq|Hin].
      * inversion Heq; subst. rewrite str_eqb_refl in E. discriminate.
      * apply Hnot. apply (in_map fst) in Hin. exact Hin.
Qed.

Lemma get_Some_In (A : Type) (o : Obj.t A) (k : jstr) (v : A) :
  Obj.get o k = Some v -> In (k, v) o.
Proof.
  induction o as [|[k0 v0] o IH]; cbn [Obj.get]; [discriminate|].
  destruct (Str.eqb k0 k) eqn:E.
  - apply str_eqb_true in E. intros H. inversion H; subst. now left.
  - intros H. right. now apply IH.
Qed.

(** *** Dumps of statements *)

Lemma upper_idem (x : ascii) : Str.toUpperChar (Str.toUpperChar x) = Str.toUpperChar x.
Proof. destruct x as [[] [] [] [] [] [] [] []]; reflexivity. Qed.

Lemma upper_word (x : ascii) : Str.isWord (Str.toUpperChar x) = Str.isWord x.
Proof. destruct x as [[] [] [] [] [] [] [] []]; reflexivity. Qed.

(** A character that matches a word character under the [i] flag is a
    word character. *)
Lemma chrI_word (c z : ascii) :
  Str.isWord c = true -> Regex.chrI c z = true -> Str.isWord z = true.
Proof.
  intros Hc H. unfold Regex.chrI, Str.eqc in H. apply Ascii.eqb_eq in H.
  rewrite <- upper_word, H, upper_word. exact Hc.
Qed.

Lemma spells_starts (kw u rest : jstr) :
  spells kw u = true ->
  startsWithI kw (u ++ rest) = true /\ skipn (length kw) (u ++ rest) = rest.
Proof.
  unfold spells. intros H. apply str_eqb_true in H. subst kw.
  induction u as [|x u IH]; cbn [Str.toUpperCase map app startsWithI length skipn].
  - split; [destruct rest|]; reflexivity.
  - destruct IH as [IH1 IH2]. split; [|exact IH2].
    unfold Str.toUpperCase in IH1. rewrite IH1, andb_true_r.
    unfold Regex.chrI. rewrite upper_idem. apply eqc_refl.
Qed.

Lemma spells_head (kw u : jstr) (x : ascii) (kw' : jstr) :
  spells kw u = true -> kw = x :: kw' ->
  exists y u', u = y :: u' /\ Str.toUpperChar y = x.
Proof.
  unfold spells. intros H ->. apply str_eqb_true in H.
  destruct u as [|y u']; [discriminate|]. inversion H. eauto.
Qed.

Lemma cleanEnd_cons (y : ascii) (p : jstr) :
  p <> [] -> cleanEnd (y :: p) = cleanEnd p.
Proof.
  intros Hp. unfold cleanEnd. cbn [rev].
  destruct (rev p) as [|z q] eqn:E; [|reflexivity].
  apply (f_equal (@rev ascii)) in E. rewrite rev_involutive in E. now subst.
Qed.

Lemma cleanEnd_suffix (a b : jstr) :
  cleanEnd (a ++ b) = true -> b <> [] -> cleanEnd b = true.
Proof.
  induction a as [|y a IH]; intros H Hb; [exact H|].
  apply IH; [|exact Hb]. cbn [app] in H. rewrite cleanEnd_cons in H; [exact H|].
  destruct a; [exact Hb | discriminate].
Qed.

(** A word of word characters that begins in a text with a clean end
    lies inside that text. *)
Lemma startsWithI_clean (w : jstr) :
  forallb Str.isWord w = true ->
  forall p rest, p <> [] -> cleanEnd p = true ->
    startsWithI w (p ++ rest) = startsWithI w p.
Proof.
  induction w as [|c w IH]; intros Hw p rest Hp Hc; [reflexivity|].
  cbn [forallb] in Hw. apply andb_true_iff in Hw as [Hcw Hw].
  destruct p as [|y p]; [congruence|]. cbn [app startsWithI].
  destruct p as [|z p].
  - unfold cleanEnd in Hc. cbn [rev app] in Hc.
    destruct (Regex.chrI c y) eqn:E; [|reflexivity].
    rewrite (chrI_word c y Hcw E) in Hc. discriminate.
  - f_equal. apply IH; [exact Hw | discriminate |].
    rewrite cleanEnd_cons in Hc; [exact Hc | discriminate].
Qed.

(** A character no letter of the word matches ends the part of the text
    in which the word can begin. *)
Lemma startsWithI_barrier (w q : jstr) (z : ascii) (v : jstr) :
  forallb (fun c => negb (Regex.chrI c z)) w = true ->
  startsWithI w (q ++ z :: v) = startsWithI w q.
Proof.
  revert q. induction w as [|c w IH]; intros q Hw; [reflexivity|].
  cbn [forallb] in Hw. apply andb_true_iff in Hw as [Hc Hw].
  destruct q as [|y q]; cbn [app startsWithI].
  - apply negb_true_iff in Hc. now rewrite Hc.
  - f_equal. now apply IH.
Qed.

(** *** Texts in which no match begins *)

Lemma inert_suffix (r : Regex.re) (a b : jstr) : inert r (a ++ b) -> inert r b.
Proof. intros H p1 p2 s E Hne. apply (H (a ++ p1) p2 s); [|exact Hne]. now rewrite E, app_assoc. Qed.

Lemma inert_app (r : Regex.re) (a b : jstr) : inert r a -> inert r b -> inert r (a ++ b).
Proof.
  intros Ha Hb p1 p2 s E Hne. symmetry in E.
  apply app_eq_app in E as [l [[E1 E2]|[E1 E2]]].
  - subst. apply (Hb l p2 s); [reflexivity | exact Hne].
  - subst. destruct l as [|y l].
    + rewrite app_nil_l. now apply (Hb [] b s).
    + rewrite <- app_assoc. apply (Ha p1 (y :: l) (b ++ s)); [reflexivity | discriminate].
Qed.

Lemma search_inert (r : Regex.re) (p before s : jstr) :
  inert r p -> Regex.search r before (p ++ s) = Regex.search r (rev p ++ before) s.
Proof. intros H. apply search_skip. intros p1 p2 E Hne. now apply (H p1 p2 s). Qed.

Lemma inert_of_mentions (r : Regex.re) (w text : jstr) :
  (forall s, startsWithI w s = false -> Regex.matchHere r s = None) ->
  forallb Str.isWord w = true ->
  mentions w text = false -> cleanEnd text = true -> inert r text.
Proof.
  intros Hr Hw Hm Hc p1 p2 s E Hne. apply Hr.
  rewrite (startsWithI_clean w Hw p2 s Hne).
  - exact (mentions_false _ _ Hm p1 p2 E).
  - subst text. exact (cleanEnd_suffix _ _ Hc Hne).
Qed.

Lemma create_fail (s : jstr) :
  startsWithI (str "CREATE") s = false ->
  Regex.matchHere Sql.createTableRegex s = None.
Proof.
  intros H. unfold Regex.matchHere, Sql.createTableRegex.
  rewrite run_cat_cons, run_LitI. now rewrite H.
Qed.

(** *** A character outside every class of a pattern bounds its matches *)

Lemma star_barrier (R R' : Type) (x : ascii) (v : jstr) (p : ascii -> bool)
    (k : Regex.cont R) (k' : Regex.cont R') :
  p x = false ->
  (forall u c c', k u c = None -> k' (u ++ x :: v) c' = None) ->
  forall u c c', Regex.star p k u c = None -> Regex.star p k' (u ++ x :: v) c' = None.
Proof.
  intros Hx Hk. induction u as [|y u IH]; intros c c' H; cbn [Regex.star app] in *.
  - rewrite Hx. now apply (Hk [] c).
  - destruct (p y); [|now apply (Hk (y :: u) c)].
    destruct (Regex.star p k u c) eqn:E; [discriminate|].
    rewrite (IH c c' E). now apply (Hk (y :: u) c).
Qed.

Lemma lazy_barrier (R R' : Type) (x : ascii) (v : jstr) (p : ascii -> bool)
    (k : Regex.cont R) (k' : Regex.cont R') :
  p x = false ->
  (forall u c c', k u c = None -> k' (u ++ x :: v) c' = None) ->
  forall u c c', Regex.lazy p k u c = None -> Regex.lazy p k' (u ++ x :: v) c' = None.
Proof.
  intros Hx Hk. induction u as [|y u IH]; intros c c' H; cbn [Regex.lazy app] in *.
  - destruct (k [] c) eqn:E; [discriminate|].
    pose proof (Hk [] c c' E) as X. cbn [app] in X. rewrite X. now rewrite Hx.
  - destruct (k (y :: u) c) eqn:E; [discriminate|].
    pose proof (Hk (y :: u) c c' E) as X. cbn [app] in X. rewrite X.
    destruct (p y); [now apply (IH c) | reflexivity].
Qed.

Lemma run_barrier (x : ascii) (v : jstr) (r : Regex.re) :
  rejects x r = true ->
  forall (R R' : Type) (k : Regex.cont R) (k' : Regex.cont R'),
    (forall u c c', k u c = None -> k' (u ++ x :: v) c' = None) ->
    forall u c c', Regex.run r k u c = None -> Regex.run r k' (u ++ x :: v) c' = None.
Proof.
  induction r as [|p|a IHa b IHb|a IHa b IHb|p|p|i r IH|r IH| |];
    intros Hr R R' k k' Hk u c c' H; cbn [Regex.run rejects] in *;
    try discriminate Hr.
  - now apply (Hk u c).
  - apply negb_true_iff in Hr.
    destruct u as [|y u]; cbn [app]; [now rewrite Hr|].
    destruct (p y); [now apply (Hk u c) | reflexivity].
  - apply andb_true_iff in Hr as [Ha Hb].
    apply (IHa Ha _ _ (Regex.run b k) (Regex.run b k')) with (c := c); [|exact H].
    intros u0 c0 c0'. now apply (IHb Hb).
  - apply andb_true_iff in Hr as [Ha Hb].
    destruct (Regex.run a k u c) eqn:E; [discriminate|].
    rewrite (IHa Ha _ _ k k' Hk u c c' E). now apply (IHb Hb _ _ k k' Hk u c).
  - apply negb_true_iff in Hr. now apply (star_barrier R R' x v p k k' Hr Hk u c).
  - apply negb_true_iff in Hr. now apply (lazy_barrier R R' x v p k k' Hr Hk u c).
  - eapply (IH Hr _ _ _ _ _ u c c' H). Unshelve.
    intros u0 c0 c0' H0. cbn beta in *. now apply (Hk _ _ _ H0).
Qed.

Lemma matchHere_barrier (x : ascii) (v : jstr) (r : Regex.re) (u : jstr) :
  rejects x r = true ->
  Regex.matchHere r u = None -> Regex.matchHere r (u ++ x :: v) = None.
Proof.
  intros Hr H. unfold Regex.matchHere in *.
  apply (run_barrier x v r Hr _ _ (fun s' c0 => Some (s', c0))) with (c := []); [|exact H].
  intros; discriminate.
Qed.

Lemma search_none_inv (r : Regex.re) (s : jstr) :
  forall before, Regex.search r before s = None ->
  forall p1 p2, s = p1 ++ p2 -> Regex.matchHere r p2 = None.
Proof.
  induction s as [|x s IH]; intros before H p1 p2 E.
  - destruct p1, p2; try discriminate. cbn [Regex.search] in H.
    destruct (Regex.matchHere r []) as [[? ?]|]; [discriminate | reflexivity].
  - cbn [Regex.search] in H.
    destruct (Regex.matchHere r (x :: s)) as [[? ?]|] eqn:E0; [discriminate|].
    destruct p1 as [|y p1].
    + cbn [app] in E. now subst p2.
    + inversion E; subst. now apply (IH _ H p1 p2).
Qed.

(** In a quiet text followed by a comma or by the end of the block, no
    column definition begins. *)
Lemma quiet_inert (u rest : jstr) :
  quiet u = true -> tailOK rest = true ->
  forall p1 p2, u = p1 ++ p2 -> Regex.matchHere Sql.colRegex (p2 ++ rest) = None.
Proof.
  unfold quiet. intros H Hrest p1 p2 E.
  destruct (Regex.search Sql.colRegex [] u) eqn:Es; [discriminate|].
  pose proof (search_none_inv _ _ _ Es p1 p2 E) as Hn.
  destruct rest as [|x v]; [now rewrite app_nil_r|].
  unfold tailOK in Hrest. unfold Str.eqc in Hrest. apply Ascii.eqb_eq in Hrest. subst x.
  apply matchHere_barrier; [reflexivity | exact Hn].
Qed.

(** *** Names as written *)

Lemma quote_facts (x : ascii) :
  Sql.closeQuote x = true \/ Sql.openQuote x = true ->
  Str.isWord x = false /\ Str.isSpace x = false.
Proof.
  intros H. destruct (Str.isWord x) eqn:Ew.
  - destruct (word_facts x Ew) as (_ & Ho & Hc & _). rewrite Ho, Hc in H.
    destruct H; discriminate.
  - split; [reflexivity|]. destruct (Str.isSpace x) eqn:Es; [|reflexivity].
    exfalso. destruct x as [[] [] [] [] [] [] [] []]; vm_compute in Es; try discriminate Es;
      vm_compute in H; destruct H; discriminate.
Qed.

(** What may follow a bare name. *)
Lemma okWritten_facts (n : written) :
  okWritten n = true ->
  exists x t, w_bare n = x :: t /\ Str.isWord x = true /\ forallb Str.isWord t = true.
Proof.
  unfold okWritten, isIdent. intros H. apply andb_true_iff in H as [H _].
  destruct (w_bare n) as [|x t]; [discriminate|].
  cbn [forallb] in H. apply andb_true_iff in H as [Hx Ht]. eauto.
Qed.

(** The name part of the three statement patterns reads a name as
    written and captures it bare. *)
Lemma name_here (R : Type) (n : written) (tail : jstr) (rs : list Regex.re)
    (k : Regex.cont R) (c : Regex.caps) (r : R) :
  okWritten n = true ->
  match w_quotes n with
  | Some _ => True
  | None => match tail with
            | [] => True
            | x :: _ => Str.isWord x = false /\ Sql.closeQuote x = false
            end
  end ->
  Regex.run (Regex.cat rs) k tail ((1, w_bare n) :: c) = Some r ->
  Regex.run (Regex.cat (Regex.Opt (Regex.Chr Sql.openQuote)
                        :: Regex.Grp 1 (Regex.Plus Str.isWord)
                        :: Regex.Opt (Regex.Chr Sql.closeQuote) :: rs))
            k (writtenText n ++ tail) c
  = Some r.
Proof.
  intros Hok Htail Hk.
  destruct (okWritten_facts n Hok) as (x & t & Hb & Hx & Ht).
  unfold okWritten in Hok. apply andb_true_iff in Hok as [_ Hq].
  unfold writtenText. destruct (w_quotes n) as [[o q]|].
  - apply andb_true_iff in Hq as [Ho Hcq].
    destruct (quote_facts q (or_introl Hcq)) as [Hqw _].
    rewrite Hb in *. cbn [app].
    rewrite run_cat_cons, run_Opt, run_Chr, Ho.
    assert (Hin : Regex.run
              (Regex.cat (Regex.Grp 1 (Regex.Plus Str.isWord)
                          :: Regex.Opt (Regex.Chr Sql.closeQuote) :: rs))
              k (x :: (t ++ [q]) ++ tail) c = Some r).
    { rewrite run_cat_cons, run_Grp, run_Plus, Hx.
      rewrite <- app_assoc. cbn [app].
      erewrite star_all; [reflexivity | exact Ht | cbn [stops]; now rewrite Hqw |].
      rewrite run_cat_cons, run_Opt, run_Chr, Hcq.
      pose proof (firstn_consumed (x :: t) (q :: tail)) as E. cbn [app] in E.
      rewrite E, Hk. reflexivity. }
    now rewrite Hin.
  - rewrite Hb in *. cbn [app].
    destruct (word_facts x Hx) as (_ & Hxo & _).
    rewrite run_cat_cons, run_Opt, run_Chr, Hxo.
    rewrite run_cat_cons, run_Grp, run_Plus, Hx.
    erewrite star_all; [reflexivity | exact Ht | |].
    + destruct tail as [|y tail]; [reflexivity|]. cbn [stops]. destruct Htail as [-> _]. reflexivity.
    + rewrite run_cat_cons, run_Opt, run_Chr.
      pose proof (firstn_consumed (x :: t) tail) as E. cbn [app] in E. rewrite E.
      destruct tail as [|y tail].
      * exact Hk.
      * destruct Htail as [_ ->]. exact Hk.
Qed.

(** *** Column definitions with sizes and constraints *)

Lemma keywords_reject_comma :
  forall kw, In kw Sql.typeKeywords ->
    forallb (fun c => negb (Regex.chrI c ","%char)) kw = true
    /\ exists x kw', kw = x :: kw' /\ Str.isWord x = true.
Proof.
  assert (H : forallb (fun kw => forallb (fun c => negb (Regex.chrI c ","%char)) kw
                                 && match kw with [] => false | x :: _ => Str.isWord x end)
                      Sql.typeKeywords = true) by (vm_compute; reflexivity).
  rewrite forallb_forall in H. intros kw Hin. specialize (H kw Hin).
  apply andb_true_iff in H as [H1 H2]. split; [exact H1|].
  destruct kw as [|x kw']; [discriminate|]. eauto.
Qed.

Lemma find_ext_in (A : Type) (f g : A -> bool) (l : list A) :
  (forall a, In a l -> f a = g a) -> find f l = find g l.
Proof.
  induction l as [|a l IH]; intros H; [reflexivity|]. cbn [find].
  rewrite (H a (or_introl eq_refl)). rewrite IH; [reflexivity|].
  intros b Hb. apply H. now right.
Qed.

Lemma startsWithI_length (w s : jstr) : startsWithI w s = true -> length w <= length s.
Proof.
  revert s. induction w as [|c w IH]; intros s H; [simpl; lia|].
  destruct s as [|y s]; [discriminate|]. cbn [startsWithI] in H.
  apply andb_true_iff in H as [_ H]. specialize (IH s H). simpl. lia.
Qed.

(** The keyword picked at the head of a typed text, followed by a comma
    or by the end of the block. *)
Lemma typed_pick (T rest : jstr) :
  typed T = true -> tailOK rest = true ->
  exists w,
    pickType (T ++ rest) = Some w
    /\ skipn (length w) (T ++ rest) = skipn (length w) T ++ rest
    /\ quiet (skipn (length w) T) = true
    /\ stops Str.isSpace (T ++ rest) = true
    /\ length (skipn (length w) T) < length T.
Proof.
  unfold typed. intros HT Hrest.
  destruct (pickType T) as [w|] eqn:Ep; [|discriminate]. exists w.
  unfold pickType in Ep. destruct (find_some _ _ Ep) as [Hin Hsw].
  destruct (keywords_reject_comma w Hin) as (Hrej & x & w' & -> & Hx).
  assert (Hpick : pickType (T ++ rest) = Some (x :: w')).
  { unfold pickType. rewrite <- Ep. apply find_ext_in. intros kw Hkw.
    destruct rest as [|z v]; [now rewrite app_nil_r|].
    unfold tailOK, Str.eqc in Hrest. apply Ascii.eqb_eq in Hrest. subst z.
    apply startsWithI_barrier. now destruct (keywords_reject_comma kw Hkw). }
  pose proof (startsWithI_length _ _ Hsw) as Hlen.
  split; [exact Hpick|]. split.
  { rewrite skipn_app. replace (length (x :: w') - length T) with 0 by lia. reflexivity. }
  split; [exact HT|]. split.
  - destruct T as [|y T]; [discriminate|]. cbn [app stops].
    cbn [startsWithI] in Hsw. apply andb_true_iff in Hsw as [Hy _].
    destruct (word_facts y (chrI_word x y Hx Hy)) as (-> & _). reflexivity.
  - rewrite length_skipn. cbn [length] in *. lia.
Qed.

(** A column definition is read at its name: the name is captured, and
    the search resumes after the type keyword. *)
Lemma column_here (d : columnDef) (rest : jstr) :
  okColumn d = true -> tailOK rest = true ->
  exists w caps,
    pickType (cd_type d) = Some w
    /\ Regex.cap caps 1 = Some (columnName d)
    /\ Regex.matchHere Sql.colRegex
         (writtenText (cd_name d) ++ cd_gap d ++ cd_type d ++ rest)
       = Some (skipn (length w) (cd_type d) ++ rest, caps).
Proof.
  unfold okColumn. intros Hok Hrest.
  repeat (apply andb_true_iff in Hok as [Hok ?]).
  rename H into Hascii, H0 into Htyped, H1 into Hgne, H2 into Hgap, H3 into Hname.
  destruct (typed_pick _ rest Htyped Hrest) as (w & Hpick & Hskip & _ & Hstop & _).
  assert (Hw : pickType (cd_type d) = Some w).
  { unfold typed in Htyped. destruct (pickType (cd_type d)) as [w0|] eqn:E; [|discriminate].
    unfold pickType in *. destruct (find_some _ _ E) as [Hin Hsw].
    destruct (keywords_reject_comma w0 Hin) as (Hrej & _).
    rewrite <- Hpick. rewrite <- E. symmetry. apply find_ext_in. intros kw Hkw.
    destruct rest as [|z v]; [now rewrite app_nil_r|].
    unfold tailOK, Str.eqc in Hrest. apply Ascii.eqb_eq in Hrest. subst z.
    apply startsWithI_barrier. now destruct (keywords_reject_comma kw Hkw). }
  exists w. eexists. split; [exact Hw|].
  destruct (cd_gap d) as [|g gap] eqn:Eg; [discriminate|].
  unfold blank in Hgap. cbn [forallb] in Hgap. apply andb_true_iff in Hgap as [Hg Hgap].
  split; cycle 1.
  - unfold Regex.matchHere, Sql.colRegex.
    apply name_here; [exact Hname | |].
    + destruct (w_quotes (cd_name d)); [exact I|]. cbn [app].
      destruct g as [[] [] [] [] [] [] [] []]; vm_compute in Hg; try discriminate Hg;
        split; reflexivity.
    + cbn [app]. rewrite run_cat_cons, run_Plus, Hg.
      erewrite star_all; [reflexivity | exact Hgap | exact Hstop |].
      cbn [Regex.cat]. rewrite run_Grp.
      rewrite run_alts_LitI; [| discriminate | intros; eexists; reflexivity].
      fold (pickType (cd_type d ++ rest)). rewrite Hpick, Hskip. reflexivity.
  - cbn [Regex.cap Nat.eqb]. reflexivity.
Qed.

(** What follows a column definition in its block. *)
Lemma blockText_cons (d : columnDef) (ds : list columnDef) :
  blockText (d :: ds)
  = columnText d ++ match ds with
                    | [] => []
                    | _ :: _ => ","%char :: blockText ds
                    end.
Proof.
  unfold blockText. cbn [map Str.join]. destruct ds as [|d' ds]; cbn [map].
  - now rewrite app_nil_r.
  - reflexivity.
Qed.

Lemma block_tail_ok (ds : list columnDef) :
  tailOK match ds with
         | [] => []
         | _ :: _ => ","%char :: blockText ds
         end = true.
Proof. destruct ds; reflexivity. Qed.

Lemma blank_inert_col (w : jstr) : blank w = true -> inert Sql.colRegex w.
Proof.
  intros Hw p1 p2 s E Hne. destruct p2 as [|x p2]; [congruence|].
  apply col_fail_space. subst w. unfold blank in Hw. rewrite forallb_app in Hw.
  apply andb_true_iff in Hw as [_ Hw]. cbn [forallb] in Hw.
  now apply andb_true_iff in Hw as [Hw _].
Qed.

(** The search finds a column definition at its name. *)
Lemma column_found (d : columnDef) (rest before : jstr) :
  okColumn d = true -> tailOK rest = true ->
  exists w m,
    pickType (cd_type d) = Some w
    /\ Regex.search Sql.colRegex before (columnText d ++ rest) = Some m
    /\ Sql.group m 1 = columnName d
    /\ Regex.rest m = skipn (length w) (cd_type d) ++ rest.
Proof.
  intros Hok Hrest.
  destruct (column_here d rest Hok Hrest) as (w & caps & Hw & Hcap & Hm).
  exists w. eexists. split; [exact Hw|].
  unfold columnText. rewrite <- !app_assoc.
  rewrite search_inert.
  2:{ apply blank_inert_col. unfold okColumn in Hok.
      repeat (apply andb_true_iff in Hok as [Hok ?]). exact Hok. }
  rewrite (search_here _ _ _ _ _ Hm). split; [reflexivity|].
  cbn [Regex.rest]. split; [|reflexivity].
  unfold Sql.group. cbn [Regex.groups]. now rewrite Hcap.
Qed.

(** The loop over [colRegex], resumed after a type keyword: the names of
    the remaining definitions, in order. *)
Lemma column_loop (ds : list columnDef) :
  forallb okColumn ds = true ->
  forall (rem : jstr) (fuel : nat),
    quiet rem = true ->
    length (rem ++ match ds with [] => [] | _ :: _ => ","%char :: blockText ds end) < fuel ->
    map (fun m => Sql.group m 1)
        (Regex.execLoop fuel Sql.colRegex
           (rem ++ match ds with [] => [] | _ :: _ => ","%char :: blockText ds end))
    = map columnName ds.
Proof.
  induction ds as [|d ds IH]; intros Hall rem fuel Hrem Hf.
  - destruct fuel as [|fuel]; [lia|]. cbn [Regex.execLoop].
    rewrite search_none; [reflexivity|].
    intros p1 p2 E. rewrite app_nil_r in E.
    pose proof (quiet_inert rem [] Hrem eq_refl p1 p2 E) as X. now rewrite app_nil_r in X.
  - cbn [forallb] in Hall. apply andb_true_iff in Hall as [Hd Hall].
    destruct fuel as [|fuel]; [lia|]. cbn [Regex.execLoop].
    rewrite search_skip.
    2:{ intros p1 p2 E _.
        exact (quiet_inert rem (","%char :: blockText (d :: ds)) Hrem eq_refl p1 p2 E). }
    rewrite search_step by (apply col_fail_gap; reflexivity).
    rewrite blockText_cons in *.
    destruct (column_found d _ (","%char :: rev rem ++ []) Hd (block_tail_ok ds))
      as (w & m & Hw & Hs & Hg & Hr).
    rewrite Hs. cbn [map]. rewrite Hg, Hr. f_equal.
    apply IH; [exact Hall | |].
    + unfold okColumn in Hd. repeat (apply andb_true_iff in Hd as [Hd ?]).
      unfold typed in H0. now rewrite Hw in H0.
    + unfold columnText in Hf. pose proof (length_skipn (length w) (cd_type d)).
      repeat (progress (rewrite ?length_app in *; cbn [length] in * )). lia.
Qed.

Lemma columnDefs_gen (ds : list columnDef) :
  forallb okColumn ds = true ->
  Sql.columnDefsOf (blockText ds) = map columnName ds.
Proof.
  intros Hall. unfold Sql.columnDefsOf, Regex.execAll.
  destruct ds as [|d ds].
  - cbn [blockText map Str.join length Regex.execLoop Regex.search].
    rewrite col_fail_nil. reflexivity.
  - cbn [forallb] in Hall. apply andb_true_iff in Hall as [Hd Hall].
    rewrite blockText_cons. cbn [Regex.execLoop].
    destruct (column_found d _ [] Hd (block_tail_ok ds)) as (w & m & Hw & Hs & Hg & Hr).
    rewrite Hs. cbn [map]. rewrite Hg, Hr. f_equal.
    unfold okColumn in Hd. repeat (apply andb_true_iff in Hd as [Hd ?]).
    apply column_loop; [exact Hall | |].
    + unfold typed in H0. now rewrite Hw in H0.
    + unfold columnText. pose proof (length_skipn (length w) (cd_type d)).
      destruct (cd_gap d); [discriminate|].
      repeat (progress (rewrite ?length_app in *; cbn [length] in * )). lia.
Qed.

(** *** The end of a column block *)

Lemma trim_split (s : jstr) :
  exists sp, s = sp ++ Str.trimStart s /\ forallb Str.isSpace sp = true
             /\ stops Str.isSpace (Str.trimStart s) = true.
Proof.
  induction s as [|x s (sp & E & Hsp & Hst)].
  - exists []. repeat split.
  - cbn [Str.trimStart]. destruct (Str.isSpace x) eqn:Ex.
    + exists (x :: sp). cbn [app forallb]. rewrite Ex, Hsp. split; [now f_equal | now split].
    + exists []. cbn [app forallb stops]. rewrite Ex. now repeat split.
Qed.

Lemma trimStart_app (q : jstr) (z : ascii) (v : jstr) :
  Str.isSpace z = false ->
  Str.trimStart (q ++ z :: v) = Str.trimStart q ++ z :: v.
Proof.
  intros Hz. induction q as [|x q IH]; cbn [app Str.trimStart].
  - now rewrite Hz.
  - destruct (Str.isSpace x); [exact IH | reflexivity].
Qed.

Lemma space_facts (x : ascii) :
  Str.isSpace x = true ->
  Str.isWord x = false /\ Sql.openQuote x = false /\ Sql.closeQuote x = false
  /\ Str.eqc x ";" = false /\ Str.eqc x "(" = false /\ Str.eqc x ")" = false.
Proof.
  intros Hx. destruct x as [[] [] [] [] [] [] [] []]; vm_compute in Hx; try discriminate Hx;
    repeat split; reflexivity.
Qed.

Lemma startsWithI_space (w : jstr) (x : ascii) (s : jstr) :
  forallb Str.isWord w = true -> w <> [] -> Str.isWord x = false ->
  startsWithI w (x :: s) = false.
Proof.
  intros Hw Hne Hx. destruct w as [|c w]; [congruence|]. cbn [startsWithI forallb] in *.
  apply andb_true_iff in Hw as [Hc _].
  destruct (Regex.chrI c x) eqn:E; [|reflexivity].
  rewrite (chrI_word c x Hc E) in Hx. discriminate.
Qed.

(** The three ways [createTableRegex] ends. *)
Lemma terminator_fail (R : Type) (k : Regex.cont R) (q v : jstr) (c : Regex.caps) :
  closes (q ++ [")"%char]) = false ->
  Regex.run (Regex.alts [ Regex.Seq (Regex.Star Str.isSpace) (Regex.LitI (str "ENGINE"));
                          Regex.Seq (Regex.Star Str.isSpace) (Regex.Chr (Regex.chr ";"));
                          Regex.Seq (Regex.Star Str.isSpace) Regex.Eos ])
            k (q ++ ")"%char :: v) c = None.
Proof.
  intros H. unfold closes in H. rewrite trimStart_app in H by reflexivity.
  destruct (trim_split q) as (sp & E & Hsp & Hst).
  set (q' := Str.trimStart q) in *.
  assert (Hx : exists x t, q' ++ [")"%char] = x :: t /\ Str.isSpace x = false
                           /\ exists t', q' ++ ")"%char :: v = x :: t').
  { destruct q' as [|x t]; [exists ")"%char, []; repeat split; now exists v|].
    exists x, (t ++ [")"%char]). cbn [stops] in Hst. apply negb_true_iff in Hst.
    repeat split; [exact Hst|]. now exists (t ++ ")"%char :: v). }
  destruct Hx as (x & t & Ex & Hxs & t' & Ex').
  rewrite Ex in H. apply orb_false_iff in H as [Hsemi Heng].
  rewrite <- Ex in Heng. rewrite startsWithI_barrier in Heng by reflexivity.
  assert (Heng' : startsWithI (str "ENGINE") (q' ++ ")"%char :: v) = false).
  { now rewrite startsWithI_barrier by reflexivity. }
  assert (Hstop : stops Str.isSpace (q' ++ ")"%char :: v) = true).
  { rewrite Ex'. cbn [stops]. now rewrite Hxs. }
  rewrite E. rewrite <- app_assoc.
  cbn [Regex.alts Regex.run].
  rewrite !star_none; try reflexivity; try assumption.
  - intros u1 u2 Eu. destruct u2 as [|y u2]; cbn [app]; [now rewrite Ex'|reflexivity].
  - intros u1 u2 Eu. destruct u2 as [|y u2]; cbn [app].
    + rewrite Ex'. unfold Regex.chr. now rewrite Hsemi.
    + assert (Hy : Str.isSpace y = true).
      { subst sp. rewrite forallb_app in Hsp. apply andb_true_iff in Hsp as [_ Hsp].
        cbn [forallb] in Hsp. now apply andb_true_iff in Hsp as [Hsp _]. }
      destruct (space_facts y Hy) as (_ & _ & _ & Hys & _). unfold Regex.chr. now rewrite Hys.
  - intros u1 u2 Eu. rewrite run_LitI.
    destruct u2 as [|y u2]; cbn [app]; [now rewrite Heng'|].
    assert (Hy : Str.isSpace y = true).
    { subst sp. rewrite forallb_app in Hsp. apply andb_true_iff in Hsp as [_ Hsp].
      cbn [forallb] in Hsp. now apply andb_true_iff in Hsp as [Hsp _]. }
    destruct (space_facts y Hy) as (Hyw & _).
    rewrite startsWithI_space; [reflexivity | reflexivity | discriminate | exact Hyw].
Qed.

Lemma terminator_ok (q : jstr) :
  closes (q ++ [";"%char]) = true ->
  exists R0 R',
    q ++ [";"%char] = R0 ++ R' /\ R0 <> []
    /\ forall (R : Type) (k : Regex.cont R) (v : jstr) (c : Regex.caps),
         (forall s' c', exists r, k s' c' = Some r) ->
         Regex.run (Regex.alts [ Regex.Seq (Regex.Star Str.isSpace) (Regex.LitI (str "ENGINE"));
                                 Regex.Seq (Regex.Star Str.isSpace) (Regex.Chr (Regex.chr ";"));
                                 Regex.Seq (Regex.Star Str.isSpace) Regex.Eos ])
                   k (q ++ ";"%char :: v) c
         = k (R' ++ v) c.
Proof.
  intros H. unfold closes in H. rewrite trimStart_app in H by reflexivity.
  destruct (trim_split q) as (sp & E & Hsp & Hst).
  set (q' := Str.trimStart q) in *.
  assert (Hstop : forall v, stops Str.isSpace (q' ++ ";"%char :: v) = true).
  { intros v. destruct q'; [reflexivity | exact Hst]. }
  destruct (startsWithI (str "ENGINE") (q' ++ [";"%char])) eqn:Heng.
  - rewrite startsWithI_barrier in Heng by reflexivity.
    pose proof (startsWithI_length _ _ Heng) as Hlen.
    exists (sp ++ firstn 6 q'), (skipn 6 q' ++ [";"%char]). split; [|split].
    + rewrite E at 1. rewrite <- !app_assoc. f_equal.
      rewrite (app_assoc (firstn 6 q')), firstn_skipn. reflexivity.
    + destruct q' as [|y q'']; [discriminate|]. destruct sp; discriminate.
    + intros R k v c Hk.
      destruct (Hk ((skipn 6 q' ++ [";"%char]) ++ v) c) as [r Hr]. rewrite Hr.
      rewrite E. rewrite <- !app_assoc.
      cbn [Regex.alts Regex.run].
      erewrite star_all; [reflexivity | exact Hsp | apply Hstop |].
      rewrite run_LitI. rewrite startsWithI_barrier by reflexivity. rewrite Heng.
      rewrite <- Hr. f_equal.
      change (";"%char :: v) with ([";"%char] ++ v). rewrite skipn_app.
      cbn [str list_ascii_of_string length] in *.
      replace (6 - length q') with 0 by lia. rewrite <- app_assoc. reflexivity.
  - destruct (q' ++ [";"%char]) as [|x t] eqn:Ex; [destruct q'; discriminate|].
    rewrite Heng, orb_false_r in H. unfold Str.eqc in H. apply Ascii.eqb_eq in H. subst x.
    exists (sp ++ [";"%char]), t. split; [|split].
    + rewrite E at 1. rewrite <- !app_assoc. f_equal. exact Ex.
    + destruct sp; discriminate.
    + intros R k v c Hk.
      destruct (Hk (t ++ v) c) as [r Hr]. rewrite Hr.
      rewrite E. rewrite <- !app_assoc.
      assert (Ev : q' ++ ";"%char :: v = ";"%char :: t ++ v).
      { change (";"%char :: v) with ([";"%char] ++ v). now rewrite app_assoc, Ex. }
      assert (Heng' : startsWithI (str "ENGINE") (q' ++ ";"%char :: v) = false).
      { rewrite Ev. reflexivity. }
      cbn [Regex.alts Regex.run].
      rewrite star_none; [| exact Hsp | apply Hstop |].
      * erewrite star_all; [reflexivity | exact Hsp | apply Hstop |].
        rewrite Ev. cbn [Regex.run]. exact Hr.
      * intros u1 u2 Eu. rewrite run_LitI.
        destruct u2 as [|y u2]; cbn [app]; [now rewrite Heng'|].
        assert (Hy : Str.isSpace y = true).
        { subst sp. rewrite forallb_app in Hsp. apply andb_true_iff in Hsp as [_ Hsp].
          cbn [forallb] in Hsp. now apply andb_true_iff in Hsp as [Hsp _]. }
        destruct (space_facts y Hy) as (Hyw & _).
        rewrite startsWithI_space; [reflexivity | reflexivity | discriminate | exact Hyw].
Qed.

(** *** Keywords and white space as spelled *)

Lemma lit_spelled (R : Type) (kw u rest : jstr) (k : Regex.cont R) (c : Regex.caps) :
  spells kw u = true ->
  Regex.run (Regex.LitI kw) k (u ++ rest) c = k rest c.
Proof.
  intros H. rewrite run_LitI. destruct (spells_starts kw u rest H) as [-> ->]. reflexivity.
Qed.

Lemma plus_all (R : Type) (k : Regex.cont R) (sp rest : jstr) (c : Regex.caps) (r : R) :
  blank sp = true -> nonEmpty sp = true -> stops Str.isSpace rest = true ->
  k rest c = Some r ->
  Regex.run (Regex.Plus Str.isSpace) k (sp ++ rest) c = Some r.
Proof.
  intros Hb Hne Hst Hk. destruct sp as [|g sp]; [discriminate|].
  unfold blank in Hb. cbn [forallb] in Hb. apply andb_true_iff in Hb as [Hg Hb].
  cbn [app]. rewrite run_Plus, Hg. now apply star_all.
Qed.

Lemma star_blank (R : Type) (k : Regex.cont R) (sp rest : jstr) (c : Regex.caps) (r : R) :
  blank sp = true -> stops Str.isSpace rest = true ->
  k rest c = Some r ->
  Regex.run (Regex.Star Str.isSpace) k (sp ++ rest) c = Some r.
Proof. intros Hb Hst Hk. cbn [Regex.run]. now apply star_all. Qed.

Lemma spelled_stops (kw u rest : jstr) :
  spells kw u = true -> forallb Str.isWord kw = true -> kw <> [] ->
  stops Str.isSpace (u ++ rest) = true.
Proof.
  intros H Hw Hne. destruct kw as [|x kw]; [congruence|].
  destruct (spells_head _ u x kw H eq_refl) as (y & u' & -> & Hy).
  cbn [forallb] in Hw. apply andb_true_iff in Hw as [Hx _].
  cbn [app stops]. rewrite <- Hy, upper_word in Hx.
  destruct (word_facts y Hx) as (-> & _). reflexivity.
Qed.

Lemma written_head (n : written) :
  okWritten n = true ->
  exists x t, writtenText n = x :: t
              /\ (Str.isWord x = true \/ Sql.openQuote x = true)
              /\ Str.isSpace x = false.
Proof.
  intros Hok. destruct (okWritten_facts n Hok) as (x & t & Hb & Hx & Ht).
  unfold okWritten in Hok. apply andb_true_iff in Hok as [_ Hq].
  unfold writtenText. destruct (w_quotes n) as [[o q]|].
  - apply andb_true_iff in Hq as [Ho _]. exists o, (w_bare n ++ [q]).
    split; [reflexivity|]. split; [now right|]. now destruct (quote_facts o (or_intror Ho)).
  - exists x, t. split; [exact Hb|]. split; [now left|]. now destruct (word_facts x Hx).
Qed.

Lemma written_stops (n : written) (rest : jstr) :
  okWritten n = true -> stops Str.isSpace (writtenText n ++ rest) = true.
Proof.
  intros Hok. destruct (written_head n Hok) as (x & t & -> & _ & Hx).
  cbn [app stops]. now rewrite Hx.
Qed.

Lemma blank_suffix_head (sp u1 : jstr) (y : ascii) (u2 : jstr) :
  blank sp = true -> sp = u1 ++ y :: u2 -> Str.isSpace y = true.
Proof.
  intros Hsp ->. unfold blank in Hsp. rewrite forallb_app in Hsp.
  apply andb_true_iff in Hsp as [_ Hsp]. cbn [forallb] in Hsp.
  now apply andb_true_iff in Hsp as [Hsp _].
Qed.

(** The optional [IF NOT EXISTS] does not read a table name. *)
Lemma ifNotExists_none (R : Type) (k : Regex.cont R) (n : written) (sp rest : jstr)
    (c : Regex.caps) :
  okWritten n = true -> blank sp = true ->
  Regex.run
    (Regex.cat [ Regex.LitI (str "IF"); Regex.Plus Str.isSpace; Regex.LitI (str "NOT");
                 Regex.Plus Str.isSpace; Regex.LitI (str "EXISTS"); Regex.Plus Str.isSpace ])
    k (writtenText n ++ sp ++ "("%char :: rest) c = None.
Proof.
  intros Hok Hsp. rewrite run_cat_cons, run_LitI.
  destruct (startsWithI (str "IF") (writtenText n ++ sp ++ "("%char :: rest)) eqn:E;
    [|reflexivity].
  destruct (okWritten_facts n Hok) as (x & t & Hb & Hx & Ht).
  unfold okWritten in Hok. apply andb_true_iff in Hok as [_ Hq].
  unfold writtenText in *. destruct (w_quotes n) as [[o q]|].
  - apply andb_true_iff in Hq as [Ho _].
    destruct (quote_facts o (or_intror Ho)) as [How _].
    cbn [app] in E. rewrite startsWithI_space in E; [discriminate | reflexivity | discriminate | exact How].
  - rewrite Hb in *. clear Hb.
    assert (Hsp0 : forall tl0 w, forallb Str.isWord w = true -> w <> [] ->
              startsWithI w (sp ++ "("%char :: tl0) = false).
    { intros tl0 w Hw Hne. destruct sp as [|g sp'].
      - apply startsWithI_space; [exact Hw | exact Hne | reflexivity].
      - apply startsWithI_space; [exact Hw | exact Hne |].
        unfold blank in Hsp. cbn [forallb] in Hsp. apply andb_true_iff in Hsp as [Hg _].
        now destruct (space_facts g Hg). }
    destruct t as [|y t].
    + cbn [app str list_ascii_of_string startsWithI] in E.
      apply andb_true_iff in E as [_ E].
      change (startsWithI (str "F") (sp ++ "("%char :: rest) = true) in E.
      rewrite Hsp0 in E; [discriminate | reflexivity | discriminate].
    + cbn [app length skipn str list_ascii_of_string].
      rewrite run_cat_cons, run_Plus.
      destruct t as [|z t]; cbn [app].
      * destruct sp as [|g sp']; cbn [app]; [reflexivity|].
        assert (Hg : Str.isSpace g = true) by exact (blank_suffix_head _ [] g sp' Hsp eq_refl).
        rewrite Hg. apply star_none.
        -- unfold blank in Hsp. cbn [forallb] in Hsp. now apply andb_true_iff in Hsp as [_ Hsp].
        -- reflexivity.
        -- intros u1 u2 Eu. rewrite run_cat_cons, run_LitI.
           destruct u2 as [|y2 u2]; cbn [app]; [reflexivity|].
           assert (Hy2 : Str.isSpace y2 = true).
           { apply (blank_suffix_head (g :: sp') (g :: u1) y2 u2 Hsp). now rewrite Eu. }
           destruct (space_facts y2 Hy2) as (Hyw & _).
           rewrite startsWithI_space; [reflexivity | reflexivity | discriminate | exact Hyw].
      * cbn [forallb] in Ht. apply andb_true_iff in Ht as [_ Ht].
        apply andb_true_iff in Ht as [Hz _].
        destruct (word_facts z Hz) as (-> & _). reflexivity.
Qed.

Lemma forallb_any (s : jstr) : forallb Regex.any s = true.
Proof. induction s; simpl; auto. Qed.

Lemma noEarlyClose_at (block u1 u2 : jstr) :
  noEarlyClose block = true -> block = u1 ++ ")"%char :: u2 ->
  closes (u2 ++ [")"%char]) = false.
Proof.
  revert block. induction u1 as [|x u1 IH]; intros block H E; subst block;
    cbn [app noEarlyClose] in H; apply andb_true_iff in H as [H1 H2].
  - apply negb_true_iff in H1. exact H1.
  - now apply (IH _ H2).
Qed.

(** A CREATE TABLE statement is read at its head: the name and the
    column block are captured, and the match ends at [ENGINE] or at the
    semicolon. *)
Lemma create_hit (c : createStatement) :
  okCreate c = true ->
  exists R0 R',
    c_tail c ++ [";"%char] = R0 ++ R' /\ R0 <> []
    /\ forall N,
         Regex.matchHere Sql.createTableRegex (createText c ++ N)
         = Some (R' ++ c_after c ++ N,
                 [(2, blockText (c_columns c)); (1, w_bare (c_name c))]).
Proof.
  unfold okCreate. intros Hok.
  repeat (apply andb_true_iff in Hok as [Hok ?]).
  rename Hok into Hcreate, H13 into Hsp1, H12 into Hne1, H11 into Htable, H10 into Hsp2,
         H9 into Hne2, H8 into Hname, H7 into Hown, H6 into Hsp3, H5 into Hcols,
         H4 into Hokc, H3 into Hearly, H2 into Hcloses, H1 into Hnocreate,
         H0 into Hnoinsert, H into Hclean.
  destruct (terminator_ok (c_tail c) Hcloses) as (R0 & R' & Esplit & HR0 & Hterm).
  exists R0, R'. split; [exact Esplit|]. split; [exact HR0|]. intros N.
  unfold createText. repeat (rewrite <- ?app_assoc; rewrite <- ?app_comm_cons).
  unfold Regex.matchHere, Sql.createTableRegex.
  rewrite run_cat_cons, (lit_spelled _ _ _ _ _ _ Hcreate).
  rewrite run_cat_cons.
  apply plus_all; [exact Hsp1 | exact Hne1 | |].
  { apply (spelled_stops _ _ _ Htable); [reflexivity | discriminate]. }
  rewrite run_cat_cons, (lit_spelled _ _ _ _ _ _ Htable).
  rewrite run_cat_cons.
  apply plus_all; [exact Hsp2 | exact Hne2 | now apply written_stops |].
  rewrite run_cat_cons, run_Opt, ifNotExists_none by assumption.
  apply name_here; [exact Hname | |].
  { destruct (w_quotes (c_name c)); [exact I|].
    destruct (c_sp3 c) as [|g sp] eqn:Eg; cbn [app]; [split; reflexivity|].
    assert (Hg : Str.isSpace g = true) by exact (blank_suffix_head _ [] g sp Hsp3 eq_refl).
    destruct (space_facts g Hg) as (Hw & _ & Hq & _). now split. }
  rewrite run_cat_cons.
  apply star_blank; [exact Hsp3 | reflexivity |].
  rewrite run_cat_cons, run_Chr. ev_bool (Regex.chr "(" "("). cbv iota.
  rewrite run_cat_cons, run_Grp. cbn [Regex.run].
  rewrite lazy_skip.
  - apply lazy_here.
    rewrite run_cat_cons, run_Chr. ev_bool (Regex.chr ")" ")"). cbv iota.
    rewrite Hterm by (intros; eexists; reflexivity).
    rewrite (firstn_consumed (blockText (c_columns c))).
    reflexivity.
  - apply forallb_any.
  - intros u1 u2 E Hne. destruct u2 as [|y u2]; [congruence|]. cbn [app].
    rewrite run_cat_cons, run_Chr.
    destruct (Regex.chr ")" y) eqn:Ey; [|reflexivity].
    unfold Regex.chr, Str.eqc in Ey. apply Ascii.eqb_eq in Ey. subst y.
    apply terminator_fail. exact (noEarlyClose_at _ u1 u2 Hearly E).
Qed.

(** *** The loop over [createTableRegex] on a dump *)

Lemma cleanEnd_semi (pre after : jstr) :
  cleanEnd after = true -> cleanEnd (pre ++ ";"%char :: after) = true.
Proof.
  intros H. destruct after as [|y after].
  - unfold cleanEnd. rewrite rev_app_distr. reflexivity.
  - induction pre as [|x pre IH]; cbn [app].
    + rewrite cleanEnd_cons; [exact H | discriminate].
    + rewrite cleanEnd_cons; [exact IH | destruct pre; discriminate].
Qed.

Lemma createText_clean (c : createStatement) :
  okCreate c = true -> cleanEnd (createText c) = true.
Proof.
  unfold okCreate. intros Hok. repeat (apply andb_true_iff in Hok as [Hok ?]).
  unfold createText.
  repeat (rewrite ?app_assoc; rewrite ?app_comm_cons).
  now apply cleanEnd_semi.
Qed.

Lemma insertText_clean (i : insertStatement) :
  okInsert i = true -> cleanEnd (insertText i) = true.
Proof.
  unfold okInsert. intros Hok. repeat (apply andb_true_iff in Hok as [Hok ?]).
  unfold insertText.
  repeat (rewrite ?app_assoc; rewrite ?app_comm_cons).
  now apply cleanEnd_semi.
Qed.

Lemma insert_inert_create (i : insertStatement) :
  okInsert i = true -> inert Sql.createTableRegex (insertText i).
Proof.
  intros Hok. apply (inert_of_mentions _ (str "CREATE")).
  - exact create_fail.
  - reflexivity.
  - unfold okInsert in Hok. repeat (apply andb_true_iff in Hok as [Hok ?]).
    now apply negb_true_iff.
  - now apply insertText_clean.
Qed.

Lemma create_inert_insert (c : createStatement) :
  okCreate c = true -> inert Sql.insertRegex (createText c).
Proof.
  intros Hok. apply (inert_of_mentions _ (str "INSERT")).
  - exact insert_fail.
  - reflexivity.
  - unfold okCreate in Hok. repeat (apply andb_true_iff in Hok as [Hok ?]).
    now apply negb_true_iff.
  - now apply createText_clean.
Qed.

Lemma create_rest_inert (c : createStatement) (R0 R' : jstr) :
  okCreate c = true -> c_tail c ++ [";"%char] = R0 ++ R' ->
  inert Sql.createTableRegex (R' ++ c_after c).
Proof.
  intros Hok E. apply (inert_suffix _ R0).
  rewrite app_assoc, <- E, <- app_assoc. cbn [app].
  unfold okCreate in Hok. repeat (apply andb_true_iff in Hok as [Hok ?]).
  apply (inert_of_mentions _ (str "CREATE")).
  - exact create_fail.
  - reflexivity.
  - now apply negb_true_iff.
  - now apply cleanEnd_semi.
Qed.

Lemma create_exec (ss : list statement) :
  forallb okStatement ss = true ->
  forall (P : jstr) (fuel : nat),
    inert Sql.createTableRegex P ->
    length (P ++ statementsText ss) < fuel ->
    map (fun m => (Sql.group m 1, Sql.group m 2))
        (Regex.execLoop fuel Sql.createTableRegex (P ++ statementsText ss))
    = createsOf ss.
Proof.
  induction ss as [|s ss IH]; intros Hall P fuel HP Hf.
  - destruct fuel as [|fuel]; [lia|]. cbn [statementsText map concat Regex.execLoop].
    rewrite search_inert by exact HP. cbn [Regex.search].
    rewrite create_fail by reflexivity. reflexivity.
  - cbn [forallb] in Hall. apply andb_true_iff in Hall as [Hs Hall].
    unfold statementsText in *. cbn [map concat] in *.
    destruct s as [c|i]; cbn [statementText okStatement createsOf flat_map app] in *.
    + destruct fuel as [|fuel]; [lia|]. cbn [Regex.execLoop].
      rewrite search_inert by exact HP.
      destruct (create_hit c Hs) as (R0 & R' & Esplit & HR0 & Hm).
      rewrite (search_here _ _ _ _ _ (Hm _)). cbn [map Regex.rest]. f_equal.
      rewrite app_assoc. apply IH; [exact Hall | exact (create_rest_inert c R0 R' Hs Esplit) |].
      assert (Hl : length R' < length (c_tail c ++ [";"%char])).
      { rewrite Esplit, length_app. destruct R0; [congruence | simpl; lia]. }
      unfold createText in Hf.
      repeat (progress (rewrite ?length_app in *; cbn [length] in * )). lia.
    + rewrite app_assoc. apply IH; [exact Hall | | now rewrite <- app_assoc].
      apply inert_app; [exact HP | now apply insert_inert_create].
Qed.

(** *** The lookahead that ends a values block *)

Lemma star_some (R : Type) (p : ascii -> bool) (k : Regex.cont R) (s : jstr)
    (c : Regex.caps) (r : R) :
  Regex.star p k s c = Some r -> exists s', k s' c = Some r.
Proof.
  induction s as [|x s IH]; cbn [Regex.star]; intros H; [eauto|].
  destruct (p x); [|eauto].
  destruct (Regex.star p k s c) eqn:E; [|eauto].
  inversion H; subst. now apply IH.
Qed.

Lemma lazy_some (R : Type) (p : ascii -> bool) (k : Regex.cont R) (s : jstr)
    (c : Regex.caps) (r : R) :
  Regex.lazy p k s c = Some r -> exists s', k s' c = Some r.
Proof.
  induction s as [|x s IH]; cbn [Regex.lazy]; intros H.
  - destruct (k [] c) eqn:E; [inversion H; subst; eauto | discriminate].
  - destruct (k (x :: s) c) eqn:E; [inversion H; subst; eauto|].
    destruct (p x); [now apply IH | discriminate].
Qed.

(** A pattern without groups leaves the captures as they are. *)
Lemma groupless_caps (r : Regex.re) :
  groupless r = true ->
  forall (k : Regex.cont Regex.caps),
    (forall s c c1, k s c = Some c1 -> c1 = c) ->
    forall s c c1, Regex.run r k s c = Some c1 -> c1 = c.
Proof.
  induction r as [|p|a IHa b IHb|a IHa b IHb|p|p|i r IH|r IH| |];
    intros Hg k Hk s c c1 H; cbn [Regex.run groupless] in *; try discriminate Hg.
  - now apply (Hk s).
  - destruct s as [|x s]; [discriminate|]. destruct (p x); [now apply (Hk s) | discriminate].
  - apply andb_true_iff in Hg as [Ha Hb].
    apply (IHa Ha (Regex.run b k)) with (s := s); [|exact H].
    intros s0 c0 c2. now apply IHb.
  - apply andb_true_iff in Hg as [Ha Hb].
    destruct (Regex.run a k s c) eqn:E.
    + inversion H; subst. now apply (IHa Ha k Hk s).
    + now apply (IHb Hb k Hk s).
  - destruct (star_some _ _ _ _ _ _ H) as [s' Hs']. now apply (Hk s').
  - destruct (lazy_some _ _ _ _ _ _ H) as [s' Hs']. now apply (Hk s').
  - destruct (Regex.run r (fun _ c' => Some c') s c) as [c2|] eqn:E; [|discriminate].
    assert (c2 = c).
    { apply (IH Hg (fun _ c' => Some c')) with (s := s); [|exact E].
      intros ? ? ? X. now inversion X. }
    subst c2. now apply (Hk s).
  - destruct s; [now apply (Hk [])|discriminate].
  - destruct s as [|x s]; [now apply (Hk [])|].
    destruct (Str.isNewline x); [now apply (Hk (x :: s)) | discriminate].
Qed.

Lemma ahead_caps (s : jstr) (c c1 : Regex.caps) :
  Regex.run Sql.statementAhead (fun _ c' => Some c') s c = Some c1 -> c1 = c.
Proof.
  apply groupless_caps; [reflexivity|]. intros ? ? ? X. now inversion X.
Qed.

Lemma trailer_fails (R : Type) (k : Regex.cont R) (s : jstr) (c : Regex.caps) :
  existsb (fun x => negb (Str.isSpace x)) (tl s) = true ->
  Regex.run (Regex.cat [ Regex.Opt (Regex.Chr (Regex.chr ";")); Regex.Star Str.isSpace;
                         Regex.Eos ]) k s c = None.
Proof.
  intros Hex.
  assert (Hrest : forall s' c', existsb (fun x => negb (Str.isSpace x)) s' = true ->
            Regex.run (Regex.cat [Regex.Star Str.isSpace; Regex.Eos]) k s' c' = None).
  { intros s' c' H'. rewrite run_cat_cons. cbn [Regex.cat Regex.run].
    apply star_eos_fail; [reflexivity | exact H']. }
  rewrite run_cat_cons, run_Opt, run_Chr.
  destruct s as [|x s]; [discriminate|]. cbn [tl] in Hex.
  assert (Hall : existsb (fun x => negb (Str.isSpace x)) (x :: s) = true).
  { cbn [existsb]. rewrite Hex. apply orb_true_r. }
  destruct (Regex.chr ";" x); [|now apply Hrest].
  rewrite (Hrest s c Hex). now apply Hrest.
Qed.

Lemma stopKeywords_facts :
  forall kw, In kw stopKeywords ->
    forallb Str.isWord kw = true /\ kw <> []
    /\ forallb (fun c => negb (Regex.chrI c ";"%char)) kw = true.
Proof.
  assert (H : forallb (fun kw => forallb Str.isWord kw && nonEmpty kw
                                 && forallb (fun c => negb (Regex.chrI c ";"%char)) kw)
                      stopKeywords = true) by (vm_compute; reflexivity).
  rewrite forallb_forall in H. intros kw Hin. specialize (H kw Hin).
  apply andb_true_iff in H as [H H3]. apply andb_true_iff in H as [H1 H2].
  split; [exact H1|]. split; [|exact H3]. destruct kw; [discriminate | discriminate].
Qed.

(** The lookahead fails where no stop keyword begins and a character
    other than white space follows. *)
Lemma lookahead_fails (R : Type) (k : Regex.cont R) (s : jstr) (c : Regex.caps) :
  (forall kw, In kw stopKeywords -> startsWithI kw s = false) ->
  existsb (fun x => negb (Str.isSpace x)) (tl s) = true ->
  Regex.run Sql.statementAhead k s c = None.
Proof.
  intros Hkw Hex. unfold Sql.statementAhead. cbn [Regex.alts Regex.run].
  rewrite run_cat_cons, !run_LitI.
  rewrite !Hkw by (unfold stopKeywords; simpl; auto 10).
  now rewrite trailer_fails.
Qed.

Lemma ahead_ahead (R : Type) (k : Regex.cont R) (s : jstr) (c : Regex.caps) :
  Regex.run (Regex.Ahead Sql.statementAhead) k s c
  = match Regex.run Sql.statementAhead (fun _ c' => Some c') s c with
    | Some _ => k s c
    | None => None
    end.
Proof.
  cbn [Regex.run].
  destruct (Regex.run Sql.statementAhead (fun _ c' => Some c') s c) as [c1|] eqn:E;
    [|reflexivity].
  now rewrite (ahead_caps _ _ _ E).
Qed.

(** The lookahead holds at the end of the text and at the head of a
    statement. *)
Lemma ahead_end (c : Regex.caps) :
  Regex.run Sql.statementAhead (fun _ c' => Some c') [] c = Some c.
Proof. reflexivity. Qed.

Lemma run_Alt (R : Type) (a b : Regex.re) (k : Regex.cont R) (s : jstr) (c : Regex.caps) :
  Regex.run (Regex.Alt a b) k s c
  = match Regex.run a k s c with Some x => Some x | None => Regex.run b k s c end.
Proof. reflexivity. Qed.

Lemma spelled_not (kw u w rest : jstr) :
  spells kw u = true ->
  match kw, w with
  | x :: _, c0 :: _ => negb (Str.eqc x (Str.toUpperChar c0))
  | _, _ => false
  end = true ->
  startsWithI w (u ++ rest) = false.
Proof.
  intros H Hd. destruct kw as [|x kw]; [discriminate|]. destruct w as [|c0 w]; [discriminate|].
  destruct (spells_head _ u x kw H eq_refl) as (y & u' & -> & Hy).
  cbn [app startsWithI]. unfold Regex.chrI. rewrite Hy.
  apply negb_true_iff in Hd. now rewrite Hd.
Qed.

Lemma ahead_statement (s : statement) (rest : jstr) (c : Regex.caps) :
  okStatement s = true ->
  Regex.run Sql.statementAhead (fun _ c' => Some c') (statementText s ++ rest) c = Some c.
Proof.
  intros Hok. destruct s as [cr|i]; cbn [okStatement statementText] in *.
  - unfold okCreate in Hok. repeat (apply andb_true_iff in Hok as [Hok ?]).
    unfold createText. rewrite <- !app_assoc.
    unfold Sql.statementAhead. cbn [Regex.alts Regex.run].
    rewrite run_cat_cons, !run_LitI.
    rewrite (spelled_not _ _ (str "INSERT") _ Hok eq_refl).
    destruct (spells_starts _ _ (c_sp1 cr ++ c_table cr ++ c_sp2 cr ++ writtenText (c_name cr)
                ++ c_sp3 cr ++ ("("%char :: blockText (c_columns cr) ++ ")"%char :: c_tail cr
                ++ ";"%char :: c_after cr) ++ rest) Hok) as [-> _].
    reflexivity.
  - unfold okInsert in Hok. repeat (apply andb_true_iff in Hok as [Hok ?]).
    unfold insertText. rewrite <- !app_assoc.
    unfold Sql.statementAhead. cbn [Regex.alts]. rewrite run_Alt.
    assert (X : forall tl0, Regex.run
             (Regex.cat [Regex.LitI (str "INSERT"); Regex.Plus Str.isSpace; Regex.LitI (str "INTO")])
             (fun (_ : jstr) (c' : Regex.caps) => Some c')
             (i_insert i ++ i_sp1 i ++ i_into i ++ tl0) c
             = Some c).
    { intros tl0. rewrite run_cat_cons, (lit_spelled _ _ _ _ _ _ Hok).
      rewrite run_cat_cons. apply plus_all; try assumption.
      - eapply spelled_stops; [eassumption | reflexivity | discriminate].
      - cbn [Regex.cat]. now rewrite lit_spelled by eassumption. }
    now rewrite X.
Qed.

(** A lazy repetition stops at the latest where its continuation is
    known to succeed. *)
Lemma lazy_reach (R : Type) (p : ascii -> bool) (k : Regex.cont R) (O N : jstr)
    (c : Regex.caps) (r0 : R) :
  forallb p O = true -> k N c = Some r0 ->
  exists J O' r,
    O = J ++ O' /\ k (O' ++ N) c = Some r /\ Regex.lazy p k (O ++ N) c = Some r.
Proof.
  intros Hp HN. induction O as [|x O IH].
  - exists [], [], r0. cbn [app]. split; [reflexivity|]. split; [exact HN|].
    now apply lazy_here.
  - cbn [forallb] in Hp. apply andb_true_iff in Hp as [Hx Hp].
    destruct (k ((x :: O) ++ N) c) as [r|] eqn:E.
    + exists [], (x :: O), r. split; [reflexivity|]. split; [exact E|]. now apply lazy_here.
    + destruct (IH Hp) as (J & O' & r & EO & Hk & Hl).
      exists (x :: J), O', r. split; [now rewrite EO|]. split; [exact Hk|].
      cbn [app] in *. cbn [Regex.lazy]. now rewrite E, Hx.
Qed.

Lemma suffix_tl_has (y : ascii) (u2 rest : jstr) :
  existsb (fun x => negb (Str.isSpace x)) (tl ((y :: u2) ++ ";"%char :: rest)) = true.
Proof.
  cbn [app tl]. rewrite existsb_app. cbn [existsb].
  change (negb (Str.isSpace ";")) with true. cbn [orb]. apply orb_true_r.
Qed.

(** The values block of an INSERT: the lazy group runs over the tuples,
    and ends in what follows the statement, at the latest before the
    next statement. *)
Lemma values_block (V after N : jstr) (c0 : Regex.caps) :
  (forall kw, In kw stopKeywords -> mentions kw V = false) ->
  (forall c, Regex.run Sql.statementAhead (fun _ c' => Some c') N c = Some c) ->
  exists J O',
    ";"%char :: after = J ++ O'
    /\ Regex.run (Regex.cat [Regex.Grp 3 (Regex.LazyStar Regex.any);
                             Regex.Ahead Sql.statementAhead])
                 (fun s c => Some (s, c)) (V ++ ";"%char :: after ++ N) c0
       = Some (O' ++ N, (3, V ++ J) :: c0).
Proof.
  intros Hkw HN.
  set (s := V ++ ";"%char :: after ++ N).
  set (K := fun (s' : jstr) (c' : Regex.caps) =>
              Regex.run (Regex.Ahead Sql.statementAhead)
                        (fun s0 c => Some (s0, c)) s'
                        ((3, firstn (length s - length s') s) :: c')).
  assert (HK : forall s' c', K s' c' = None \/
                 K s' c' = Some (s', (3, firstn (length s - length s') s) :: c')).
  { intros s' c'. unfold K. rewrite ahead_ahead.
    destruct (Regex.run Sql.statementAhead _ s' _); [now right | now left]. }
  destruct (lazy_reach _ Regex.any K (";"%char :: after) N c0
              (N, (3, firstn (length s - length N) s) :: c0))
    as (J & O' & r & EO & Hk & Hl).
  { apply forallb_any. }
  { unfold K. rewrite ahead_ahead, HN. reflexivity. }
  exists J, O'. split; [exact EO|].
  rewrite run_cat_cons, run_Grp. cbn [Regex.cat]. fold s.
  change (Regex.run (Regex.LazyStar Regex.any) ?k ?x ?c) with (Regex.lazy Regex.any k x c).
  change (Regex.lazy Regex.any K s c0 = Some (O' ++ N, (3, V ++ J) :: c0)).
  unfold s at 1. rewrite lazy_skip.
  - change (";"%char :: after ++ N) with ((";"%char :: after) ++ N). rewrite Hl.
    destruct (HK (O' ++ N) c0) as [X|X]; [congruence|]. rewrite X in Hk.
    inversion Hk; subst r. f_equal. f_equal. f_equal. f_equal.
    unfold s. change (";"%char :: after ++ N) with ((";"%char :: after) ++ N).
    rewrite EO, <- app_assoc, app_assoc. apply firstn_consumed.
  - apply forallb_any.
  - intros u1 u2 E Hne. unfold K. rewrite ahead_ahead.
    rewrite lookahead_fails; [reflexivity | |].
    + intros kw Hin. destruct (stopKeywords_facts kw Hin) as (_ & _ & Hrej).
      rewrite startsWithI_barrier by exact Hrej.
      exact (mentions_false _ _ (Hkw kw Hin) u1 u2 E).
    + destruct u2 as [|y u2]; [congruence|]. exact (suffix_tl_has y u2 _).
Qed.

Lemma tuplesText_stops (tuples : list (jstr * jstr)) (rest : jstr) :
  nonEmpty tuples = true -> stops Str.isSpace (tuplesText tuples ++ rest) = true.
Proof. destruct tuples as [|[b sp] tuples]; [discriminate | reflexivity]. Qed.

(** An INSERT statement is read at its head: the name is captured, no
    explicit column list, and the values block holds the tuples. *)
Lemma insert_hit (i : insertStatement) (N : jstr) :
  okInsert i = true ->
  (forall c, Regex.run Sql.statementAhead (fun _ c' => Some c') N c = Some c) ->
  exists J O',
    ";"%char :: i_after i = J ++ O'
    /\ Regex.matchHere Sql.insertRegex (insertText i ++ N)
       = Some (O' ++ N, [(3, tuplesText (i_tuples i) ++ J); (1, w_bare (i_name i))]).
Proof.
  unfold okInsert. intros Hok HN.
  repeat (apply andb_true_iff in Hok as [Hok ?]).
  rename Hok into Hinsert, H16 into Hsp1, H15 into Hne1, H14 into Hinto, H13 into Hsp2,
         H12 into Hne2, H11 into Hname, H10 into Hown, H9 into Hsp3, H8 into Hq,
         H7 into Hvalues, H6 into Hsp4, H5 into Htuples, H4 into Hokt, H3 into Hstopkw,
         H2 into Hnocreate, H1 into Hnoparen, H0 into Hnoinsert, H into Hclean.
  destruct (values_block (tuplesText (i_tuples i)) (i_after i) N [(1, w_bare (i_name i))])
    as (J & O' & EO & Hblock); [|exact HN|].
  { intros kw Hin. rewrite forallb_forall in Hstopkw.
    apply negb_true_iff. now apply Hstopkw. }
  exists J, O'. split; [exact EO|].
  unfold insertText. repeat (rewrite <- ?app_assoc; rewrite <- ?app_comm_cons).
  unfold Regex.matchHere, Sql.insertRegex.
  rewrite run_cat_cons, (lit_spelled _ _ _ _ _ _ Hinsert).
  rewrite run_cat_cons.
  apply plus_all; [exact Hsp1 | exact Hne1 | |].
  { apply (spelled_stops _ _ _ Hinto); [reflexivity | discriminate]. }
  rewrite run_cat_cons, (lit_spelled _ _ _ _ _ _ Hinto).
  rewrite run_cat_cons.
  apply plus_all; [exact Hsp2 | exact Hne2 | now apply written_stops |].
  apply name_here; [exact Hname | |].
  { destruct (w_quotes (i_name i)); [exact I|].
    destruct (i_sp3 i) as [|g sp] eqn:Eg; [discriminate|]. cbn [app].
    assert (Hg : Str.isSpace g = true) by exact (blank_suffix_head _ [] g sp Hsp3 eq_refl).
    destruct (space_facts g Hg) as (Hw & _ & Hcq & _). now split. }
  rewrite run_cat_cons.
  apply star_blank; [exact Hsp3 | |].
  { apply (spelled_stops _ _ _ Hvalues); [reflexivity | discriminate]. }
  rewrite run_cat_cons, run_Opt, run_cat_cons, run_Chr.
  destruct (spells_head _ _ "V"%char (str "ALUES") Hvalues eq_refl) as (y & u' & Ey & Hy).
  assert (Hyp : Regex.chr "(" y = false).
  { assert (Hyw : Str.isWord y = true) by (rewrite <- upper_word, Hy; reflexivity).
    now destruct (word_facts y Hyw) as (_ & _ & _ & Hp & _). }
  rewrite Ey at 1. cbn [app]. rewrite Hyp.
  rewrite run_cat_cons.
  apply (star_blank _ _ []); [reflexivity | |].
  { apply (spelled_stops _ _ _ Hvalues); [reflexivity | discriminate]. }
  cbn [app].
  rewrite run_cat_cons, (lit_spelled _ _ _ _ _ _ Hvalues).
  rewrite run_cat_cons.
  apply star_blank; [exact Hsp4 | now apply tuplesText_stops |].
  exact Hblock.
Qed.

(** *** The loop over [insertRegex] on a dump *)

Lemma ahead_statements (ss : list statement) (c : Regex.caps) :
  forallb okStatement ss = true ->
  Regex.run Sql.statementAhead (fun _ c' => Some c') (statementsText ss) c = Some c.
Proof.
  destruct ss as [|s ss]; intros H; [apply ahead_end|].
  cbn [forallb] in H. apply andb_true_iff in H as [Hs _].
  unfold statementsText. cbn [map concat]. now apply ahead_statement.
Qed.

Lemma insert_rest_inert (i : insertStatement) (J O' : jstr) :
  okInsert i = true -> ";"%char :: i_after i = J ++ O' ->
  inert Sql.insertRegex O' /\ noChar "("%char J = true.
Proof.
  unfold okInsert. intros Hok E. repeat (apply andb_true_iff in Hok as [Hok ?]).
  split.
  - apply (inert_suffix _ J). rewrite <- E.
    apply (inert_of_mentions _ (str "INSERT")).
    + exact insert_fail.
    + reflexivity.
    + cbn [mentions]. apply negb_true_iff in H0. rewrite H0. reflexivity.
    + now apply (cleanEnd_semi []).
  - assert (X : noChar "("%char (";"%char :: i_after i) = true).
    { cbn [noChar forallb]. unfold noChar in H1. now rewrite H1. }
    rewrite E, noChar_app in X. now apply andb_true_iff in X as [X _].
Qed.

Lemma insertText_long (i : insertStatement) :
  okInsert i = true -> length (";"%char :: i_after i) < length (insertText i).
Proof.
  unfold okInsert. intros Hok. repeat (apply andb_true_iff in Hok as [Hok ?]).
  unfold insertText. destruct (i_sp1 i); [discriminate|].
  repeat (progress (rewrite ?length_app in *; cbn [length] in * )). lia.
Qed.

Lemma insert_exec (ss : list statement) :
  forallb okStatement ss = true ->
  forall (P : jstr) (fuel : nat),
    inert Sql.insertRegex P ->
    length (P ++ statementsText ss) < fuel ->
    Forall2 readsInsert
            (Regex.execLoop fuel Sql.insertRegex (P ++ statementsText ss))
            (insertsOf ss).
Proof.
  induction ss as [|s ss IH]; intros Hall P fuel HP Hf.
  - destruct fuel as [|fuel]; [lia|]. cbn [statementsText map concat Regex.execLoop].
    rewrite search_inert by exact HP. cbn [Regex.search].
    rewrite insert_fail by reflexivity. constructor.
  - cbn [forallb] in Hall. apply andb_true_iff in Hall as [Hs Hall].
    change (statementsText (s :: ss)) with (statementText s ++ statementsText ss) in *.
    destruct s as [c|i]; cbn [statementText okStatement insertsOf flat_map app] in *.
    + rewrite app_assoc. apply IH; [exact Hall | | now rewrite <- app_assoc].
      apply inert_app; [exact HP | now apply create_inert_insert].
    + destruct fuel as [|fuel]; [lia|]. cbn [Regex.execLoop].
      rewrite search_inert by exact HP.
      destruct (insert_hit i (statementsText ss) Hs) as (J & O' & EO & Hm).
      { intros c. now apply ahead_statements. }
      destruct (insert_rest_inert i J O' Hs EO) as [HO' HJ].
      rewrite (search_here _ _ _ _ _ Hm). cbn [Regex.rest]. constructor.
      * unfold readsInsert, Sql.group. cbn [Regex.groups Regex.cap Nat.eqb].
        split; [reflexivity|]. split; [reflexivity|]. now exists J.
      * apply IH; [exact Hall | exact HO' |].
        assert (Hl : length O' <= length (";"%char :: i_after i)).
        { rewrite EO, length_app. lia. }
        pose proof (insertText_long i Hs) as Hl'.
        repeat (progress (rewrite ?length_app in *; cbn [length] in * )). lia.
Qed.

(** *** The declared schemas of a dump *)

Lemma fold_left_proj (A B C : Type) (g : A -> C -> A) (h : B -> C) (l : list B) (a : A) :
  fold_left (fun acc x => g acc (h x)) l a = fold_left g (map h l) a.
Proof. revert a. induction l as [|x l IH]; intros a; [reflexivity | apply IH]. Qed.

Lemma okCreate_facts (c : createStatement) :
  okCreate c = true ->
  forallb okColumn (c_columns c) = true
  /\ c_columns c <> []
  /\ Host.inherited (tableKey (c_name c)) = false.
Proof.
  unfold okCreate. intros Hok. repeat (apply andb_true_iff in Hok as [Hok ?]).
  split; [assumption|]. split.
  - destruct (c_columns c); [discriminate | discriminate].
  - now apply negb_true_iff.
Qed.

Lemma schemas_fold (ss : list statement) :
  forallb okStatement ss = true ->
  forall o,
  exists o',
    fold_left
      (fun schemas nb =>
         match Sql.columnDefsOf (snd nb) with
         | [] => schemas
         | columnDefs => Sql.declare (Str.toLowerCase (fst nb)) columnDefs schemas
         end)
      (createsOf ss) (Sql.Schemas o None)
    = Sql.Schemas o' None
    /\ forall t,
         Obj.get o' t
         = fold_left
             (fun acc s =>
                match s with
                | CreateTable c =>
                    if Str.eqb (tableKey (c_name c)) t
                    then Some (map columnName (c_columns c))
                    else acc
                | InsertInto _ => acc
                end)
             ss (Obj.get o t).
Proof.
  induction ss as [|s ss IH]; intros Hall o.
  - exists o. split; reflexivity.
  - cbn [forallb] in Hall. apply andb_true_iff in Hall as [Hs Hall].
    destruct s as [c|i]; cbn [createsOf flat_map app fold_left okStatement] in *.
    + destruct (okCreate_facts c Hs) as (Hcols & Hne & Hown).
      cbn [fst snd]. rewrite (columnDefs_gen _ Hcols).
      destruct (map columnName (c_columns c)) as [|n0 ns] eqn:En.
      { destruct (c_columns c); [congruence | discriminate]. }
      unfold Sql.declare. fold (tableKey (c_name c)).
      rewrite (inherited_not_proto _ Hown). cbn [Sql.declared Sql.arrayProto].
      destruct (IH Hall (Obj.set (tableKey (c_name c)) (n0 :: ns) o)) as (o' & Ef & Hg).
      exists o'. split; [exact Ef|]. intros t. rewrite Hg. f_equal.
      apply get_set.
    + apply (IH Hall).
Qed.

Lemma tableSchemas_dump (d : dump) :
  okDump d = true ->
  exists o,
    Sql.tableSchemasOf (dumpText d) = Sql.Schemas o None
    /\ forall t, Obj.get o t = declaredIn (statements d) t.
Proof.
  unfold okDump. intros Hok. repeat (apply andb_true_iff in Hok as [Hok ?]).
  unfold Sql.tableSchemasOf.
  rewrite (fold_left_proj _ _ _
             (fun schemas nb =>
                match Sql.columnDefsOf (snd nb) with
                | [] => schemas
                | columnDefs => Sql.declare (Str.toLowerCase (fst nb)) columnDefs schemas
                end)
             (fun m => (Sql.group m 1, Sql.group m 2))).
  unfold Regex.execAll, dumpText. rewrite create_exec; [| assumption | | lia].
  - destruct (schemas_fold (statements d) H2 (Obj.empty _)) as (o' & Ef & Hg).
    exists o'. split; [exact Ef|]. intros t. now rewrite Hg.
  - apply (inert_of_mentions _ (str "CREATE")); [exact create_fail | reflexivity | | assumption].
    now apply negb_true_iff.
Qed.

(** *** The rows of a dump *)

Lemma valueSet_nil : Regex.matchHere Sql.valueSetRegex [] = None.
Proof. reflexivity. Qed.

Lemma valueSet_tuples (tuples : list (jstr * jstr)) (junk : jstr) :
  forallb okTuple tuples = true -> noChar "("%char junk = true ->
  forall (pre : jstr) (fuel : nat),
    noChar "("%char pre = true ->
    length (pre ++ tuplesText tuples ++ junk) < fuel ->
    length (Regex.execLoop fuel Sql.valueSetRegex (pre ++ tuplesText tuples ++ junk))
    = length tuples.
Proof.
  intros Hall Hjunk. induction tuples as [|[b sp] tuples IH]; intros pre fuel Hpre Hf.
  - destruct fuel; [lia|]. cbn [Regex.execLoop tuplesText map concat app].
    rewrite valueSet_skip by assumption.
    rewrite <- (app_nil_r junk). rewrite valueSet_skip by assumption.
    cbn [Regex.search]. rewrite valueSet_nil. reflexivity.
  - cbn [forallb] in Hall. apply andb_true_iff in Hall as [Hb Hall].
    unfold okTuple in Hb. cbn [fst snd] in Hb. apply andb_true_iff in Hb as [Hb Hsp].
    destruct fuel as [|fuel]; [lia|].
    unfold tuplesText in *. cbn [map concat fst snd] in *.
    cbn [Regex.execLoop].
    rewrite valueSet_skip by assumption.
    repeat (rewrite <- ?app_assoc in *; rewrite <- ?app_comm_cons in * ).
    rewrite (search_here _ _ _ _ _ (valueSet_here b _ Hb)).
    cbn [Regex.rest length]. f_equal.
    apply (IH Hall sp fuel Hsp).
    repeat (progress (rewrite ?length_app in *; cbn [length] in * )). lia.
Qed.

Lemma schemaOf_plain (o : Obj.t (list jstr)) (k : jstr) :
  Host.inherited k = false ->
  Sql.schemaOf (Sql.Schemas o None) k
  = match Obj.get o k with
    | Some cols => Sql.Columns cols
    | None => Sql.Undeclared
    end.
Proof.
  intros H. unfold Sql.schemaOf. cbn [Sql.declared].
  destruct (Obj.get o k); [reflexivity|].
  unfold Host.inherited, Host.isMethod in H.
  unfold Sql.inheritedSchema, Sql.memberOf. cbn [Sql.arrayProto].
  destruct (Str.eqb k Host.protoKey); [discriminate|]. cbn [orb] in H.
  destruct (Host.methodOf Host.objectMethods k); [discriminate | reflexivity].
Qed.

Lemma okInsert_facts (i : insertStatement) :
  okInsert i = true ->
  forallb okTuple (i_tuples i) = true
  /\ i_tuples i <> []
  /\ Host.inherited (tableKey (i_name i)) = false.
Proof.
  unfold okInsert. intros Hok. repeat (apply andb_true_iff in Hok as [Hok ?]).
  split; [assumption|]. split.
  - destruct (i_tuples i); [discriminate | discriminate].
  - now apply negb_true_iff.
Qed.

(** One INSERT block into another table leaves the rows of [t] as they
    are. *)
Lemma addInsert_other (o : Obj.t (list jstr)) (e : Obj.t Sql.tableAcc) (m : Regex.found)
    (i : insertStatement) (t : jstr) (cols : list jstr) (n : nat) :
  readsInsert m i -> okInsert i = true -> tableKey (i_name i) <> t ->
  holdsRows t cols e n ->
  exists e', Sql.addInsert (Sql.Schemas o None) e m = Some e' /\ holdsRows t cols e' n.
Proof.
  intros (Hg1 & Hg2 & _) Hok Hne [Hnd Hget].
  destruct (okInsert_facts i Hok) as (_ & _ & Hown).
  unfold Sql.addInsert. rewrite Hg1, Hg2. fold (tableKey (i_name i)).
  unfold Sql.columnsFor. rewrite (schemaOf_plain o _ Hown).
  set (cols0 := match Obj.get o (tableKey (i_name i)) with
                | Some cs => Sql.Columns cs
                | None => Sql.Undeclared
                end).
  assert (Hc : exists c0, match cols0 with
                          | Sql.Columns cs => Some cs
                          | Sql.NotArray true | Sql.Undeclared => Some []
                          | Sql.NotArray false => None
                          end = Some c0).
  { unfold cols0. destruct (Obj.get o (tableKey (i_name i))); eauto. }
  destruct Hc as [c0 ->].
  destruct (Sql.parseTuples c0 (Sql.group m 3)) as [cs newRows].
  destruct newRows as [|r0 rs].
  { exists e. split; [reflexivity | now split]. }
  destruct (Obj.get e (tableKey (i_name i))) as [acc|] eqn:Eg.
  - eexists. split; [reflexivity|]. split; [now apply set_NoDup|].
    now rewrite get_set_other.
  - rewrite Hown. eexists. split; [reflexivity|]. split; [now apply set_NoDup|].
    now rewrite get_set_other.
Qed.

(** One INSERT block into [t] adds its tuples to the rows of [t]. *)
Lemma addInsert_target (o : Obj.t (list jstr)) (e : Obj.t Sql.tableAcc) (m : Regex.found)
    (i : insertStatement) (t : jstr) (cols : list jstr) (n : nat) :
  readsInsert m i -> okInsert i = true -> tableKey (i_name i) = t ->
  Obj.get o t = Some cols -> cols <> [] ->
  holdsRows t cols e n ->
  exists e',
    Sql.addInsert (Sql.Schemas o None) e m = Some e'
    /\ holdsRows t cols e' (n + length (i_tuples i)).
Proof.
  intros (Hg1 & Hg2 & junk & Hjunk & Hg3) Hok Ht Hcols Hne [Hnd Hget].
  destruct (okInsert_facts i Hok) as (Htuples & Htne & Hown).
  unfold Sql.addInsert. rewrite Hg1, Hg2. fold (tableKey (i_name i)). rewrite Ht in *.
  unfold Sql.columnsFor. rewrite (schemaOf_plain o _ Hown), Hcols.
  destruct (parseTuples_rows cols (Sql.group m 3) Hne) as (rows & Hf & Hl & Hall).
  rewrite Hf.
  assert (Hlen : length rows = length (i_tuples i)).
  { rewrite Hl, Hg3. unfold Regex.execAll.
    apply (valueSet_tuples _ _ Htuples Hjunk []); [reflexivity | simpl; lia]. }
  destruct rows as [|r0 rs].
  { destruct (i_tuples i); [congruence | discriminate Hlen]. }
  inversion Hall as [|? ? (cl & id & Hr0) _]; subst r0.
  destruct (Obj.get e t) as [acc|] eqn:Eg.
  - destruct Hget as (Hn & cl0 & id0 & rs0 & Hrows).
    eexists. split; [reflexivity|]. split; [now apply set_NoDup|].
    rewrite get_set_same. cbn [Sql.rows]. split.
    + rewrite length_app, Hn, Hlen. reflexivity.
    + exists cl0, id0, (rs0 ++ Sql.buildRow cols cl id :: rs). now rewrite Hrows.
  - rewrite Hown. eexists. split; [reflexivity|]. split; [now apply set_NoDup|].
    rewrite get_set_same. cbn [Sql.rows]. split.
    + subst n. now rewrite Hlen.
    + now exists cl, id, rs.
Qed.

Lemma tuplesInto_cons (s : statement) (ss : list statement) (t : jstr) :
  tuplesInto (s :: ss) t
  = match s with
    | InsertInto i => if Str.eqb (tableKey (i_name i)) t then length (i_tuples i) else 0
    | CreateTable _ => 0
    end + tuplesInto ss t.
Proof. reflexivity. Qed.

Lemma rows_fold (o : Obj.t (list jstr)) (t : jstr) (cols : list jstr) (ss : list statement) :
  forallb okStatement ss = true ->
  Obj.get o t = Some cols -> cols <> [] ->
  forall (ms : list Regex.found) (e : Obj.t Sql.tableAcc) (n : nat),
    Forall2 readsInsert ms (insertsOf ss) ->
    holdsRows t cols e n ->
    exists e',
      fold_left
        (fun acc m =>
           match acc with
           | Some extractedTables => Sql.addInsert (Sql.Schemas o None) extractedTables m
           | None => None
           end)
        ms (Some e)
      = Some e'
      /\ holdsRows t cols e' (n + tuplesInto ss t).
Proof.
  intros Hall Hcols Hne. induction ss as [|s ss IH]; intros ms e n HF Hinv.
  - cbn [insertsOf flat_map] in HF. inversion HF; subst.
    exists e. split; [reflexivity|]. change (tuplesInto [] t) with 0.
    now rewrite Nat.add_0_r.
  - cbn [forallb] in Hall. apply andb_true_iff in Hall as [Hs Hall].
    rewrite tuplesInto_cons.
    destruct s as [c|i]; cbn [insertsOf flat_map app okStatement] in *.
    + destruct (IH Hall ms e n HF Hinv) as (e' & Ef & He'). exists e'. split; [exact Ef|].
      exact He'.
    + inversion HF as [|m i0 ms' is0 Hm HF']; subst. cbn [fold_left].
      destruct (Str.eqb (tableKey (i_name i)) t) eqn:Ek.
      * apply str_eqb_true in Ek.
        destruct (addInsert_target o e m i t cols n Hm Hs Ek Hcols Hne Hinv) as (e1 & E1 & H1).
        rewrite E1.
        destruct (IH Hall ms' e1 _ HF' H1) as (e' & Ef & He').
        exists e'. split; [exact Ef|]. now rewrite Nat.add_assoc.
      * apply str_eqb_false in Ek.
        destruct (addInsert_other o e m i t cols n Hm Hs Ek Hinv) as (e1 & E1 & H1).
        rewrite E1.
        destruct (IH Hall ms' e1 _ HF' H1) as (e' & Ef & He').
        exists e'. split; [exact Ef|]. exact He'.
Qed.

(** *** The tables of a dump *)

Lemma get_fold_other (A B : Type) (key : B -> jstr) (val : B -> A) (l : list B)
    (init : Obj.t A) (k : jstr) :
  ~ In k (map key l) ->
  Obj.get (fold_left (fun o b => Obj.set (key b) (val b) o) l init) k = Obj.get init k.
Proof.
  revert init. induction l as [|b l IH]; intros init Hk; [reflexivity|].
  cbn [fold_left]. rewrite IH by (intros H; apply Hk; now right).
  apply get_set_other. intros E. apply Hk. now left.
Qed.

Lemma get_fold_key (A B : Type) (key : B -> jstr) (val : B -> A) (l : list B)
    (init : Obj.t A) (b : B) :
  NoDup (map key l) -> In b l ->
  Obj.get (fold_left (fun o b => Obj.set (key b) (val b) o) l init) (key b)
  = Some (val b).
Proof.
  revert init. induction l as [|b0 l IH]; intros init Hnd Hin; [destruct Hin|].
  cbn [map] in Hnd. inversion Hnd as [|? ? Hnot Hnd']; subst.
  cbn [fold_left]. destruct Hin as [->|Hin].
  - rewrite get_fold_other by exact Hnot. apply get_set_same.
  - now apply IH.
Qed.

Lemma get_tables (e : Obj.t Sql.tableAcc) (t : jstr) (acc : Sql.tableAcc) :
  NoDup (map fst e) -> Obj.get e t = Some acc ->
  Obj.get (fold_left (fun res en => Obj.set (fst en) (Sql.renumber (Sql.rows (snd en))) res)
                     (Obj.entries e) (Obj.empty _)) t
  = Some (Sql.renumber (Sql.rows acc)).
Proof.
  intros Hnd Hget.
  pose proof (entries_perm _ e) as Hp.
  assert (Hin : In (t, acc) (Obj.entries e)).
  { apply (Permutation_in _ (Permutation_sym Hp)). now apply get_Some_In. }
  assert (Hnd' : NoDup (map fst (Obj.entries e))).
  { apply (Permutation_NoDup (Permutation_map fst (Permutation_sym Hp)) Hnd). }
  exact (get_fold_key _ _ fst (fun en => Sql.renumber (Sql.rows (snd en)))
           (Obj.entries e) (Obj.empty _) (t, acc) Hnd' Hin).
Qed.

Lemma declared_nonempty (ss : list statement) (t : jstr) (cols : list jstr) :
  forallb okStatement ss = true ->
  forall acc,
    fold_left
      (fun acc s =>
         match s with
         | CreateTable c =>
             if Str.eqb (tableKey (c_name c)) t
             then Some (map columnName (c_columns c))
             else acc
         | InsertInto _ => acc
         end)
      ss acc = Some cols ->
    (acc = Some cols \/ cols <> []).
Proof.
  induction ss as [|s ss IH]; intros Hall acc H; [now left|].
  cbn [forallb] in Hall. apply andb_true_iff in Hall as [Hs Hall].
  cbn [fold_left] in H. destruct (IH Hall _ H) as [E|E]; [|now right].
  destruct s as [c|i]; [|now left].
  destruct (Str.eqb (tableKey (c_name c)) t); [|now left].
  right. inversion E; subst. cbn [okStatement] in Hs.
  destruct (okCreate_facts c Hs) as (_ & Hne & _).
  destruct (c_columns c); [congruence | discriminate].
Qed.



(* ===================================================================== *)
(** * Further properties of the engine *)
(* ===================================================================== *)

(** ** Numbers printed and read back *)

Local Open Scope Z_scope.

Lemma digitChar_ok (d : Z) :
  0 <= d < 10 ->
  Str.isDigit (Num.digitChar d) = true /\ Num.digitVal (Num.digitChar d) = d.
Proof.
  intros H.
  assert (C : d = 0 \/ d = 1 \/ d = 2 \/ d = 3 \/ d = 4 \/ d = 5 \/ d = 6
              \/ d = 7 \/ d = 8 \/ d = 9) by lia.
  repeat (destruct C as [-> | C]; [split; reflexivity |]).
  subst. split; reflexivity.
Qed.

Lemma digitsToZ_snoc (ds : jstr) (c : ascii) :
  Num.digitsToZ (ds ++ [c]) = 10 * Num.digitsToZ ds + Num.digitVal c.
Proof. unfold Num.digitsToZ. now rewrite fold_left_app. Qed.

Lemma digits_go_spec (f : nat) (n : Z) (acc : jstr) :
  0 <= n < 2 ^ Z.of_nat (S f) ->
  exists ds,
    Num.digits_go (S f) n acc = ds ++ acc
    /\ forallb Str.isDigit ds = true
    /\ ds <> []
    /\ Num.digitsToZ ds = n.
Proof.
  revert n acc. induction f as [|f IH]; intros n acc Hn.
  - change (2 ^ Z.of_nat 1) with 2 in Hn.
    assert (Hm : n mod 10 = n) by (apply Z.mod_small; lia).
    destruct (digitChar_ok n) as [Hd Hv]; [lia|].
    exists [Num.digitChar n]. cbn [Num.digits_go]. rewrite Hm.
    replace (n <? 10) with true by (symmetry; apply Z.ltb_lt; lia).
    repeat split.
    + cbn [forallb]. now rewrite Hd.
    + discriminate.
    + unfold Num.digitsToZ. cbn [fold_left]. rewrite Hv. lia.
  - assert (Hr : 0 <= n mod 10 < 10) by (apply Z.mod_pos_bound; lia).
    destruct (digitChar_ok (n mod 10) Hr) as [Hd Hv].
    change (Num.digits_go (S (S f)) n acc)
      with (if n <? 10 then Num.digitChar (n mod 10) :: acc
            else Num.digits_go (S f) (n / 10) (Num.digitChar (n mod 10) :: acc)).
    destruct (n <? 10) eqn:Hlt.
    + apply Z.ltb_lt in Hlt.
      exists [Num.digitChar (n mod 10)]. repeat split.
      * cbn [forallb]. now rewrite Hd.
      * discriminate.
      * unfold Num.digitsToZ. cbn [fold_left]. rewrite Hv. rewrite Z.mod_small; lia.
    + apply Z.ltb_ge in Hlt.
      destruct (IH (n / 10) (Num.digitChar (n mod 10) :: acc))
        as (ds & He & Hall & Hne & Hval).
      { split; [apply Z.div_pos; lia|].
        apply Z.div_lt_upper_bound; [lia|].
        rewrite Nat2Z.inj_succ, Z.pow_succ_r in Hn by lia. lia. }
      exists (ds ++ [Num.digitChar (n mod 10)]). repeat split.
      * rewrite He, <- app_assoc. reflexivity.
      * rewrite forallb_app, Hall. cbn [forallb andb]. now rewrite Hd.
      * destruct ds; discriminate.
      * rewrite digitsToZ_snoc, Hval, Hv. symmetry. apply Z.div_mod. lia.
Qed.

Lemma digitsOf_spec (n : Z) :
  0 <= n ->
  forallb Str.isDigit (Num.digitsOf n) = true
  /\ Num.digitsOf n <> []
  /\ Num.digitsToZ (Num.digitsOf n) = n.
Proof.
  intros Hn. unfold Num.digitsOf.
  destruct (digits_go_spec (Z.to_nat (Z.log2 n)) n []) as (ds & He & Hall & Hne & Hval).
  { split; [exact Hn|].
    rewrite Nat2Z.inj_succ, Z2Nat.id by apply Z.log2_nonneg.
    destruct (Z.eq_dec n 0) as [->|Hz]; [reflexivity|].
    apply Z.log2_spec. lia. }
  rewrite He, app_nil_r. auto.
Qed.

Lemma digitsToZ_app (a b : jstr) :
  Num.digitsToZ (a ++ b)
  = Num.digitsToZ a * 10 ^ Z.of_nat (length b) + Num.digitsToZ b.
Proof.
  induction b as [|c b IH] using rev_ind.
  - rewrite app_nil_r. change (Num.digitsToZ []) with 0.
    change (Z.of_nat (length (@nil ascii))) with 0. lia.
  - rewrite app_assoc, !digitsToZ_snoc, IH, length_app. cbn [length].
    rewrite Nat2Z.inj_add, Z.pow_add_r by lia. change (10 ^ Z.of_nat 1) with 10. lia.
Qed.

Lemma zeros_spec (n : Z) :
  forallb Str.isDigit (Num.zeros n) = true
  /\ Num.digitsToZ (Num.zeros n) = 0
  /\ length (Num.zeros n) = Z.to_nat n.
Proof.
  unfold Num.zeros. induction (Z.to_nat n) as [|k IH].
  - repeat split.
  - destruct IH as (H1 & H2 & H3). repeat split.
    + simpl. exact H1.
    + change (repeat "0"%char (S k)) with ([ "0"%char ] ++ repeat "0"%char k).
      rewrite digitsToZ_app, H2. reflexivity.
    + simpl. now rewrite H3.
Qed.

Lemma span_app (p : ascii -> bool) (ds rest : jstr) :
  forallb p ds = true -> stops p rest = true ->
  Num.span p (ds ++ rest) = (ds, rest).
Proof.
  intros Hd Hr. induction ds as [|c ds IH].
  - destruct rest as [|x rest]; [reflexivity|]. simpl in *.
    apply negb_true_iff in Hr. now rewrite Hr.
  - simpl in *. apply andb_true_iff in Hd as [Hc Hd]. now rewrite Hc, (IH Hd).
Qed.

(** A digit is none of the characters that open a sign, the word
    Infinity, a fraction or an exponent. *)
Lemma digit_plain (c : ascii) :
  Str.isDigit c = true ->
  Str.eqc c "-" = false /\ Str.eqc c "+" = false /\ Str.eqc c "I" = false
  /\ Str.eqc c "." = false /\ Str.isSpace c = false.
Proof.
  destruct c as [[] [] [] [] [] [] [] []]; vm_compute; intros H;
    try discriminate H; repeat split.
Qed.

Lemma takeSign_digits (neg : bool) (c : ascii) (s : jstr) :
  Str.isDigit c = true ->
  Num.takeSign ((if neg then str "-" else []) ++ c :: s) = (neg, c :: s).
Proof.
  intros Hc. destruct neg; [reflexivity|].
  destruct (digit_plain c Hc) as (Hm & Hp & _).
  cbn [app]. unfold Num.takeSign.
  destruct c as [[] [] [] [] [] [] [] []]; try reflexivity; discriminate.
Qed.

Lemma normalize_exact (m e : Z) : m mod 10 <> 0 -> Num.normalize m e = Num.Dec m e.
Proof.
  intros Hm. unfold Num.normalize.
  assert (Hz : m <> 0) by (intros ->; apply Hm; reflexivity).
  apply Z.eqb_neq in Hz. rewrite Hz.
  apply Z.eqb_neq in Hm.
  destruct (Z.to_nat (Z.log2 (Z.abs m))); cbn [Num.strip10]; [reflexivity|].
  now rewrite Hm.
Qed.

Lemma normalize_shift (m x : Z) :
  m mod 10 <> 0 -> 0 <= x -> Num.normalize (m * 10 ^ x) 0 = Num.Dec m x.
Proof.
  intros Hm Hx.
  destruct (normalize_val (m * 10 ^ x) 0 0) as [Hv He]; [lia | lia |].
  apply (norm_unique 0).
  - apply normalize_norm.
  - right. exact Hm.
  - exact He.
  - exact Hx.
  - rewrite Hv. unfold valZ. cbn [Num.mant Num.expo].
    rewrite !Z.sub_0_r. change (10 ^ 0) with 1. lia.
Qed.

Lemma takeExponent_nil : Num.takeExponent [] = (0, []).
Proof. reflexivity. Qed.

Lemma takeExponent_form (neg : bool) (eds : jstr) :
  forallb Str.isDigit eds = true -> eds <> [] ->
  Num.takeExponent ("e"%char :: (if neg then "-"%char else "+"%char) :: eds)
  = ((if neg then - Num.digitsToZ eds else Num.digitsToZ eds), []).
Proof.
  intros Hd Hne. unfold Num.takeExponent.
  change (Str.eqc "e" "e" || Str.eqc "e" "E") with true. cbv iota.
  assert (Hs : Num.takeSign ((if neg then "-"%char else "+"%char) :: eds) = (neg, eds))
    by (destruct neg; reflexivity).
  rewrite Hs. rewrite <- (app_nil_r eds) at 1.
  rewrite (span_app Str.isDigit eds [] Hd eq_refl).
  destruct eds; [congruence | reflexivity].
Qed.

Lemma infinity_digit (c : ascii) (s : jstr) :
  Str.isDigit c = true -> Str.startsWith (str "Infinity") (c :: s) = false.
Proof.
  intros Hc. destruct (digit_plain c Hc) as (_ & _ & Hi & _).
  cbn [str list_ascii_of_string Str.startsWith].
  unfold Str.eqc in *. now rewrite Ascii.eqb_sym, Hi.
Qed.

(** A numeral without fraction: sign, digits, and what follows. *)
Lemma decimalPrefix_int (neg : bool) (ip etail : jstr) :
  ip <> [] -> forallb Str.isDigit ip = true ->
  stops (fun c => Str.isDigit c || Str.eqc c ".") etail = true ->
  Num.decimalPrefix ((if neg then str "-" else []) ++ ip ++ etail)
  = let '(ex, s3) := Num.takeExponent etail in
    Some (Num.Fin (Num.normalize
                     (if neg then - Num.digitsToZ ip else Num.digitsToZ ip)
                     (ex - 0)), s3).
Proof.
  intros Hne Hd Hst.
  destruct ip as [|c ip']; [congruence|].
  assert (Hc : Str.isDigit c = true) by (cbn [forallb] in Hd; now apply andb_true_iff in Hd).
  unfold Num.decimalPrefix.
  change ((c :: ip') ++ etail) with (c :: ip' ++ etail) at 1.
  rewrite (takeSign_digits neg c (ip' ++ etail) Hc).
  rewrite (infinity_digit c _ Hc).
  change (c :: ip' ++ etail) with ((c :: ip') ++ etail).
  assert (Hst1 : stops Str.isDigit etail = true).
  { destruct etail as [|x r]; [reflexivity|]. cbn [stops] in *.
    apply negb_true_iff in Hst. apply orb_false_iff in Hst as [H _].
    now rewrite H. }
  rewrite (span_app Str.isDigit (c :: ip') etail Hd Hst1).
  assert (Hnodot : match etail with
                   | "."%char :: _ => False
                   | _ => True
                   end).
  { destruct etail as [|x r]; [exact I|]. cbn [stops] in Hst.
    apply negb_true_iff in Hst. apply orb_false_iff in Hst as [_ H].
    destruct x as [[] [] [] [] [] [] [] []]; try exact I. discriminate H. }
  assert (Hfp : match etail with
                | "."%char :: s1' =>
                    let '(fp, s2) := Num.span Str.isDigit s1' in
                    match c :: ip', fp with
                    | [], [] => ([], etail)
                    | _, _ => (fp, s2)
                    end
                | _ => ([], etail)
                end = (@nil ascii, etail)).
  { destruct etail as [|x r]; [reflexivity|].
    destruct x as [[] [] [] [] [] [] [] []]; try reflexivity. destruct Hnodot. }
  rewrite Hfp. rewrite app_nil_r. cbv iota.
  destruct (Num.takeExponent etail) as [ex s3]. reflexivity.
Qed.

(** A numeral with a fraction. *)
Lemma decimalPrefix_frac (neg : bool) (ip fp etail : jstr) :
  ip <> [] -> forallb Str.isDigit ip = true -> forallb Str.isDigit fp = true ->
  stops Str.isDigit etail = true ->
  Num.decimalPrefix ((if neg then str "-" else []) ++ ip ++ "."%char :: fp ++ etail)
  = let '(ex, s3) := Num.takeExponent etail in
    Some (Num.Fin (Num.normalize
                     (if neg then - Num.digitsToZ (ip ++ fp) else Num.digitsToZ (ip ++ fp))
                     (ex - Z.of_nat (length fp))), s3).
Proof.
  intros Hne Hd Hf Hst.
  destruct ip as [|c ip']; [congruence|].
  assert (Hc : Str.isDigit c = true) by (cbn [forallb] in Hd; now apply andb_true_iff in Hd).
  unfold Num.decimalPrefix.
  change ((c :: ip') ++ "."%char :: fp ++ etail)
    with (c :: ip' ++ "."%char :: fp ++ etail) at 1.
  rewrite (takeSign_digits neg c _ Hc).
  rewrite (infinity_digit c _ Hc).
  change (c :: ip' ++ "."%char :: fp ++ etail)
    with ((c :: ip') ++ "."%char :: fp ++ etail).
  rewrite (span_app Str.isDigit (c :: ip') ("."%char :: fp ++ etail) Hd eq_refl).
  rewrite (span_app Str.isDigit fp etail Hf Hst).
  cbv iota.
  change ((c :: ip') ++ fp) with (c :: ip' ++ fp).
  destruct (Num.takeExponent etail) as [ex s3]. reflexivity.
Qed.

Lemma forallb_digits_firstn (n : nat) (s : jstr) :
  forallb Str.isDigit s = true ->
  forallb Str.isDigit (firstn n s) = true /\ forallb Str.isDigit (skipn n s) = true.
Proof.
  intros H. rewrite <- (firstn_skipn n s), forallb_app in H.
  now apply andb_true_iff in H.
Qed.

(** What [decimalPrefix] reads in the text printed for a non-zero
    decimal in normal form. *)
Lemma printed_nonzero (m e : Z) :
  m mod 10 <> 0 ->
  Num.decimalPrefix (Num.decToString (Num.Dec m e)) = Some (Num.Fin (Num.Dec m e), []).
Proof.
  intros Hm.
  assert (Hz : m <> 0) by (intros ->; apply Hm; reflexivity).
  unfold Num.decToString. cbn [Num.mant Num.expo].
  rewrite (proj2 (Z.eqb_neq _ _) Hz). cbv zeta.
  destruct (digitsOf_spec (Z.abs m)) as (Hall & Hne & Hval); [lia|].
  set (s := Num.digitsOf (Z.abs m)) in *.
  set (k := Z.of_nat (length s)).
  assert (Hk : 0 < k) by (destruct s; [congruence | unfold k; cbn [length]; lia]).
  assert (Hsg : forall z, z = Z.abs m -> (if m <? 0 then - z else z) = m).
  { intros z ->. destruct (m <? 0) eqn:E;
      [apply Z.ltb_lt in E | apply Z.ltb_ge in E]; lia. }
  destruct ((k <=? k + e) && (k + e <=? 21)) eqn:HA.
  - (* digits followed by zeros *)
    apply andb_true_iff in HA as [H1 H2]. apply Z.leb_le in H1.
    replace (k + e - k) with e by lia.
    destruct (zeros_spec e) as (Z1 & Z2 & Z3).
    assert (Hip : forallb Str.isDigit (s ++ Num.zeros e) = true)
      by (now rewrite forallb_app, Hall, Z1).
    pose proof (decimalPrefix_int (m <? 0) (s ++ Num.zeros e) []
                  ltac:(destruct s; [congruence | discriminate]) Hip eq_refl) as P.
    rewrite app_nil_r in P. rewrite P, takeExponent_nil. cbv iota.
    rewrite digitsToZ_app, Z2, Z3, Hval, Z2Nat.id by lia.
    replace (if m <? 0 then - (Z.abs m * 10 ^ e + 0) else Z.abs m * 10 ^ e + 0)
      with (m * 10 ^ e).
    2:{ destruct (m <? 0) eqn:E; [apply Z.ltb_lt in E | apply Z.ltb_ge in E]; lia. }
    change (0 - 0) with 0. now rewrite normalize_shift by lia.
  - destruct ((0 <? k + e) && (k + e <=? 21)) eqn:HB.
    + (* a point inside the digits *)
      apply andb_true_iff in HB as [H1 H2].
      apply Z.ltb_lt in H1. apply Z.leb_le in H2.
      apply andb_false_iff in HA.
      assert (He : e < 0).
      { destruct HA as [HA|HA]; [apply Z.leb_gt in HA | apply Z.leb_gt in HA]; lia. }
      set (n := Z.to_nat (k + e)).
      destruct (forallb_digits_firstn n s Hall) as [Hf Hs].
      assert (Hlen : length (skipn n s) = (length s - n)%nat) by apply length_skipn.
      assert (Hnz : firstn n s <> []).
      { destruct s as [|c s']; [congruence|].
        destruct n eqn:En; [unfold n in En; lia | discriminate]. }
      pose proof (decimalPrefix_frac (m <? 0) (firstn n s) (skipn n s) []
                    Hnz Hf Hs eq_refl) as P.
      rewrite app_nil_r in P.
      cbn [str list_ascii_of_string app] in P |- *.
      rewrite P, takeExponent_nil. cbv iota.
      rewrite firstn_skipn, (Hsg _ Hval), Hlen.
      replace (0 - Z.of_nat (length s - n)) with e by (unfold n, k in *; lia).
      now rewrite normalize_exact.
    + destruct ((-6 <? k + e) && (k + e <=? 0)) eqn:HC.
      * (* zero, point, zeros, digits *)
        apply andb_true_iff in HC as [H1 H2].
        apply Z.ltb_lt in H1. apply Z.leb_le in H2.
        destruct (zeros_spec (- (k + e))) as (Z1 & Z2 & Z3).
        assert (Hfp : forallb Str.isDigit (Num.zeros (- (k + e)) ++ s) = true)
          by (now rewrite forallb_app, Hall, Z1).
        pose proof (decimalPrefix_frac (m <? 0) (str "0") (Num.zeros (- (k + e)) ++ s) []
                      ltac:(discriminate) eq_refl Hfp eq_refl) as P.
        rewrite app_nil_r in P.
        cbn [str list_ascii_of_string app] in P |- *.
        rewrite P, takeExponent_nil. cbv iota.
        change ("0"%char :: Num.zeros (- (k + e)) ++ s)
          with ([ "0"%char ] ++ Num.zeros (- (k + e)) ++ s).
        rewrite !digitsToZ_app, Z2, Hval, length_app, Z3.
        change (Num.digitsToZ ["0"%char]) with 0.
        replace (if m <? 0
                 then - (0 * 10 ^ Z.of_nat (Z.to_nat (- (k + e)) + length s)
                         + (0 * 10 ^ Z.of_nat (length s) + Z.abs m))
                 else 0 * 10 ^ Z.of_nat (Z.to_nat (- (k + e)) + length s)
                      + (0 * 10 ^ Z.of_nat (length s) + Z.abs m))
          with m by (rewrite !Z.mul_0_l, !Z.add_0_l; symmetry; now apply Hsg).
        replace (0 - Z.of_nat (Z.to_nat (- (k + e)) + length s)) with e
          by (unfold k in *; lia).
        now rewrite normalize_exact.
      * (* exponent form *)
        assert (Hn : k + e - 1 <> 0).
        { apply andb_false_iff in HB. apply andb_false_iff in HC.
          intros E. destruct HB as [HB|HB], HC as [HC|HC];
            try apply Z.ltb_ge in HB; try apply Z.leb_gt in HB;
            try apply Z.ltb_ge in HC; try apply Z.leb_gt in HC; lia. }
        destruct (digitsOf_spec (Z.abs (k + e - 1))) as (Eall & Ene & Eval); [lia|].
        set (eds := Num.digitsOf (Z.abs (k + e - 1))) in *.
        assert (Hex : (if k + e - 1 <? 0 then - Num.digitsToZ eds else Num.digitsToZ eds)
                      = k + e - 1).
        { rewrite Eval. destruct (k + e - 1 <? 0) eqn:E;
            [apply Z.ltb_lt in E | apply Z.ltb_ge in E]; lia. }
        assert (Hsign : str "e" ++ (if k + e - 1 <? 0 then str "-" else str "+") ++ eds
                        = "e"%char :: (if k + e - 1 <? 0 then "-"%char else "+"%char) :: eds)
          by (destruct (k + e - 1 <? 0); reflexivity).
        rewrite Hsign.
        pose proof (takeExponent_form (k + e - 1 <? 0) eds Eall Ene) as TE.
        rewrite Hex in TE.
        destruct s as [|c t] eqn:Es; [congruence|].
        cbn [firstn tl].
        assert (Hc : forallb Str.isDigit [c] = true /\ forallb Str.isDigit t = true).
        { cbn [forallb] in Hall |- *. apply andb_true_iff in Hall as [Hc Ht].
          now rewrite Hc, Ht. }
        destruct Hc as [Hc Ht].
        destruct t as [|c2 t'] eqn:Et.
        -- pose proof (decimalPrefix_int (m <? 0) [c]
                         ("e"%char :: (if k + e - 1 <? 0 then "-"%char else "+"%char) :: eds)
                         ltac:(discriminate) Hc eq_refl) as P.
           cbn [str list_ascii_of_string app] in P |- *. rewrite P, TE.
           rewrite (Hsg _ Hval).
           replace (k + e - 1 - 0) with e by (unfold k; cbn [length]; lia).
           now rewrite normalize_exact.
        -- pose proof (decimalPrefix_frac (m <? 0) [c] (c2 :: t')
                         ("e"%char :: (if k + e - 1 <? 0 then "-"%char else "+"%char) :: eds)
                         ltac:(discriminate) Hc Ht eq_refl) as P.
           cbn [str list_ascii_of_string app] in P |- *. rewrite P, TE.
           change (c :: c2 :: t') with ([c] ++ c2 :: t') in Hval.
           cbn [app] in Hval.
           rewrite (Hsg _ Hval).
           replace (k + e - 1 - Z.of_nat (length (c2 :: t'))) with e
             by (unfold k; cbn [length]; lia).
           now rewrite normalize_exact.
Qed.

Lemma numChar_plain (c : ascii) :
  numChar c = true ->
  Str.isSpace c = false
  /\ Str.eqc apos c = false /\ Str.eqc dquote c = false
  /\ Str.eqc (Str.toUpperChar c) "N" = false
  /\ (Str.eqc c "x" || Str.eqc c "X") = false
  /\ (Str.eqc c "o" || Str.eqc c "O") = false
  /\ (Str.eqc c "b" || Str.eqc c "B") = false.
Proof.
  destruct c as [[] [] [] [] [] [] [] []]; vm_compute; intros H;
    try discriminate H; repeat split.
Qed.

Lemma digits_numChar (l : jstr) :
  forallb Str.isDigit l = true -> forallb numChar l = true.
Proof.
  induction l as [|c l IH]; [reflexivity|]. cbn [forallb]. intros H.
  apply andb_true_iff in H as [Hc Hl]. rewrite (IH Hl), andb_true_r.
  unfold numChar. now rewrite Hc.
Qed.

Lemma trim_nospace (t : jstr) :
  forallb (fun c => negb (Str.isSpace c)) t = true -> Str.trim t = t.
Proof.
  intros H.
  assert (Hs : forall u, forallb (fun c => negb (Str.isSpace c)) u = true ->
                         Str.trimStart u = u).
  { intros [|x u] Hu; [reflexivity|]. cbn [forallb] in Hu.
    apply andb_true_iff in Hu as [Hx _]. apply negb_true_iff in Hx.
    cbn [Str.trimStart]. now rewrite Hx. }
  unfold Str.trim, Str.trimEnd. rewrite (Hs t H), Hs.
  - apply rev_involutive.
  - rewrite forallb_forall in *. intros x Hx. apply H. now apply in_rev.
Qed.

Lemma toNumber_plain (t : jstr) :
  Str.trim t = t -> t <> [] ->
  (forall c ds, t = "0"%char :: c :: ds -> numChar c = true) ->
  Num.toNumber t
  = match Num.decimalPrefix t with
    | Some (n, []) => n
    | _ => Num.NaN
    end.
Proof.
  intros Ht Hne H0. unfold Num.toNumber. rewrite Ht.
  destruct t as [|x r]; [congruence|].
  destruct (ascii_dec x "0") as [->|Hx].
  - destruct r as [|c ds]; [reflexivity|].
    destruct (numChar_plain c (H0 c ds eq_refl)) as (_ & _ & _ & _ & Hx & Ho & Hb).
    now rewrite Hx, Ho, Hb.
  - destruct x as [[] [] [] [] [] [] [] []]; try reflexivity.
    destruct r; [reflexivity | congruence].
Qed.

(** A text of number characters that reads as a finite number in full is
    decoded to that number. *)
Lemma decode_numeral (t : jstr) (d : Num.dec) :
  forallb numChar t = true ->
  Num.decimalPrefix t = Some (Num.Fin d, []) ->
  decodeValue t = VNum (Num.Fin d).
Proof.
  intros Hc Hp.
  assert (Hne : t <> []) by (intros ->; discriminate Hp).
  assert (Hsp : forallb (fun c => negb (Str.isSpace c)) t = true).
  { rewrite forallb_forall in *. intros x Hx.
    destruct (numChar_plain x (Hc x Hx)) as (H & _). now rewrite H. }
  assert (Ht : Str.trim t = t) by now apply trim_nospace.
  assert (Hts : Str.trimStart t = t).
  { destruct t as [|x r]; [reflexivity|]. cbn [forallb] in Hsp.
    apply andb_true_iff in Hsp as [Hx _]. apply negb_true_iff in Hx.
    cbn [Str.trimStart]. now rewrite Hx. }
  unfold decodeValue. rewrite Ht.
  destruct t as [|x r]; [congruence|].
  assert (Hx : numChar x = true) by (cbn [forallb] in Hc; now apply andb_true_iff in Hc).
  destruct (numChar_plain x Hx) as (_ & Ha & Hq & Hn & _).
  cbn [Str.startsWith]. rewrite Ha, Hq. cbn [andb orb].
  assert (Hnull : Str.eqb (Str.toUpperCase (x :: r)) (str "NULL") = false).
  { cbn [Str.toUpperCase map str list_ascii_of_string Str.eqb]. now rewrite Hn. }
  rewrite Hnull.
  unfold Num.parseFloat, Num.isFiniteStr. rewrite Hts, Hp.
  rewrite toNumber_plain, Hp; [reflexivity | exact Ht | exact Hne |].
  intros c ds E. inversion E; subst. cbn [forallb] in Hc.
  apply andb_true_iff in Hc as [_ Hc]. now apply andb_true_iff in Hc.
Qed.

Lemma printed_chars (m e : Z) :
  forallb numChar (Num.decToString (Num.Dec m e)) = true.
Proof.
  unfold Num.decToString. cbn [Num.mant Num.expo].
  destruct (m =? 0); [reflexivity|]. cbv zeta.
  destruct (digitsOf_spec (Z.abs m)) as (Hall & _); [lia|].
  set (s := Num.digitsOf (Z.abs m)) in *.
  set (k := Z.of_nat (length s)).
  destruct (digitsOf_spec (Z.abs (k + e - 1))) as (Eall & _); [lia|].
  assert (Z1 : forall z, forallb numChar (Num.zeros z) = true)
    by (intros z; apply digits_numChar, zeros_spec).
  assert (F : forall n, forallb numChar (firstn n s) = true
                        /\ forallb numChar (skipn n s) = true).
  { intros n. destruct (forallb_digits_firstn n s Hall).
    split; now apply digits_numChar. }
  assert (T : forallb numChar (tl s) = true).
  { apply digits_numChar. destruct s as [|c t]; [reflexivity|].
    cbn [forallb tl] in *. now apply andb_true_iff in Hall. }
  apply digits_numChar in Hall, Eall.
  rewrite forallb_app. apply andb_true_iff. split.
  { destruct (m <? 0); reflexivity. }
  destruct ((k <=? k + e) && (k + e <=? 21)).
  { now rewrite forallb_app, Hall, Z1. }
  destruct ((0 <? k + e) && (k + e <=? 21)).
  { rewrite !forallb_app. destruct (F (Z.to_nat (k + e))) as [-> ->]. reflexivity. }
  destruct ((-6 <? k + e) && (k + e <=? 0)).
  { rewrite !forallb_app, Z1, Hall. reflexivity. }
  rewrite !forallb_app. destruct (F 1%nat) as [-> _].
  rewrite Eall.
  destruct (tl s) as [|a l].
  - destruct (k + e - 1 <? 0); reflexivity.
  - rewrite forallb_app, T. destruct (k + e - 1 <? 0); reflexivity.
Qed.

(** A finite number printed and decoded is the number. *)
Lemma decode_printed (d : Num.dec) :
  isNorm d -> decodeValue (Num.toString (Num.Fin d)) = VNum (Num.Fin d).
Proof.
  intros Hn. destruct d as [m e]. cbn [Num.toString].
  destruct Hn as [[Hm He]|Hm]; cbn [Num.mant Num.expo] in *.
  - subst. vm_compute. reflexivity.
  - apply decode_numeral; [apply printed_chars | now apply printed_nonzero].
Qed.

Local Close Scope Z_scope.

(** X1. A finite number cell survives the export and the decoder: the
    text [exportCSV] prints for it is decoded to the same number.  (Every
    number the engine makes is in normal form.) *)
Theorem number_cell_round_trip (d : Num.dec) :
  isNorm d ->
  decodeValue (exportField (VNum (Num.Fin d))) = VNum (Num.Fin d).
Proof. intros Hd. cbn [exportField]. now apply decode_printed. Qed.

Lemma number_cell_round_trip_witness :
  decodeValue (exportField (VNum (Num.Fin (Num.Dec (-125) (-1)))))
  = VNum (Num.Fin (Num.Dec (-125) (-1))).
Proof.
  apply (number_cell_round_trip (Num.Dec (-125) (-1))).
  right. vm_compute. discriminate.
Defined.

(** ** The decoder and the tuple scanner *)

(** X2. A quoted literal is decoded to a string, whatever its content
    looks like: the text between the quotes, which is the content itself
    when it holds no backslash. *)
Theorem quoted_literal_decodes (q : ascii) (body : jstr) :
  q = apos \/ q = dquote ->
  (exists s, decodeValue (q :: body ++ [q]) = VStr s)
  /\ (noChar backslash body = true -> decodeValue (q :: body ++ [q]) = VStr body).
Proof.
  intros Hq.
  assert (Hsp : Str.isSpace q = false) by (destruct Hq as [->| ->]; reflexivity).
  assert (Hcond : (Str.startsWith [apos] (q :: body ++ [q])
                   && Str.endsWith [apos] (q :: body ++ [q]))
                  || (Str.startsWith [dquote] (q :: body ++ [q])
                      && Str.endsWith [dquote] (q :: body ++ [q])) = true).
  { destruct Hq as [->| ->].
    - cbn [Str.startsWith]. rewrite eqc_refl, endsWith_wrapped. reflexivity.
    - cbn [Str.startsWith]. rewrite eqc_refl, endsWith_wrapped.
      change (Str.eqc apos dquote) with false. reflexivity. }
  unfold decodeValue. rewrite (trim_wrapped q body Hsp), Hcond, slice_wrapped.
  split; [eexists; reflexivity|].
  intros Hb.
  now rewrite (replaceAll_absent backslash [apos] [apos] body Hb),
              (replaceAll_absent backslash [dquote] [dquote] body Hb).
Qed.

Lemma quoted_literal_decodes_witness :
  (exists s, decodeValue (apos :: str "NULL" ++ [apos]) = VStr s)
  /\ (noChar backslash (str "NULL") = true ->
      decodeValue (apos :: str "NULL" ++ [apos]) = VStr (str "NULL")).
Proof. apply (quoted_literal_decodes apos (str "NULL")). left. reflexivity. Defined.

(** *** The scanner on text outside and inside quotes *)

Lemma lastOr_snoc (prev : option ascii) (p : jstr) (c : ascii) :
  lastOr prev (p ++ [c]) = Some c.
Proof. unfold lastOr. now rewrite rev_app_distr. Qed.

Lemma lastOr_cons (prev : option ascii) (c : ascii) (p : jstr) :
  lastOr prev (c :: p) = lastOr (Some c) p.
Proof.
  unfold lastOr. cbn [rev]. destruct (rev p) eqn:E; reflexivity.
Qed.

Lemma go_plain (p rest : jstr) (prev sc : option ascii) (cur : jstr) (vals : list jstr) :
  noChar comma p = true -> noChar apos p = true -> noChar dquote p = true ->
  splitTuple_go (p ++ rest) prev false sc cur vals
  = splitTuple_go rest (lastOr prev p) false sc (cur ++ p) vals.
Proof.
  revert prev cur. induction p as [|c p IH]; intros prev cur Hc Ha Hd.
  - now rewrite app_nil_r.
  - cbn [noChar forallb] in Hc, Ha, Hd.
    apply andb_true_iff in Hc as [Hc Hc']. apply andb_true_iff in Ha as [Ha Ha'].
    apply andb_true_iff in Hd as [Hd Hd'].
    apply negb_true_iff in Hc, Ha, Hd.
    cbn [app splitTuple_go]. rewrite Ha, Hd, Hc. cbn [negb andb orb].
    rewrite (IH (Some c) (cur ++ [c]) Hc' Ha' Hd'), <- app_assoc, lastOr_cons.
    reflexivity.
Qed.

Lemma go_body (q : ascii) (body rest : jstr) (prev : option ascii) (cur : jstr)
    (vals : list jstr) :
  noChar q body = true ->
  splitTuple_go (body ++ rest) prev true (Some q) cur vals
  = splitTuple_go rest (lastOr prev body) true (Some q) (cur ++ body) vals.
Proof.
  revert prev cur. induction body as [|c body IH]; intros prev cur Hq.
  - now rewrite app_nil_r.
  - cbn [noChar forallb] in Hq. apply andb_true_iff in Hq as [Hc Hq].
    apply negb_true_iff in Hc.
    cbn [app splitTuple_go]. rewrite Hc. cbn [negb andb orb].
    rewrite (IH (Some c) (cur ++ [c]) Hq), <- app_assoc, lastOr_cons.
    reflexivity.
Qed.

Lemma go_quoted (q : ascii) (body rest : jstr) (prev sc : option ascii) (cur : jstr)
    (vals : list jstr) :
  q = apos \/ q = dquote -> noChar q body = true -> noChar backslash body = true ->
  splitTuple_go (q :: body ++ q :: rest) prev false sc cur vals
  = splitTuple_go rest (Some q) false (Some q) (cur ++ q :: body ++ [q]) vals.
Proof.
  intros Hq Hn Hb.
  assert (Hopen : Str.eqc q apos || Str.eqc q dquote = true)
    by (destruct Hq as [->| ->]; reflexivity).
  assert (Hqb : Str.eqc q backslash = false)
    by (destruct Hq as [->| ->]; reflexivity).
  cbn [splitTuple_go]. rewrite Hopen. cbn [negb andb].
  rewrite (go_body q body (q :: rest) (Some q) (cur ++ [q]) vals Hn).
  cbn [splitTuple_go]. rewrite eqc_refl. cbn [negb andb orb].
  assert (Hprev : match lastOr (Some q) body with
                  | Some b => Str.eqc b backslash
                  | None => false
                  end = false).
  { unfold lastOr. destruct (rev body) as [|c r] eqn:E; [exact Hqb|].
    assert (Hin : In c body) by (apply in_rev; rewrite E; left; reflexivity).
    unfold noChar in Hb. rewrite forallb_forall in Hb.
    apply negb_true_iff. now apply Hb. }
  rewrite Hprev. cbn [negb].
  f_equal. rewrite <- !app_assoc. reflexivity.
Qed.

Lemma go_field (f : list segment) (rest : jstr) (prev sc : option ascii) (cur : jstr)
    (vals : list jstr) :
  Forall okSegment f ->
  exists prev' sc',
    splitTuple_go (fieldText f ++ rest) prev false sc cur vals
    = splitTuple_go rest prev' false sc' (cur ++ fieldText f) vals.
Proof.
  revert prev sc cur. induction f as [|g f IH]; intros prev sc cur Hok.
  - exists prev, sc. unfold fieldText. cbn [map concat app]. now rewrite app_nil_r.
  - inversion Hok as [|? ? Hg Hf]; subst.
    unfold fieldText. cbn [map concat]. fold (fieldText f).
    rewrite <- app_assoc.
    destruct g as [p|q body]; cbn [segText okSegment] in *.
    + destruct Hg as (Hc & Ha & Hd).
      rewrite (go_plain p _ prev sc cur vals Hc Ha Hd).
      destruct (IH (lastOr prev p) sc (cur ++ p) Hf) as (prev' & sc' & E).
      exists prev', sc'. rewrite E, <- app_assoc. reflexivity.
    + destruct Hg as (Hq & Hn & Hb).
      change ((q :: body ++ [q]) ++ fieldText f ++ rest)
        with (q :: (body ++ [q]) ++ fieldText f ++ rest).
      rewrite <- app_assoc. cbn [app].
      rewrite (go_quoted q body _ prev sc cur vals Hq Hn Hb).
      destruct (IH (Some q) (Some q) (cur ++ q :: body ++ [q]) Hf) as (prev' & sc' & E).
      exists prev', sc'. rewrite E, <- app_assoc. reflexivity.
Qed.

Lemma go_fields (f : list segment) (fs : list (list segment))
    (prev sc : option ascii) (cur : jstr) (vals : list jstr) :
  Forall okSegment f -> Forall (Forall okSegment) fs ->
  splitTuple_go (Str.join [comma] (map fieldText (f :: fs))) prev false sc cur vals
  = vals ++ Str.trim (cur ++ fieldText f)
            :: map (fun g => Str.trim (fieldText g)) fs.
Proof.
  revert f prev sc cur vals. induction fs as [|f2 fs IH]; intros f prev sc cur vals Hf Hfs.
  - cbn [map Str.join].
    destruct (go_field f [] prev sc cur vals Hf) as (prev' & sc' & E).
    rewrite app_nil_r in E. rewrite E. reflexivity.
  - inversion Hfs as [|? ? H2 Hrest]; subst.
    change (Str.join [comma] (map fieldText (f :: f2 :: fs)))
      with (fieldText f ++ [comma] ++ Str.join [comma] (map fieldText (f2 :: fs))).
    destruct (go_field f ([comma] ++ Str.join [comma] (map fieldText (f2 :: fs)))
                prev sc cur vals Hf) as (prev' & sc' & E).
    rewrite E. cbn [app splitTuple_go].
    change (Str.eqc comma apos || Str.eqc comma dquote) with false.
    rewrite eqc_refl. cbn [negb andb].
    rewrite (IH f2 (Some comma) sc' [] (vals ++ [Str.trim (cur ++ fieldText f)]) H2 Hrest).
    rewrite <- app_assoc. reflexivity.
Qed.

(** X3. The scanner is quote-aware on every tuple: when the fields are
    made of text without comma and quote and of closed literals without
    backslash, commas inside the literals do not split, and the fields
    come out one by one, trimmed. *)
Theorem splitTuple_fields (fs : list (list segment)) :
  fs <> [] -> Forall (Forall okSegment) fs ->
  splitTuple (Str.join [comma] (map fieldText fs))
  = map (fun f => Str.trim (fieldText f)) fs.
Proof.
  intros Hne Hok. destruct fs as [|f fs]; [congruence|].
  inversion Hok as [|? ? Hf Hfs]; subst.
  unfold splitTuple. rewrite (go_fields f fs None None [] [] Hf Hfs). reflexivity.
Qed.

Lemma splitTuple_fields_witness :
  splitTuple (Str.join [comma]
                (map fieldText [ [Quoted apos (str "a,b")]; [Plain (str " 2")];
                                 [Plain (str " NULL")] ]))
  = map (fun f => Str.trim (fieldText f))
        [ [Quoted apos (str "a,b")]; [Plain (str " 2")]; [Plain (str " NULL")] ].
Proof.
  apply splitTuple_fields.
  - discriminate.
  - repeat (apply Forall_cons; [apply Forall_cons; [|apply Forall_nil] |]).
    + split; [left; reflexivity | split; reflexivity].
    + repeat split.
    + repeat split.
    + apply Forall_nil.
Defined.

(** ** Row numbers and type-processing *)

Lemma get_fold_renumber (es : list (jstr * Sql.tableAcc)) (init : Obj.t (list row))
    (t : jstr) (rs : list row) :
  Obj.get (fold_left (fun res e => Obj.set (fst e) (Sql.renumber (Sql.rows (snd e))) res)
                     es init) t = Some rs ->
  (exists e, In e es /\ rs = Sql.renumber (Sql.rows (snd e)))
  \/ Obj.get init t = Some rs.
Proof.
  revert init. induction es as [|e es IH]; intros init H; cbn [fold_left] in H.
  - now right.
  - destruct (IH _ H) as [(e' & Hin & He)|Hget].
    + left. exists e'. split; [now right | exact He].
    + rewrite get_set in Hget. destruct (Str.eqb (fst e) t).
      * left. exists e. split; [now left | congruence].
      * now right.
Qed.

Lemma nth_error_indexed_inv (A B : Type) (f : nat * A -> B) (l : list A) (i : nat) (y : B) :
  nth_error (map f (combine (seq 0 (length l)) l)) i = Some y ->
  exists x, nth_error l i = Some x /\ y = f (i, x).
Proof.
  intros H.
  assert (Hlt : i < length l).
  { rewrite <- (length_indexed A B f l 0). apply nth_error_Some. congruence. }
  destruct (nth_error l i) as [x|] eqn:E.
  - exists x. split; [reflexivity|].
    rewrite (nth_error_indexed A B f l 0 i x E) in H. cbn [Nat.add] in H. congruence.
  - apply nth_error_None in E. lia.
Qed.

(** X4. In every table the extractor produces, the row at position [k]
    has [_id] equal to [k]. *)
Theorem extracted_rows_numbered (content t : jstr) (rs : list row) (k : nat) (r : row) :
  Obj.get (Sql.tablesOf content) t = Some rs ->
  nth_error rs k = Some r ->
  field r (str "_id") = ofNat k.
Proof.
  unfold Sql.tablesOf, Sql.parseSQLFile. intros Hget Hnth.
  destruct (Sql.extractedOf _ _) as [extracted|]; [|discriminate Hget].
  apply get_fold_renumber in Hget as [(e & _ & ->)|Hget]; [|discriminate Hget].
  unfold Sql.renumber in Hnth.
  apply nth_error_indexed_inv in Hnth as (r0 & _ & ->).
  unfold field. cbn [fst snd]. now rewrite get_set_same.
Qed.

Lemma extracted_rows_numbered_witness :
  field (mkRow [("_id", num 0); ("col1", txt "a,b"); ("col2", num 2); ("col3", VNull)]%string)
        (str "_id")
  = ofNat 0.
Proof.
  apply (extracted_rows_numbered Samples.quotedDeclared (str "t")
           [mkRow [("_id", num 0); ("col1", txt "a,b"); ("col2", num 2);
                   ("col3", VNull)]%string] 0).
  - vm_compute. reflexivity.
  - reflexivity.
Defined.

Lemma processTableData_rows (dateParses : jstr -> bool) (tableData : list row)
    (cols : list jstr) :
  length (fst (processTableData dateParses tableData cols)) = length tableData.
Proof. unfold processTableData. cbn [fst]. apply length_indexed. Qed.

(** X5. Type-processing keeps the rows one for one and in order; the
    processed row at position [idx] has the fields named in [cols] and
    [_id] only, with [_id] equal to [idx] (unless [_id] is itself one of
    the columns), and a cell of a column that is not classified [number]
    is the cell of the source row. *)
Theorem processTableData_shape (dateParses : jstr -> bool) (tableData : list row)
    (cols : list jstr) :
  length (fst (processTableData dateParses tableData cols)) = length tableData
  /\ forall idx r,
       nth_error tableData idx = Some r ->
       exists r',
         nth_error (fst (processTableData dateParses tableData cols)) idx = Some r'
         /\ (~ In (str "_id") cols -> field r' (str "_id") = ofNat idx)
         /\ (forall col, In col cols ->
               isNumberCol (snd (processTableData dateParses tableData cols)) col = false ->
               field r' col = field r col)
         /\ (forall k, ~ In k cols -> k <> str "_id" -> Obj.get r' k = None).
Proof.
  unfold processTableData. cbn [fst snd]. split; [apply length_indexed|].
  intros idx r Hnth.
  eexists. split; [apply (nth_error_indexed _ _ _ _ 0 _ _ Hnth)|].
  cbn [Nat.add fst snd]. split; [|split].
  - intros Hid. unfold field, processRow.
    rewrite (get_fold_set _ (fun c => coerceCell (typesOf dateParses tableData cols) c (field r c))).
    destruct (in_dec jstr_eq_dec (str "_id") cols); [contradiction|].
    cbn [Obj.get]. now rewrite str_eqb_refl.
  - intros col Hin Hnum. rewrite (field_processRow _ _ _ _ _ Hin).
    unfold coerceCell. now rewrite Hnum.
  - intros k Hk Hid. unfold processRow.
    rewrite (get_fold_set _ (fun c => coerceCell (typesOf dateParses tableData cols) c (field r c))).
    destruct (in_dec jstr_eq_dec k cols); [contradiction|].
    cbn [Obj.get]. apply not_eq_sym in Hid. apply str_eqb_false in Hid. now rewrite Hid.
Qed.

(** ** The joiner: counters and fields *)

Lemma programOf_matched (cm pm : Join.idMap) (txn : row) (p : Join.entry) :
  Join.programOf pm (Join.programIdOf (Join.cardOf cm txn)) = Some p ->
  Join.cardMatched (Join.cardOf cm txn) = true.
Proof.
  unfold Join.programOf.
  destruct (Join.cardOf cm txn) as [r|v|k|]; cbn [Join.programIdOf truthy];
    try discriminate.
  unfold field, Join.cardMatched.
  destruct (Obj.get r (str "card_program_id")) as [v|] eqn:E.
  - intros _. destruct (Obj.keys r) eqn:K; [|reflexivity].
    exfalso. revert K. apply keys_not_nil. intros Hnil. rewrite Hnil in E. discriminate.
  - cbn [truthy]. discriminate.
Qed.

Lemma setAdd_length (v : value) (s : list value) :
  length (setAdd v s) <= S (length s) /\ setAdd v s <> [].
Proof.
  unfold setAdd. destruct (in_dec value_eq_dec v s) as [Hin|Hin].
  - split; [lia|]. intros ->. destruct Hin.
  - rewrite length_app. cbn [length]. split; [lia|]. destruct s; discriminate.
Qed.

Lemma join_fold_counts (cm pm : Join.idMap) (txns : list row) (acc : Join.result) :
  let j := fold_left (Join.step cm pm) txns acc in
  let m := length (filter (fun t => Join.cardMatched (Join.cardOf cm t)) txns) in
  Join.matchedCards j = Join.matchedCards acc + m
  /\ Join.matchedPrograms j <= Join.matchedPrograms acc + m
  /\ length (Join.unmatchedCardIds j) + m
     <= length (Join.unmatchedCardIds acc) + length txns
  /\ (m = length txns -> Join.unmatchedCardIds j = Join.unmatchedCardIds acc)
  /\ (m < length txns -> Join.unmatchedCardIds j <> []).
Proof.
  revert acc. induction txns as [|t txns IH]; intros acc; cbn zeta.
  - cbn [fold_left filter length]. repeat split; lia.
  - cbn [fold_left filter].
    pose proof (filter_length_le (fun t => Join.cardMatched (Join.cardOf cm t)) txns) as Hle.
    destruct (IH (Join.step cm pm acc t)) as (H1 & H2 & H3 & H4 & H5).
    remember (fold_left (Join.step cm pm) txns (Join.step cm pm acc t)) as j eqn:Ej.
    clear Ej IH. unfold Join.step in H1, H2, H3, H4, H5.
    cbn [Join.matchedCards Join.matchedPrograms Join.unmatchedCardIds] in H1, H2, H3, H4, H5.
    destruct (Join.cardMatched (Join.cardOf cm t)) eqn:Hm; cbn [length].
    + repeat split; try lia.
      * destruct (Join.programOf pm (Join.programIdOf (Join.cardOf cm t)));
          lia.
      * intros E. apply H4. lia.
      * intros E. apply H5. lia.
    + assert (Hnone : Join.programOf pm (Join.programIdOf (Join.cardOf cm t))
                      = None).
      { destruct (Join.programOf pm (Join.programIdOf (Join.cardOf cm t)))
          eqn:E; [|reflexivity].
        apply programOf_matched in E. congruence. }
      rewrite Hnone in H2.
      destruct (setAdd_length (field t (str "card_id")) (Join.unmatchedCardIds acc))
        as [Hl Hne].
      repeat split; try lia.
      intros _.
      destruct (Nat.eq_dec (length (filter (fun t => Join.cardMatched (Join.cardOf cm t)) txns))
                           (length txns)) as [E|E].
      * rewrite (H4 E). exact Hne.
      * apply H5. lia.
Qed.

(** X6. The counters of the join: there is one joined row for each
    transaction; a program is never matched without a card; the unmatched
    identifiers are at most as many as the unmatched transactions; and
    all transactions are matched exactly when no identifier is
    unmatched. *)
Theorem join_counts (transactions cards programs : list row) :
  let j := Join.join transactions cards programs in
  length (Join.joinedData j) = length transactions
  /\ Join.matchedPrograms j <= Join.matchedCards j
  /\ Join.matchedCards j <= length transactions
  /\ length (Join.unmatchedCardIds j) + Join.matchedCards j <= length transactions
  /\ (Join.matchedCards j = length transactions <-> Join.unmatchedCardIds j = []).
Proof.
  cbn zeta. unfold Join.join.
  destruct (join_fold_counts (Join.byId cards) (Join.byId programs) transactions
              (Join.Result [] 0 0 [])) as (H1 & H2 & H3 & H4 & H5).
  cbn [Join.matchedCards Join.matchedPrograms Join.unmatchedCardIds length Nat.add] in *.
  pose proof (filter_length_le
                (fun t => Join.cardMatched (Join.cardOf (Join.byId cards) t)) transactions)
    as Hle.
  split; [|repeat split; try lia].
  - fold (Join.join transactions cards programs). rewrite joinedData_join.
    apply length_indexed.
  - intros E. apply H4. lia.
  - intros E.
    destruct (Nat.eq_dec
                (length (filter (fun t => Join.cardMatched (Join.cardOf (Join.byId cards) t))
                                transactions))
                (length transactions)) as [Hm|Hm]; [lia|].
    exfalso. apply H5; [lia | exact E].
Qed.

Lemma get_In_nodup (A : Type) (o : Obj.t A) (k : jstr) (v : A) :
  NoDup (map fst o) -> In (k, v) o -> Obj.get o k = Some v.
Proof.
  induction o as [|[k0 v0] o IH]; intros Hnd Hin; [destruct Hin|].
  cbn [map fst] in Hnd. inversion Hnd as [|? ? Hnot Hnd']; subst.
  cbn [Obj.get]. destruct Hin as [E|Hin].
  - inversion E; subst. now rewrite str_eqb_refl.
  - destruct (Str.eqb k0 k) eqn:E.
    + apply str_eqb_true in E. subst. exfalso. apply Hnot.
      apply (in_map fst) in Hin. exact Hin.
    + now apply IH.
Qed.

Lemma get_perm (A : Type) (a b : Obj.t A) (k : jstr) :
  NoDup (map fst a) -> Permutation a b -> Obj.get a k = Obj.get b k.
Proof.
  intros Hnd Hp.
  assert (Hndb : NoDup (map fst b))
    by (eapply Permutation_NoDup; [apply Permutation_map; exact Hp | exact Hnd]).
  destruct (Obj.get a k) as [v|] eqn:Ea.
  - symmetry. apply get_In_nodup; [exact Hndb|].
    eapply Permutation_in; [exact Hp|]. now apply get_Some_In.
  - destruct (Obj.get b k) as [v|] eqn:Eb; [|reflexivity].
    apply get_Some_In in Eb. apply Permutation_sym in Hp.
    apply (Permutation_in _ Hp) in Eb.
    apply (get_In_nodup _ _ _ _ Hnd) in Eb. congruence.
Qed.

Lemma get_fold_assign (A : Type) (es init : Obj.t A) (k : jstr) :
  NoDup (map fst es) ->
  Obj.get (fold_left (fun o kv => Obj.set (fst kv) (snd kv) o) es init) k
  = match Obj.get es k with
    | Some v => Some v
    | None => Obj.get init k
    end.
Proof.
  revert init. induction es as [|[k0 v0] es IH]; intros init Hnd; [reflexivity|].
  cbn [map fst] in Hnd. inversion Hnd as [|? ? Hnot Hnd']; subst.
  cbn [fold_left fst snd Obj.get]. rewrite (IH _ Hnd'), get_set.
  destruct (Str.eqb k0 k) eqn:E; [|reflexivity].
  apply str_eqb_true in E. subst. now rewrite (get_None_notin _ _ _ Hnot).
Qed.

(** X7. A joined row keeps every field of its transaction, apart from
    the two program fields, which are written last; [_id] is the position
    in the list when the transaction has none.  (The keys of an object
    are distinct.) *)
Theorem joined_row_keeps_fields (txn : row) (idx : nat) (programId programName : value)
    (k : jstr) :
  NoDup (map fst txn) ->
  k <> str "card_program_id" -> k <> str "card_program_name" ->
  field (Join.joinedRow txn idx programId programName) k
  = match Obj.get txn k with
    | Some v => v
    | None => if Str.eqb k (str "_id") then ofNat idx else VUndef
    end.
Proof.
  intros Hnd H1 H2. unfold field, Join.joinedRow.
  rewrite !get_set_other by congruence.
  assert (Hp : Permutation (Obj.entries txn) txn) by apply entries_perm.
  assert (Hnde : NoDup (map fst (Obj.entries txn))).
  { eapply Permutation_NoDup; [apply Permutation_map, Permutation_sym; exact Hp | exact Hnd]. }
  rewrite (get_fold_assign _ _ _ _ Hnde), (get_perm _ _ _ k Hnde Hp).
  destruct (Obj.get txn k); [reflexivity|].
  cbn [Obj.get]. rewrite (Bool.eq_true_iff_eq (Str.eqb (str "_id") k) (Str.eqb k (str "_id"))).
  - destruct (Str.eqb k (str "_id")); reflexivity.
  - rewrite !str_eqb_true. split; congruence.
Qed.

Lemma joined_row_keeps_fields_witness :
  field (Join.joinedRow (mkRow [("_id", num 7); ("amount", num 50)]%string) 0
                        VUndef unknownProgram) (str "amount")
  = match Obj.get (mkRow [("_id", num 7); ("amount", num 50)]%string) (str "amount") with
    | Some v => v
    | None => if Str.eqb (str "amount") (str "_id") then ofNat 0 else VUndef
    end.
Proof.
  apply (joined_row_keeps_fields (mkRow [("_id", num 7); ("amount", num 50)]%string)
           0 VUndef unknownProgram (str "amount")).
  - repeat (apply NoDup_cons; [simpl; intuition discriminate|]). apply NoDup_nil.
  - discriminate.
  - discriminate.
Defined.

(** X11. In a cards table none of whose rows has [__proto__] as its
    [id], a transaction whose [card_id] matches no card is joined all
    the same: the joined relation has one row per transaction, the row
    at the position of this transaction is made of it, with
    [card_program_id] undefined and [card_program_name] the placeholder,
    and its [card_id] occurs exactly once in the set of unmatched
    identifiers, however many transactions carry it. *)
Theorem unmatched_transaction (transactions cards programs : list row)
    (idx : nat) (txn : row) :
  nth_error transactions idx = Some txn ->
  (forall card, In card cards -> idKey card <> Host.protoKey) ->
  (forall card, In card cards -> ~ idMatches card (field txn (str "card_id"))) ->
  let j := Join.join transactions cards programs in
  length (Join.joinedData j) = length transactions
  /\ (exists r,
        nth_error (Join.joinedData j) idx = Some r
        /\ r = Join.joinedRow txn idx VUndef unknownProgram
        /\ field r (str "card_program_id") = VUndef
        /\ field r (str "card_program_name") = unknownProgram)
  /\ count_occ value_eq_dec (Join.unmatchedCardIds j) (field txn (str "card_id")) = 1.
Proof.
  intros Hnth Hproto Hno j. unfold j.
  destruct (cardOf_unmatched cards txn Hproto Hno) as [Hun Hpid].
  split; [|split].
  - rewrite joinedData_join. apply length_indexed.
  - eexists. rewrite joinedData_join.
    rewrite (nth_error_indexed _ _ _ _ 0 _ _ Hnth). simpl.
    unfold joinedRowOf. rewrite Hpid. simpl.
    split; [reflexivity|]. split; [reflexivity|].
    split; [apply field_joinedRow_id | apply field_joinedRow_name].
  - apply NoDup_count_occ'.
    + unfold Join.join. apply unmatched_fold_NoDup. constructor.
    + unfold Join.join. apply unmatched_fold_adds.
      * eapply nth_error_In; eauto.
      * exact Hun.
Qed.

Lemma unmatched_transaction_witness :
  let j := Join.join Samples.txns2 Samples.cards1 Samples.programs2 in
  length (Join.joinedData j) = 3
  /\ (exists r,
        nth_error (Join.joinedData j) 1 = Some r
        /\ r = Join.joinedRow
                 (mkRow [("_id", num 1); ("id", num 2); ("card_id", num 2); ("amount", num 25)]%string)
                 1 VUndef unknownProgram
        /\ field r (str "card_program_id") = VUndef
        /\ field r (str "card_program_name") = unknownProgram)
  /\ count_occ value_eq_dec (Join.unmatchedCardIds j) (num 2) = 1.
Proof.
  apply (unmatched_transaction Samples.txns2 Samples.cards1 Samples.programs2 1).
  - reflexivity.
  - intros card [<-|[]] E. vm_compute in E. discriminate.
  - intros card [<-|[]] E. vm_compute in E. discriminate.
Defined.

(** ** The classifier on whole columns *)

Lemma over_full (n : nat) : 1 <= n <= 100 -> overSeventyPercent n n = true.
Proof.
  intros Hn.
  assert (H : forallb (fun k => overSeventyPercent k k) (seq 1 100) = true)
    by (vm_compute; reflexivity).
  rewrite forallb_forall in H. apply H. apply in_seq. lia.
Qed.

Lemma filter_all (A : Type) (p : A -> bool) (l : list A) :
  (forall x, In x l -> p x = true) -> filter p l = l.
Proof.
  induction l as [|x l IH]; intros H; [reflexivity|]. cbn [filter].
  rewrite (H x) by now left. f_equal. apply IH. intros y Hy. apply H. now right.
Qed.

Lemma In_firstn (A : Type) (n : nat) (l : list A) (x : A) :
  In x (firstn n l) -> In x l.
Proof.
  intros H. rewrite <- (firstn_skipn n l). apply in_or_app. now left.
Qed.

(** X8. A column in which some value is present and every present value
    reads as a number is classified [number]. *)
Theorem all_numeric_is_number (dateParses : jstr -> bool) (values : list value) :
  (exists v, In v values /\ isPresent v = true) ->
  (forall v, In v values -> isPresent v = true -> isNumericValue v = true) ->
  detectColumnType dateParses values = TNumber.
Proof.
  intros (v0 & Hin0 & Hp0) Hall. unfold detectColumnType.
  set (sample := firstn 100 (filter isPresent values)).
  assert (Hne : sample <> []).
  { unfold sample. destruct (filter isPresent values) as [|x l] eqn:E.
    - assert (Hf : In v0 (filter isPresent values)) by (apply filter_In; auto).
      rewrite E in Hf. destruct Hf.
    - discriminate. }
  assert (Hnum : filter isNumericValue sample = sample).
  { apply filter_all. intros x Hx. apply In_firstn in Hx.
    apply filter_In in Hx as [Hx Hp]. now apply Hall. }
  assert (Hlen : length sample <= 100) by apply firstn_le_length.
  destruct sample as [|x l] eqn:Es; [congruence|].
  rewrite Hnum. rewrite over_full; [reflexivity|]. cbn [length] in *. lia.
Qed.

Lemma all_numeric_is_number_witness :
  detectColumnType (fun _ => false) [txt "$1,200.50"; VNull; num 3; txt ""] = TNumber.
Proof.
  apply all_numeric_is_number.
  - exists (num 3). split; [simpl; tauto | reflexivity].
  - intros v [<-|[<-|[<-|[<-|[]]]]]; intros H; try discriminate H; vm_compute; reflexivity.
Defined.

(** X9. Only the first hundred present values of a column decide its
    type: what follows them changes nothing. *)
Theorem only_first_hundred (dateParses : jstr -> bool) (values more : list value) :
  100 <= length (filter isPresent values) ->
  detectColumnType dateParses (values ++ more) = detectColumnType dateParses values.
Proof.
  intros H. unfold detectColumnType.
  rewrite filter_app, firstn_app.
  replace (100 - length (filter isPresent values)) with 0 by lia.
  cbn [firstn]. now rewrite app_nil_r.
Qed.

Lemma only_first_hundred_witness :
  detectColumnType (fun _ => false) (repeat (num 1) 100 ++ [txt "x"; txt "y"])
  = detectColumnType (fun _ => false) (repeat (num 1) 100).
Proof.
  apply only_first_hundred. apply Nat.leb_le. vm_compute. reflexivity.
Defined.

(** ** The groups of the breakdown *)

Lemma NoDup_firstn (A : Type) (n : nat) (l : list A) : NoDup l -> NoDup (firstn n l).
Proof.
  intros H. rewrite <- (firstn_skipn n l) in H. now apply NoDup_app_remove_r in H.
Qed.

Section GroupFacts.
Variable groupByCol categoryCol accountCol amountCol qtyCol : jstr.
Variable calcs : list calcColumn.
Variable seen : row -> Prop.

Abbreviation gcol := (catCol groupByCol categoryCol accountCol).
Abbreviation gadd := (addRow groupByCol categoryCol accountCol amountCol qtyCol calcs).

Lemma breakdown_inv (rows : list row) (b : Obj.t group) :
  (forall r, In r rows -> seen r) ->
  NoDup (map fst b) -> (forall k g, In (k, g) b -> groupOk seen gcol k g) ->
  NoDup (map fst (fold_left gadd rows b))
  /\ forall k g, In (k, g) (fold_left gadd rows b) -> groupOk seen gcol k g.
Proof.
  revert b. induction rows as [|r rows IH]; intros b Hseen Hnd Hok; [now split|].
  cbn [fold_left]. apply IH.
  - intros x Hx. apply Hseen. now right.
  - unfold addRow. destruct (truthy (field r gcol)); cbn [negb]; [|exact Hnd].
    destruct (negb (Obj.has b _) && Host.inherited _); [exact Hnd|].
    now apply set_NoDup.
  - intros k g Hin. unfold addRow in Hin.
    destruct (truthy (field r gcol)) eqn:Ht; cbn [negb] in Hin; [|now apply Hok].
    destruct (negb (Obj.has b _) && Host.inherited _); [now apply Hok|].
    apply set_In in Hin as [Heq|Hin]; [|now apply Hok].
    inversion Heq; subst k g. clear Heq.
    destruct (Obj.get b (toStr (field r gcol))) as [g0|] eqn:Eg.
    + apply get_Some_In in Eg. destruct (Hok _ _ Eg) as (Hk & Hn & Hc & Hr).
      unfold groupOk. cbn [gFullName gName gCount].
      split; [exact Hk|]. split; [exact Hn|]. split; [lia | exact Hr].
    + unfold groupOk. cbn [gFullName gName gCount].
      split; [reflexivity|]. split; [reflexivity|]. split; [lia|].
      exists r. split; [apply Hseen; now left|]. split; [exact Ht | reflexivity].
Qed.

End GroupFacts.

(** X10. The groups of the breakdown: at most [topN] of them when the
    limit is positive; no two for the same grouping value; each named by
    the first 25 characters of its grouping value, counting at least one
    row, and made for a filtered row whose grouping value is truthy. *)
Theorem breakdown_groups (groupByCol categoryCol accountCol amountCol qtyCol : jstr)
    (calcs : list calcColumn) (aggType : aggregation) (limit : Z)
    (filteredData : list row) :
  let col := catCol groupByCol categoryCol accountCol in
  let groups :=
    categoryBreakdown groupByCol categoryCol accountCol amountCol qtyCol
                      calcs aggType limit filteredData in
  ((0 < limit)%Z -> length groups <= Z.to_nat limit)
  /\ NoDup (map gFullName groups)
  /\ forall g, In g groups ->
       gName g = Str.slice0 25 (gFullName g)
       /\ length (gName g) <= 25
       /\ 1 <= gCount g
       /\ exists r, In r filteredData /\ truthy (field r col) = true
                    /\ gFullName g = toStr (field r col).
Proof.
  intros col groups.
  set (b := breakdownOf groupByCol categoryCol accountCol amountCol qtyCol calcs filteredData).
  set (sorted := hostSort (groupCompare aggType) (Obj.values b)).
  destruct (breakdown_inv groupByCol categoryCol accountCol amountCol qtyCol calcs
              (fun r => In r filteredData) filteredData [])
    as [Hnd Hok]; [auto | constructor | intros k g [] |].
  fold b in Hnd, Hok.
  assert (Hperm : Permutation sorted (map snd b)).
  { unfold sorted. rewrite hostSort_perm. apply values_perm. }
  assert (Hnames : map gFullName (map snd b) = map fst b).
  { rewrite map_map. apply map_ext_in. intros [k g] Hin. cbn [fst snd].
    destruct (Hok k g Hin) as [-> _]. reflexivity. }
  assert (Hnds : NoDup (map gFullName sorted)).
  { eapply Permutation_NoDup; [apply Permutation_map, Permutation_sym; exact Hperm|].
    now rewrite Hnames. }
  assert (Hin : forall g, In g groups -> exists k, In (k, g) b).
  { intros g Hg. unfold groups, categoryBreakdown in Hg. fold b sorted in Hg.
    destruct (negb (given (catCol groupByCol categoryCol accountCol))); [destruct Hg|].
    assert (Hs : In g sorted) by (destruct (0 <? limit)%Z; [now apply In_firstn in Hg | exact Hg]).
    apply (Permutation_in _ Hperm) in Hs. apply in_map_iff in Hs as ([k g'] & E & Hs).
    cbn [snd] in E. subst. now exists k. }
  split; [|split].
  - intros Hl. unfold groups, categoryBreakdown. fold b sorted.
    destruct (negb (given (catCol groupByCol categoryCol accountCol))); [cbn [length]; lia|].
    apply Z.ltb_lt in Hl. rewrite Hl. apply firstn_le_length.
  - unfold groups, categoryBreakdown. fold b sorted.
    destruct (negb (given (catCol groupByCol categoryCol accountCol))); [constructor|].
    destruct (0 <? limit)%Z; [|exact Hnds].
    rewrite <- firstn_map. now apply NoDup_firstn.
  - intros g Hg. destruct (Hin g Hg) as (k & Hk).
    destruct (Hok k g Hk) as (_ & Hn & Hc & Hr).
    split; [exact Hn|]. split; [|split; [exact Hc | exact Hr]].
    rewrite Hn. unfold Str.slice0. apply firstn_le_length.
Qed.

(** ** Sorting by a column header *)

(** X12. A click on a column header makes that column the sort key;
    the direction is ascending, unless the column was already the key in
    ascending direction; so a second click reverses the direction and a
    third restores it. *)
Theorem handleSort_alternates (key : jstr) (prev : sortConfigT) :
  sortKey (handleSort key prev) = Some key
  /\ (keyIs (sortKey prev) key = false -> sortDirection (handleSort key prev) = Asc)
  /\ sortDirection (handleSort key (handleSort key prev))
     <> sortDirection (handleSort key prev)
  /\ handleSort key (handleSort key (handleSort key prev)) = handleSort key prev.
Proof.
  unfold handleSort. cbn [sortKey sortDirection keyIs]. rewrite str_eqb_refl.
  split; [reflexivity|]. split; [intros ->; reflexivity|].
  destruct (keyIs (sortKey prev) key && isAsc (sortDirection prev));
    cbn [isAsc andb]; split; (discriminate || reflexivity).
Qed.

(** ** The roles of the columns *)

Lemma find_none_iff (A : Type) (p : A -> bool) (l : list A) :
  find p l = None <-> forall x, In x l -> p x = false.
Proof.
  split; [apply find_none|].
  intros H. destruct (find p l) as [x|] eqn:E; [|reflexivity].
  apply find_some in E as [Hin Hp]. rewrite (H x Hin) in Hp. discriminate.
Qed.

Lemma firstFor_In (cols : list jstr) (types : Obj.t colType) (r : role) (c : jstr) :
  firstFor cols types r = Some c ->
  In c cols /\ nameMatches (keywordsOf r) c = true
  /\ (needsNumber r = true -> typeIs types c TNumber = true).
Proof.
  unfold firstFor. intros H. apply find_some in H as [Hin Hp].
  apply andb_true_iff in Hp as [Hm Ht]. split; [exact Hin|]. split; [exact Hm|].
  intros Hn. now rewrite Hn in Ht.
Qed.

(** X13. The roles [detectSpecialColumns] assigns: each is one of the
    columns; the amount and the quantity are columns of type number;
    and the amount is unassigned exactly when no column is of type
    number. *)
Theorem detected_roles (cols : list jstr) (types : Obj.t colType) :
  let d := detectSpecialColumns cols types in
  (forall c, dAmount d = Some c -> In c cols /\ typeIs types c TNumber = true)
  /\ (forall c, dQuantity d = Some c -> In c cols /\ typeIs types c TNumber = true)
  /\ (dAmount d = None <-> forall c, In c cols -> typeIs types c TNumber = false)
  /\ (forall c, In (Some c) [dAccount d; dDate d; dCategory d; dPartNumber d] ->
        In c cols).
Proof.
  cbn zeta. unfold detectSpecialColumns. cbn [dAmount dQuantity dAccount dDate dCategory dPartNumber].
  split; [|split; [|split]].
  - intros c. destruct (assigned (firstFor cols types Amount)); cbn [negb].
    + intros H. apply firstFor_In in H as (Hin & _ & Ht). auto.
    + intros H. apply find_some in H. exact H.
  - intros c H. apply firstFor_In in H as (Hin & _ & Ht). auto.
  - destruct (assigned (firstFor cols types Amount)) eqn:Ea; cbn [negb].
    + destruct (firstFor cols types Amount) as [c|] eqn:Ef; [|discriminate Ea].
      split; [discriminate|]. intros H.
      apply firstFor_In in Ef as (Hin & _ & Ht). rewrite (H c Hin) in Ht.
      discriminate (Ht eq_refl).
    + apply find_none_iff.
  - intros c [H|[H|[H|[H|[]]]]].
    + destruct (negb (assigned (firstFor cols types Account))
                && negb (assigned (firstFor cols types Category))).
      * apply find_some in H. tauto.
      * apply firstFor_In in H. tauto.
    + apply firstFor_In in H. tauto.
    + apply firstFor_In in H. tauto.
    + apply firstFor_In in H. tauto.
Qed.

(** ** The list of categories *)

Lemma distinct_fold (l acc : list value) :
  NoDup acc ->
  NoDup (fold_left (fun s v => setAdd v s) l acc)
  /\ forall v, In v (fold_left (fun s v => setAdd v s) l acc) <-> In v acc \/ In v l.
Proof.
  revert acc. induction l as [|x l IH]; intros acc Hnd; cbn [fold_left].
  - split; [exact Hnd|]. intros v. cbn [In]. tauto.
  - destruct (IH (setAdd x acc) (setAdd_NoDup x acc Hnd)) as [H1 H2].
    split; [exact H1|]. intros v. rewrite H2, setAdd_In. cbn [In].
    split; intros [H|H]; auto; destruct H; auto.
Qed.

(** X14. When a category (or, failing that, an account) column is
    assigned, the list of categories holds each truthy value of that
    column once, and nothing else. *)
Theorem uniqueCategories_spec (d : detectedT) (data : list row) :
  assigned (orRole (dCategory d) (dAccount d)) = true ->
  NoDup (uniqueCategories d data)
  /\ forall v, In v (uniqueCategories d data)
               <-> truthy v = true
                   /\ exists r, In r data
                                /\ field r (roleName (orRole (dCategory d) (dAccount d))) = v.
Proof.
  intros Ha. unfold uniqueCategories. rewrite Ha. cbn [negb].
  set (col := roleName (orRole (dCategory d) (dAccount d))).
  destruct (distinct_fold (map (fun r => field r col) data) [] (NoDup_nil _)) as [Hnd Hin].
  fold (distinct (map (fun r => field r col) data)) in Hnd, Hin.
  pose proof (hostSort_perm _ defaultCompare
                (filter truthy (distinct (map (fun r => field r col) data)))) as Hp.
  split.
  - eapply Permutation_NoDup; [apply Permutation_sym; exact Hp|]. now apply NoDup_filter.
  - intros v. split.
    + intros H. apply (Permutation_in _ Hp) in H. apply filter_In in H as [H Ht].
      split; [exact Ht|]. apply Hin in H as [[]|H].
      apply in_map_iff in H as (r & E & Hr). now exists r.
    + intros (Ht & r & Hr & E). apply (Permutation_in _ (Permutation_sym Hp)).
      apply filter_In. split; [|exact Ht]. apply Hin. right.
      apply in_map_iff. now exists r.
Qed.

Lemma uniqueCategories_spec_witness :
  NoDup (uniqueCategories (Detected None None None None (Some (str "category")) None)
                          Samples.sales)
  /\ forall v, In v (uniqueCategories
                       (Detected None None None None (Some (str "category")) None)
                       Samples.sales)
               <-> truthy v = true
                   /\ exists r, In r Samples.sales
                                /\ field r (roleName
                                              (orRole (dCategory (Detected None None None None
                                                                   (Some (str "category")) None))
                                                      (dAccount (Detected None None None None
                                                                   (Some (str "category")) None))))
                                   = v.
Proof.
  apply (uniqueCategories_spec (Detected None None None None (Some (str "category")) None)
                               Samples.sales).
  reflexivity.
Defined.

(** ** The extended total *)

(** X15. [addCalculatedColumn] keeps the calculated columns there are,
    adds the extended total when a quantity and an amount role are
    assigned and no column of that name is there, and so never adds it
    twice. *)
Theorem one_extended_total (d : detectedT) (cs : list calcColumn) :
  (forall c, In c cs -> In c (addCalculatedColumn d cs))
  /\ addCalculatedColumn d (addCalculatedColumn d cs) = addCalculatedColumn d cs
  /\ (assigned (dQuantity d) && assigned (dAmount d) = true ->
      exists c, findCalc (addCalculatedColumn d cs) (str "ext_total") = Some c)
  /\ (length (filter isExtTotal cs) <= 1 ->
      length (filter isExtTotal (addCalculatedColumn d cs)) <= 1).
Proof.
  unfold addCalculatedColumn.
  destruct (assigned (dQuantity d) && assigned (dAmount d)) eqn:Ea.
  2:{ repeat split; auto. discriminate. }
  cbv zeta.
  destruct (findCalc cs (str "ext_total")) as [c0|] eqn:Ef.
  - rewrite Ef. repeat split; auto. intros _. now exists c0.
  - set (new := CalcColumn (str "ext_total") (str "Extended Total")
                           (roleName (dQuantity d) ++ str " " ++ timesSign ++ str " "
                            ++ roleName (dAmount d))
                           (roleName (dQuantity d)) (roleName (dAmount d))).
    assert (Hnew : findCalc (cs ++ [new]) (str "ext_total") = Some new).
    { unfold findCalc in *. rewrite find_app, Ef. reflexivity. }
    rewrite Hnew. split; [|split; [|split]].
    + intros c Hc. apply in_or_app. now left.
    + reflexivity.
    + intros _. now exists new.
    + intros _. rewrite filter_app, length_app.
      assert (Hnone : filter isExtTotal cs = []).
      { unfold findCalc in Ef. pose proof (proj1 (find_none_iff _ _ _) Ef) as Ef'.
        destruct (filter isExtTotal cs) as [|x l] eqn:E; [reflexivity|].
        assert (Hx : In x (filter isExtTotal cs)) by (rewrite E; now left).
        apply filter_In in Hx as [Hx Hp]. unfold isExtTotal in Hp.
        rewrite (Ef' x Hx) in Hp. discriminate. }
      assert (Hx : isExtTotal new = true) by reflexivity.
      rewrite Hnone. cbn [filter]. rewrite Hx. cbn [length]. lia.
Qed.

(** ** The filters of the query pipeline *)

Lemma textFilters_In (es : list (jstr * jstr)) (l : list row) (r : row) :
  In r (fold_left textFilter es l)
  <-> In r l
      /\ forall cv, In cv es -> given (snd cv) = true ->
                    cellContains (fst cv) (snd cv) r = true.
Proof.
  revert l. induction es as [|e es IH]; intros l; cbn [fold_left].
  - split; [intros H; split; [exact H | intros cv []] | tauto].
  - rewrite IH. unfold textFilter at 1. split.
    + intros [Hin Hall]. destruct (given (snd e)) eqn:Eg.
      * apply filter_In in Hin as [Hin Hc]. split; [exact Hin|].
        intros cv [<-|Hcv] Hg; [exact Hc | now apply Hall].
      * split; [exact Hin|]. intros cv [<-|Hcv] Hg; [congruence | now apply Hall].
    + intros [Hin Hall]. split.
      * destruct (given (snd e)) eqn:Eg; [|exact Hin].
        apply filter_In. split; [exact Hin|]. apply Hall; [now left | exact Eg].
      * intros cv Hcv. apply Hall. now right.
Qed.

Lemma sorted_In (st : appState) (l : list row) (r : row) :
  In r match sortKey (sortConfig st) with
       | Some key =>
           if given key
           then hostSort (pipelineCompare (calculatedColumns st) key
                                          (sortDirection (sortConfig st))) l
           else l
       | None => l
       end
  <-> In r l.
Proof.
  destruct (sortKey (sortConfig st)) as [key|]; [|tauto].
  destruct (given key); [|tauto].
  split; apply Permutation_in; [|apply Permutation_sym]; apply hostSort_perm.
Qed.

(** X16. The rows the query pipeline shows are the rows of the table
    that pass every active filter: the selected category (compared with
    the cell as a string), the selected month, and each non-empty text
    filter (a case-insensitive search in the cell, a falsy cell counting
    as empty).  The sort neither adds nor drops a row. *)
Theorem filtered_rows (monthOf : jstr -> option jstr) (st : appState) (d : detectedT)
    (data : list row) (r : row) :
  let catCol := orRole (dCategory d) (dAccount d) in
  In r (filteredData monthOf st d data)
  <-> In r data
      /\ (negb (Str.eqb (selectedCategory st) (str "all")) && assigned catCol = true ->
          inCategory (roleName catCol) (selectedCategory st) r = true)
      /\ (negb (Str.eqb (selectedMonth st) (str "all")) && assigned (dDate d) = true ->
          inMonth monthOf (roleName (dDate d)) (selectedMonth st) r = true)
      /\ (forall col v, In (col, v) (filters st) -> given v = true ->
            cellContains col v r = true).
Proof.
  cbn zeta. unfold filteredData.
  rewrite sorted_In, textFilters_In.
  assert (Hent : (forall cv, In cv (Obj.entries (filters st)) -> given (snd cv) = true ->
                             cellContains (fst cv) (snd cv) r = true)
                 <-> (forall col v, In (col, v) (filters st) -> given v = true ->
                                    cellContains col v r = true)).
  { split.
    - intros H col v Hin. apply (H (col, v)).
      apply (Permutation_in _ (Permutation_sym (entries_perm _ (filters st)))). exact Hin.
    - intros H [col v] Hin. apply H.
      apply (Permutation_in _ (entries_perm _ (filters st))). exact Hin. }
  rewrite Hent.
  destruct (negb (Str.eqb (selectedMonth st) (str "all")) && assigned (dDate d));
    destruct (negb (Str.eqb (selectedCategory st) (str "all"))
              && assigned (orRole (dCategory d) (dAccount d)));
    rewrite ?filter_In; intuition congruence.
Qed.

(** X17. After a switch to a table that has rows, the pipeline shows
    that table, whole and in its order, or the rows of the selected month
    when a month is still selected and a date role is assigned: the
    switch resets the other filters and the sort, not the month. *)
Theorem switched_table_rows (dateParses : jstr -> bool) (monthOf : jstr -> option jstr)
    (st : appState) (tableName : jstr) (tableData : list row) (d : detectedT) :
  Obj.get (tables st) tableName = Some tableData ->
  tableData <> [] ->
  let st' := switchTable dateParses st tableName in
  dataOf st' = tableData
  /\ filteredData monthOf st' d (dataOf st')
     = if negb (Str.eqb (selectedMonth st) (str "all")) && assigned (dDate d)
       then filter (inMonth monthOf (roleName (dDate d)) (selectedMonth st)) tableData
       else tableData.
Proof.
  intros Hget Hne. cbn zeta. unfold switchTable. rewrite Hget.
  destruct tableData as [|r0 rest]; [congruence|].
  unfold dataOf. cbn [tables activeTable]. rewrite Hget.
  split; [reflexivity|].
  unfold filteredData.
  cbn [selectedCategory selectedMonth filters sortConfig sortKey].
  change (Str.eqb (str "all") (str "all")) with true. cbn [negb andb].
  change (Obj.entries (Obj.empty jstr)) with (@nil (jstr * jstr)).
  cbn [fold_left]. reflexivity.
Qed.

Lemma switched_table_rows_witness :
  dataOf (switchTable (fun _ => false) Samples.busy (str "u"))
  = [mkRow [("_id", num 0); ("b", num 7)]%string]
  /\ filteredData (fun _ => None) (switchTable (fun _ => false) Samples.busy (str "u"))
                  (Detected None None None None None None)
                  (dataOf (switchTable (fun _ => false) Samples.busy (str "u")))
     = if negb (Str.eqb (selectedMonth Samples.busy) (str "all"))
          && assigned (dDate (Detected None None None None None None))
       then filter (inMonth (fun _ => None)
                            (roleName (dDate (Detected None None None None None None)))
                            (selectedMonth Samples.busy))
                   [mkRow [("_id", num 0); ("b", num 7)]%string]
       else [mkRow [("_id", num 0); ("b", num 7)]%string].
Proof.
  apply (switched_table_rows (fun _ => false) (fun _ => None) Samples.busy (str "u")
           [mkRow [("_id", num 0); ("b", num 7)]%string]
           (Detected None None None None None None)).
  - reflexivity.
  - discriminate.
Defined.

(** ** The table name of a CSV file *)

Lemma split_first_bad (p : ascii -> bool) (t : jstr) (y : ascii) (v : jstr) :
  p y = false ->
  exists u y' v', t ++ y :: v = u ++ y' :: v' /\ forallb p u = true /\ p y' = false.
Proof.
  intros Hy. induction t as [|c t IH].
  - exists [], y, v. auto.
  - destruct IH as (u & y' & v' & E & Hu & Hy').
    destruct (p c) eqn:Hc.
    + exists (c :: u), y', v'. cbn [app forallb]. rewrite E, Hc, Hu. auto.
    + exists [], c, (t ++ y :: v). auto.
Qed.

Lemma ext_here (ext : jstr) :
  ext <> [] -> forallb extChar ext = true ->
  Regex.matchHere extensionRegex ("."%char :: ext) = Some ([], []).
Proof.
  intros Hne Hall. destruct ext as [|x e]; [congruence|].
  cbn [forallb] in Hall. apply andb_true_iff in Hall as [Hx He].
  unfold Regex.matchHere, extensionRegex.
  cbn [Regex.cat Regex.run Regex.Plus]. change (Regex.chr "." ".") with true. cbv iota.
  fold extChar. rewrite Hx.
  rewrite <- (app_nil_r e).
  now apply (star_all _ extChar _ e [] [] ([], [])).
Qed.

Lemma ext_fail_char (c : ascii) (s : jstr) :
  c <> "."%char -> Regex.matchHere extensionRegex (c :: s) = None.
Proof.
  intros Hc. unfold Regex.matchHere, extensionRegex.
  cbn [Regex.cat Regex.run Regex.Plus]. unfold Regex.chr at 1.
  destruct (Str.eqc c ".") eqn:E; [apply eqc_true in E; congruence | reflexivity].
Qed.

Lemma ext_fail_nil : Regex.matchHere extensionRegex [] = None.
Proof. reflexivity. Qed.

Lemma ext_fail_dot (u : jstr) (y : ascii) (v : jstr) :
  forallb extChar u = true -> extChar y = false ->
  Regex.matchHere extensionRegex ("."%char :: u ++ y :: v) = None.
Proof.
  intros Hu Hy. unfold Regex.matchHere, extensionRegex.
  cbn [Regex.cat Regex.run Regex.Plus]. change (Regex.chr "." ".") with true. cbv iota.
  fold extChar. destruct u as [|x u']; cbn [app].
  - now rewrite Hy.
  - cbn [forallb] in Hu. apply andb_true_iff in Hu as [Hx Hu']. rewrite Hx.
    apply star_none; [exact Hu' | cbn [stops]; now rewrite Hy |].
    intros u1 u2 _. destruct u2; reflexivity.
Qed.

Lemma dropExtension_dot (base ext : jstr) :
  ext <> [] -> forallb extChar ext = true ->
  dropExtension (base ++ "."%char :: ext) = base.
Proof.
  intros Hne Hall. unfold dropExtension.
  rewrite (search_skip extensionRegex base [] ("."%char :: ext)).
  - rewrite (search_here _ _ _ _ _ (ext_here ext Hne Hall)).
    cbn [Regex.skipped Regex.rest]. rewrite !app_nil_r. apply rev_involutive.
  - intros p1 p2 _ Hp2. destruct p2 as [|c t]; [congruence|].
    destruct (ascii_dec c "."%char) as [->|Hc]; [|now apply ext_fail_char].
    cbn [app].
    destruct (split_first_bad extChar t "."%char ext eq_refl) as (u & y & v & E & Hu & Hy).
    rewrite E. now apply ext_fail_dot.
Qed.

Lemma dropExtension_none (name : jstr) :
  noChar "."%char name = true -> dropExtension name = name.
Proof.
  intros H. unfold dropExtension. rewrite search_none; [reflexivity|].
  intros p1 p2 E. destruct p2 as [|c t]; [apply ext_fail_nil|].
  apply ext_fail_char. intros ->. subst name.
  rewrite noChar_app in H. apply andb_true_iff in H as [_ H].
  cbn [noChar forallb] in H. rewrite eqc_refl in H. discriminate.
Qed.

(** X18. For a file name of ASCII characters, the table a CSV file is
    loaded under is named by lower-case letters, digits and underscores
    only.  The name is made of the file name without its last extension
    (the whole file name when it has no dot), in lower case, every other
    character replaced by an underscore. *)
Theorem csv_table_name (name : jstr) :
  asciiOnly name = true ->
  forallb nameChar (csvTableName name) = true
  /\ (noChar "."%char name = true ->
      csvTableName name = underscoreOthers (Str.toLowerCase name))
  /\ (forall base ext,
        name = base ++ "."%char :: ext -> ext <> [] ->
        noChar "."%char ext = true -> noChar "/"%char ext = true ->
        csvTableName name = underscoreOthers (Str.toLowerCase base)
        /\ length (csvTableName name) = length base).
Proof.
  intros _. split; [|split].
  - unfold csvTableName, underscoreOthers. rewrite forallb_forall. intros c Hc.
    apply in_map_iff in Hc as (x & <- & _). unfold nameChar.
    destruct (Str.isLower x || Str.isDigit x) eqn:E; [now rewrite E | reflexivity].
  - intros H. unfold csvTableName. now rewrite dropExtension_none.
  - intros base ext -> Hne Hd Hs.
    assert (Hall : forallb extChar ext = true).
    { unfold noChar in Hd, Hs. rewrite forallb_forall in *. intros c Hc.
      specialize (Hd c Hc). specialize (Hs c Hc).
      apply negb_true_iff in Hd, Hs.
      unfold extChar, Regex.notc, Regex.oneOf. cbn [str list_ascii_of_string existsb].
      now rewrite Hd, Hs. }
    unfold csvTableName. rewrite (dropExtension_dot base ext Hne Hall).
    split; [reflexivity|].
    unfold underscoreOthers, Str.toLowerCase. now rewrite !length_map.
Qed.

Lemma csv_table_name_witness :
  forallb nameChar (csvTableName (str "Sales 2024.Q1.csv")) = true
  /\ (noChar "."%char (str "Sales 2024.Q1.csv") = true ->
      csvTableName (str "Sales 2024.Q1.csv")
      = underscoreOthers (Str.toLowerCase (str "Sales 2024.Q1.csv")))
  /\ (forall base ext,
        str "Sales 2024.Q1.csv" = base ++ "."%char :: ext -> ext <> [] ->
        noChar "."%char ext = true -> noChar "/"%char ext = true ->
        csvTableName (str "Sales 2024.Q1.csv") = underscoreOthers (Str.toLowerCase base)
        /\ length (csvTableName (str "Sales 2024.Q1.csv")) = length base).
Proof.
  apply (csv_table_name (str "Sales 2024.Q1.csv")). reflexivity.
Defined.

(** ** The card and program summaries *)

Lemma count_set (A : Type) (mu : A -> nat) (o : Obj.t A) (k : jstr) (v : A) :
  list_sum (map mu (map snd (Obj.set k v o)))
  + match Obj.get o k with Some a => mu a | None => 0 end
  = list_sum (map mu (map snd o)) + mu v.
Proof.
  unfold list_sum.
  induction o as [|[k0 v0] o IH]; cbn [Obj.set Obj.get map snd fold_right]; [lia|].
  destruct (Str.eqb k0 k); cbn [map snd fold_right]; lia.
Qed.

Lemma sum_set (A : Type) (nu : A -> Num.number) (o : Obj.t A) (k : jstr) (v : A)
    (x : Num.number) :
  nu v = Num.add match Obj.get o k with Some a => nu a | None => Num.zero end x ->
  sumR (map nu (map snd (Obj.set k v o))) = Num.add (sumR (map nu (map snd o))) x.
Proof.
  induction o as [|[k0 v0] o IH]; cbn [Obj.set Obj.get map snd]; intros Hv.
  - unfold sumR. cbn [fold_right]. rewrite Hv. apply add_zero_sum.
  - destruct (Str.eqb k0 k); cbn [map snd].
    + unfold sumR. cbn [fold_right]. rewrite Hv.
      rewrite !add_assoc. f_equal. apply add_comm.
    + unfold sumR in *. cbn [fold_right]. rewrite (IH Hv). now rewrite add_assoc.
Qed.

Section CardFacts.
Variable amountCol : option jstr.
Variable seen : row -> Prop.

Lemma addToCard_plain (b : Obj.t cardSummary) (r : row) :
  plainCard r ->
  addToCard amountCol b r
  = let cardId := field r (str "card_id") in
    let cur :=
      match Obj.get b (toStr cardId) with
      | Some s => s
      | None =>
          CardSummary cardId (field r (str "card_program_id"))
                      (field r (str "card_program_name")) 0 Num.zero
      end in
    Obj.set (toStr cardId)
      (CardSummary (cs_card_id cur) (cs_card_program_id cur) (cs_card_program_name cur)
                   (S (cs_transaction_count cur))
                   (Num.add (cs_total_spend cur) (amountOf amountCol r)))
      b.
Proof.
  intros Hp. unfold addToCard, plainCard in *. now rewrite Hp, Bool.andb_false_r.
Qed.

Lemma card_count_step (b : Obj.t cardSummary) (r : row) :
  plainCard r ->
  list_sum (map cs_transaction_count (map snd (addToCard amountCol b r)))
  = S (list_sum (map cs_transaction_count (map snd b))).
Proof.
  intros Hp. rewrite (addToCard_plain _ _ Hp). cbn zeta.
  match goal with
  | |- context [Obj.set ?k ?v b] =>
      pose proof (count_set _ cs_transaction_count b k v) as H
  end.
  cbn [cs_transaction_count] in H.
  destruct (Obj.get b (toStr (field r (str "card_id"))));
    cbn [cs_transaction_count] in H |- *; lia.
Qed.

Lemma card_counts_fold (rows : list row) (b : Obj.t cardSummary) :
  Forall plainCard rows ->
  list_sum (map cs_transaction_count (map snd (fold_left (addToCard amountCol) rows b)))
  = list_sum (map cs_transaction_count (map snd b)) + length rows.
Proof.
  intros Hp. revert b.
  induction Hp as [|r rows Hr Hp IH]; intros b; cbn [fold_left length]; [lia|].
  rewrite IH, (card_count_step _ _ Hr). lia.
Qed.

Lemma card_totals_fold (rows : list row) (b : Obj.t cardSummary) :
  Forall plainCard rows ->
  sumR (map cs_total_spend (map snd (fold_left (addToCard amountCol) rows b)))
  = fold_left Num.add (map (amountOf amountCol) rows)
              (sumR (map cs_total_spend (map snd b))).
Proof.
  intros Hp. revert b.
  induction Hp as [|r rows Hr Hp IH]; intros b; cbn [fold_left map]; [reflexivity|].
  rewrite IH. f_equal. rewrite (addToCard_plain _ _ Hr). cbn zeta. apply sum_set.
  cbn [cs_total_spend].
  destruct (Obj.get b (toStr (field r (str "card_id")))); reflexivity.
Qed.

Lemma card_inv (rows : list row) (b : Obj.t cardSummary) :
  (forall r, In r rows -> seen r) ->
  NoDup (map fst b) -> (forall k s, In (k, s) b -> cardOk seen k s) ->
  NoDup (map fst (fold_left (addToCard amountCol) rows b))
  /\ forall k s, In (k, s) (fold_left (addToCard amountCol) rows b) -> cardOk seen k s.
Proof.
  revert b. induction rows as [|r rows IH]; intros b Hseen Hnd Hok; [now split|].
  cbn [fold_left]. apply IH.
  - intros x Hx. apply Hseen. now right.
  - unfold addToCard. destruct (negb (Obj.has b _) && Host.inherited _); [exact Hnd|].
    now apply set_NoDup.
  - intros k s Hin. unfold addToCard in Hin.
    destruct (negb (Obj.has b _) && Host.inherited _); [now apply Hok|].
    destruct (Obj.get b (toStr (field r (str "card_id")))) as [s0|] eqn:Eg.
    + apply set_In in Hin as [Heq|Hin]; [|now apply Hok].
      pose proof (f_equal fst Heq) as E1. pose proof (f_equal snd Heq) as E2.
      cbn [fst snd] in E1, E2. subst k s.
      apply get_Some_In in Eg. destruct (Hok _ _ Eg) as (Hk & Hc & Hr).
      unfold cardOk. cbn [cs_card_id cs_transaction_count].
      split; [exact Hk|]. split; [lia | exact Hr].
    + apply set_In in Hin as [Heq|Hin]; [|now apply Hok].
      pose proof (f_equal fst Heq) as E1. pose proof (f_equal snd Heq) as E2.
      cbn [fst snd] in E1, E2. subst k s.
      unfold cardOk. cbn [cs_card_id cs_transaction_count].
      split; [reflexivity|]. split; [lia|].
      exists r. split; [apply Hseen; now left | reflexivity].
Qed.

End CardFacts.

(** X19. When no card id of a joined transaction is a name that every
    object inherits, the card summaries account for every joined
    transaction: their transaction counts add up to the number of joined
    rows and, the amounts being whole numbers that binary64 adds
    exactly, their total spends add up to the sum of the amounts; there
    is one summary for each card id (as a property key), which counts at
    least one transaction. *)
Theorem card_summaries_total (tabs : Obj.t (list row)) (joined : list row) :
  joinedOf tabs = Some joined ->
  Forall plainCard joined ->
  let ss := cardSummariesRaw tabs in
  list_sum (map cs_transaction_count ss) = length joined
  /\ (exactSum (map (amountOf (amountColumn tabs)) joined) ->
      sumNum (map cs_total_spend ss) = sumNum (map (amountOf (amountColumn tabs)) joined))
  /\ NoDup (map (fun s => toStr (cs_card_id s)) ss)
  /\ forall s, In s ss ->
       1 <= cs_transaction_count s
       /\ exists txn, In txn joined /\ cs_card_id s = field txn (str "card_id").
Proof.
  intros Hj Hplain. cbn zeta. unfold cardSummariesRaw. rewrite Hj.
  set (b := fold_left (addToCard (amountColumn tabs)) joined (Obj.empty cardSummary)).
  pose proof (values_perm _ b) as Hp.
  destruct (card_inv (amountColumn tabs) (fun r => In r joined) joined [])
    as [Hnd Hok]; [auto | constructor | intros k s [] |].
  fold b in Hnd, Hok.
  split; [|split; [|split]].
  - rewrite (list_sum_perm _ _ (Permutation_map cs_transaction_count Hp)).
    unfold b. rewrite (card_counts_fold _ _ _ Hplain). reflexivity.
  - intros _.
    rewrite (sumNum_perm _ _ (Permutation_map cs_total_spend Hp)), sumNum_sumR.
    unfold b. rewrite (card_totals_fold _ _ _ Hplain). reflexivity.
  - eapply Permutation_NoDup;
      [apply Permutation_map, Permutation_sym; exact Hp|].
    replace (map (fun s => toStr (cs_card_id s)) (map snd b)) with (map fst b); [exact Hnd|].
    rewrite map_map. apply map_ext_in. intros [k s] Hin. cbn [fst snd].
    now destruct (Hok k s Hin) as [-> _].
  - intros s Hs. apply (Permutation_in _ Hp) in Hs.
    apply in_map_iff in Hs as ([k s'] & E & Hs). cbn [snd] in E. subst s'.
    destruct (Hok k s Hs) as (_ & Hc & Hr). split; [exact Hc | exact Hr].
Qed.

Lemma card_summaries_total_witness :
  list_sum (map cs_transaction_count
                (cardSummariesRaw [(str "transactions_joined", Samples.txns2)]))
  = length Samples.txns2
  /\ (exactSum (map (amountOf (amountColumn [(str "transactions_joined", Samples.txns2)]))
                    Samples.txns2) ->
      sumNum (map cs_total_spend
                  (cardSummariesRaw [(str "transactions_joined", Samples.txns2)]))
      = sumNum (map (amountOf (amountColumn [(str "transactions_joined", Samples.txns2)]))
                    Samples.txns2))
  /\ NoDup (map (fun s => toStr (cs_card_id s))
                (cardSummariesRaw [(str "transactions_joined", Samples.txns2)]))
  /\ forall s, In s (cardSummariesRaw [(str "transactions_joined", Samples.txns2)]) ->
       1 <= cs_transaction_count s
       /\ exists txn, In txn Samples.txns2 /\ cs_card_id s = field txn (str "card_id").
Proof.
  apply (card_summaries_total [(str "transactions_joined", Samples.txns2)] Samples.txns2).
  - reflexivity.
  - repeat (apply Forall_cons; [reflexivity|]). apply Forall_nil.
Defined.

Lemma set_In_strong (A : Type) (o : Obj.t A) (k : jstr) (v : A) (e : jstr * A) :
  NoDup (map fst o) ->
  In e (Obj.set k v o) -> e = (k, v) \/ (In e o /\ fst e <> k).
Proof.
  induction o as [|[k0 v0] o IH]; cbn [Obj.set map fst]; intros Hnd Hin.
  - destruct Hin as [<-|[]]. now left.
  - inversion Hnd as [|? ? Hnot Hnd']; subst.
    destruct (Str.eqb k0 k) eqn:E.
    + apply str_eqb_true in E. subst k0.
      destruct Hin as [<-|Hin]; [now left|]. right. split; [now right|].
      intros Hk. apply Hnot. rewrite <- Hk. now apply in_map.
    + apply str_eqb_false in E.
      destruct Hin as [<-|Hin]; [right; split; [now left | exact E]|].
      destruct (IH Hnd' Hin) as [Heq|[H1 H2]]; [now left|].
      right. split; [now right | exact H2].
Qed.

Lemma In_get_some (A : Type) (o : Obj.t A) (k : jstr) (v : A) :
  In (k, v) o -> exists v', Obj.get o k = Some v'.
Proof.
  induction o as [|[k0 v0] o IH]; [intros []|]. cbn [Obj.get]. intros [E|Hin].
  - inversion E; subst. rewrite str_eqb_refl. now exists v.
  - destruct (Str.eqb k0 k); [now exists v0 | now apply IH].
Qed.

Lemma has_set (A : Type) (o : Obj.t A) (k k' : jstr) (v : A) :
  Obj.has (Obj.set k v o) k' = Str.eqb k k' || Obj.has o k'.
Proof.
  unfold Obj.has. rewrite get_set. destruct (Str.eqb k k'); [reflexivity|].
  now destruct (Obj.get o k').
Qed.

Section ProgramFacts.
Variable amountCol : option jstr.

Lemma program_step (acc : Obj.t programSummary * Obj.t (list value)) (r : row) :
  programsOk acc -> plainProgram r ->
  exists acc',
    addToProgram amountCol acc r = Some acc'
    /\ programsOk acc'
    /\ list_sum (map ps_transaction_count (map snd (fst acc')))
       = S (list_sum (map ps_transaction_count (map snd (fst acc)))).
Proof.
  destruct acc as [bp cbp]. intros (Hnd & Hplain & Hok) Hr.
  cbn [fst snd] in *. unfold addToProgram, plainProgram in *.
  rewrite Hr, Bool.andb_false_r.
  assert (Hcards : exists cards,
            match Obj.get bp (programKey r) with
            | Some _ => Obj.get cbp (programKey r)
            | None => Some []
            end = Some cards
            /\ length cards
               <= match Obj.get bp (programKey r) with
                  | Some s => ps_transaction_count s
                  | None => 0
                  end).
  { destruct (Obj.get bp (programKey r)) as [s0|] eqn:Eg.
    - apply get_Some_In in Eg. specialize (Hok _ _ Eg).
      unfold programOk, cardsUnder in Hok.
      destruct (Obj.get cbp (programKey r)) as [cards|]; [|lia].
      exists cards. split; [reflexivity | lia].
    - exists []. split; [reflexivity | cbn [length]; lia]. }
  destruct Hcards as (cards & -> & Hlen).
  eexists. split; [reflexivity|]. unfold programsOk. cbn [fst snd].
  split; [split; [|split]|].
  - now apply set_NoDup.
  - intros k. rewrite has_set. destruct (Str.eqb (programKey r) k) eqn:E; [|apply Hplain].
    apply str_eqb_true in E. subst k. intros _. exact Hr.
  - intros k s Hin. unfold programOk, cardsUnder.
    apply (set_In_strong _ _ _ _ _ Hnd) in Hin as [Heq|[Hin Hk]].
    + pose proof (f_equal fst Heq) as E1. pose proof (f_equal snd Heq) as E2.
      cbn [fst snd] in E1, E2. subst k s. rewrite get_set_same.
      cbn [ps_transaction_count].
      destruct (setAdd_length (field r (str "card_id")) cards) as [Hl Hne].
      split.
      * destruct (setAdd (field r (str "card_id")) cards); [congruence | cbn [length]; lia].
      * destruct (Obj.get bp (programKey r)); cbn [ps_transaction_count] in *; lia.
    + cbn [fst] in Hk. rewrite get_set_other by congruence.
      exact (Hok _ _ Hin).
  - match goal with
    | |- context [Obj.set ?k ?v bp] =>
        pose proof (count_set _ ps_transaction_count bp k v) as H
    end.
    cbn [ps_transaction_count] in H.
    destruct (Obj.get bp (programKey r)); cbn [ps_transaction_count] in H |- *; lia.
Qed.

Lemma programTotals_None (rows : list row) : programTotals amountCol rows None = None.
Proof. unfold programTotals. induction rows as [|r rows IH]; [reflexivity | exact IH]. Qed.

(** The transactions are read to the end when no program key is
    inherited. *)
Lemma programTotals_plain (rows : list row)
    (acc : Obj.t programSummary * Obj.t (list value)) :
  programsOk acc -> Forall plainProgram rows ->
  exists acc',
    programTotals amountCol rows (Some acc) = Some acc'
    /\ programsOk acc'
    /\ list_sum (map ps_transaction_count (map snd (fst acc')))
       = list_sum (map ps_transaction_count (map snd (fst acc))) + length rows.
Proof.
  intros Hacc Hp. revert acc Hacc.
  induction Hp as [|r rows Hr Hp IH]; intros acc Hacc.
  - exists acc. cbn [length]. split; [reflexivity|]. split; [exact Hacc | lia].
  - destruct (program_step acc r Hacc Hr) as (a1 & E1 & Ok1 & C1).
    destruct (IH a1 Ok1) as (a2 & E2 & Ok2 & C2).
    exists a2. split; [|split; [exact Ok2|cbn [length]; lia]].
    unfold programTotals in *. cbn [fold_left]. now rewrite E1.
Qed.

(** The first transaction whose program key is inherited throws. *)
Lemma programTotals_throws (rows : list row)
    (acc : Obj.t programSummary * Obj.t (list value)) :
  programsOk acc -> Exists (fun r => Host.inherited (programKey r) = true) rows ->
  programTotals amountCol rows (Some acc) = None.
Proof.
  intros Hacc Hex. revert acc Hacc.
  induction rows as [|r rows IH]; intros acc Hacc; [inversion Hex|].
  unfold programTotals. cbn [fold_left]. fold (programTotals amountCol rows).
  destruct (Host.inherited (programKey r)) eqn:Ei.
  - destruct acc as [bp cbp]. destruct Hacc as (_ & Hplain & _). cbn [fst] in Hplain.
    unfold addToProgram.
    destruct (Obj.has bp (programKey r)) eqn:Eh.
    + rewrite (Hplain _ Eh) in Ei. discriminate.
    + rewrite Ei. cbn [negb andb]. apply programTotals_None.
  - destruct (program_step acc r Hacc Ei) as (a1 & E1 & Ok1 & _).
    rewrite E1. apply IH; [|exact Ok1].
    inversion Hex as [? ? H|? ? H]; subst; [congruence | exact H].
Qed.

End ProgramFacts.

Lemma cardCount_fold (cbp : Obj.t (list value)) (ks done : list jstr)
    (o : Obj.t programSummary) :
  NoDup (map fst o) ->
  (forall k s, In (k, s) o ->
     programOk cbp k s /\ (In k done -> ps_card_count s = cardsUnder cbp k)) ->
  let o' := fold_left (setCardCount cbp) ks o in
  NoDup (map fst o')
  /\ map fst o' = map fst o
  /\ list_sum (map ps_transaction_count (map snd o'))
     = list_sum (map ps_transaction_count (map snd o))
  /\ forall k s, In (k, s) o' ->
       programOk cbp k s /\ (In k (done ++ ks) -> ps_card_count s = cardsUnder cbp k).
Proof.
  revert done o. induction ks as [|k0 ks IH]; intros done o Hnd Hok; cbn zeta.
  - cbn [fold_left]. rewrite app_nil_r. auto.
  - cbn [fold_left].
    assert (Hstep : NoDup (map fst (setCardCount cbp o k0))
                    /\ map fst (setCardCount cbp o k0) = map fst o
                    /\ list_sum (map ps_transaction_count (map snd (setCardCount cbp o k0)))
                       = list_sum (map ps_transaction_count (map snd o))
                    /\ forall k s, In (k, s) (setCardCount cbp o k0) ->
                         programOk cbp k s
                         /\ (In k (done ++ [k0]) -> ps_card_count s = cardsUnder cbp k)).
    { unfold setCardCount. destruct (Obj.get o k0) as [s0|] eqn:Eg.
      - apply get_Some_In in Eg.
        split; [now apply set_NoDup|]. split; [|split].
        + apply set_keys. apply (in_map fst) in Eg. exact Eg.
        + match goal with
          | |- context [Obj.set ?k ?v o] =>
              pose proof (count_set _ ps_transaction_count o k v) as H
          end.
          rewrite (get_In_nodup _ _ _ _ Hnd Eg) in H.
          cbn [ps_transaction_count] in H. lia.
        + intros k s Hin.
          apply (set_In_strong _ _ _ _ _ Hnd) in Hin as [Heq|[Hin Hk]].
          * pose proof (f_equal fst Heq) as E1. pose proof (f_equal snd Heq) as E2.
            cbn [fst snd] in E1, E2. subst k s.
            destruct (Hok _ _ Eg) as [Hp _].
            split; [exact Hp|]. intros _. reflexivity.
          * cbn [fst] in Hk. destruct (Hok _ _ Hin) as [Hp Hd].
            split; [exact Hp|]. intros Hi. apply in_app_or in Hi as [Hi|[Hi|[]]];
              [now apply Hd | congruence].
      - split; [exact Hnd|]. split; [reflexivity|]. split; [reflexivity|].
        intros k s Hin. destruct (Hok _ _ Hin) as [Hp Hd].
        split; [exact Hp|]. intros Hi. apply in_app_or in Hi as [Hi|[Hi|[]]];
          [now apply Hd|].
        subst k0. apply In_get_some in Hin as (v' & Hv). congruence. }
    destruct Hstep as (S1 & S2 & S3 & S4).
    destruct (IH (done ++ [k0]) (setCardCount cbp o k0) S1 S4) as (I1 & I2 & I3 & I4).
    split; [exact I1|]. split; [congruence|]. split; [congruence|].
    intros k s Hin. rewrite <- app_assoc in I4. exact (I4 k s Hin).
Qed.

(** X20. The memo of the program summaries throws when the program key
    of some joined transaction (its [card_program_id], or [unknown] in
    its place) is a name that every object inherits.  When none is, it
    returns summaries that account for every joined transaction: their
    transaction counts add up to the number of joined rows, and each
    counts at least one card and no more cards than transactions. *)
Theorem program_summaries_counts (tabs : Obj.t (list row)) (joined : list row) :
  joinedOf tabs = Some joined ->
  (Exists (fun txn => Host.inherited (programKey txn) = true) joined ->
   programSummariesRaw tabs = None)
  /\ (Forall plainProgram joined ->
      exists ps,
        programSummariesRaw tabs = Some ps
        /\ list_sum (map ps_transaction_count ps) = length joined
        /\ forall s, In s ps -> 1 <= ps_card_count s <= ps_transaction_count s).
Proof.
  intros Hj. unfold programSummariesRaw. rewrite Hj.
  assert (Hempty : programsOk (Obj.empty programSummary, Obj.empty (list value))).
  { split; [constructor|]. split; [discriminate | intros k s []]. }
  split.
  - intros Hex. now rewrite (programTotals_throws (amountColumn tabs) joined _ Hempty Hex).
  - intros Hplain.
    destruct (programTotals_plain (amountColumn tabs) joined _ Hempty Hplain)
      as ([bp cbp] & -> & (Hnd & _ & Hok) & Hc).
    cbn [fst snd Obj.empty map] in Hc, Hnd, Hok.
    change (list_sum []) with 0 in Hc. cbn [Nat.add] in Hc.
    destruct (cardCount_fold cbp (Obj.keys bp) [] bp Hnd) as (F1 & F2 & F3 & F4).
    { intros k s Hin. split; [now apply Hok | intros []]. }
    cbn [app] in F4.
    set (o' := fold_left (setCardCount cbp) (Obj.keys bp) bp) in *.
    pose proof (values_perm _ o') as Hp.
    eexists. split; [reflexivity|]. fold o'. split.
    + rewrite (list_sum_perm _ _ (Permutation_map ps_transaction_count Hp)), F3, Hc.
      reflexivity.
    + intros s Hs. apply (Permutation_in _ Hp) in Hs.
      apply in_map_iff in Hs as ([k s'] & E & Hs). cbn [snd] in E. subst s'.
      destruct (F4 k s Hs) as [Hpk Hd].
      assert (Hk : In k (Obj.keys bp)).
      { unfold Obj.keys.
        apply (Permutation_in _ (Permutation_map fst (Permutation_sym (entries_perm _ bp)))).
        rewrite <- F2. apply (in_map fst) in Hs. exact Hs. }
      rewrite (Hd Hk). exact Hpk.
Qed.

Lemma program_summaries_counts_witness :
  (Exists (fun txn => Host.inherited (programKey txn) = true) Samples.txns2 ->
   programSummariesRaw [(str "transactions_joined", Samples.txns2)] = None)
  /\ (Forall plainProgram Samples.txns2 ->
      exists ps,
        programSummariesRaw [(str "transactions_joined", Samples.txns2)] = Some ps
        /\ list_sum (map ps_transaction_count ps) = length Samples.txns2
        /\ forall s, In s ps -> 1 <= ps_card_count s <= ps_transaction_count s).
Proof.
  apply (program_summaries_counts [(str "transactions_joined", Samples.txns2)]
                                  Samples.txns2).
  reflexivity.
Defined.

(** ** Exported lines and the tuple scanner *)

Lemma eqc_false (a b : ascii) : Str.eqc a b = false <-> a <> b.
Proof.
  split.
  - intros H E. apply eqc_true in E. congruence.
  - intros H. destruct (Str.eqc a b) eqn:E; [|reflexivity].
    apply eqc_true in E. contradiction.
Qed.

Lemma split_go_pieces (q : ascii) (cur s : jstr) (piece : jstr) :
  In piece (Str.split_go q cur s) ->
  forall c, In c piece -> In c cur \/ (In c s /\ c <> q).
Proof.
  revert cur. induction s as [|x s IH]; intros cur Hin c Hc; cbn [Str.split_go] in Hin.
  - destruct Hin as [<-|[]]. left. now apply in_rev.
  - destruct (Str.eqc x q) eqn:E.
    + destruct Hin as [<-|Hin].
      * left. now apply in_rev.
      * destruct (IH [] Hin c Hc) as [[]|[H1 H2]]. right. split; [now right | exact H2].
    + destruct (IH (x :: cur) Hin c Hc) as [[<-|H]|[H1 H2]].
      * right. split; [now left|]. intros ->. rewrite eqc_refl in E. discriminate.
      * now left.
      * right. split; [now right | exact H2].
Qed.

Lemma doubled_quotes (q : ascii) (cur s : jstr) :
  fieldText (map (Quoted q) (Str.split_go q cur s))
  = q :: rev cur ++ Str.replaceAll_go [q] [q; q] 0 s ++ [q].
Proof.
  revert cur. induction s as [|x s IH]; intros cur.
  - cbn [Str.split_go map fieldText concat segText Str.replaceAll_go app].
    now rewrite app_nil_r.
  - cbn [Str.split_go Str.replaceAll_go Str.startsWith length Nat.sub].
    unfold Str.eqc. rewrite (Ascii.eqb_sym q x). fold (Str.eqc x q).
    destruct (Str.eqc x q) eqn:E; cbn [andb].
    + apply eqc_true in E. subst x.
      cbn [map]. unfold fieldText in *. cbn [map concat segText].
      rewrite IH. cbn [rev app]. rewrite <- !app_assoc. reflexivity.
    + rewrite IH. cbn [rev]. rewrite <- !app_assoc. reflexivity.
Qed.

(** The exported field of a scannable cell, cut into segments. *)
Lemma exportField_segments (v : value) :
  scannable v ->
  exists f, Forall okSegment f /\ fieldText f = exportField v.
Proof.
  intros Hv. destruct v as [| |n|s]; cbn [exportField].
  - exists []. split; [constructor | reflexivity].
  - exists []. split; [constructor | reflexivity].
  - exists [Plain (Num.toString n)]. split; [|apply app_nil_r].
    constructor; [|constructor]. cbn [okSegment].
    assert (H : forallb numChar (Num.toString n) = true \/
                (exists w, Num.toString n = w
                           /\ (w = str "NaN" \/ w = str "Infinity" \/ w = str "-Infinity"))).
    { destruct n as [|[]|[m e]]; cbn [Num.toString].
      - right. eexists. split; [reflexivity | auto].
      - right. eexists. split; [reflexivity | auto].
      - right. eexists. split; [reflexivity | auto].
      - left. apply printed_chars. }
    destruct H as [H|(w & -> & [->|[->| ->]])]; try (repeat split; reflexivity).
    unfold noChar. rewrite forallb_forall in H.
    repeat split; apply forallb_forall; intros c Hc; specialize (H c Hc);
      destruct c as [[] [] [] [] [] [] [] []]; try reflexivity; discriminate H.
  - destruct Hv as [Hb Ha].
    destruct (Str.includes [comma] s || Str.includes [dquote] s) eqn:E.
    + exists (map (Quoted dquote) (Str.split dquote s)). split.
      * apply Forall_forall. intros g Hg. apply in_map_iff in Hg as (piece & <- & Hp).
        cbn [okSegment]. split; [now right|].
        unfold noChar in *. rewrite forallb_forall in Hb.
        split; apply forallb_forall; intros c Hc;
          destruct (split_go_pieces dquote [] s piece Hp c Hc) as [[]|[H1 H2]].
        -- apply negb_true_iff. apply eqc_false. exact H2.
        -- now apply Hb.
      * unfold Str.split. rewrite doubled_quotes. reflexivity.
    + specialize (Ha eq_refl). apply orb_false_iff in E as [Ec Eq].
      exists [Plain s]. split; [|apply app_nil_r].
      constructor; [|constructor]. cbn [okSegment].
      split; [now apply includes_noChar|]. split; [exact Ha | now apply includes_noChar].
Qed.

(** X21. A line of the export is cut back into its fields by the tuple
    scanner: when no string cell holds a backslash, and none that is
    exported without quotes holds an apostrophe, the scanner finds the
    exported fields one by one (trimmed), doubled quotes and commas
    inside quoted fields included. *)
Theorem exported_line_fields (cells : list value) :
  cells <> [] -> Forall scannable cells ->
  splitTuple (Str.join [comma] (map exportField cells))
  = map (fun v => Str.trim (exportField v)) cells.
Proof.
  intros Hne Hall.
  assert (H : exists fs, Forall (Forall okSegment) fs
                         /\ map fieldText fs = map exportField cells).
  { clear Hne. induction Hall as [|v cells Hv _ IH].
    - exists []. split; [constructor | reflexivity].
    - destruct IH as (fs & Hfs & E). destruct (exportField_segments v Hv) as (f & Hf & Ef).
      exists (f :: fs). split; [now constructor|]. cbn [map]. now rewrite Ef, E. }
  destruct H as (fs & Hfs & E).
  assert (Hfne : fs <> []).
  { intros ->. destruct cells; [congruence | discriminate E]. }
  rewrite <- E. destruct fs as [|f fs']; [congruence|].
  inversion Hfs as [|? ? Hf Hfs']; subst.
  unfold splitTuple. rewrite (go_fields f fs' None None [] [] Hf Hfs').
  rewrite <- (map_map exportField Str.trim), <- E, map_map. reflexivity.
Qed.

Lemma exported_line_fields_witness :
  splitTuple (Str.join [comma] (map exportField [VStr Samples.quote; num 12; VNull; txt "a,b"]))
  = map (fun v => Str.trim (exportField v)) [VStr Samples.quote; num 12; VNull; txt "a,b"].
Proof.
  apply exported_line_fields.
  - discriminate.
  - repeat (apply Forall_cons; [|]); try apply Forall_nil; cbn [scannable num txt];
      try exact I; (split; [reflexivity | intros H; vm_compute in H; discriminate H]).
Defined.

(** ** The rows of a plain script *)

(** The tuple pattern finds the tuples of a block, one by one. *)
Lemma valueSet_bodies (bodies : list jstr) (pre : jstr) (fuel : nat) :
  Forall (fun b => isBody b = true) bodies ->
  noChar "("%char pre = true ->
  length (pre ++ tuplesBlock bodies) < fuel ->
  map (fun m => Sql.group m 1)
      (Regex.execLoop fuel Sql.valueSetRegex (pre ++ tuplesBlock bodies))
  = bodies.
Proof.
  intros Hb. revert pre fuel. induction Hb as [|b bs Hb Hbs IH]; intros pre fuel Hpre Hf.
  - destruct fuel; [lia|]. cbn [Regex.execLoop]. unfold tuplesBlock. cbn [map Str.join].
    rewrite valueSet_skip by assumption. reflexivity.
  - destruct fuel as [|fuel]; [lia|].
    rewrite tuplesBlock_cons in *. cbn [Regex.execLoop].
    rewrite valueSet_skip by assumption.
    rewrite tupleText_app in *.
    rewrite (search_here _ _ _ _ _ (valueSet_here b _ Hb)).
    cbn [Regex.rest map]. f_equal.
    destruct bs as [|b' bs'].
    + destruct fuel; reflexivity.
    + apply IH; [reflexivity|].
      rewrite length_app in Hf. cbn [length] in Hf. rewrite length_app in Hf.
      cbn [length] in Hf. lia.
Qed.

Lemma execAll_bodies (bodies : list jstr) :
  Forall (fun b => isBody b = true) bodies ->
  map (fun m => Sql.group m 1) (Regex.execAll Sql.valueSetRegex (tuplesBlock bodies))
  = bodies.
Proof.
  intros Hb. unfold Regex.execAll.
  apply (valueSet_bodies bodies [] _ Hb eq_refl). cbn [app]. lia.
Qed.

Lemma parse_fold_exact (ms : list Regex.found) (cols : list jstr) (rows0 : list row) :
  cols <> [] ->
  fold_left
    (fun st m =>
       let '(cols, rows) := st in
       let cleanedValues := map decodeValue (splitTuple (Sql.group m 1)) in
       let cols' :=
         match cols with
         | [] => Sql.synthColumns (length cleanedValues)
         | _ => cols
         end in
       (cols', rows ++ [Sql.buildRow cols' cleanedValues (length rows)]))
    ms (cols, rows0)
  = (cols,
     rows0 ++ map (fun ib => Sql.buildRow cols (cellsOf (snd ib)) (fst ib))
                  (combine (seq (length rows0) (length ms))
                           (map (fun m => Sql.group m 1) ms))).
Proof.
  intros Hne. revert rows0. induction ms as [|m ms IH]; intros rows0.
  - cbn [fold_left length seq combine map]. now rewrite app_nil_r.
  - cbn [fold_left]. destruct cols as [|c cols']; [congruence|].
    etransitivity; [apply IH|].
    rewrite length_app. cbn [length map seq combine fst snd].
    rewrite Nat.add_1_r, <- app_assoc. reflexivity.
Qed.

Lemma In_combine_seq (A : Type) (l : list A) (s j : nat) (x : A) :
  nth_error l j = Some x -> In (s + j, x) (combine (seq s (length l)) l).
Proof.
  revert s j. induction l as [|y l IH]; intros s j H; [destruct j; discriminate|].
  cbn [length seq combine]. destruct j as [|j]; cbn [nth_error] in H.
  - inversion H; subst. rewrite Nat.add_0_r. now left.
  - right. replace (s + S j) with (S s + j) by lia. now apply IH.
Qed.

Lemma buildRow_explicit (cols : list jstr) (cleaned : list value) (id : nat) :
  NoDup cols -> ~ In (str "_id") cols -> ~ In Host.protoKey cols ->
  Sql.buildRow cols cleaned id
  = (str "_id", ofNat id)
      :: map (fun ic => (snd ic, Sql.cellAt cleaned (fst ic)))
             (combine (seq 0 (length cols)) cols).
Proof.
  intros Hnd Hid Hno. rewrite (buildRow_plain _ _ _ Hno).
  rewrite (fold_set_fresh _ _ snd (fun ic => Sql.cellAt cleaned (fst ic))).
  - reflexivity.
  - now rewrite map_snd_combine_seq.
  - intros b Hb Hin. cbn [map fst In] in Hin. destruct Hin as [E|[]].
    apply Hid. rewrite E.
    apply (in_map snd) in Hb. now rewrite map_snd_combine_seq in Hb.
Qed.

(** The cells of a built row, after renumbering. *)
Lemma field_built (cols : list jstr) (cleaned : list value) (id idx j : nat) (c : jstr) :
  NoDup cols -> ~ In (str "_id") cols -> ~ In Host.protoKey cols ->
  nth_error cols j = Some c ->
  field (Obj.set (str "_id") (ofNat idx) (Obj.spread (Sql.buildRow cols cleaned id))) c
  = Sql.cellAt cleaned j.
Proof.
  intros Hnd Hid Hno Hj.
  assert (Hc : In c cols) by (eapply nth_error_In; exact Hj).
  assert (Hne : str "_id" <> c) by (intros E; apply Hid; now rewrite E).
  unfold field. rewrite get_set_other by exact Hne.
  unfold Obj.spread.
  assert (Hk : NoDup (map fst (Sql.buildRow cols cleaned id))).
  { rewrite (buildRow_keys cols cleaned id Hnd Hid Hno). now constructor. }
  assert (Hp : Permutation (Obj.entries (Sql.buildRow cols cleaned id))
                           (Sql.buildRow cols cleaned id)) by apply entries_perm.
  assert (Hke : NoDup (map fst (Obj.entries (Sql.buildRow cols cleaned id)))).
  { eapply Permutation_NoDup; [apply Permutation_map, Permutation_sym; exact Hp | exact Hk]. }
  rewrite (get_perm _ _ _ c Hke Hp).
  rewrite (get_In_nodup _ _ c (Sql.cellAt cleaned j) Hk); [reflexivity|].
  rewrite (buildRow_explicit cols cleaned id Hnd Hid Hno). right.
  apply in_map_iff. exists (j, c). split; [reflexivity|].
  apply (In_combine_seq _ cols 0 j c Hj).
Qed.

(** The table an INSERT block of tuples [bodies] makes, the columns
    [cols] being known. *)
Lemma renumbered_rows (cols : list jstr) (bodies : list jstr) (i : nat) (b : jstr) :
  NoDup cols -> ~ In (str "_id") cols -> ~ In Host.protoKey cols ->
  nth_error bodies i = Some b ->
  exists r,
    nth_error
      (Sql.renumber (map (fun ib => Sql.buildRow cols (cellsOf (snd ib)) (fst ib))
                         (combine (seq 0 (length bodies)) bodies))) i = Some r
    /\ field r (str "_id") = ofNat i
    /\ forall j c, nth_error cols j = Some c -> field r c = Sql.cellAt (cellsOf b) j.
Proof.
  intros Hnd Hid Hno Hb.
  pose proof (nth_error_indexed _ _
                (fun ib => Sql.buildRow cols (cellsOf (snd ib)) (fst ib)) bodies 0 i b Hb) as H1.
  cbn [Nat.add fst snd] in H1.
  unfold Sql.renumber.
  pose proof (nth_error_indexed _ _
                (fun ir => Obj.set (str "_id") (ofNat (fst ir)) (Obj.spread (snd ir)))
                _ 0 i _ H1) as H2.
  cbn [Nat.add fst snd] in H2.
  eexists. split; [exact H2|]. split.
  - unfold field. now rewrite get_set_same.
  - intros j c Hj. now apply field_built.
Qed.

(** X22. On a plain script the extractor makes the rows of the tuples,
    in order: the row of the tuple at position [i] has [_id] equal to
    [i] and, in the column declared at position [j], the cell decoded
    from the field at position [j] of the tuple (null when the tuple has
    no such field). *)
Theorem script_rows (t : jstr) (cols : list (jstr * jstr)) (bodies : list jstr) :
  plainScript t cols bodies ->
  exists rs,
    Obj.get (Sql.tablesOf (script t cols bodies)) (Str.toLowerCase t) = Some rs
    /\ length rs = length bodies
    /\ forall i b,
         nth_error bodies i = Some b ->
         exists r,
           nth_error rs i = Some r
           /\ field r (str "_id") = ofNat i
           /\ forall j c, nth_error (map fst cols) j = Some c ->
                          field r c = Sql.cellAt (cellsOf b) j.
Proof.
  intros [Ht Hc Hok Hnd Hid Hidx Hnp Hown Hb Hob H1 H2 H3 Hins Hcre Hkw].
  unfold Sql.tablesOf, Sql.parseSQLFile.
  rewrite (cleanContent_plain _ H1 H2 H3).
  destruct (create_loop t cols (" "%char :: insertStmt t bodies) Ht Hok Hcre)
    as (m1 & Hm1 & Hg1 & Hg2).
  assert (Hschemas : Sql.tableSchemasOf (script t cols bodies)
                     = Sql.Schemas [(Str.toLowerCase t, map fst cols)] None).
  { unfold Sql.tableSchemasOf, script. rewrite Hm1. cbn [fold_left].
    rewrite Hg1, Hg2, (columnDefs_block cols Hok).
    destruct cols as [|cT cs]; [congruence|].
    cbn [map]. unfold Sql.declare. rewrite (inherited_not_proto _ Hown). reflexivity. }
  rewrite Hschemas.
  destruct (insert_loop t bodies (createStmt t cols ++ [" "%char]) Ht Hb Hins Hkw)
    as (m2 & Hm2 & Hi1 & Hi2 & Hi3).
  assert (Hscript : script t cols bodies
                    = (createStmt t cols ++ [" "%char]) ++ insertStmt t bodies).
  { unfold script. now rewrite <- app_assoc. }
  unfold Sql.extractedOf. rewrite Hscript, Hm2. cbn [fold_left fst].
  unfold Sql.addInsert, Sql.columnsFor, Sql.schemaOf. rewrite Hi1, Hi2, Hi3.
  cbn [Obj.get Sql.declared]. rewrite str_eqb_refl.
  unfold Sql.parseTuples.
  rewrite (parse_fold_exact _ (map fst cols) [])
    by (destruct cols; [congruence | discriminate]).
  rewrite (execAll_bodies bodies Hob).
  assert (Hl : length (Regex.execAll Sql.valueSetRegex (tuplesBlock bodies)) = length bodies).
  { rewrite <- (execAll_bodies bodies Hob) at 2. now rewrite length_map. }
  rewrite Hl. cbn [app length].
  set (rows := map (fun ib => Sql.buildRow (map fst cols) (cellsOf (snd ib)) (fst ib))
                   (combine (seq 0 (length bodies)) bodies)).
  assert (Hrows : length rows = length bodies) by apply length_indexed.
  destruct rows as [|r0 rows'] eqn:Er.
  { destruct bodies; [congruence | discriminate Hrows]. }
  cbn [Obj.get Obj.empty]. rewrite Hown.
  cbn [Obj.set Obj.empty app Sql.rows Sql.columns].
  rewrite entries_single. cbn [fold_left Obj.set Obj.empty fst snd Sql.rows Obj.get].
  rewrite str_eqb_refl.
  exists (Sql.renumber (r0 :: rows')). split; [reflexivity|].
  split; [now rewrite renumber_length|].
  intros i b Hi. rewrite <- Er. unfold rows.
  now apply renumbered_rows.
Qed.

Lemma script_rows_witness :
  exists rs,
    Obj.get (Sql.tablesOf (script (str "t") [(str "a", str "INT"); (str "b", str "TEXT")]
                                  [str "1, 'x'"; str "2, 'y'"]))
            (Str.toLowerCase (str "t")) = Some rs
    /\ length rs = length [str "1, 'x'"; str "2, 'y'"]
    /\ forall i b,
         nth_error [str "1, 'x'"; str "2, 'y'"] i = Some b ->
         exists r,
           nth_error rs i = Some r
           /\ field r (str "_id") = ofNat i
           /\ forall j c, nth_error (map fst [(str "a", str "INT"); (str "b", str "TEXT")]) j
                          = Some c ->
                          field r c = Sql.cellAt (cellsOf b) j.
Proof.
  apply (script_rows (str "t") [(str "a", str "INT"); (str "b", str "TEXT")]
                     [str "1, 'x'"; str "2, 'y'"]).
  constructor.
  - reflexivity.
  - discriminate.
  - repeat (apply Forall_cons; [split; [reflexivity | simpl; tauto] |]).
    apply Forall_nil.
  - repeat (apply NoDup_cons; [simpl; intuition discriminate |]). apply NoDup_nil.
  - simpl. intuition discriminate.
  - intros c [<-|[<-|[]]]; reflexivity.
  - simpl. intuition discriminate.
  - reflexivity.
  - discriminate.
  - repeat (apply Forall_cons; [reflexivity |]). apply Forall_nil.
  - vm_compute. reflexivity.
  - vm_compute. reflexivity.
  - vm_compute. reflexivity.
  - vm_compute. reflexivity.
  - vm_compute. reflexivity.
  - intros kw Hkw. simpl in Hkw.
    repeat (destruct Hkw as [<-|Hkw]; [vm_compute; reflexivity|]).
    destruct Hkw.
Defined.

(** ** An INSERT without CREATE TABLE *)

Lemma toStr_ofNat_inj (a b : nat) : toStr (ofNat a) = toStr (ofNat b) -> a = b.
Proof.
  unfold ofNat, Num.ofZ. cbn [toStr]. intros H.
  apply (f_equal decodeValue) in H.
  rewrite !decode_printed in H by apply normalize_norm.
  inversion H as [E].
  destruct (normalize_val (Z.of_nat a) 0 0) as [Ha _]; [lia | lia |].
  destruct (normalize_val (Z.of_nat b) 0 0) as [Hb _]; [lia | lia |].
  rewrite E in Ha. rewrite Ha in Hb. cbn in Hb. lia.
Qed.

Lemma NoDup_map_inj (A B : Type) (f : A -> B) (l : list A) :
  (forall x y, In x l -> In y l -> f x = f y -> x = y) ->
  NoDup l -> NoDup (map f l).
Proof.
  intros Hinj Hnd. induction Hnd as [|x l Hx Hnd IH]; cbn [map]; constructor.
  - intros Hin. apply in_map_iff in Hin as (y & E & Hy).
    apply Hx. rewrite <- (Hinj y x); auto; [now right | now left].
  - apply IH. intros a b Ha Hb. apply Hinj; now right.
Qed.

Lemma synthColumns_facts (n : nat) :
  NoDup (Sql.synthColumns n)
  /\ ~ In (str "_id") (Sql.synthColumns n)
  /\ (forall c, In c (Sql.synthColumns n) -> Obj.indexOf c = None)
  /\ length (Sql.synthColumns n) = n.
Proof.
  unfold Sql.synthColumns. split; [|split; [|split]].
  - apply NoDup_map_inj; [|apply seq_NoDup].
    intros x y _ _ E. apply app_inv_head in E. apply toStr_ofNat_inj in E. lia.
  - intros H. apply in_map_iff in H as (i & E & _).
    cbn [str list_ascii_of_string app] in E. discriminate E.
  - intros c H. apply in_map_iff in H as (i & <- & _). reflexivity.
  - now rewrite length_map, length_seq.
Qed.

Lemma synthColumns_noProto (n : nat) : ~ In Host.protoKey (Sql.synthColumns n).
Proof.
  unfold Sql.synthColumns. intros H. apply in_map_iff in H as (i & E & _).
  cbn [str list_ascii_of_string app] in E. discriminate E.
Qed.

(** With nothing declared, a name that is not inherited has no schema. *)
Lemma schemaOf_nothing (k : jstr) :
  Host.inherited k = false ->
  Sql.schemaOf (Sql.Schemas (Obj.empty _) None) k = Sql.Undeclared.
Proof.
  unfold Host.inherited, Host.isMethod, Sql.schemaOf, Sql.inheritedSchema, Sql.memberOf.
  cbn [Obj.get Obj.empty Sql.declared Sql.arrayProto].
  destruct (Str.eqb k Host.protoKey); [discriminate|]. cbn [orb].
  destruct (Host.methodOf Host.objectMethods k); [discriminate | reflexivity].
Qed.

Lemma splitTuple_go_nonempty (s : jstr) (prev : option ascii) (inString : bool)
    (sc : option ascii) (cur : jstr) (vals : list jstr) :
  splitTuple_go s prev inString sc cur vals <> [].
Proof.
  revert prev inString sc cur vals.
  induction s as [|c s IH]; intros prev inString sc cur vals; cbn [splitTuple_go].
  - destruct vals; discriminate.
  - repeat match goal with
           | |- context [if ?b then _ else _] => destruct b
           end; apply IH.
Qed.

Lemma parse_synth (b1 : jstr) (more : list jstr) :
  Forall (fun b => isBody b = true) (b1 :: more) ->
  Sql.parseTuples [] (tuplesBlock (b1 :: more))
  = (Sql.synthColumns (length (cellsOf b1)),
     map (fun ib => Sql.buildRow (Sql.synthColumns (length (cellsOf b1)))
                                 (cellsOf (snd ib)) (fst ib))
         (combine (seq 0 (length (b1 :: more))) (b1 :: more))).
Proof.
  intros Hob. unfold Sql.parseTuples.
  pose proof (execAll_bodies (b1 :: more) Hob) as Hms.
  destruct (Regex.execAll Sql.valueSetRegex (tuplesBlock (b1 :: more))) as [|m1 ms];
    [discriminate Hms|].
  cbn [map] in Hms. inversion Hms as [[Hg1 Hgs]].
  cbn [fold_left]. rewrite Hg1. fold (cellsOf b1). cbn [app length].
  assert (Hne : Sql.synthColumns (length (cellsOf b1)) <> []).
  { unfold cellsOf. rewrite length_map.
    destruct (splitTuple b1) eqn:E; [now apply splitTuple_go_nonempty in E|].
    cbn [length Sql.synthColumns seq map]. discriminate. }
  rewrite (parse_fold_exact ms _ _ Hne). cbn [length app seq combine map fst snd].
  rewrite Hgs.
  assert (Hl : length ms = length more) by (rewrite <- Hgs; now rewrite length_map).
  now rewrite Hl.
Qed.

(** X23. An INSERT for which no CREATE TABLE was read gets the columns
    [column_1], ..., [column_n], [n] being the number of fields of its
    first tuple; the table has one row for each tuple, in order, whose
    cell in the column at position [j] is decoded from the field at
    position [j] of the tuple (null when the tuple has no such field). *)
Theorem insert_without_create (t b1 : jstr) (more : list jstr) :
  plainInsert t (b1 :: more) ->
  let cols := Sql.synthColumns (length (cellsOf b1)) in
  exists rs,
    Obj.get (Sql.tablesOf (insertStmt t (b1 :: more))) (Str.toLowerCase t) = Some rs
    /\ length rs = length (b1 :: more)
    /\ columnsOfTable rs = cols
    /\ forall i b,
         nth_error (b1 :: more) i = Some b ->
         exists r,
           nth_error rs i = Some r
           /\ forall j c, nth_error cols j = Some c ->
                          field r c = Sql.cellAt (cellsOf b) j.
Proof.
  intros [Ht Hown Hb Hob H1 H2 H3 Hcre Hkw]. cbn zeta.
  destruct (synthColumns_facts (length (cellsOf b1))) as (Hnd & Hid & Hidx & _).
  pose proof (synthColumns_noProto (length (cellsOf b1))) as Hnp.
  unfold Sql.tablesOf, Sql.parseSQLFile.
  rewrite (cleanContent_plain _ H1 H2 H3).
  assert (Hschemas : Sql.tableSchemasOf (insertStmt t (b1 :: more))
                     = Sql.Schemas (Obj.empty _) None).
  { unfold Sql.tableSchemasOf, Regex.execAll. cbn [Regex.execLoop].
    now rewrite (create_none [] _ Hcre). }
  rewrite Hschemas.
  destruct (insert_loop t (b1 :: more) [] Ht Hb eq_refl Hkw)
    as (m2 & Hm2 & Hi1 & Hi2 & Hi3).
  unfold Sql.extractedOf.
  cbn [app] in Hm2. rewrite Hm2. cbn [fold_left fst].
  unfold Sql.addInsert, Sql.columnsFor. rewrite Hi1, Hi2, Hi3.
  rewrite (schemaOf_nothing _ Hown), (parse_synth b1 more Hob).
  set (cols := Sql.synthColumns (length (cellsOf b1))) in *.
  set (rows := map (fun ib => Sql.buildRow cols (cellsOf (snd ib)) (fst ib))
                   (combine (seq 0 (length (b1 :: more))) (b1 :: more))).
  assert (Hrows : length rows = length (b1 :: more)) by apply length_indexed.
  destruct rows as [|r0 rows'] eqn:Er; [discriminate Hrows|].
  cbn [Obj.get Obj.empty]. rewrite Hown.
  cbn [Obj.set Obj.empty app Sql.rows Sql.columns].
  rewrite entries_single. cbn [fold_left Obj.set Obj.empty fst snd Sql.rows Obj.get].
  rewrite str_eqb_refl.
  exists (Sql.renumber (r0 :: rows')). split; [reflexivity|].
  split; [now rewrite renumber_length|]. split.
  - unfold columnsOfTable, Sql.renumber.
    cbn [length seq combine map hd fst snd].
    assert (E0 : r0 = Sql.buildRow cols (cellsOf b1) 0).
    { unfold rows in Er. cbn [length seq combine map fst snd] in Er. now inversion Er. }
    rewrite E0. now apply columns_of_built.
  - intros i b Hi. rewrite <- Er. unfold rows.
    destruct (renumbered_rows cols (b1 :: more) i b Hnd Hid Hnp Hi) as (r & Hr & _ & Hf).
    exists r. split; [exact Hr | exact Hf].
Qed.

Lemma insert_without_create_witness :
  let cols := Sql.synthColumns (length (cellsOf (str "'a,b', 2, NULL"))) in
  exists rs,
    Obj.get (Sql.tablesOf (insertStmt (str "T") (str "'a,b', 2, NULL" :: [str "7"])))
            (Str.toLowerCase (str "T")) = Some rs
    /\ length rs = length (str "'a,b', 2, NULL" :: [str "7"])
    /\ columnsOfTable rs = cols
    /\ forall i b,
         nth_error (str "'a,b', 2, NULL" :: [str "7"]) i = Some b ->
         exists r,
           nth_error rs i = Some r
           /\ forall j c, nth_error cols j = Some c ->
                          field r c = Sql.cellAt (cellsOf b) j.
Proof.
  apply (insert_without_create (str "T") (str "'a,b', 2, NULL") [str "7"]).
  constructor.
  - reflexivity.
  - reflexivity.
  - discriminate.
  - repeat (apply Forall_cons; [reflexivity |]). apply Forall_nil.
  - vm_compute. reflexivity.
  - vm_compute. reflexivity.
  - vm_compute. reflexivity.
  - vm_compute. reflexivity.
  - intros kw Hkw. simpl in Hkw.
    repeat (destruct Hkw as [<-|Hkw]; [vm_compute; reflexivity|]).
    destruct Hkw.
Defined.

(** ** Drill-down and summaries *)

Lemma strictEq_true (a b : value) : strictEq a b = true -> a = b.
Proof.
  unfold strictEq. intros H.
  destruct (value_eq_dec a b) as [E|E]; [exact E|].
  destruct a as [| |[| |]|]; destruct b as [| |[| |]|]; discriminate H.
Qed.

(** No summary is filed under a name that every object inherits. *)
Lemma card_keys_plain (amountCol : option jstr) (rows : list row) (b : Obj.t cardSummary) :
  (forall k, Obj.has b k = true -> Host.inherited k = false) ->
  forall k, Obj.has (fold_left (addToCard amountCol) rows b) k = true ->
            Host.inherited k = false.
Proof.
  revert b. induction rows as [|r rows IH]; intros b Hb; [exact Hb|].
  cbn [fold_left]. apply IH. intros k. unfold addToCard.
  destruct (Obj.has b (toStr (field r (str "card_id")))) eqn:Eh; cbn [negb andb].
  - rewrite has_set. destruct (Str.eqb _ k) eqn:E; [|apply Hb].
    apply str_eqb_true in E. subst k. intros _. now apply Hb.
  - destruct (Host.inherited (toStr (field r (str "card_id")))) eqn:Ei; [apply Hb|].
    rewrite has_set. destruct (Str.eqb _ k) eqn:E; [|apply Hb].
    apply str_eqb_true in E. subst k. intros _. exact Ei.
Qed.

Lemma card_count_key (amountCol : option jstr) (rows : list row) (b : Obj.t cardSummary)
    (k : jstr) :
  Obj.has b k = true \/ Host.inherited k = false ->
  match Obj.get (fold_left (addToCard amountCol) rows b) k with
  | Some s => cs_transaction_count s
  | None => 0
  end
  = match Obj.get b k with Some s => cs_transaction_count s | None => 0 end
    + length (filter (fun t => Str.eqb (toStr (field t (str "card_id"))) k) rows).
Proof.
  revert b. induction rows as [|r rows IH]; intros b Hk; cbn [fold_left filter length]; [lia|].
  assert (Hk' : Obj.has (addToCard amountCol b r) k = true \/ Host.inherited k = false).
  { destruct Hk as [Hk|Hk]; [left | now right]. unfold addToCard.
    destruct (negb (Obj.has b _) && Host.inherited _); [exact Hk|].
    rewrite has_set, Hk. apply Bool.orb_true_r. }
  rewrite (IH _ Hk'). clear IH Hk'. unfold addToCard.
  destruct (Str.eqb (toStr (field r (str "card_id"))) k) eqn:E; cbn [length].
  - apply str_eqb_true in E. rewrite E.
    assert (Hgo : negb (Obj.has b k) && Host.inherited k = false).
    { destruct Hk as [Hk|Hk]; rewrite Hk; [reflexivity | apply Bool.andb_false_r]. }
    rewrite Hgo, get_set_same.
    destruct (Obj.get b k); cbn [cs_transaction_count]; lia.
  - destruct (negb (Obj.has b _) && Host.inherited _); [lia|].
    rewrite get_set, E. lia.
Qed.

(** X24. The drill-down of a card shows as many transactions as its
    summary counts, provided the card id of the summary is not null and
    every transaction whose card id has the same string form carries
    that very id (summaries are keyed by the string form, the drill-down
    compares with [===]). *)
Theorem card_drilldown_count (tabs : Obj.t (list row)) (joined : list row)
    (s : cardSummary) :
  joinedOf tabs = Some joined ->
  In s (cardSummariesRaw tabs) ->
  cs_card_id s <> VNull ->
  (forall txn, In txn joined ->
     toStr (field txn (str "card_id")) = toStr (cs_card_id s) ->
     strictEq (field txn (str "card_id")) (cs_card_id s) = true) ->
  length (drilldownDataRaw tabs (Drilldown CardLevel (cs_card_id s) VNull VNull))
  = cs_transaction_count s.
Proof.
  intros Hj Hs Hnull Hsame.
  unfold cardSummariesRaw in Hs. unfold drilldownDataRaw. rewrite Hj in *.
  cbn [drillLevel drillCardId].
  set (b := fold_left (addToCard (amountColumn tabs)) joined (Obj.empty cardSummary)) in *.
  destruct (card_inv (amountColumn tabs) (fun r => In r joined) joined [])
    as [Hnd Hok]; [auto | constructor | intros k s' [] |].
  fold b in Hnd, Hok.
  apply (Permutation_in _ (values_perm _ b)) in Hs.
  apply in_map_iff in Hs as ([k s'] & E & Hs). cbn [snd] in E. subst s'.
  destruct (Hok k s Hs) as (Hk & _ & _).
  assert (Hplain : Host.inherited k = false).
  { apply (card_keys_plain (amountColumn tabs) joined []); [discriminate|].
    fold b. unfold Obj.has. now rewrite (get_In_nodup _ _ _ _ Hnd Hs). }
  pose proof (card_count_key (amountColumn tabs) joined [] k (or_intror Hplain)) as Hc.
  fold b in Hc. rewrite (get_In_nodup _ _ _ _ Hnd Hs) in Hc. cbn [Obj.get] in Hc.
  rewrite Hc. cbn [Nat.add].
  assert (Hn : strictEq (cs_card_id s) VNull = false).
  { destruct (strictEq (cs_card_id s) VNull) eqn:E; [|reflexivity].
    apply strictEq_true in E. contradiction. }
  rewrite Hn. cbn [negb]. f_equal. apply filter_ext_in. intros t Ht.
  destruct (strictEq (field t (str "card_id")) (cs_card_id s)) eqn:E.
  - apply strictEq_true in E. symmetry. apply str_eqb_true. now rewrite E, Hk.
  - destruct (Str.eqb (toStr (field t (str "card_id"))) k) eqn:E2; [|reflexivity].
    apply str_eqb_true in E2. rewrite Hk in E2. rewrite (Hsame t Ht E2) in E. discriminate.
Qed.

Lemma card_drilldown_count_witness :
  length (drilldownDataRaw [(str "transactions_joined", Samples.txns2)]
                           (Drilldown CardLevel
                              (cs_card_id (CardSummary (num 2) VUndef VUndef 2
                                                       (Num.ofZ 30)))
                              VNull VNull))
  = cs_transaction_count (CardSummary (num 2) VUndef VUndef 2 (Num.ofZ 30)).
Proof.
  apply (card_drilldown_count [(str "transactions_joined", Samples.txns2)] Samples.txns2
           (CardSummary (num 2) VUndef VUndef 2 (Num.ofZ 30))).
  - reflexivity.
  - vm_compute. right. left. reflexivity.
  - discriminate.
  - intros txn [<-|[<-|[<-|[]]]] H; vm_compute in H; try discriminate H; reflexivity.
Defined.

(** ** Columns of dates *)

Lemma over_none (n : nat) : 1 <= n <= 100 -> overSeventyPercent 0 n = false.
Proof.
  intros Hn.
  assert (H : forallb (fun k => negb (overSeventyPercent 0 k)) (seq 1 100) = true)
    by (vm_compute; reflexivity).
  rewrite forallb_forall in H. apply negb_true_iff. apply H. apply in_seq. lia.
Qed.

Lemma filter_none (A : Type) (p : A -> bool) (l : list A) :
  (forall x, In x l -> p x = false) -> filter p l = [].
Proof.
  induction l as [|x l IH]; intros H; [reflexivity|]. cbn [filter].
  rewrite (H x) by now left. apply IH. intros y Hy. apply H. now right.
Qed.

(** X25. A column in which some value is present, no present value
    reads as a number and every present value is a string that reads as
    a date (for the host or by its form) is classified [date]. *)
Theorem all_dates_is_date (dateParses : jstr -> bool) (values : list value) :
  (exists v, In v values /\ isPresent v = true) ->
  (forall v, In v values -> isPresent v = true ->
     isNumericValue v = false /\ isDateValue dateParses v = true) ->
  detectColumnType dateParses values = TDate.
Proof.
  intros (v0 & Hin0 & Hp0) Hall. unfold detectColumnType.
  set (sample := firstn 100 (filter isPresent values)).
  assert (Hne : sample <> []).
  { unfold sample. destruct (filter isPresent values) as [|x l] eqn:E.
    - assert (Hf : In v0 (filter isPresent values)) by (apply filter_In; auto).
      rewrite E in Hf. destruct Hf.
    - discriminate. }
  assert (Hs : forall x, In x sample -> isNumericValue x = false
                                        /\ isDateValue dateParses x = true).
  { intros x Hx. apply In_firstn in Hx. apply filter_In in Hx as [Hx Hp]. now apply Hall. }
  assert (Hnum : filter isNumericValue sample = []).
  { apply filter_none. intros x Hx. now apply Hs. }
  assert (Hdate : filter (isDateValue dateParses) sample = sample).
  { apply filter_all. intros x Hx. now apply Hs. }
  assert (Hlen : length sample <= 100) by apply firstn_le_length.
  destruct sample as [|x l] eqn:Es; [congruence|].
  rewrite Hnum, Hdate. cbn [length] in *.
  rewrite over_none by lia. rewrite over_full by lia. reflexivity.
Qed.

Lemma all_dates_is_date_witness :
  detectColumnType (fun _ => false) [txt "2024-01-05"; VNull; txt "3/7/2024 10:00"] = TDate.
Proof.
  apply all_dates_is_date.
  - exists (txt "2024-01-05"). split; [simpl; tauto | reflexivity].
  - intros v [<-|[<-|[<-|[]]]]; intros H; try discriminate H; split; vm_compute; reflexivity.
Defined.

(** ** Splitting and joining *)

Lemma split_go_plain (sep : ascii) (u rest cur : jstr) :
  noChar sep u = true ->
  Str.split_go sep cur (u ++ rest) = Str.split_go sep (rev u ++ cur) rest.
Proof.
  revert cur. induction u as [|c u IH]; intros cur H; [reflexivity|].
  cbn [noChar forallb] in H. apply andb_true_iff in H as [Hc Hu].
  apply negb_true_iff in Hc. cbn [app Str.split_go]. rewrite Hc.
  rewrite (IH (c :: cur) Hu). cbn [rev]. now rewrite <- app_assoc.
Qed.

Lemma split_go_join (sep : ascii) (x : jstr) (parts : list jstr) (cur : jstr) :
  Forall (fun p => noChar sep p = true) (x :: parts) ->
  Str.split_go sep cur (Str.join [sep] (x :: parts)) = (rev cur ++ x) :: parts.
Proof.
  revert x cur. induction parts as [|y parts IH]; intros x cur H.
  - cbn [Str.join]. inversion H as [|? ? Hx _]; subst.
    rewrite <- (app_nil_r x) at 1. rewrite (split_go_plain sep x [] cur Hx).
    cbn [Str.split_go]. now rewrite rev_app_distr, rev_involutive.
  - inversion H as [|? ? Hx Hrest]; subst.
    change (Str.join [sep] (x :: y :: parts))
      with (x ++ [sep] ++ Str.join [sep] (y :: parts)).
    rewrite (split_go_plain sep x _ cur Hx). cbn [app Str.split_go].
    rewrite eqc_refl, rev_app_distr, rev_involutive.
    rewrite (IH y [] Hrest). reflexivity.
Qed.

Lemma join_cons_char (sep : jstr) (c : ascii) (y : jstr) (l : list jstr) :
  Str.join sep ((c :: y) :: l) = c :: Str.join sep (y :: l).
Proof. destruct l; reflexivity. Qed.

Lemma join_comma_space (x : jstr) (l : list jstr) :
  Str.join (str ", ") (x :: l) = Str.join [comma] (x :: map (cons " "%char) l).
Proof.
  revert x. induction l as [|y l IH]; intros x; [reflexivity|].
  change (Str.join (str ", ") (x :: y :: l)) with (x ++ str ", " ++ Str.join (str ", ") (y :: l)).
  rewrite IH. cbn [map].
  change (Str.join [comma] (x :: (" "%char :: y) :: map (cons " "%char) l))
    with (x ++ [comma] ++ Str.join [comma] ((" "%char :: y) :: map (cons " "%char) l)).
  rewrite join_cons_char. reflexivity.
Qed.

(** ** An explicit column list *)

Lemma word_plain (x : ascii) :
  Str.isWord x = true ->
  Str.isSpace x = false /\ Sql.anyQuote x = false /\ Str.eqc x comma = false.
Proof.
  destruct x as [[] [] [] [] [] [] [] []]; vm_compute; intros H;
    try discriminate H; repeat split.
Qed.

Lemma ident_plain (n : jstr) :
  isIdent n = true ->
  noChar comma n = true /\ Str.trim n = n /\ filter (Regex.notc Sql.anyQuote) n = n.
Proof.
  intros H. unfold isIdent in H. destruct n as [|c n]; [discriminate|].
  rewrite forallb_forall in H. split; [|split].
  - unfold noChar. apply forallb_forall. intros x Hx.
    destruct (word_plain x (H x Hx)) as (_ & _ & E). now rewrite E.
  - apply trim_nospace. apply forallb_forall. intros x Hx.
    destruct (word_plain x (H x Hx)) as (E & _). now rewrite E.
  - apply filter_all. intros x Hx. unfold Regex.notc.
    destruct (word_plain x (H x Hx)) as (_ & E & _). now rewrite E.
Qed.

(** X26. The column list written after the table name of an INSERT is
    read name by name: for identifiers, bare or in backticks, separated
    by a comma and a space, the columns are the identifiers, in order. *)
Theorem explicit_columns_read (items : list (bool * jstr)) :
  items <> [] ->
  Forall (fun it => isIdent (snd it) = true) items ->
  Sql.explicitColumnsOf (Str.join (str ", ") (map columnItem items)) = map snd items.
Proof.
  intros Hne Hall. destruct items as [|it items]; [congruence|].
  assert (Hitem : forall it, isIdent (snd it) = true ->
            noChar comma (columnItem it) = true
            /\ filter (Regex.notc Sql.anyQuote) (Str.trim (columnItem it)) = snd it).
  { intros [q n] Hn. cbn [snd] in Hn. destruct (ident_plain n Hn) as (Hc & Ht & Hf).
    unfold columnItem. cbn [fst snd]. destruct q.
    - split.
      + change (backtick :: n ++ [backtick]) with ([backtick] ++ n ++ [backtick]).
        now rewrite !noChar_app, Hc.
      + rewrite (trim_wrapped backtick n eq_refl). cbn [filter].
        change (Regex.notc Sql.anyQuote backtick) with false. cbv iota.
        rewrite filter_app, Hf. cbn [filter].
        change (Regex.notc Sql.anyQuote backtick) with false. cbv iota.
        apply app_nil_r.
    - split; [exact Hc|]. now rewrite Ht. }
  unfold Sql.explicitColumnsOf, Str.split. cbn [map].
  rewrite join_comma_space, split_go_join.
  - cbn [map rev app]. f_equal.
    + inversion Hall as [|? ? H1 _]; subst. now apply Hitem.
    + rewrite !map_map. apply map_ext_in. intros x Hx.
      rewrite Forall_forall in Hall.
      destruct (Hitem x (Hall x (or_intror Hx))) as [_ E].
      rewrite <- E. reflexivity.
  - constructor.
    + inversion Hall as [|? ? H1 _]; subst. now apply Hitem.
    + apply Forall_forall. intros p Hp. apply in_map_iff in Hp as (y & <- & Hy).
      apply in_map_iff in Hy as (x & <- & Hx).
      rewrite Forall_forall in Hall.
      destruct (Hitem x (Hall x (or_intror Hx))) as [E _].
      cbn [noChar forallb]. exact E.
Qed.

Lemma explicit_columns_read_witness :
  Sql.explicitColumnsOf
    (Str.join (str ", ") (map columnItem [(false, str "id"); (true, str "card_id")]))
  = map snd [(false, str "id"); (true, str "card_id")].
Proof.
  apply explicit_columns_read.
  - discriminate.
  - repeat (apply Forall_cons; [reflexivity |]). apply Forall_nil.
Defined.

(** ** The lines of the export *)

Lemma replaceAll_go_chars (q : ascii) (s : jstr) (c : ascii) :
  In c (Str.replaceAll_go [q] [q; q] 0 s) -> In c s.
Proof.
  induction s as [|x s IH]; [intros []|].
  cbn [Str.replaceAll_go Str.startsWith length Nat.sub].
  unfold Str.eqc. rewrite (Ascii.eqb_sym q x). fold (Str.eqc x q).
  destruct (Str.eqc x q) eqn:E; cbn [andb app].
  - apply eqc_true in E. subst x. intros [<-|[<-|H]]; [now left | now left|].
    right. now apply IH.
  - intros [<-|H]; [now left | right; now apply IH].
Qed.

Lemma numChar_line (c : ascii) : numChar c = true -> Str.eqc c Sql.lf = false.
Proof.
  destruct c as [[] [] [] [] [] [] [] []]; vm_compute; intros H;
    try discriminate H; reflexivity.
Qed.

Lemma exportField_oneLine (v : value) :
  oneLine v -> noChar Sql.lf (exportField v) = true.
Proof.
  intros Hv. destruct v as [| |n|s]; cbn [exportField]; try reflexivity.
  - destruct n as [|[]|[m e]]; cbn [Num.toString]; try reflexivity.
    unfold noChar. apply forallb_forall. intros c Hc.
    pose proof (printed_chars m e) as H. rewrite forallb_forall in H.
    now rewrite (numChar_line c (H c Hc)).
  - cbn [oneLine] in Hv.
    destruct (Str.includes [comma] s || Str.includes [dquote] s); [|exact Hv].
    rewrite !noChar_app, andb_true_r. cbn [noChar forallb andb].
    change (negb (Str.eqc dquote Sql.lf)) with true. cbn [andb].
    unfold noChar in *. rewrite forallb_forall in *. intros c Hc.
    apply Hv. now apply replaceAll_go_chars in Hc.
Qed.

Lemma noChar_join (c : ascii) (sep : jstr) (parts : list jstr) :
  noChar c sep = true -> Forall (fun p => noChar c p = true) parts ->
  noChar c (Str.join sep parts) = true.
Proof.
  intros Hs Hp. induction Hp as [|p parts Hp _ IH]; [reflexivity|].
  destruct parts as [|p2 parts]; [exact Hp|].
  change (Str.join sep (p :: p2 :: parts)) with (p ++ sep ++ Str.join sep (p2 :: parts)).
  now rewrite !noChar_app, Hp, Hs, IH.
Qed.

(** X27. The export has a header line and one line for each filtered
    row, in order: when no column name and no string cell holds a line
    feed, cutting the exported text at the line feeds gives the joined
    column names followed by the line of each row. *)
Theorem export_lines (cols : list jstr) (calcs : list calcColumn) (rows : list row) :
  Forall (fun c => noChar Sql.lf c = true) (exportColumns cols calcs) ->
  (forall r col, In r rows -> In col (exportColumns cols calcs) ->
     oneLine (cellOrCalc calcs col r)) ->
  Str.split Sql.lf (exportCSV cols calcs rows)
  = Str.join [comma] (exportColumns cols calcs) :: map (exportLine cols calcs) rows.
Proof.
  intros Hc Hr. unfold exportCSV, Str.split. rewrite split_go_join; [reflexivity|].
  constructor.
  - now apply noChar_join.
  - apply Forall_forall. intros line Hl. apply in_map_iff in Hl as (r & <- & Hin).
    unfold exportLine. apply noChar_join; [reflexivity|].
    apply Forall_forall. intros f Hf. apply in_map_iff in Hf as (col & <- & Hcol).
    apply exportField_oneLine. now apply Hr.
Qed.

Lemma export_lines_witness :
  Str.split Sql.lf (exportCSV [str "category"; str "amount"] [] Samples.sales)
  = Str.join [comma] (exportColumns [str "category"; str "amount"] [])
      :: map (exportLine [str "category"; str "amount"] []) Samples.sales.
Proof.
  apply export_lines.
  - repeat (apply Forall_cons; [reflexivity |]). apply Forall_nil.
  - intros r col [<-|[<-|[]]] [<-|[<-|[]]]; vm_compute; auto.
Defined.

(** ** Groups in descending order *)

Lemma descending_cons (A : Type) (key : A -> nat) (x : A) (l : list A) :
  descending key (x :: l) <-> (forall b, In b l -> key b <= key x) /\ descending key l.
Proof.
  unfold descending. split.
  - intros H. split.
    + intros b Hb. apply (H [x] l eq_refl x b); [now left | exact Hb].
    + intros l1 l2 E a b Ha Hb. apply (H (x :: l1) l2); [now rewrite E | now right | exact Hb].
  - intros [Hx Hl] l1 l2 E a b Ha Hb. destruct l1 as [|y l1].
    + destruct Ha.
    + cbn [app] in E. inversion E; subst y l. destruct Ha as [<-|Ha].
      * apply Hx. apply in_or_app. now right.
      * now apply (Hl l1 l2 eq_refl a b).
Qed.

Lemma insert_descending (x : group) (l : list group) :
  descending gCount l -> descending gCount (insertSorted (groupCompare AggCount) x l).
Proof.
  induction l as [|y l IH]; intros Hl; cbn [insertSorted].
  - apply descending_cons. split; [intros b []|]. intros l1 l2 E a b Ha Hb.
    destruct l1; [destruct Ha | destruct l1; discriminate E].
  - apply descending_cons in Hl as [Hy Hl'].
    unfold groupCompare at 1.
    destruct (Z.sgn (Z.of_nat (gCount y) - Z.of_nat (gCount x)) <? 0)%Z eqn:E.
    + apply Z.ltb_lt in E. apply descending_cons. split.
      * intros b [<-|Hb]; [lia|]. specialize (Hy b Hb). lia.
      * apply descending_cons. now split.
    + apply Z.ltb_ge in E. apply descending_cons. split.
      * intros b Hb. apply (Permutation_in _ (insertSorted_perm _ _ x l)) in Hb.
        destruct Hb as [<-|Hb]; [lia | now apply Hy].
      * now apply IH.
Qed.

Lemma hostSort_descending (l : list group) :
  descending gCount (hostSort (groupCompare AggCount) l).
Proof.
  unfold hostSort.
  assert (H : forall acc, descending gCount acc ->
                descending gCount
                  (fold_left (fun a x => insertSorted (groupCompare AggCount) x a) l acc)).
  { induction l as [|x l IH]; intros acc Hacc; [exact Hacc|].
    cbn [fold_left]. apply IH. now apply insert_descending. }
  apply H. intros l1 l2 E a b Ha. destruct l1; [destruct Ha | discriminate E].
Qed.

(** X28. In count mode the groups are listed by descending count, and
    the top-N limit keeps a prefix of that list: no group left out
    counts more rows than a group that is shown. *)
Theorem breakdown_by_count (groupByCol categoryCol accountCol amountCol qtyCol : jstr)
    (calcs : list calcColumn) (limit : Z) (filteredData : list row) :
  let all :=
    categoryBreakdown groupByCol categoryCol accountCol amountCol qtyCol
                      calcs AggCount 0 filteredData in
  let shown :=
    categoryBreakdown groupByCol categoryCol accountCol amountCol qtyCol
                      calcs AggCount limit filteredData in
  descending gCount all
  /\ shown = (if (0 <? limit)%Z then firstn (Z.to_nat limit) all else all)
  /\ forall g g', In g shown -> In g' all -> ~ In g' shown -> gCount g' <= gCount g.
Proof.
  cbn zeta. unfold categoryBreakdown. change (0 <? 0)%Z with false. cbv iota.
  destruct (negb (given (catCol groupByCol categoryCol accountCol))).
  - split; [|split].
    + intros l1 l2 E a b Ha. destruct l1; [destruct Ha | discriminate E].
    + destruct (0 <? limit)%Z; [now rewrite firstn_nil | reflexivity].
    + intros g g' [].
  - set (sorted := hostSort (groupCompare AggCount)
                     (Obj.values (breakdownOf groupByCol categoryCol accountCol
                                              amountCol qtyCol calcs filteredData))).
    assert (Hd : descending gCount sorted) by apply hostSort_descending.
    split; [exact Hd|]. split; [reflexivity|].
    intros g g' Hg Hg' Hn. destruct (0 <? limit)%Z; [|contradiction].
    apply (Hd (firstn (Z.to_nat limit) sorted) (skipn (Z.to_nat limit) sorted));
      [now rewrite firstn_skipn | exact Hg |].
    rewrite <- (firstn_skipn (Z.to_nat limit) sorted) in Hg'.
    apply in_app_or in Hg' as [H|H]; [contradiction | exact H].
Qed.

(** ** Columns of few distinct values *)

Lemma nodup_const (l : list value) (v : value) :
  l <> [] -> (forall x, In x l -> x = v) -> nodup value_eq_dec l = [v].
Proof.
  induction l as [|x l IH]; intros Hne Hall; [congruence|].
  cbn [nodup]. assert (Hx : x = v) by (apply Hall; now left). subst x.
  destruct l as [|y l].
  - destruct (in_dec value_eq_dec v []) as [[]|_]. reflexivity.
  - assert (Hy : y = v) by (apply Hall; right; now left). subst y.
    destruct (in_dec value_eq_dec v (v :: l)) as [_|Hn]; [|exfalso; apply Hn; now left].
    apply IH; [discriminate|]. intros x Hx. apply Hall. now right.
Qed.

Lemma one_in_many (n : nat) :
  6 <= n <= 100 -> B64.ltb (B64.divNat 1 n) B64.c0_3 = true.
Proof.
  intros Hn.
  assert (H : forallb (fun k => B64.ltb (B64.divNat 1 k) B64.c0_3) (seq 6 95) = true)
    by (vm_compute; reflexivity).
  rewrite forallb_forall in H. apply H. apply in_seq. lia.
Qed.

(** X29. A column with at least six present values, all the same text
    that reads neither as a number nor as a date, is classified
    [category]. *)
Theorem constant_column_is_category (dateParses : jstr -> bool) (values : list value)
    (s : jstr) :
  isPresent (VStr s) = true ->
  isNumericValue (VStr s) = false ->
  isDateValue dateParses (VStr s) = false ->
  (forall v, In v values -> isPresent v = true -> v = VStr s) ->
  6 <= length (filter isPresent values) ->
  detectColumnType dateParses values = TCategory.
Proof.
  intros Hp Hn Hd Hall H6. unfold detectColumnType.
  set (sample := firstn 100 (filter isPresent values)).
  assert (Hs : forall x, In x sample -> x = VStr s).
  { intros x Hx. apply In_firstn in Hx. apply filter_In in Hx as [Hx Hpx]. now apply Hall. }
  assert (Hlen : 6 <= length sample <= 100).
  { unfold sample. rewrite length_firstn. lia. }
  assert (Hnum : filter isNumericValue sample = []).
  { apply filter_none. intros x Hx. now rewrite (Hs x Hx). }
  assert (Hdate : filter (isDateValue dateParses) sample = []).
  { apply filter_none. intros x Hx. now rewrite (Hs x Hx). }
  assert (Hu : nodup value_eq_dec sample = [VStr s]).
  { apply nodup_const; [|exact Hs]. intros E. rewrite E in Hlen. cbn [length] in Hlen. lia. }
  destruct sample as [|x l] eqn:Es; [cbn [length] in Hlen; lia|].
  rewrite Hnum, Hdate, Hu. cbn [length] in *.
  rewrite over_none by lia. rewrite one_in_many by lia.
  replace (5 <? S (length l)) with true by (symmetry; apply Nat.ltb_lt; lia).
  reflexivity.
Qed.

Lemma constant_column_is_category_witness :
  detectColumnType (fun _ => false) (repeat (txt "open") 6) = TCategory.
Proof.
  apply (constant_column_is_category (fun _ => false) (repeat (txt "open") 6) (str "open")).
  - reflexivity.
  - vm_compute. reflexivity.
  - vm_compute. reflexivity.
  - intros v Hv _. apply repeat_spec in Hv. exact Hv.
  - apply Nat.leb_le. vm_compute. reflexivity.
Defined.

(** ** The tables after [processContent] *)

Lemma fold_set_NoDup (A B : Type) (key : B -> jstr) (val : B -> A) (l : list B)
    (init : Obj.t A) :
  NoDup (map fst init) ->
  NoDup (map fst (fold_left (fun o b => Obj.set (key b) (val b) o) l init)).
Proof.
  revert init. induction l as [|b l IH]; intros init H; [exact H|].
  cbn [fold_left]. apply IH. now apply set_NoDup.
Qed.

Lemma tablesOf_NoDup (content : jstr) : NoDup (map fst (Sql.tablesOf content)).
Proof.
  unfold Sql.tablesOf, Sql.parseSQLFile.
  destruct (Sql.extractedOf _ _) as [extracted|]; [|constructor].
  apply (fold_set_NoDup _ _ fst (fun e => Sql.renumber (Sql.rows (snd e)))). constructor.
Qed.

Lemma In_keys_get (A : Type) (o : Obj.t A) (k : jstr) :
  ~ In k (map fst o) <-> Obj.get o k = None.
Proof.
  split; [apply get_None_notin|].
  intros H Hin. apply in_map_iff in Hin as ([k' v] & E & Hin). cbn [fst] in E. subst k'.
  apply In_get_some in Hin as (v' & Hv). congruence.
Qed.

Lemma process_fold (dateParses : jstr -> bool) (ks : list jstr) (o : Obj.t (list row))
    (k : jstr) :
  NoDup ks ->
  Obj.get
    (fold_left
       (fun tabs tableName =>
          match Obj.get tabs tableName with
          | Some tableData =>
              Obj.set tableName
                (fst (processTableData dateParses tableData (columnsOfTable tableData)))
                tabs
          | None => tabs
          end) ks o) k
  = if in_dec jstr_eq_dec k ks
    then option_map (processedRows dateParses) (Obj.get o k)
    else Obj.get o k.
Proof.
  revert o. induction ks as [|k0 ks IH]; intros o Hnd; [reflexivity|].
  inversion Hnd as [|? ? Hnot Hnd']; subst.
  cbn [fold_left]. rewrite (IH _ Hnd').
  assert (Hstep : Obj.get match Obj.get o k0 with
                          | Some tableData =>
                              Obj.set k0
                                (fst (processTableData dateParses tableData
                                                       (columnsOfTable tableData))) o
                          | None => o
                          end k
                  = if Str.eqb k0 k
                    then option_map (processedRows dateParses) (Obj.get o k0)
                    else Obj.get o k).
  { destruct (Obj.get o k0) as [td|] eqn:E.
    - rewrite get_set. reflexivity.
    - destruct (Str.eqb k0 k) eqn:Ek; [|reflexivity].
      apply str_eqb_true in Ek. subst k. now rewrite E. }
  rewrite Hstep.
  destruct (Str.eqb k0 k) eqn:Ek.
  - apply str_eqb_true in Ek. subst k.
    destruct (in_dec jstr_eq_dec k0 ks) as [Hin|_]; [contradiction|].
    destruct (in_dec jstr_eq_dec k0 (k0 :: ks)) as [_|Hn]; [reflexivity|].
    exfalso. apply Hn. now left.
  - apply str_eqb_false in Ek.
    destruct (in_dec jstr_eq_dec k ks) as [Hin|Hn];
      destruct (in_dec jstr_eq_dec k (k0 :: ks)) as [Hin'|Hn']; try reflexivity.
    + exfalso. apply Hn'. now right.
    + destruct Hin' as [E|Hin']; [congruence | contradiction].
Qed.

Lemma processTables_get (dateParses : jstr -> bool) (parsed : Obj.t (list row)) (k : jstr) :
  NoDup (map fst parsed) ->
  Obj.get (processTables dateParses parsed) k
  = option_map (processedRows dateParses) (Obj.get parsed k).
Proof.
  intros Hnd. unfold processTables.
  assert (Hp : Permutation (Obj.keys parsed) (map fst parsed))
    by (unfold Obj.keys; apply Permutation_map, entries_perm).
  rewrite process_fold
    by (eapply Permutation_NoDup; [apply Permutation_sym; exact Hp | exact Hnd]).
  destruct (in_dec jstr_eq_dec k (Obj.keys parsed)) as [_|Hn]; [reflexivity|].
  assert (Hnone : Obj.get parsed k = None).
  { apply In_keys_get. intros Hin. apply Hn.
    apply (Permutation_in _ (Permutation_sym Hp)). exact Hin. }
  now rewrite Hnone.
Qed.

